(* ===== verification/_CoqProject ===== *)
-Q . S2P
Prelude.v
Effects.v
GoStrings.v
GoFloat.v
GoFloatFacts.v
GoFloatLemmas.v
GoFloatValid.v
GoFloatMono.v
GoTime.v
GoTimeFacts.v
KubeQuantity.v
SizingQuantity.v
Policy.v
PolicyFacts.v
PolicyTheorems.v
Config.v
Window.v
WindowFacts.v
WindowHistory.v
WindowTheorems.v
Provider.v
Deficit.v
Decide.v
DecideFacts.v
DecideTheorems.v
DecideDynamics.v
Calls.v
LeaseState.v
LeaseStateFacts.v
LeaseLocker.v
LockerFacts.v
Metrics.v
MetricsFacts.v
Events.v
EventsFacts.v
EventMessage.v
LogOnly.v
StatefulLog.v
StatefulLogFacts.v
GitHubApi.v
GitHubYaml.v
GitHub.v
GoJson.v
JsonText.v
JsonValue.v
WindowCodec.v
WindowRoundtrip.v
WindowPersist.v
JsonRead.v
JsonFuel.v
WindowDecode.v
Observer.v
ObserverFacts.v
Reconcile.v
FakeGit.v
Main.v
Startup.v
ReconcileGuards.v
ReconcileTheorems.v
ReconcileOutcomes.v
LockGC.v
System.v
Demo.v
GitHubFind.v
GitHubWrites.v
GitHubContract.v
SystemSerial.v
ReconcileErrors.v
ReconcileProgress.v
SystemDryRun.v
SystemGitHub.v
GitHubYamlFacts.v
SystemGitHubWitness.v
SystemDryRunWitness.v
ReconcileWitness.v
LeaseServer.v
LockTheorems.v
