(* ===== verification/Prelude.v ===== *)
(** * namespace-resizer: a verification development

    The program under [src/] is a Kubernetes controller. It watches the
    ResourceQuotas of a cluster and proposes new limits as pull requests against
    a repository of manifests: larger ones when a namespace runs out, smaller
    ones when an observation window of many days shows that it never needs them.
    The development models its Go code and proves what makes it correct. The
    central result is [System.shrink_never_merged]: in any interleaving of
    reconciliations and garbage collections, with crashes, stale reads and lost
    writes, the controller never merges a pull request that it opened as a
    shrink; [SystemGitHub.GitHub_implements_environment] discharges what that
    theorem assumes of the Git provider from the code of the provider.

    ** The parts of the program

    [cmd/main.go] picks a provider and a base policy and starts the reconciler
    and the garbage collector. The reconciler
    ([internal/controller/resourcequota_controller.go]) is called for one quota
    at a time. It reads the quota and its namespace, turns the annotations into
    a policy ([internal/sizing/policy.go]), adds up what blocked workloads miss
    ([resourcequota_utils.go], [internal/sizing/deficit.go]), lets the observer
    ([observation.go]) fold a sample into the window ([internal/sizing/window.go])
    that is kept on a lease, and asks [internal/sizing/decide.go] whether to grow,
    to shrink or to leave the quota. It then opens, updates, merges or closes a
    pull request through the interface of [internal/git], and records it on the
    lease through [internal/lock]. All state between two reconciliations is in
    the leases, in the cache of the observer, and at the provider.

    ** How programs are modelled

    Code without effects is a function. Code with effects is a program of
    [Effects.v]: a tree of calls to the outside with the rest of the program for
    every answer. The calls of the controller are in [Calls.v], those of the
    GitHub provider in [GitHubApi.v]; a nil dereference is a call without an
    answer. What a program may do is proved by the rule [guarded], which relates
    each call to the answers that came before it; [run] and [eval] execute a
    program against a stand-in for the outside, for the examples; [pool_run]
    interleaves any number of programs, which may be cut off at every call.

    Integers of 64 bits are [Z] with their wrap-around written out ([wrap64]);
    float64 is the Standard Library's executable IEEE 754 arithmetic
    ([GoFloat.v]); strings are sequences of bytes; a time is a number of
    nanoseconds. Go leaves the order of the iteration over a map open: [GoRange]
    is a class of all orders, one per loop, and every theorem that does not name
    an order holds for all of them.

    ** The files

    Go and its libraries, as far as the program uses them:
    - [Prelude.v]: this header, tactics, 64-bit arithmetic, map iteration.
    - [Effects.v]: programs with calls, executions, guards, interleaving.
    - [GoStrings.v], [GoTime.v], [GoTimeFacts.v]: packages strings, strconv, fmt
      and time.
    - [GoFloat.v], [GoFloatFacts.v], [GoFloatLemmas.v], [GoFloatValid.v],
      [GoFloatMono.v]: float64, and the error bounds of the program's formulas.
    - [GoJson.v]: encoding/json; [JsonText.v], [JsonValue.v]: what is written
      reads back; [JsonRead.v]: what is read is UTF-8; [JsonFuel.v]: the reader's
      fuel is enough for every text.
    - [KubeQuantity.v]: names of the Kubernetes API, and the interface of
      resource.Quantity with its laws.

    [internal/sizing] and [internal/config]:
    - [SizingQuantity.v] is quantity.go; rounding up to the unit of a key.
    - [Policy.v] is policy.go; [PolicyFacts.v], [PolicyTheorems.v]: precedence,
      independence of the order, ranges. [Config.v] is constants.go; every
      documented annotation has its effect.
    - [Window.v] is window.go, [WindowCodec.v] its encoding in JSON;
      [WindowFacts.v], [WindowHistory.v], [WindowTheorems.v]: the daily maxima and
      the peak of a window; [WindowRoundtrip.v], [WindowPersist.v],
      [WindowDecode.v]: what survives being written and read.
    - [Deficit.v] is deficit.go.
    - [Decide.v] is decide.go; [DecideFacts.v], [DecideTheorems.v]: safety of a
      shrink, worth of a growth, the gates, determinism; [DecideDynamics.v]: a
      shortage is granted, no decision is reversed, shrinking ends.

    [internal/lock]:
    - [LeaseState.v] is state.go with its encoding on a lease,
      [LeaseStateFacts.v] its round trip.
    - [LeaseLocker.v] is lease.go, the retries of state.go, and gc.go;
      [LockerFacts.v] the rule for its callers; [LockGC.v] the collector.
    - [LeaseServer.v], [LockTheorems.v]: a server with optimistic concurrency and
      stale reads, on which changing the state is one atomic step and a lock is
      never taken from another holder.

    [internal/git]:
    - [Provider.v]: the data of the interface [Provider] of github.go, and errors.
    - [GitHubApi.v], [GitHubYaml.v], [GitHub.v] are github.go; [GitHubFind.v]: the
      search for a quota's pull request; [GitHubWrites.v]: what is written and
      where; [GitHubYamlFacts.v]: the change to a manifest, once and twice, and
      that nothing else of it changes; [GitHubContract.v]: the provider keeps
      [DirectionContract].
    - [LogOnly.v], [StatefulLog.v] are log_provider.go, [StatefulLogFacts.v] its
      invariant; [SystemDryRun.v] puts it beneath the controller, and compares what
      it reports with the pull requests that are open by the events alone.

    [internal/controller] and [cmd]:
    - [Events.v] is resourcequota_utils.go and collectDeficits, [EventsFacts.v]
      what the scan adds up, [EventMessage.v] that the message of an exceeded
      quota is read as it was written; [Metrics.v] is metrics.go,
      [MetricsFacts.v] what it publishes; [Observer.v] is observation.go,
      [ObserverFacts.v] that the time of the last write moves only with a write
      that was confirmed, so that no window is lost; [FakeGit.v] is
      fake_git_provider.go.
    - [Reconcile.v] is resourcequota_controller.go; [ReconcileGuards.v] says what a
      reconciliation must have seen before each call that changes something;
      [ReconcileTheorems.v] draws the consequences; [ReconcileOutcomes.v] is a
      table of every way a reconciliation can end; [ReconcileErrors.v] shows that
      it fails only when a call it made has failed; [ReconcileProgress.v] puts these
      and the decision together: a shortage is answered, and a shrink is proposed
      on a complete picture.
    - [Main.v] is the configuration of main.go and its safety; [Startup.v] is [main]
      as a program, and what it starts.
    - [System.v], [SystemGitHub.v]: all programs of the controller interleaved;
      [SystemSerial.v]: no two pull requests of one quota are open at a time.
      [Demo.v], [SystemGitHubWitness.v], [SystemDryRunWitness.v],
      [ReconcileWitness.v]: concrete runs.

    ** Interfaces

    - [KubeQuantity] with [QuantityLaws]: resource.Quantity is a library. A
      quantity denotes a decimal number, of which comparison, sign, the value in
      milli-units and printing are the documented functions. [nano_quantity]
      implements it.
    - [GoRange]: the order of a loop over a map; [GoArch]: the result of a
      conversion of a float out of range, which Go leaves to the machine;
      [GoQuote]: the verb %q; [KubeSchema]: the parser of API versions;
      [RetryPolicy]: the retries of client-go; [Yaml]: the reader and writer of
      yaml.v3 on document trees. text/template and ghinstallation are arguments in
      [Main.v].
    - [env_law] in [System.v]: what the controller relies on. A lease read was
      once written; the provider numbers pull requests once and finds them in the
      direction they were created with. [DirectionContract] is the second half as
      an interface; [SystemGitHub.v] proves the controller's side against it, and
      [github_contract] is the instance for GitHub, which assumes only that GitHub
      lists a pull request with the branch it was opened from ([heads_fixed]).
      [SystemDryRun.v] proves the same for the stateful provider, from its state.

    ** Bounds and fuel

    - What is proved of the size of targets holds where the floating-point
      computation is exact: amounts up to 2^53 thousandths and a headroom of at
      most 1000 ([usage_in_range], [input_in_range]). The program accepts larger
      headrooms; [DecideDynamics.infinite_headroom_shrinks] shows what happens.
    - [GitHub.FindOpenPR] takes the number of pages it may read;
      [FindOpenPR_searches_all] shows that fuel for every page is enough, and then
      that the answer is that of a search of the whole list.
    - [retry_more] is the number of further attempts on a conflict; all theorems
      hold for every number. [labelAttempts] is the code's own bound.
    - The JSON reader has fuel [2 * length + 2]; [JsonFuel.parse_complete] shows
      that no text needs more. Loops over strings have their length as fuel.
    - [gc_start] takes the number of ticks; the theorems hold for every number.

    ** Not modelled

    - Log lines, except the warnings that are returned as values.
    - What controller-runtime does with the options it is given: the servers,
      the certificates, the leader election, the work queue. [Startup.v] has the
      options and the order of the calls. The scheme that [init] registers, the
      options of the logger and the handling of signals are left out.
    - The ticker of the collector is a number of ticks, the backoff between
      labelling attempts a call that may report a cancelled context.
    - The commit author and the options of a file update, which are constants.
    - Contexts and their deadlines: a call that is cancelled is one that returns
      an error.
    - The mutex of the observer: each access to the map is one call. The memory
      that a cached window shares with the one in use is modelled in
      [Observer.v]: after a failed write the cache holds the changed days.
    - [test/utils] runs shell commands for end-to-end tests; manifests and CI
      configuration are not code. *)

From Stdlib Require Export ZArith Lia.
From stdpp Require Export sorting base option gmap strings list fin_maps.

#[export] Set Default Goal Selector "!".
Open Scope Z_scope.

(** ** Tactics of the development *)

(** [lia] reasons about Euclidean division and modulo. *)
Ltac Zify.zify_post_hook ::= Z.to_euclidean_division_equations.

(** Turn the boolean tests of the hypotheses and the goal into propositions. *)
Ltac bool_to_prop :=
  repeat match goal with
  | H : andb _ _ = true |- _ => apply andb_true_iff in H; destruct H
  | H : orb _ _ = false |- _ => apply orb_false_iff in H; destruct H
  | H : negb _ = true |- _ => apply negb_true_iff in H
  | H : negb _ = false |- _ => apply negb_false_iff in H
  | H : Z.ltb _ _ = true |- _ => apply Z.ltb_lt in H
  | H : Z.ltb _ _ = false |- _ => apply Z.ltb_ge in H
  | H : Z.leb _ _ = true |- _ => apply Z.leb_le in H
  | H : Z.leb _ _ = false |- _ => apply Z.leb_gt in H
  | H : Z.eqb _ _ = true |- _ => apply Z.eqb_eq in H
  | H : Z.eqb _ _ = false |- _ => apply Z.eqb_neq in H
  | H : Z.gtb _ _ = _ |- _ => rewrite Z.gtb_ltb in H
  | H : Z.geb _ _ = _ |- _ => rewrite Z.geb_leb in H
  | H : bool_decide _ = true |- _ => apply bool_decide_eq_true in H
  | H : bool_decide _ = false |- _ => apply bool_decide_eq_false in H
  end.

(** Case analysis on the innermost match of a hypothesis. *)
Ltac case_hyp H :=
  match type of H with
  | context [match ?x with _ => _ end] =>
      lazymatch x with
      | context [match _ with _ => _ end] => fail
      | _ => let E := fresh "E" in destruct x eqn:E
      end
  end.

Ltac case_goal :=
  match goal with
  | |- context [match ?x with _ => _ end] =>
      lazymatch x with
      | context [match _ with _ => _ end] => fail
      | _ => let E := fresh "E" in destruct x eqn:E
      end
  end.

(** Close the branches of a case analysis that contradict the hypotheses. *)
Ltac absurd_branch := exfalso; bool_to_prop; simplify_eq; (lia || congruence).

(** ** Go's integers: [int] and [int64] are 64 bits wide and wrap around *)

Definition two63 : Z := 2 ^ 63.
Definition two64 : Z := 2 ^ 64.
Definition max_int64 : Z := two63 - 1.
Definition min_int64 : Z := - two63.

Definition in_int64 (z : Z) : Prop := min_int64 <= z <= max_int64.

#[export] Instance in_int64_dec z : Decision (in_int64 z).
Proof. unfold in_int64. apply _. Defined.

(** The value an [int64] expression has when its mathematical value is [z]. *)
Definition wrap64 (z : Z) : Z := (z + two63) mod two64 - two63.

Lemma two63_val : two63 = 9223372036854775808.
Proof. reflexivity. Qed.

Lemma two64_val : two64 = 18446744073709551616.
Proof. reflexivity. Qed.

(** Arithmetic with the bounds of [int64] spelled out. *)
Ltac lia64 :=
  unfold in_int64, wrap64, max_int64, min_int64 in *;
  rewrite ?two63_val, ?two64_val in *; lia.

Lemma wrap64_range z : in_int64 (wrap64 z).
Proof. lia64. Qed.

Lemma wrap64_id z : in_int64 z → wrap64 z = z.
Proof. lia64. Qed.

Lemma wrap64_idemp z : wrap64 (wrap64 z) = wrap64 z.
Proof. apply wrap64_id, wrap64_range. Qed.

(** Division rounding up. *)
Definition cdiv (a b : Z) : Z := - (- a / b).

Lemma cdiv_spec a b n : 0 < b → cdiv a b = n ↔ (n - 1) * b < a <= n * b.
Proof. intros Hb. unfold cdiv. nia. Qed.

Create HintDb resizer.
#[export] Hint Resolve wrap64_range : resizer.

(** Results of fallible calls: Go's pair of a value and an error. *)
Inductive go_result (E A : Type) : Type :=
| Ok (a : A)
| Err (e : E).
Arguments Ok {E A} a.
Arguments Err {E A} e.

Definition is_ok {E A} (r : go_result E A) : bool :=
  match r with Ok _ => true | Err _ => false end.

(** ** Go's maps and their unspecified iteration order

    A Go map with string keys is a [gmap string V]. A [for k, v := range m]
    statement visits the entries in an order the language leaves open, and two
    runs of one statement may differ. [range site m] is the order in which the
    statement numbered [site] visits [m]; the class leaves it free, and a
    theorem that compares two instances shows that a function does not depend
    on it. *)
Class GoRange : Type := {
  range : forall {V : Type}, nat → gmap string V → list (string * V);
  range_perm : forall {V : Type} (site : nat) (m : gmap string V),
    range site m ≡ₚ map_to_list m
}.

(** Two concrete orders, for the evaluation of examples. *)
Definition range_ascending : GoRange.
Proof.
  refine {| range V _ m := map_to_list m |}.
  intros. apply Permutation_refl.
Defined.

Definition range_descending : GoRange.
Proof.
  refine {| range V _ m := reverse (map_to_list m) |}.
  intros. apply reverse_Permutation.
Defined.

Section go_range.
  Context {GR : GoRange}.

Lemma elem_of_range {V} site (m : gmap string V) k v :
  (k, v) ∈ range site m ↔ m !! k = Some v.
Proof. rewrite range_perm. apply elem_of_map_to_list. Qed.

Lemma range_nodup {V} site (m : gmap string V) : NoDup (range site m).*1.
Proof. rewrite range_perm. apply NoDup_fst_map_to_list. Qed.

Lemma range_empty {V} site : range site (∅ : gmap string V) = [].
Proof.
  apply Permutation_nil_r. rewrite range_perm. by rewrite map_to_list_empty.
Qed.

Lemma range_singleton {V} site k (v : V) : range site {[ k := v ]} = [(k, v)].
Proof. apply Permutation_singleton_r. by rewrite range_perm, map_to_list_singleton. Qed.
End go_range.

#[export] Hint Resolve range_nodup : resizer.

(** A loop that stores at most one entry per visited key, under that key. *)
Section collect.
  Context {V W : Type} (f : string → V → option W).

Definition collect_step (acc : gmap string W) (kv : string * V) : gmap string W :=
  match f kv.1 kv.2 with
  | Some w => <[kv.1 := w]> acc
  | None => acc
  end.

Lemma collect_lookup l acc k :
  NoDup l.*1 →
  foldl collect_step acc l !! k =
    match list_find (λ kv, kv.1 = k) l with
    | Some (_, kv) => match f kv.1 kv.2 with Some w => Some w | None => acc !! k end
    | None => acc !! k
    end.
Proof.
  revert acc. induction l as [|[k0 v0] l IH]; intros acc Hnd; simpl; [done|].
  apply NoDup_cons in Hnd as [Hni Hnd]. rewrite IH by done.
  unfold collect_step at 1; simpl.
  destruct (decide (k0 = k)) as [->|Hne]; simpl.
  - assert (list_find (λ kv : string * V, kv.1 = k) l = None) as ->.
    { apply list_find_None, Forall_forall. intros [k1 v1] Hin Heq; simpl in *.
      subst. apply Hni. by apply (list_elem_of_fmap_2 fst) in Hin. }
    unfold collect_step. simpl. destruct (f k v0); by simplify_map_eq.
  - unfold collect_step. simpl. destruct (list_find _ l) as [[i [k1 v1]]|]; simpl;
      repeat case_match; simplify_map_eq; done.
Qed.
End collect.

(** A loop that copies every visited entry into a map. *)
Definition insert_step {V} (acc : gmap string V) (kv : string * V) : gmap string V :=
  <[kv.1 := kv.2]> acc.

Lemma foldl_insert {V} (l : list (string * V)) acc :
  NoDup l.*1 → foldl insert_step acc l = list_to_map l ∪ acc.
Proof.
  revert acc. induction l as [|[k v] l IH]; intros acc Hnd; simpl.
  - by rewrite (left_id_L ∅ (∪)).
  - apply NoDup_cons in Hnd as [Hni Hnd]. rewrite IH by done. unfold insert_step. simpl.
    rewrite <- insert_union_r; [|by apply not_elem_of_list_to_map_1].
    by rewrite insert_union_l.
Qed.

Lemma foldl_insert_range `{GoRange} {V} site (m acc : gmap string V) :
  foldl insert_step acc (range site m) = m ∪ acc.
Proof.
  rewrite foldl_insert by apply range_nodup. f_equal.
  rewrite (list_to_map_proper _ (map_to_list m)); [apply list_to_map_to_list|apply range_nodup|apply range_perm].
Qed.

(** A loop whose steps for distinct keys commute, up to [R], does not depend on
    the order in which the entries are visited. *)
Section commuting_loop.
  Context {B V : Type} (R : relation B) `{!PreOrder R} (f : B → string * V → B).
  Context (Hproper : ∀ x, Proper (R ==> R) (λ b, f b x)).

Lemma foldl_proper l b b' : R b b' → R (foldl f b l) (foldl f b' l).
Proof using Hproper.
  revert b b'. induction l as [|x l IH]; intros b b' H; [done|]. apply IH, (Hproper x), H.
Qed.

Lemma foldl_commute b l1 l2 :
  NoDup l1.*1 →
  (∀ x y b, x ∈ l1 → y ∈ l1 → x.1 ≠ y.1 → R (f (f b x) y) (f (f b y) x)) →
  l1 ≡ₚ l2 → R (foldl f b l1) (foldl f b l2).
Proof using Hproper PreOrder0.
  intros Hnd Hc Hp. revert b Hnd Hc.
  induction Hp as [|x l1 l2 _ IH|x y l|l1 l2 l3 Hp1 IH1 Hp2 IH2]; intros b Hnd Hc.
  - done.
  - simpl in *. apply NoDup_cons in Hnd as [_ Hnd]. apply IH; [done|].
    intros u v c Hu Hv. apply Hc; by apply list_elem_of_further.
  - simpl in *. apply NoDup_cons in Hnd as [Hni _]. apply foldl_proper, Hc.
    + apply list_elem_of_here.
    + apply list_elem_of_further, list_elem_of_here.
    + intros Heq. apply Hni. rewrite Heq. apply list_elem_of_here.
  - transitivity (foldl f b l2); [by apply IH1|]. apply IH2; [by rewrite <- Hp1|].
    intros u v c Hu Hv. rewrite <- Hp1 in Hu, Hv. by apply Hc.
Qed.
End commuting_loop.

Lemma range_perm2 (R1 R2 : GoRange) {V} s1 s2 (m : gmap string V) :
  @range R1 V s1 m ≡ₚ @range R2 V s2 m.
Proof. by rewrite !range_perm. Qed.
