(* ===== verification/Effects.v ===== *)
(** * Programs with external calls

    A Go function that calls the API server, the Git provider or the clock is a
    [prog]: a tree of calls, each with the rest of the function for every
    response. Responses are left open; what is known of them is a hypothesis of
    the theorem that needs it.

    [steps p tr p'] follows the program along a list of calls and responses. A
    safety property speaks about all prefixes of executions, so it covers
    executions that panic or are cut off. [guarded] is the proof rule for such
    properties: what a program may call depends on what it has seen.
    [pool_run] runs several programs interleaved. *)

From S2P Require Export Prelude.
From stdpp Require Export sorting base option gmap strings list fin_maps.

Open Scope Z_scope.

Inductive prog (E : Type → Type) (A : Type) : Type :=
| Ret (a : A)
| Vis (R : Type) (e : E R) (k : R → prog E A).
Arguments Ret {E A} a.
Arguments Vis {E A R} e k.

Section prog.
Context {E : Type → Type}.

Fixpoint pbind {A B} (p : prog E A) (f : A → prog E B) : prog E B :=
  match p with
  | Ret a => f a
  | Vis e k => Vis e (λ r, pbind (k r) f)
  end.

Definition call_ {R} (e : E R) : prog E R := Vis e Ret.

(** A loop over a list that threads a state. *)
Fixpoint pfold {A S} (f : S → A → prog E S) (s : S) (l : list A) : prog E S :=
  match l with
  | [] => Ret s
  | x :: l => pbind (f s x) (λ s, pfold f s l)
  end.

(** ** Executions *)

Record event := Event { ev_type : Type; ev_call : E ev_type; ev_resp : ev_type }.

Fixpoint steps {A} (p : prog E A) (tr : list event) (p' : prog E A) {struct tr} : Prop :=
  match tr with
  | [] => p' = p
  | ev :: tr =>
      match p with
      | Ret _ => False
      | @Vis _ _ R e k => ∃ r, ev = Event R e r ∧ steps (k r) tr p'
      end
  end.

Lemma steps_app {A} (p p' p'' : prog E A) tr tr' :
  steps p tr p' → steps p' tr' p'' → steps p (tr ++ tr') p''.
Proof.
  revert p. induction tr as [|ev tr IH]; intros p; simpl; [by intros ->|].
  destruct p as [a|R e k]; [done|]. intros (r & -> & H) H'. exists r. eauto.
Qed.

(** The executions of a sequence. *)
Lemma steps_bind_inv {A B} (p : prog E A) (f : A → prog E B) tr q :
  steps (pbind p f) tr q →
  (∃ p', steps p tr p' ∧ q = pbind p' f) ∨
  (∃ a tr1 tr2, tr = tr1 ++ tr2 ∧ steps p tr1 (Ret a) ∧ steps (f a) tr2 q).
Proof.
  revert tr. induction p as [a|R e k IH]; intros tr H; simpl in H.
  - right. by exists a, [], tr.
  - destruct tr as [|ev tr]; simpl in H.
    + left. exists (Vis e k). split; [done|exact H].
    + destruct H as (r & -> & Hs).
      destruct (IH _ _ Hs) as [(p' & Hp & ->)|(a & tr1 & tr2 & -> & Hp & Hq)].
      * left. exists p'. split; [by exists r|done].
      * right. exists a, (Event R e r :: tr1), tr2. split; [done|]. split; [by exists r|done].
Qed.

(** ** Running a program against a handler

    A handler answers calls from a state of its own. It has no answer for some
    calls, such as a panic: the run then gives no result. *)

Fixpoint run {S A} (h : ∀ R, E R → S → option (R * S)) (p : prog E A) (s : S)
    : option (A * S * list event) :=
  match p with
  | Ret a => Some (a, s, [])
  | Vis e k =>
      match h _ e s with
      | None => None
      | Some (r, s) =>
          match run h (k r) s with
          | None => None
          | Some (a, s, tr) => Some (a, s, Event _ e r :: tr)
          end
      end
  end.

Lemma run_steps {S A} (h : ∀ R, E R → S → option (R * S)) (p : prog E A) s a s' tr :
  run h p s = Some (a, s', tr) → steps p tr (Ret a).
Proof.
  revert s tr. induction p as [b|R e k IH]; intros s tr H; simpl in H.
  - by injection H as <- <- <-.
  - destruct (h R e s) as [[r s1]|]; [|done].
    destruct (run h (k r) s1) as [[[a1 s2] tr1]|] eqn:Er; [|done]. injection H as <- <- <-.
    exists r. split; [done|]. by eapply IH.
Qed.

Lemma run_bind {S A B} (h : ∀ R, E R → S → option (R * S)) (p : prog E A) (f : A → prog E B) s :
  run h (pbind p f) s =
    match run h p s with
    | None => None
    | Some (a, s, tr) =>
        match run h (f a) s with
        | None => None
        | Some (b, s, tr') => Some (b, s, tr ++ tr')
        end
    end.
Proof.
  revert s. induction p as [a|R e k IH]; intros s; simpl.
  - by destruct (run h (f a) s) as [[[??]?]|].
  - destruct (h R e s) as [[r s1]|]; [|done]. rewrite IH.
    destruct (run h (k r) s1) as [[[a s2] tr]|]; [|done].
    by destruct (run h (f a) s2) as [[[??]?]|].
Qed.

(** A world whose answers depend on the question alone; it has no answer for
    some calls. *)
Section eval.
Context (ans : ∀ R, E R → option R).

Fixpoint eval {A} (p : prog E A) : option A :=
  match p with
  | Ret a => Some a
  | Vis e k => match ans _ e with Some r => eval (k r) | None => None end
  end.

Lemma eval_bind {A B} (p : prog E A) (f : A → prog E B) :
  eval (pbind p f) = match eval p with Some a => eval (f a) | None => None end.
Proof. induction p as [a|R e k IH]; simpl; [done|]. by destruct (ans R e). Qed.

(** A loop whose body is a function of its answers. *)
Lemma eval_pfold {A B S} (f : S → A → prog E S) (g : A → prog E B) (h : S → B → S) l s :
  (∀ s x, x ∈ l → eval (f s x) = h s <$> eval (g x)) →
  eval (pfold f s l) = foldl h s <$> mapM (λ x, eval (g x)) l.
Proof.
  revert s. induction l as [|x l IH]; intros s Hf; [done|]. simpl. rewrite eval_bind, Hf by by left.
  destruct (eval (g x)) as [b|]; [|done]. simpl. rewrite IH; [by destruct (mapM _ l)|].
  intros t y Hy. apply Hf. by right.
Qed.
End eval.

(** ** What a program may call, given what it has seen

    [guarded P Q p past]: after the events [past], every call that [p] makes
    satisfies [P] of the events before it, and [p] ends in [Q]. *)

Fixpoint guarded {A} (P : list event → ∀ R, E R → Prop) (Q : list event → A → Prop)
    (p : prog E A) (past : list event) : Prop :=
  match p with
  | Ret a => Q past a
  | Vis e k => P past _ e ∧ ∀ r, guarded P Q (k r) (past ++ [Event _ e r])
  end.

(** Every call of every execution of [p], with the events before it. *)
Definition every_call {A} (P : list event → ∀ R, E R → Prop) (p : prog E A) : Prop :=
  ∀ tr ev tr' p', steps p (tr ++ ev :: tr') p' → P tr _ (ev_call ev).

Definition saw (past : list event) {R} (e : E R) (r : R) : Prop := Event R e r ∈ past.

Lemma saw_mono past past' {R} (e : E R) r : past `prefix_of` past' → saw past e r → saw past' e r.
Proof. intros [l ->] H. unfold saw in *. apply elem_of_app. by left. Qed.

Lemma saw_last past {R} (e : E R) r : saw (past ++ [Event R e r]) e r.
Proof. apply elem_of_app. right. apply list_elem_of_here. Qed.

Lemma guarded_weaken {A} P (Q Q' : list event → A → Prop) p past :
  guarded P Q p past → (∀ past' a, past `prefix_of` past' → Q past' a → Q' past' a) → guarded P Q' p past.
Proof.
  revert past. induction p as [a|R e k IH]; simpl; intros past H HQ.
  - by apply HQ.
  - destruct H as [HP Hk]. split; [done|]. intros r. apply IH; [apply Hk|].
    intros past' a Hp. apply HQ. etransitivity; [|exact Hp]. by apply prefix_app_r.
Qed.

Lemma guarded_strengthen {A} (P P' : list event → ∀ R, E R → Prop) Q (p : prog E A) past :
  (∀ past R e, P past R e → P' past R e) → guarded P Q p past → guarded P' Q p past.
Proof.
  intros HP. revert past. induction p as [a|R e k IH]; simpl; [done|].
  intros past [H1 H2]. split; [by apply HP|]. intros x. by apply IH.
Qed.

(** Two properties of one program. *)
Lemma guarded_both {A} P P' (Q Q' : list event → A → Prop) (p : prog E A) past :
  guarded P Q p past → guarded P' Q' p past →
  guarded (λ past R e, P past R e ∧ P' past R e) (λ past a, Q past a ∧ Q' past a) p past.
Proof.
  revert past. induction p as [a|R e k IH]; simpl; intros past H H'; [done|].
  destruct H as [HP Hk], H' as [HP' Hk']. split; [done|]. intros r. by apply IH.
Qed.

(** The same, when the stronger guard is known only from [past] on. *)
Lemma guarded_upgrade {A} (P P' : list event → ∀ R, E R → Prop) Q (p : prog E A) past :
  (∀ past' R e, past `prefix_of` past' → P past' R e → P' past' R e) → guarded P Q p past → guarded P' Q p past.
Proof.
  revert past. induction p as [a|R e k IH]; simpl; [done|].
  intros past HP [H1 H2]. split; [by apply HP|]. intros x. apply IH; [|done].
  intros past' R' e' Hp. apply HP. etransitivity; [|exact Hp]. by apply prefix_app_r.
Qed.

(** The events of a piece satisfy its guard. *)
Lemma guarded_events {A} (ok : ∀ R, E R → Prop) P Q (p : prog E A) past :
  (∀ past' R e, P past' R e → ok R e) → guarded P Q p past →
  guarded P (λ past' a, Q past' a ∧ ∃ l, past' = past ++ l ∧ Forall (λ ev, ok _ (ev_call ev)) l) p past.
Proof.
  intros Hok. revert past. induction p as [a|R e k IH]; simpl; intros past H.
  - split; [done|]. exists []. by rewrite app_nil_r.
  - destruct H as [HP Hk]. split; [done|]. intros r. eapply guarded_weaken; [apply IH, Hk|].
    intros past' a _ [HQ (l & -> & Hl)]. split; [done|]. exists (Event _ e r :: l). split.
    + by rewrite <- app_assoc.
    + constructor; [by eapply Hok|done].
Qed.

Lemma guarded_bind {A B} P (Q : list event → B → Prop) (p : prog E A) (f : A → prog E B) past :
  guarded P (λ past' a, guarded P Q (f a) past') p past → guarded P Q (pbind p f) past.
Proof.
  revert past. induction p as [a|R e k IH]; simpl; intros past H; [done|].
  destruct H as [HP Hk]. split; [done|]. intros r. by apply IH.
Qed.

(** A piece [p] was executed somewhere in [past], whole and with the result [a]. *)
Definition ran {A} (p : prog E A) (a : A) (past : list event) : Prop :=
  ∃ before piece later, past = before ++ piece ++ later ∧ steps p piece (Ret a).

Lemma ran_mono {A} (p : prog E A) a past past' : past `prefix_of` past' → ran p a past → ran p a past'.
Proof.
  intros [l ->] (before & piece & later & -> & Hs). exists before, piece, (later ++ l).
  by rewrite <- !app_assoc.
Qed.

(** What comes after a piece may rely on its having been executed. *)
Lemma guarded_bind_ran {A B} P (Q : list event → B → Prop) (p : prog E A) (f : A → prog E B) past :
  guarded P (λ past' a, ran p a past' → guarded P Q (f a) past') p past → guarded P Q (pbind p f) past.
Proof.
  assert (Hgen : ∀ (p' : prog E A) before piece, past ++ piece = before → steps p piece p' →
    guarded P (λ past' a, ran p a past' → guarded P Q (f a) past') p' before → guarded P Q (pbind p' f) before).
  { induction p' as [a|R e k IH]; simpl; intros before piece Hb Hs H.
    - apply H. exists past, piece, []. by rewrite app_nil_r.
    - destruct H as [HP Hk]. split; [done|]. intros r. apply (IH r _ (piece ++ [Event _ e r])); [|eapply steps_app; [exact Hs|]|done].
      + by rewrite app_assoc, Hb.
      + by exists r. }
  intros H. by apply (Hgen p past []); [rewrite app_nil_r| |].
Qed.

Lemma guarded_call {B} P (Q : list event → B → Prop) {R} (e : E R) (f : R → prog E B) past :
  P past _ e → (∀ r, guarded P Q (f r) (past ++ [Event _ e r])) → guarded P Q (pbind (call_ e) f) past.
Proof. done. Qed.

Lemma guarded_pfold {A S} P (I : list event → S → Prop) (f : S → A → prog E S) l s past :
  (∀ x s past', x ∈ l → past `prefix_of` past' → I past' s → guarded P I (f s x) past') →
  I past s → guarded P I (pfold f s l) past.
Proof.
  revert s past. induction l as [|x l IH]; intros s past Hf HI; simpl; [done|].
  apply guarded_bind. eapply guarded_weaken; [by apply Hf; [apply list_elem_of_here| |]|].
  intros past' s' Hp HI'. apply IH; [|done]. intros y t past'' Hy Hp'. apply Hf.
  - by apply list_elem_of_further.
  - by etransitivity.
Qed.

(** The result of every finished execution of [p], with its events. *)
Definition every_outcome {A} (Q : list event → A → Prop) (p : prog E A) : Prop :=
  ∀ tr a, steps p tr (Ret a) → Q tr a.

(** Every execution of [p], finished or not. *)
Definition every_trace {A} (Q : list event → Prop) (p : prog E A) : Prop :=
  ∀ tr p', steps p tr p' → Q tr.

(** A piece whose calls need no guard. *)
Fixpoint quiet {A} (ok : ∀ R, E R → Prop) (p : prog E A) : Prop :=
  match p with
  | Ret _ => True
  | Vis e k => ok _ e ∧ ∀ r, quiet ok (k r)
  end.

Lemma quiet_bind {A B} ok (p : prog E A) (f : A → prog E B) :
  quiet ok p → (∀ a, quiet ok (f a)) → quiet ok (pbind p f).
Proof.
  intros Hp Hf. induction p as [a|R e k IH]; simpl in *; [done|].
  destruct Hp as [He Hk]. split; [done|]. intros r. by apply IH.
Qed.

Lemma quiet_pfold {A S} ok (f : S → A → prog E S) s l :
  (∀ s x, quiet ok (f s x)) → quiet ok (pfold f s l).
Proof.
  intros Hf. revert s. induction l as [|x l IH]; intros s; simpl; [done|]. by apply quiet_bind.
Qed.

Lemma guarded_quiet {A} P (Q : list event → A → Prop) ok (p : prog E A) past :
  quiet ok p → (∀ past R (e : E R), ok R e → P past R e) →
  (∀ past' a, past `prefix_of` past' → Q past' a) → guarded P Q p past.
Proof.
  intros Hq HP. revert past. induction p as [a|R e k IH]; simpl in *; intros past HQ; [by apply HQ|].
  destruct Hq as [He Hk]. split; [by apply HP|]. intros r. apply IH; [done|].
  intros past' a Hp. apply HQ. etransitivity; [|exact Hp]. by apply prefix_app_r.
Qed.

(** ** Executions whose answers obey a law

    [law past e r]: after the events [past], the call [e] may be answered by
    [r]. [under]: as long as the answers do, [p] makes only calls of [ok] and
    ends in [Q]. *)
Section under.
Context (law : list event → ∀ R, E R → R → Prop) (ok : ∀ R, E R → Prop).
Arguments law _ {_} _ _.

Fixpoint lawful (past tr : list event) : Prop :=
  match tr with
  | [] => True
  | ev :: tr => law past (ev_call ev) (ev_resp ev) ∧ lawful (past ++ [ev]) tr
  end.

Fixpoint under {A} (Q : list event → A → Prop) (p : prog E A) (past : list event) : Prop :=
  match p with
  | Ret a => Q past a
  | Vis e k => ok _ e ∧ ∀ r, law past e r → under Q (k r) (past ++ [Event _ e r])
  end.

Lemma under_steps {A} (Q : list event → A → Prop) (p p' : prog E A) past tr :
  under Q p past → steps p tr p' → lawful past tr → under Q p' (past ++ tr).
Proof using.
  revert p past. induction tr as [|ev tr IH]; intros p past Hu Hs Hl; simpl in Hs.
  - subst p'. by rewrite app_nil_r.
  - destruct p as [a|R e k]; [done|]. destruct Hs as (r & -> & Hs). destruct Hu as [_ Hk], Hl as [Hr Hl].
    rewrite cons_middle, app_assoc. apply (IH (k r)); [|done|done]. by apply Hk.
Qed.

Lemma under_weaken {A} (Q Q' : list event → A → Prop) (p : prog E A) past :
  under Q p past → (∀ past' a, Q past' a → Q' past' a) → under Q' p past.
Proof using.
  intros Hp HQ. revert past Hp. induction p as [a|R e k IH]; simpl; intros past Hp; [by apply HQ|].
  destruct Hp as [He Hk]. split; [done|]. intros r Hr. by apply IH, Hk.
Qed.

Lemma under_bind {A B} (Q : list event → B → Prop) (p : prog E A) (f : A → prog E B) past :
  under (λ past' a, under Q (f a) past') p past → under Q (pbind p f) past.
Proof using.
  revert past. induction p as [a|R e k IH]; simpl; intros past Hp; [done|].
  destruct Hp as [He Hk]. split; [done|]. intros r Hr. by apply IH, Hk.
Qed.

Lemma under_call {B} (Q : list event → B → Prop) {R} (e : E R) (f : R → prog E B) past :
  ok _ e → (∀ r, law past e r → under Q (f r) (past ++ [Event _ e r])) → under Q (pbind (call_ e) f) past.
Proof using. done. Qed.

(** A piece whose calls leave an invariant of the history alone. *)
Lemma under_quiet {A} (I : list event → Prop) (inert : ∀ R, E R → Prop) (Q : list event → A → Prop)
    (p : prog E A) past :
  quiet inert p → (∀ past R (e : E R) r, inert R e → I past → I (past ++ [Event _ e r])) →
  (∀ R e, inert R e → ok R e) → I past → (∀ past' a, I past' → Q past' a) → under Q p past.
Proof using.
  intros Hq HI Hok HIp HQ. revert past HIp. induction p as [a|R e k IH]; simpl in *; intros past HIp; [by apply HQ|].
  destruct Hq as [He Hk]. split; [by apply Hok|]. intros r _. apply IH; [done|]. by apply HI.
Qed.
End under.

Lemma guarded_steps {A} P (Q : list event → A → Prop) (p : prog E A) past tr ev tr' p' :
  guarded P Q p past → steps p (tr ++ ev :: tr') p' → P (past ++ tr) _ (ev_call ev).
Proof.
  revert p past. induction tr as [|ev' tr IH]; intros p past H Hs; destruct p as [a|R e k]; simpl in Hs; try done.
  - destruct Hs as (r & -> & Hs). rewrite app_nil_r. apply H.
  - destruct Hs as (r & -> & Hs). destruct H as [_ Hk].
    replace (past ++ Event R e r :: tr) with ((past ++ [Event R e r]) ++ tr) by by rewrite <- app_assoc.
    by eapply IH.
Qed.

Lemma guarded_every_call {A} P (Q : list event → A → Prop) (p : prog E A) :
  guarded P Q p [] → every_call P p.
Proof. intros H tr ev tr' p' Hs. by eapply (guarded_steps P Q p []). Qed.

Lemma every_call_weaken {A} (P P' : list event → ∀ R, E R → Prop) (p : prog E A) :
  (∀ past R (e : E R), P past R e → P' past R e) → every_call P p → every_call P' p.
Proof. intros HP H tr ev tr' p' Hs. eapply HP, H, Hs. Qed.

(** The result of a whole execution. *)
Lemma guarded_result {A} P (Q : list event → A → Prop) (p : prog E A) past tr a :
  guarded P Q p past → steps p tr (Ret a) → Q (past ++ tr) a.
Proof.
  revert p past. induction tr as [|ev tr IH]; intros p past H Hs; simpl in Hs.
  - subst p. by rewrite app_nil_r.
  - destruct p as [b|R e k]; [done|]. destruct Hs as (r & -> & Hs). destruct H as [_ Hk].
    replace (past ++ Event R e r :: tr) with ((past ++ [Event R e r]) ++ tr) by by rewrite <- app_assoc.
    by apply IH with (k r).
Qed.

End prog.

Arguments event E : clear implicits.

Declare Scope prog_scope.
Delimit Scope prog_scope with prog.
Notation "x ⇐ p ; q" := (pbind p (λ x, q))
  (at level 60, p at next level, q at level 200, right associativity) : prog_scope.
Notation "p ⨟ q" := (pbind p (λ _, q))
  (at level 60, q at level 200, right associativity) : prog_scope.

Lemma guarded_every_outcome {E : Type → Type} {A} P (Q : list (event E) → A → Prop) (p : prog E A) :
  guarded P Q p [] → every_outcome Q p.
Proof. intros H tr a Hs. by apply (guarded_result P Q p [] tr a). Qed.

(** ** Several programs at once

    Any number of programs run interleaved: one of the pool makes its next call,
    a new one starts, or one is cut off. [law w e r] says that after the events
    [w], of all programs, a call [e] can be answered by [r]. *)
Section pool.
Context {E : Type → Type} {A : Type}.
Context (law : list (event E) → ∀ R, E R → R → Prop) (start : prog E A → Prop).
Arguments law _ {_} _ _.

Inductive pool_run : list (prog E A) → list (event E) → Prop :=
| pool_empty : pool_run [] []
| pool_start ps w p : pool_run ps w → start p → pool_run (p :: ps) w
| pool_crash ps w i : pool_run ps w → pool_run (delete i ps) w
| pool_call ps w i R (e : E R) k r :
    pool_run ps w → ps !! i = Some (Vis e k) → law w e r →
    pool_run (<[i := k r]> ps) (w ++ [Event _ e r]).

(** If what is started is guarded, every call in a run of the pool has its guard:
    what the program itself had seen is part of what had happened. *)
Definition call_in_pool (P : list (event E) → ∀ R, E R → Prop) (w : list (event E)) (ev : event E) : Prop :=
  (∃ past, past ⊆ w ∧ P past _ (ev_call ev)) ∧ law w (ev_call ev) (ev_resp ev).

Lemma pool_guarded (P : list (event E) → ∀ R, E R → Prop) ps w :
  (∀ p, start p → guarded P (λ _ _, True) p []) → pool_run ps w →
  (∀ p, p ∈ ps → ∃ past, past ⊆ w ∧ guarded P (λ _ _, True) p past) ∧
  (∀ w1 ev w2, w = w1 ++ ev :: w2 → call_in_pool P w1 ev).
Proof.
  intros Hstart Hrun. induction Hrun as [|ps w p _ [IHp IHe] Hp|ps w i _ [IHp IHe]|ps w i R e k r _ [IHp IHe] Hi Hl].
  - split; [by intros p Hp%elem_of_nil|]. intros [|??] ??; done.
  - split; [|done]. intros q [->|Hq]%elem_of_cons; [|by apply IHp].
    exists []. split; [intros x Hx; by apply elem_of_nil in Hx|by apply Hstart].
  - split; [|done]. intros q Hq. apply IHp. by eapply list_subseteq_delete.
  - destruct (IHp (Vis e k)) as (past & Hsub & [HP Hk]); [by eapply list_elem_of_lookup_2|].
    assert (Hsub' : ∀ l, l ⊆ w → l ⊆ w ++ [Event _ e r]).
    { intros l Hl'. etransitivity; [exact Hl'|]. intros x Hx. apply elem_of_app. by left. }
    split.
    + intros q [j Hj]%list_elem_of_lookup. destruct (decide (i = j)) as [<-|Hne].
      * rewrite list_lookup_insert_eq in Hj by by eapply lookup_lt_Some. injection Hj as <-.
        exists (past ++ [Event _ e r]). split; [|done]. intros x [Hx|Hx]%elem_of_app; apply elem_of_app.
        { left. by apply Hsub. } { by right. }
      * rewrite list_lookup_insert_ne in Hj by done.
        destruct (IHp q) as (past' & ? & ?); [by eapply list_elem_of_lookup_2|]. exists past'. auto.
    + intros w1 ev w2 Heq. destruct w2 as [|ev' w2 _] using rev_ind.
      * apply app_inj_tail in Heq as [<- <-]. split; [by exists past|done].
      * rewrite app_comm_cons, app_assoc in Heq. apply app_inj_tail in Heq as [Heq _]. by eapply IHe.
Qed.

(** A whole execution of one program, as a run of the pool. *)
Lemma pool_steps p q tr ps w :
  pool_run (p :: ps) w → steps p tr q →
  (∀ i ev, tr !! i = Some ev → law (w ++ take i tr) (ev_call ev) (ev_resp ev)) →
  pool_run (q :: ps) (w ++ tr).
Proof.
  revert p w. induction tr as [|ev tr IH]; intros p w Hrun Hs Hl; simpl in Hs.
  - subst. by rewrite app_nil_r.
  - destruct p as [a|R e k]; [done|]. destruct Hs as (r & -> & Hs).
    rewrite cons_middle, app_assoc. apply IH with (k r); [|done|].
    + apply (pool_call (Vis e k :: ps) w 0 R e k r); [done|done|].
      pose proof (Hl 0%nat _ eq_refl) as H0. simpl in H0. by rewrite app_nil_r in H0.
    + intros i ev Hi. specialize (Hl (S i) ev Hi). simpl in Hl. by rewrite <- app_assoc.
Qed.

(** Two programs, one after the other. *)
Lemma pool_two p1 p2 q1 q2 tr1 tr2 :
  start p1 → start p2 → steps p1 tr1 q1 → steps p2 tr2 q2 →
  (∀ i ev, (tr1 ++ tr2) !! i = Some ev → law (take i (tr1 ++ tr2)) (ev_call ev) (ev_resp ev)) →
  pool_run [q2; q1] (tr1 ++ tr2).
Proof.
  intros Hp1 Hp2 Hs1 Hs2 Hl. apply (pool_steps p2); [apply pool_start; [|done]|done|].
  - apply (pool_steps p1 q1 tr1 [] []); [apply pool_start; [apply pool_empty|done]|done|].
    intros i ev Hi. assert (Hlt : (i < length tr1)%nat) by by eapply lookup_lt_Some.
    specialize (Hl i ev). rewrite lookup_app_l, take_app_le in Hl by lia. by apply Hl.
  - intros i ev Hi. specialize (Hl (length tr1 + i)%nat ev).
    rewrite lookup_app_r, take_app_ge in Hl by lia.
    replace (length tr1 + i - length tr1)%nat with i in Hl by lia. by apply Hl.
Qed.

End pool.

(** A run under one law is a run under another, if its events obey that one. *)
Lemma pool_run_law {E : Type → Type} {A} (law law' : list (event E) → ∀ R, E R → R → Prop)
    (start : prog E A → Prop) ps w :
  pool_run law start ps w →
  (∀ i ev, w !! i = Some ev → law (take i w) _ (ev_call ev) (ev_resp ev) → law' (take i w) _ (ev_call ev) (ev_resp ev)) →
  pool_run law' start ps w.
Proof.
  intros Hrun. induction Hrun as [|ps w p _ IH Hp|ps w i _ IH|ps w i R e k r _ IH Hi Hl]; intros Hev.
  - apply pool_empty.
  - apply pool_start; [by apply IH|done].
  - by apply pool_crash, IH.
  - apply pool_call with (e := e); [|done|].
    + apply IH. intros j ev Hj. assert (Hlt : (j < length w)%nat) by by eapply lookup_lt_Some.
      specialize (Hev j ev). rewrite lookup_app_l, take_app_le in Hev by lia. by apply Hev.
    + specialize (Hev (length w) (Event _ e r)). rewrite lookup_app_r, Nat.sub_diag, take_app_length in Hev by done.
      by apply Hev.
Qed.
