(* ===== verification/GoStrings.v ===== *)
(** * Go strings

    The functions of Go's packages [strings], [strconv] and [fmt] that the
    program uses, on byte strings: prefixes and suffixes, searching, splitting,
    trimming, decimal printing and parsing. A Go string is a sequence of bytes,
    here a [string] (a list of 8-bit [ascii] characters). *)

From S2P Require Export Prelude.
From Stdlib Require Export Ascii String.
From stdpp Require Export sorting base option gmap strings list fin_maps.

Open Scope Z_scope.

#[global] Arguments String.append !s1 s2 / : simpl nomatch.

Module Str.

(** ** Prefixes and suffixes *)

(** The rest of [s] after the prefix [p]. *)
Fixpoint strip_prefix (p s : string) : option string :=
  match p, s with
  | EmptyString, _ => Some s
  | String a p', String b s' => if Ascii.eqb a b then strip_prefix p' s' else None
  | String _ _, EmptyString => None
  end.

(** The part of [s] before the suffix [x]. *)
Fixpoint strip_suffix (s x : string) : option string :=
  if String.eqb s x then Some EmptyString
  else match s with
       | EmptyString => None
       | String c s' => String c <$> strip_suffix s' x
       end.

Definition HasPrefix (s p : string) : bool :=
  match strip_prefix p s with Some _ => true | None => false end.
Definition TrimPrefix (s p : string) : string :=
  match strip_prefix p s with Some r => r | None => s end.
Definition HasSuffix (s x : string) : bool :=
  match strip_suffix s x with Some _ => true | None => false end.
Definition TrimSuffix (s x : string) : string :=
  match strip_suffix s x with Some r => r | None => s end.

(** ** Searching and splitting *)

(** The parts of [s] before and after the first occurrence of [sep]. *)
Fixpoint Cut (s sep : string) : option (string * string) :=
  match strip_prefix sep s with
  | Some r => Some (EmptyString, r)
  | None =>
      match s with
      | EmptyString => None
      | String c s' =>
          match Cut s' sep with
          | Some (b, a) => Some (String c b, a)
          | None => None
          end
      end
  end.

Definition Contains (s sub : string) : bool :=
  match Cut s sub with Some _ => true | None => false end.

(** The parts around the last occurrence of the one-byte separator [c]. *)
Fixpoint cut_last (s : string) (c : ascii) : option (string * string) :=
  match s with
  | EmptyString => None
  | String a s' =>
      match cut_last s' c with
      | Some (b, t) => Some (String a b, t)
      | None => if Ascii.eqb a c then Some (EmptyString, s') else None
      end
  end.

(** [strings.Split] for a non-empty separator. Every cut shortens the string,
    so the length of [s] is enough fuel. *)
Fixpoint split_fuel (fuel : nat) (s sep : string) : list string :=
  match fuel with
  | O => [s]
  | S f =>
      match Cut s sep with
      | Some (b, a) => b :: split_fuel f a sep
      | None => [s]
      end
  end.

Definition Split (s sep : string) : list string := split_fuel (String.length s) s sep.

Fixpoint Join (l : list string) (sep : string) : string :=
  match l with
  | [] => EmptyString
  | [x] => x
  | x :: l' => x +:+ sep +:+ Join l' sep
  end.

(** ** [strings.TrimSpace] *)

Definition byte (n : N) : ascii := ascii_of_N n.
Definition bytes (l : list N) : string := string_of_list_ascii (byte <$> l).

(** The UTF-8 encodings of the code points with the property White_Space. *)
Definition spaces : list string :=
  bytes <$> [[9]; [10]; [11]; [12]; [13]; [32]; [194; 133]; [194; 160];
    [225; 154; 128]; [226; 128; 128]; [226; 128; 129]; [226; 128; 130];
    [226; 128; 131]; [226; 128; 132]; [226; 128; 133]; [226; 128; 134];
    [226; 128; 135]; [226; 128; 136]; [226; 128; 137]; [226; 128; 138];
    [226; 128; 168]; [226; 128; 169]; [226; 128; 175]; [226; 129; 159];
    [227; 128; 128]]%N.

Fixpoint first_some {A B} (f : A → option B) (l : list A) : option B :=
  match l with
  | [] => None
  | x :: l' => match f x with Some y => Some y | None => first_some f l' end
  end.

Fixpoint trim_left_fuel (fuel : nat) (s : string) : string :=
  match fuel with
  | O => s
  | S f =>
      match first_some (λ w, strip_prefix w s) spaces with
      | Some r => trim_left_fuel f r
      | None => s
      end
  end.

Fixpoint trim_right_fuel (fuel : nat) (s : string) : string :=
  match fuel with
  | O => s
  | S f =>
      match first_some (λ w, strip_suffix s w) spaces with
      | Some r => trim_right_fuel f r
      | None => s
      end
  end.

Definition TrimSpace (s : string) : string :=
  let t := trim_left_fuel (String.length s) s in
  trim_right_fuel (String.length t) t.

(** ** Case folding *)

Definition lower (c : ascii) : ascii :=
  let n := N_of_ascii c in
  if ((65 <=? n) && (n <=? 90))%N then byte (n + 32) else c.

(** The code points outside ASCII that fold to an ASCII letter: U+017F (long s)
    and U+212A (Kelvin sign). *)
Definition long_s : string := bytes [197; 191]%N.
Definition kelvin : string := bytes [226; 132; 170]%N.

(** [strings.EqualFold(s, t)] for a lower-case ASCII string [t]. *)
Fixpoint EqualFold (s t : string) : bool :=
  match t with
  | EmptyString => match s with EmptyString => true | _ => false end
  | String b t' =>
      match s with
      | EmptyString => false
      | String a s' =>
          if Ascii.eqb (lower a) b then EqualFold s' t'
          else if Ascii.eqb b "s"%char then
            match strip_prefix long_s s with Some r => EqualFold r t' | None => false end
          else if Ascii.eqb b "k"%char then
            match strip_prefix kelvin s with Some r => EqualFold r t' | None => false end
          else false
      end
  end.

(** [strings.ToLower(s) == t] for an ASCII string [t] without the letter i:
    beside A to Z, only the Kelvin sign has a lower case in ASCII other than i. *)
Fixpoint lowers_to (s t : string) : bool :=
  match t with
  | EmptyString => match s with EmptyString => true | _ => false end
  | String b t' =>
      match s with
      | EmptyString => false
      | String a s' =>
          if Ascii.eqb (lower a) b then lowers_to s' t'
          else if Ascii.eqb b "k"%char then
            match strip_prefix kelvin s with Some r => lowers_to r t' | None => false end
          else false
      end
  end.

(** ** Decimal numbers *)

Definition digit (z : Z) : ascii := byte (Z.to_N (48 + z)).
Definition is_digit (c : ascii) : bool :=
  let n := N_of_ascii c in ((48 <=? n) && (n <=? 57))%N.
Definition digit_value (c : ascii) : Z := Z.of_N (N_of_ascii c) - 48.

Fixpoint dec_fuel (fuel : nat) (z : Z) : string :=
  match fuel with
  | O => EmptyString
  | S f =>
      (if z <? 10 then EmptyString else dec_fuel f (z / 10)) +:+
      String (digit (z mod 10)) EmptyString
  end.

(** The decimal digits of [z >= 0]: there are at most [log2 z + 1] of them. *)
Definition dec (z : Z) : string := dec_fuel (S (Z.to_nat (Z.log2 z))) z.

(** [strconv.Itoa], and the verb %d of [fmt]. *)
Definition Itoa (z : Z) : string :=
  if z <? 0 then "-" +:+ dec (- z) else dec z.

(** The value of a non-empty string of digits. *)
Fixpoint digits_acc (acc : Z) (s : string) : option Z :=
  match s with
  | EmptyString => Some acc
  | String c s' => if is_digit c then digits_acc (10 * acc + digit_value c) s' else None
  end.

Definition digits (s : string) : option Z :=
  match s with EmptyString => None | _ => digits_acc 0 s end.

(** [strconv.Atoi]: an optional sign, then decimal digits, within [int64]. *)
Definition Atoi (s : string) : option Z :=
  let r := match s with
           | String "+" s' => digits s'
           | String "-" s' => Z.opp <$> digits s'
           | _ => digits s
           end in
  match r with
  | Some z => if decide (in_int64 z) then Some z else None
  | None => None
  end.

(** A zero-padded field of width 2 or 4. *)
Definition pad2 (z : Z) : string :=
  String (digit (z / 10)) (String (digit (z mod 10)) EmptyString).
Definition pad4 (z : Z) : string := pad2 (z / 100) +:+ pad2 (z mod 100).

(** ** Order of strings and [sort.Strings] *)

Definition ltb (s t : string) : bool :=
  match String.compare s t with Lt => true | _ => false end.
Definition leb (s t : string) : bool :=
  match String.compare s t with Gt => false | _ => true end.
Definition le (s t : string) : Prop := leb s t = true.

#[export] Instance le_dec s t : Decision (le s t).
Proof. unfold le. apply _. Defined.

(** [sort.Strings]. *)
Definition sort (l : list string) : list string := merge_sort le l.

(** A text between double quotes, as the messages of the program write one. *)
Definition quoted (s : string) : string := bytes [34]%N +:+ s +:+ bytes [34]%N.

(** ** Facts *)

Lemma app_nil_r s : s +:+ "" = s.
Proof. induction s as [|c s IH]; simpl; [done|by rewrite IH]. Qed.

Lemma app_assoc s t u : (s +:+ t) +:+ u = s +:+ (t +:+ u).
Proof. induction s as [|c s IH]; simpl; [done|by rewrite IH]. Qed.

Lemma length_app s t : String.length (s +:+ t) = (String.length s + String.length t)%nat.
Proof. induction s as [|c s IH]; simpl; [done|by rewrite IH]. Qed.

Lemma app_inj_r s t u : s +:+ u = t +:+ u → s = t.
Proof.
  revert t. induction s as [|a s IH]; intros [|b t] H; simpl in *; simplify_eq; [done|..].
  - apply (f_equal String.length) in H. simpl in H. rewrite length_app in H. lia.
  - apply (f_equal String.length) in H. simpl in H. rewrite length_app in H. lia.
  - by rewrite (IH t).
Qed.

Lemma strip_prefix_Some p s r : strip_prefix p s = Some r ↔ s = p +:+ r.
Proof.
  revert s. induction p as [|a p IH]; intros s; simpl.
  { split; congruence. }
  destruct s as [|b s]; [split; discriminate|].
  destruct (Ascii.eqb_spec a b) as [->|Hne]; [|split; congruence].
  rewrite IH. split; congruence.
Qed.

Lemma app_self_nil s u : s = u +:+ s → u = "".
Proof.
  intros Heq. apply (f_equal String.length) in Heq. rewrite length_app in Heq.
  destruct u; [done|simpl in Heq; lia].
Qed.

Lemma strip_suffix_cons c s x :
  strip_suffix (String c s) x =
    if String.eqb (String c s) x then Some "" else String c <$> strip_suffix s x.
Proof. done. Qed.

Lemma strip_suffix_Some s x r : strip_suffix s x = Some r ↔ s = r +:+ x.
Proof.
  revert r. induction s as [|c s IH]; intros r.
  - destruct x, r; simpl; split; congruence.
  - rewrite strip_suffix_cons. destruct (String.eqb_spec (String c s) x) as [<-|Hne].
    + split; [by intros [= <-]|]. intros H. by rewrite (app_self_nil _ _ H).
    + destruct r as [|c' r]; simpl.
      * split; [|congruence]. by destruct (strip_suffix s x).
      * specialize (IH r). destruct (strip_suffix s x); simpl; split; intros H;
          simplify_eq; [by rewrite (proj1 IH)| |]; pose proof (proj2 IH eq_refl); by simplify_eq.
Qed.

Lemma HasPrefix_spec s p : HasPrefix s p = true ↔ ∃ r, s = p +:+ r.
Proof.
  unfold HasPrefix. destruct (strip_prefix p s) as [r|] eqn:E.
  - apply strip_prefix_Some in E. naive_solver.
  - split; [done|]. intros [r Hr]. apply strip_prefix_Some in Hr. congruence.
Qed.

Lemma HasPrefix_app p r : HasPrefix (p +:+ r) p = true.
Proof. apply HasPrefix_spec. eauto. Qed.

Lemma TrimPrefix_app p r : TrimPrefix (p +:+ r) p = r.
Proof.
  unfold TrimPrefix.
  assert (strip_prefix p (p +:+ r) = Some r) as -> by by apply strip_prefix_Some. done.
Qed.

Lemma HasSuffix_spec s x : HasSuffix s x = true ↔ ∃ r, s = r +:+ x.
Proof.
  unfold HasSuffix. destruct (strip_suffix s x) as [r|] eqn:E.
  - apply strip_suffix_Some in E. naive_solver.
  - split; [done|]. intros [r Hr]. apply strip_suffix_Some in Hr. congruence.
Qed.

Lemma TrimSuffix_app r x : TrimSuffix (r +:+ x) x = r.
Proof.
  unfold TrimSuffix.
  assert (strip_suffix (r +:+ x) x = Some r) as -> by by apply strip_suffix_Some. done.
Qed.

Lemma Cut_Some s sep b a : Cut s sep = Some (b, a) → s = b +:+ sep +:+ a.
Proof.
  revert b a. induction s as [|c s IH]; intros b a; simpl.
  - destruct (strip_prefix sep "") as [r|] eqn:E; [|done].
    apply strip_prefix_Some in E. intros [= <- <-]. done.
  - destruct (strip_prefix sep (String c s)) as [r|] eqn:E.
    { apply strip_prefix_Some in E. intros [= <- <-]. done. }
    destruct (Cut s sep) as [[b' a']|] eqn:EC; [|done].
    intros [= <- <-]. by rewrite (IH b' a').
Qed.

Lemma Cut_exists b sep a : is_Some (Cut (b +:+ sep +:+ a) sep).
Proof.
  induction b as [|c b IH]; simpl.
  - assert (strip_prefix sep (sep +:+ a) = Some a) as Hp by by apply strip_prefix_Some.
    destruct (sep +:+ a); simpl in *; rewrite Hp; eauto.
  - destruct (strip_prefix sep _); [eauto|].
    destruct IH as [[b' a'] IH]. change (String.append sep a) with (sep +:+ a).
    rewrite IH. eauto.
Qed.

Lemma Contains_spec s sub : Contains s sub = true ↔ ∃ b a, s = b +:+ sub +:+ a.
Proof.
  unfold Contains. destruct (Cut s sub) as [[b a]|] eqn:E.
  - apply Cut_Some in E. naive_solver.
  - split; [done|]. intros (b & a & ->). destruct (Cut_exists b sub a). congruence.
Qed.

(** *** Decimal numbers *)

Lemma digit_is_digit z : 0 <= z < 10 → is_digit (digit z) = true.
Proof.
  intros H. unfold is_digit, digit, byte. rewrite N_ascii_embedding by lia.
  apply andb_true_iff. rewrite !N.leb_le. lia.
Qed.

Lemma digit_value_digit z : 0 <= z < 10 → digit_value (digit z) = z.
Proof. intros H. unfold digit_value, digit, byte. rewrite N_ascii_embedding; lia. Qed.

Lemma digits_acc_app acc s t :
  digits_acc acc (s +:+ t) = match digits_acc acc s with
                             | Some v => digits_acc v t
                             | None => None
                             end.
Proof.
  revert acc. induction s as [|c s IH]; intros acc; simpl; [done|].
  destruct (is_digit c); [apply IH|done].
Qed.

Lemma dec_fuel_acc fuel z acc :
  0 <= z < 2 ^ Z.of_nat fuel →
  ∃ k, 0 <= k ∧ digits_acc acc (dec_fuel fuel z) = Some (acc * 10 ^ k + z).
Proof.
  revert z acc. induction fuel as [|f IH]; intros z acc Hz.
  - exists 0. simpl in *. split; [lia|f_equal; lia].
  - rewrite Nat2Z.inj_succ, Z.pow_succ_r in Hz by lia.
    cbn [dec_fuel]. rewrite digits_acc_app. destruct (Z.ltb_spec z 10).
    + exists 1. split; [lia|]. cbn [digits_acc].
      rewrite digit_is_digit, digit_value_digit by lia. f_equal. lia.
    + destruct (IH (z / 10) acc) as (k & Hk & ->); [lia|]. cbn [digits_acc].
      rewrite digit_is_digit, digit_value_digit by lia.
      exists (k + 1). split; [lia|]. f_equal. rewrite Z.pow_add_r by lia. lia.
Qed.

Lemma dec_fuel_ne fuel z : (0 < fuel)%nat → dec_fuel fuel z ≠ "".
Proof.
  destruct fuel; [lia|]. intros _ H. apply (f_equal String.length) in H.
  cbn [dec_fuel] in H. rewrite length_app in H. simpl in H. lia.
Qed.

Lemma dec_fuel_enough z : 0 <= z → z < 2 ^ Z.of_nat (S (Z.to_nat (Z.log2 z))).
Proof.
  intros H. rewrite Nat2Z.inj_succ, Z2Nat.id by apply Z.log2_nonneg.
  destruct (decide (z = 0)) as [->|]; [simpl; lia|]. apply Z.log2_spec. lia.
Qed.

Lemma digits_dec z : 0 <= z → digits (dec z) = Some z.
Proof.
  intros H. destruct (dec_fuel_acc (S (Z.to_nat (Z.log2 z))) z 0) as (k & Hk & Hd).
  { split; [done|]. by apply dec_fuel_enough. }
  unfold digits, dec. pose proof (dec_fuel_ne (S (Z.to_nat (Z.log2 z))) z) as Hne.
  destruct (dec_fuel _ z) eqn:E; [exfalso; apply Hne; [lia|done]|].
  by rewrite Hd.
Qed.

Lemma digits_acc_head acc c s v : digits_acc acc (String c s) = Some v → is_digit c = true.
Proof. simpl. by destruct (is_digit c). Qed.

Lemma Atoi_Itoa z : in_int64 z → Atoi (Itoa z) = Some z.
Proof.
  intros Hz. unfold Itoa. destruct (Z.ltb_spec z 0).
  - unfold Atoi. cbn [String.append]. rewrite digits_dec by lia. simpl.
    rewrite Z.opp_involutive. by rewrite decide_True.
  - pose proof (digits_dec z ltac:(lia)) as Hd. unfold Atoi.
    destruct (dec z) as [|c s] eqn:E; [done|].
    assert (is_digit c = true) as Hc by (eapply digits_acc_head, Hd).
    destruct c as [[] [] [] [] [] [] [] []]; try discriminate Hc;
      by rewrite Hd, decide_True.
Qed.

Lemma Itoa_inj z1 z2 : in_int64 z1 → in_int64 z2 → Itoa z1 = Itoa z2 → z1 = z2.
Proof.
  intros H1 H2 Heq. apply Atoi_Itoa in H1, H2. rewrite Heq in H1. congruence.
Qed.

(** *** The order of strings *)

Lemma compare_cons a s b t :
  String.compare (String a s) (String b t) =
    match Ascii.compare a b with Eq => String.compare s t | c => c end.
Proof. done. Qed.

Lemma compare_refl s : String.compare s s = Eq.
Proof.
  induction s as [|a s IH]; [done|]. rewrite compare_cons.
  unfold Ascii.compare. by rewrite N.compare_refl.
Qed.

Lemma compare_lt_trans s t u :
  String.compare s t = Lt → String.compare t u = Lt → String.compare s u = Lt.
Proof.
  revert t u. induction s as [|a s IH]; intros [|b t] [|c u]; try done.
  rewrite !compare_cons. unfold Ascii.compare.
  destruct (N.compare_spec (N_of_ascii a) (N_of_ascii b)) as [Hab|Hab|Hab];
    destruct (N.compare_spec (N_of_ascii b) (N_of_ascii c)) as [Hbc|Hbc|Hbc];
    intros H1 H2; try discriminate;
    destruct (N.compare_spec (N_of_ascii a) (N_of_ascii c)) as [Hac|Hac|Hac];
    try done; try lia; by apply (IH t).
Qed.

Lemma leb_cases s t : leb s t = true ↔ String.compare s t = Lt ∨ s = t.
Proof.
  unfold leb. destruct (String.compare s t) eqn:E.
  - apply String.compare_eq_iff in E. naive_solver.
  - naive_solver.
  - split; [done|]. intros [?| ->]; [congruence|]. by rewrite compare_refl in E.
Qed.

#[export] Instance le_trans : Transitive le.
Proof.
  intros s t u H1 H2. unfold le in *. apply leb_cases in H1, H2. apply leb_cases.
  destruct H1 as [H1| ->]; [|done]. destruct H2 as [H2| ->]; [|by left].
  left. by apply (compare_lt_trans s t u).
Qed.

#[export] Instance le_antisym : AntiSymm eq le.
Proof.
  intros s t H1 H2. unfold le in *. apply leb_cases in H1, H2.
  destruct H1 as [H1|]; [|done]. destruct H2 as [H2|]; [|done].
  pose proof (compare_lt_trans _ _ _ H1 H2) as H. by rewrite compare_refl in H.
Qed.

#[export] Instance le_total : Total le.
Proof.
  intros s t. unfold le, leb. rewrite (String.compare_antisym t s).
  destruct (String.compare s t); simpl; auto.
Qed.

Lemma sort_perm l : sort l ≡ₚ l.
Proof. apply merge_sort_Permutation. Qed.

(** Sorting forgets the order of its argument. *)
Lemma sort_proper l1 l2 : l1 ≡ₚ l2 → sort l1 = sort l2.
Proof.
  intros H. apply (Sorted_unique le); [apply Sorted_merge_sort; apply _..|].
  by rewrite !sort_perm.
Qed.

Lemma ltb_spec s t : ltb s t = true ↔ String.compare s t = Lt.
Proof. unfold ltb. by destruct (String.compare s t). Qed.

Lemma ltb_irrefl s : ltb s s = false.
Proof. unfold ltb. by rewrite compare_refl. Qed.

Lemma leb_ltb s t : leb s t = negb (ltb t s).
Proof.
  unfold leb, ltb. rewrite (String.compare_antisym t s).
  by destruct (String.compare s t).
Qed.

End Str.

(** The verb %q of [fmt] escapes what the Unicode tables call unprintable; the
    program writes it into messages and never reads it back. The tables are not
    part of the development: the escaping is a parameter. *)
Class GoQuote : Type := { Quote : string → string }.

(** A concrete instance, for the evaluation of examples: text without anything
    to escape. *)
Definition plain_quote : GoQuote := {| Quote := Str.quoted |}.
