(* ===== verification/GoFloat.v ===== *)
(** * Go's float64

    IEEE 754 binary64 arithmetic, rounding to nearest with ties to even, as the
    Standard Library's executable specification [SpecFloat] gives it, and the
    conversions the program uses: [float64(x)] of an [int64], [int64(f)] of a
    float, [math.Ceil] and the rounding of a decimal literal.

    The language leaves [int64(f)] to the implementation when the truncated
    value does not fit: that part is the class [GoArch]. *)

From S2P Require Export GoStrings.
From Stdlib Require Export SpecFloat.
From stdpp Require Export sorting base option gmap strings list fin_maps.

Open Scope Z_scope.

(** The result of [int64(f)] for a float that does not fit in an [int64]. *)
Class GoArch : Type := {
  cvt_overflow : spec_float → Z;
  cvt_overflow_range : forall f, in_int64 (cvt_overflow f)
}.

(** amd64 answers the smallest integer. *)
Definition amd64 : GoArch.
Proof. refine {| cvt_overflow _ := min_int64 |}. intros _. by vm_compute. Defined.

(** arm64 saturates, and maps a NaN to zero. *)
Definition arm64 : GoArch.
Proof.
  refine {| cvt_overflow f := match f with
                              | S754_nan => 0
                              | S754_infinity true | S754_finite true _ _ => min_int64
                              | _ => max_int64
                              end |}.
  intros f. destruct f as [|[]| |[]]; by vm_compute.
Defined.

Module F64.

Definition prec : Z := 53.
Definition emax : Z := 1024.

Abbreviation t := spec_float.

(** ** Operations *)

Definition add : t → t → t := SFadd prec emax.
Definition sub : t → t → t := SFsub prec emax.
Definition mul : t → t → t := SFmul prec emax.
Definition div : t → t → t := SFdiv prec emax.
(** [x < y] and [x <= y]; [x > y] is [lt y x]. *)
Definition lt : t → t → bool := SFltb.
Definition le : t → t → bool := SFleb.

(** [float64(z)]. *)
Definition of_Z (z : Z) : t := binary_normalize prec emax z 0 false.

(** The integer part of a finite float, towards zero. *)
Definition trunc (m : positive) (e : Z) : Z :=
  if 0 <=? e then Z.pos m * 2 ^ e else Z.pos m / 2 ^ (- e).

Definition cond_opp (s : bool) (z : Z) : Z := if s then - z else z.

(** [int64(f)]. *)
Definition to_int64 {GA : GoArch} (f : t) : Z :=
  match f with
  | S754_zero _ => 0
  | S754_finite s m e =>
      let z := cond_opp s (trunc m e) in
      if decide (in_int64 z) then z else cvt_overflow f
  | _ => cvt_overflow f
  end.

(** [math.Ceil]. A finite float with a non-negative exponent is an integer. *)
Definition ceil (f : t) : t :=
  match f with
  | S754_finite s m e =>
      if 0 <=? e then f
      else
        let q := Z.pos m / 2 ^ (- e) in
        if s then (if q =? 0 then S754_zero true else of_Z (- q))
        else of_Z (if Z.pos m mod 2 ^ (- e) =? 0 then q else q + 1)
  | _ => f
  end.

(** The float nearest to [m / d] for [m, d > 0], with sign [s]. *)
Definition round_ratio (s : bool) (m d : positive) : t :=
  let '(mz, ez, lz) := SFdiv_core_binary prec emax (Z.pos m) 0 (Z.pos d) 0 in
  binary_round_aux prec emax s mz ez lz.

(** The float nearest to the decimal number [(-1)^s * m * 10^k]. *)
Definition of_decimal (s : bool) (m : Z) (k : Z) : t :=
  match m with
  | Z.pos p =>
      if 0 <=? k then binary_round prec emax s (p * Z.to_pos (10 ^ k)) 0
      else round_ratio s p (Z.to_pos (10 ^ (- k)))
  | _ => S754_zero s
  end.

Definition is_inf (f : t) : bool := match f with S754_infinity _ => true | _ => false end.

(** The constants of the source. *)
Definition zero : t := S754_zero false.
Definition one : t := of_Z 1.

End F64.

(** ** [strconv.ParseFloat(s, 64)]

    Decimal and hexadecimal literals with an optional sign, fraction, exponent
    and underscores between digits, and the names of the infinities and of NaN.
    The result is the float nearest to the number written; a number too large
    for the format is an error. *)
Module ParseFloat.

Definition hex_digit (c : ascii) : option Z :=
  if Str.is_digit c then Some (Str.digit_value c)
  else let n := Z.of_N (N_of_ascii (Str.lower c)) in
       if (97 <=? n) && (n <=? 102) then Some (n - 87) else None.

Definition dec_digit (c : ascii) : option Z :=
  if Str.is_digit c then Some (Str.digit_value c) else None.

Record mantissa := {
  mant : Z;           (* all digits read, as one integer *)
  frac : Z;           (* how many of them follow the dot *)
  saw_dot : bool;
  saw_digits : bool
}.

Fixpoint read_mantissa (digit : ascii → option Z) (base : Z) (m : mantissa) (s : string)
    : mantissa * string :=
  match s with
  | EmptyString => (m, s)
  | String c s' =>
      if Ascii.eqb c "_" then read_mantissa digit base m s'
      else if Ascii.eqb c "." then
        if saw_dot m then (m, s)
        else read_mantissa digit base
               {| mant := mant m; frac := frac m; saw_dot := true; saw_digits := saw_digits m |} s'
      else match digit c with
           | Some d =>
               read_mantissa digit base
                 {| mant := base * mant m + d;
                    frac := if saw_dot m then frac m + 1 else frac m;
                    saw_dot := saw_dot m; saw_digits := true |} s'
           | None => (m, s)
           end
  end.

(** Exponent digits: values of 10000 and more take no further digit. *)
Fixpoint read_exponent (e : Z) (s : string) : Z * string :=
  match s with
  | EmptyString => (e, s)
  | String c s' =>
      if Ascii.eqb c "_" then read_exponent e s'
      else if Str.is_digit c then
        read_exponent (if e <? 10000 then 10 * e + Str.digit_value c else e) s'
      else (e, s)
  end.

Definition signed_exponent (s : string) : option (Z * string) :=
  let '(neg, s) := match s with
                   | String "+" s' => (false, s')
                   | String "-" s' => (true, s')
                   | _ => (false, s)
                   end in
  match s with
  | String c _ =>
      if Str.is_digit c then
        let '(e, r) := read_exponent 0 s in Some (if neg then - e else e, r)
      else None
  | EmptyString => None
  end.

(** The character before: the start, a digit, an underscore or anything else. *)
Inductive prev := PStart | PDigit | PUnder | POther.

Fixpoint underscore_scan (hex : bool) (i : prev) (s : string) : bool :=
  match s with
  | EmptyString => match i with PUnder => false | _ => true end
  | String c s' =>
      match (if hex then hex_digit c else dec_digit c) with
      | Some _ => underscore_scan hex PDigit s'
      | None =>
          if Ascii.eqb c "_" then
            match i with PDigit => underscore_scan hex PUnder s' | _ => false end
          else match i with PUnder => false | _ => underscore_scan hex POther s' end
      end
  end.

Definition strip_sign (s : string) : bool * string :=
  match s with
  | String "+" s' => (false, s')
  | String "-" s' => (true, s')
  | _ => (false, s)
  end.

(** [s] has no sign. *)
Definition underscoreOK (s : string) : bool :=
  match s with
  | String "0" (String c s') =>
      let l := Str.lower c in
      if (Ascii.eqb l "b" || Ascii.eqb l "o" || Ascii.eqb l "x")%char
      then underscore_scan (Ascii.eqb l "x") PDigit s'
      else underscore_scan false PStart s
  | _ => underscore_scan false PStart s
  end.

Definition start : mantissa := {| mant := 0; frac := 0; saw_dot := false; saw_digits := false |}.

Definition read_hex (neg : bool) (s : string) : option F64.t :=
  let '(m, r) := read_mantissa hex_digit 16 start s in
  if negb (saw_digits m) then None else
  match r with
  | String c r' =>
      if Ascii.eqb (Str.lower c) "p" then
        match signed_exponent r' with
        | Some (e, EmptyString) =>
            match mant m with
            | Z.pos p => Some (binary_round F64.prec F64.emax neg p (e - 4 * frac m))
            | _ => Some (S754_zero neg)
            end
        | _ => None
        end
      else None
  | EmptyString => None
  end.

Definition read_decimal (neg : bool) (s : string) : option F64.t :=
  let '(m, r) := read_mantissa dec_digit 10 start s in
  if negb (saw_digits m) then None else
  match r with
  | EmptyString => Some (F64.of_decimal neg (mant m) (- frac m))
  | String c r' =>
      if Ascii.eqb (Str.lower c) "e" then
        match signed_exponent r' with
        | Some (e, EmptyString) => Some (F64.of_decimal neg (mant m) (e - frac m))
        | _ => None
        end
      else None
  end.

Definition read_number (neg : bool) (s : string) : option F64.t :=
  if negb (underscoreOK s) then None else
  match s with
  | String "0" (String c (String d s')) =>
      if Ascii.eqb (Str.lower c) "x" then read_hex neg (String d s') else read_decimal neg s
  | _ => read_decimal neg s
  end.

Definition parse (s : string) : option F64.t :=
  let '(neg, r) := strip_sign s in
  if Str.EqualFold r "inf" || Str.EqualFold r "infinity" then Some (S754_infinity neg)
  else if Str.EqualFold s "nan" then Some S754_nan
  else match read_number neg r with
       | Some f => if F64.is_inf f then None else Some f
       | None => None
       end.

End ParseFloat.
