(* ===== verification/GoFloatFacts.v ===== *)
(** * Facts about float64

    The rounding of [SpecFloat] is the nearest representable number, it is
    monotone, and it is the identity on representable numbers. Values are
    compared as integers, scaled by [2^5000]: every exponent met by one
    operation on binary64 numbers is above [-5000]. *)

From S2P Require Export GoFloat.
From stdpp Require Export sorting base option gmap strings list fin_maps.

Open Scope Z_scope.

Module F64Facts.
Import F64.

(** ** Scaled values *)

Definition scale : Z := 5000.
(** [m * 2^e], scaled. *)
Definition V (m e : Z) : Z := m * 2 ^ (e + scale).

(** A number of the format: at most 53 bits, exponent in range. *)
Definition repr (m e : Z) : Prop := 0 <= m < 2 ^ 53 ∧ -1074 <= e <= 971.

Definition digs (m : Z) : Z := Zdigits2 m.
Definition fx (e : Z) : Z := fexp prec emax e.

(** [n / D] is [m] plus the fraction that the rounding and sticky bits record. *)
Definition located (n D m : Z) (r s : bool) : Prop :=
  m * D <= n < (m + 1) * D ∧
  match r, s with
  | false, false => n = m * D
  | false, true => m * D < n ∧ 2 * (n - m * D) < D
  | true, false => 2 * (n - m * D) = D
  | true, true => D < 2 * (n - m * D)
  end.

Definition located_rec (n D : Z) (mrs : shr_record) : Prop :=
  0 <= shr_m mrs ∧ located n D (shr_m mrs) (shr_r mrs) (shr_s mrs).

(** The value of a zero or a finite number. *)
Definition value (f : spec_float) : option Z :=
  match f with
  | S754_zero _ => Some 0
  | S754_finite s m e => Some (cond_opp s (V (Z.pos m) e))
  | _ => None
  end.

Lemma digits2_bounds m : 2 ^ (Z.pos (digits2_pos m) - 1) <= Z.pos m < 2 ^ Z.pos (digits2_pos m).
Proof.
  induction m as [m IH|m IH|]; cbn [digits2_pos]; [..|done];
    rewrite Pos2Z.inj_succ, Z.pow_succ_r, Z.sub_1_r, Z.pred_succ by lia;
    pose proof (Z.pow_succ_r 2 (Z.pos (digits2_pos m) - 1) ltac:(lia)) as Hp;
    replace (Z.succ (Z.pos (digits2_pos m) - 1)) with (Z.pos (digits2_pos m)) in Hp by lia;
    lia.
Qed.

Lemma digs_bounds m : 0 < m → 2 ^ (digs m - 1) <= m < 2 ^ digs m.
Proof. destruct m; try lia. intros _. apply digits2_bounds. Qed.

Lemma digs_pos m : 0 < m → 0 < digs m.
Proof. destruct m; simpl; lia. Qed.

Lemma digs_unique m k : 0 < k → 2 ^ (k - 1) <= m < 2 ^ k → digs m = k.
Proof.
  intros Hk H. assert (0 < 2 ^ (k - 1)) by (apply Z.pow_pos_nonneg; lia).
  pose proof (digs_bounds m ltac:(lia)) as Hd. pose proof (digs_pos m ltac:(lia)).
  destruct (Z.lt_trichotomy (digs m) k) as [Hlt|[?|Hlt]]; [|done|].
  - pose proof (Z.pow_le_mono_r 2 (digs m) (k - 1)). lia.
  - pose proof (Z.pow_le_mono_r 2 k (digs m - 1)). lia.
Qed.

Lemma digs_le m k : 0 <= k → 0 <= m < 2 ^ k → digs m <= k.
Proof.
  intros Hk H. destruct (decide (m = 0)) as [->|]; [simpl; lia|].
  pose proof (digs_bounds m ltac:(lia)) as Hd.
  destruct (Z.le_gt_cases (digs m) k) as [|Hlt]; [done|].
  pose proof (Z.pow_le_mono_r 2 k (digs m - 1)). lia.
Qed.

Lemma V_shift m e k : 0 <= k → 0 <= e + scale → V (m * 2 ^ k) e = V m (e + k).
Proof. intros. unfold V. rewrite <- Z.mul_assoc, <- Z.pow_add_r by lia. do 2 f_equal. lia. Qed.

Lemma V_unit_pos e : 0 <= e + scale → 0 < V 1 e.
Proof. intros. unfold V. assert (0 < 2 ^ (e + scale)) by (apply Z.pow_pos_nonneg; lia). lia. Qed.

Lemma V_unit_add e j : 0 <= j → 0 <= e + scale → V 1 (e + j) = 2 ^ j * V 1 e.
Proof.
  intros. unfold V. replace (e + j + scale) with (j + (e + scale)) by lia.
  rewrite Z.pow_add_r by lia. ring.
Qed.

Lemma V_mul m e : V m e = m * V 1 e.
Proof. unfold V. lia. Qed.

(** ** Shifting right *)

Lemma located_halve n D m b r s :
  0 < D → located n D (2 * m + Z.b2z b) r s → located n (2 * D) m b (r || s).
Proof.
  unfold located. intros HD.
  replace ((2 * m + Z.b2z b) * D) with (2 * (m * D) + Z.b2z b * D) by ring.
  replace ((2 * m + Z.b2z b + 1) * D) with (2 * (m * D) + Z.b2z b * D + D) by ring.
  replace (m * (2 * D)) with (2 * (m * D)) by ring.
  replace ((m + 1) * (2 * D)) with (2 * (m * D) + 2 * D) by ring.
  generalize (m * D). intros x. destruct b, r, s; cbn -[Z.mul Z.add Z.sub]; lia.
Qed.

Lemma shr_1_located n D mrs : 0 < D → located_rec n D mrs → located_rec n (2 * D) (shr_1 mrs).
Proof.
  intros HD [Hm Hl]. destruct mrs as [m r s]; cbn [shr_m shr_r shr_s] in *.
  destruct m as [|p|p]; [| |lia].
  - split; [simpl; lia|]. apply (located_halve n D 0 false); done.
  - destruct p as [p|p|]; (split; [simpl; lia|]).
    + apply (located_halve n D (Z.pos p) true); done.
    + apply (located_halve n D (Z.pos p) false); [done|].
      cbn [Z.b2z]. by rewrite Z.add_0_r, <- Pos2Z.inj_xO.
    + apply (located_halve n D 0 true); done.
Qed.

Lemma pow2_twice p D : 2 ^ Z.pos p * (2 ^ Z.pos p * D) = 2 ^ Z.pos p~0 * D.
Proof.
  rewrite Z.mul_assoc, <- Z.pow_add_r by lia. f_equal. f_equal. lia.
Qed.

Lemma iter_shr_located p n D mrs :
  0 < D → located_rec n D mrs →
  located_rec n (2 ^ Z.pos p * D) (SpecFloat.iter_pos shr_1 p mrs).
Proof.
  revert D mrs. induction p as [p IH|p IH|]; intros D mrs HD H; cbn [SpecFloat.iter_pos].
  - assert (0 < 2 ^ Z.pos p) by (apply Z.pow_pos_nonneg; lia).
    replace (2 ^ Z.pos p~1 * D) with (2 ^ Z.pos p * (2 ^ Z.pos p * (2 * D))).
    + apply IH; [nia|]. apply IH; [lia|]. by apply shr_1_located.
    + rewrite pow2_twice. change (Z.pos p~1) with (Z.pos p~0 + 1).
      rewrite Z.pow_add_r by lia. rewrite Z.pow_1_r. ring.
  - assert (0 < 2 ^ Z.pos p) by (apply Z.pow_pos_nonneg; lia).
    rewrite <- pow2_twice. apply IH; [nia|]. by apply IH.
  - by apply shr_1_located in H.
Qed.

Lemma shr_located mrs e k n D mrs' e' :
  0 < D → 0 <= k → located_rec n D mrs → shr mrs e k = (mrs', e') →
  e' = e + k ∧ located_rec n (2 ^ k * D) mrs'.
Proof.
  intros HD Hk H. unfold shr. destruct k as [|p|p]; [..|lia]; intros [= <- <-].
  - split; [lia|]. by rewrite Z.pow_0_r, Z.mul_1_l.
  - split; [done|]. by apply iter_shr_located.
Qed.

Lemma located_of_loc n D m l :
  0 <= m → located n D m (shr_r (shr_record_of_loc m l)) (shr_s (shr_record_of_loc m l)) →
  located_rec n D (shr_record_of_loc m l).
Proof. intros Hm H. split; destruct l as [|[]]; done. Qed.

(** ** The shape of a rounded result *)

(** Round to nearest, ties to even, from the two recorded bits. *)
Definition rne (m : Z) (r s : bool) : Z :=
  if r then (if s then m + 1 else if Z.even m then m else m + 1) else m.

(** The float with mantissa [m <= 2^53] at exponent [e]. *)
Definition pack (s : bool) (m e : Z) : spec_float :=
  match m with
  | Z.pos p =>
      if m =? 2 ^ 53 then
        if e + 1 <=? 971 then S754_finite s (2 ^ 52) (e + 1) else S754_infinity s
      else if e <=? 971 then S754_finite s p e else S754_infinity s
  | _ => S754_zero s
  end.

Lemma fx_max e : fx e = Z.max (e - 53) (-1074).
Proof. done. Qed.

(** A mantissa of at most 53 bits at an exponent [e >= -1074] needs no shift. *)
Lemma no_shift m e : 0 <= m < 2 ^ 53 → -1074 <= e → fx (digs m + e) - e <= 0.
Proof. intros Hm He. pose proof (digs_le m 53 ltac:(lia) Hm). rewrite fx_max. lia. Qed.

Lemma shr_exact_small m e :
  0 <= m < 2 ^ 53 → -1074 <= e →
  shr_fexp prec emax m e loc_Exact = (Build_shr_record m false false, e).
Proof.
  intros Hm He. pose proof (no_shift m e Hm He) as Hs. unfold shr_fexp.
  change (fexp prec emax (Z.add (Zdigits2 m) e)) with (fx (digs m + e)).
  unfold shr. by destruct (Z.sub _ _) eqn:E; [..|].
Qed.

Lemma shr_exact_carry e :
  -1074 <= e →
  shr_fexp prec emax (2 ^ 53) e loc_Exact = (Build_shr_record (2 ^ 52) false false, e + 1).
Proof.
  intros He. unfold shr_fexp.
  change (fexp prec emax (Z.add (Zdigits2 (2 ^ 53)) e)) with (fx (54 + e)).
  rewrite fx_max. replace (Z.max (54 + e - 53) (-1074) - e) with 1 by lia. done.
Qed.

Lemma rne_bounds m r s : m <= rne m r s <= m + 1.
Proof. unfold rne. destruct r, s; [| destruct (Z.even m)|..]; lia. Qed.

Lemma loc_of_shr_rne mrs :
  round_nearest_even (shr_m mrs) (loc_of_shr_record mrs) =
  rne (shr_m mrs) (shr_r mrs) (shr_s mrs).
Proof. by destruct mrs as [m [] []]. Qed.

(** The exponent and the mantissa that [binary_round_aux] reaches. *)
Record rounding (n D mx ex : Z) (k m : Z) (r s : bool) : Prop := {
  rd_shift : 0 <= k;
  rd_exp : ex + k = fx (digs mx + ex);
  rd_loc : located n (2 ^ k * D) m r s;
  rd_mant : 0 <= m < 2 ^ 53;
  rd_norm : -1074 < ex + k → 2 ^ 52 <= m
}.

Lemma round_aux_rounding n D mx ex l sx :
  0 < D → 0 < mx → ex <= fx (digs mx + ex) →
  located_rec n D (shr_record_of_loc mx l) →
  ∃ k m r s, rounding n D mx ex k m r s ∧
    binary_round_aux prec emax sx mx ex l = pack sx (rne m r s) (ex + k).
Proof.
  intros HD Hmx Hex Hloc. unfold binary_round_aux, shr_fexp at 1.
  change (fexp prec emax (Z.add (Zdigits2 mx) ex)) with (fx (digs mx + ex)).
  set (k := fx (digs mx + ex) - ex).
  assert (Hk : 0 <= k) by lia. assert (Hek : ex + k = fx (digs mx + ex)) by lia.
  destruct (shr (shr_record_of_loc mx l) ex k) as [mrs' e'] eqn:Hshr.
  destruct (shr_located _ _ _ _ _ _ _ HD Hk Hloc Hshr) as [-> [Hm Hl]].
  assert (HP : 0 < 2 ^ k) by (apply Z.pow_pos_nonneg; lia).
  assert (Hmx0 : mx * D <= n < (mx + 1) * D).
  { destruct Hloc as [_ [Hb _]]. by destruct l as [|[]]. }
  pose proof (digs_bounds mx Hmx) as Hdg. pose proof (digs_pos mx Hmx) as Hd0.
  pose proof (proj1 Hl) as Hb. rewrite loc_of_shr_rne.
  remember (shr_m mrs') as m eqn:Em.
  assert (Hup : m < 2 ^ 53).
  { assert (2 ^ digs mx <= 2 ^ (53 + k)) as Hpw.
    { apply Z.pow_le_mono_r; [lia|]. rewrite fx_max in Hek. lia. }
    rewrite Z.pow_add_r in Hpw by lia. nia. }
  assert (Hlow : -1074 < ex + k → 2 ^ 52 <= m).
  { intros Hn. assert (k = digs mx - 53) as Hkd by (rewrite fx_max in Hek; lia).
    assert (2 ^ (digs mx - 1) = 2 ^ 52 * 2 ^ k) as Hpw.
    { rewrite <- Z.pow_add_r by lia. f_equal. lia. }
    rewrite Hpw in Hdg. nia. }
  exists k, m, (shr_r mrs'), (shr_s mrs'). split; [by constructor|].
  pose proof (rne_bounds m (shr_r mrs') (shr_s mrs')) as Hr.
  assert (He1 : -1074 <= ex + k) by (rewrite Hek, fx_max; lia).
  destruct (decide (rne m (shr_r mrs') (shr_s mrs') = 2 ^ 53)) as [Hc|Hc].
  - rewrite Hc, shr_exact_carry by done. done.
  - rewrite shr_exact_small by lia. cbn [shr_m]. unfold pack.
    destruct (rne m _ _) as [|p|p]; [done| |lia].
    destruct (Z.eqb_spec (Z.pos p) (2 ^ 53)); [lia|done].
Qed.

(** ** The result is the nearest representable number *)

Definition canon (m e : Z) : Prop := 0 < m ∧ fx (digs m + e) = e ∧ e <= 971.

(** [f] is a float, not negative, as IEEE 754 stores it. *)
Definition nonneg (f : spec_float) : Prop :=
  match f with
  | S754_zero _ => True
  | S754_finite false m e => canon (Z.pos m) e
  | _ => False
  end.

(** A number of the format with an exponent up to [e] lies below [2^53 * 2^e],
    and one with 53 bits and a larger exponent does not. *)
Lemma V_lt_exp x y e : 0 <= x < 2 ^ 53 → -1074 <= y <= e → V x y < 2 ^ 53 * V 1 e.
Proof.
  intros Hx Hy. unfold V, scale. pose proof (Z.pow_le_mono_r 2 (y + 5000) (e + 5000) ltac:(lia) ltac:(lia)).
  assert (0 < 2 ^ (y + 5000)) by (apply Z.pow_pos_nonneg; lia). nia.
Qed.

Lemma V_above_exp q x e : -1074 <= e < x → 2 ^ 52 <= q → 2 ^ 53 * V 1 e <= q * V 1 x.
Proof.
  intros Hx Hq. replace x with (e + (x - e - 1 + 1)) by lia.
  rewrite V_unit_add by (unfold scale; lia). rewrite Z.pow_add_r by lia.
  assert (0 < 2 ^ (x - e - 1)) by (apply Z.pow_pos_nonneg; lia).
  pose proof (V_unit_pos e ltac:(unfold scale; lia)).
  assert (2 ^ 52 * 1 <= q * 2 ^ (x - e - 1)) by (apply Z.mul_le_mono_nonneg; lia).
  change (2 ^ 53) with (2 ^ 52 * 2). nia.
Qed.

(** [f] is the rounding of [n / d]: it lies on the same side of every number of
    the format, and no number of the format is closer. *)
Record rounds_to (n d : Z) (f : spec_float) : Prop := {
  rt_ge : ∀ m e, repr m e → V m e * d <= n →
            f = S754_infinity false ∨ ∃ z, value f = Some z ∧ V m e <= z;
  rt_le : ∀ m e, repr m e → n <= V m e * d →
            nonneg f ∧ ∃ z, value f = Some z ∧ z <= V m e;
  rt_near : ∀ z m e, value f = Some z → repr m e → Z.abs (n - d * z) <= Z.abs (n - d * V m e)
}.

Lemma canon_repr m e : canon m e → repr m e.
Proof.
  intros (Hm & Hf & He). rewrite fx_max in Hf. pose proof (digs_bounds m Hm).
  split; [|lia]. pose proof (Z.pow_le_mono_r 2 (digs m) 53 ltac:(lia) ltac:(lia)). lia.
Qed.

Lemma nonneg_value f : nonneg f → ∃ m e, repr m e ∧ value f = Some (V m e).
Proof.
  destruct f as [s| | |[] m e]; try done.
  - intros _. exists 0, 0. by split.
  - intros H. exists (Z.pos m), e. split; [by apply canon_repr|done].
Qed.

Lemma repr_gap m e E :
  repr m e → -1074 <= E →
  (∃ j, V m e = j * V 1 E) ∨ (-1074 < E ∧ V m e < 2 ^ 52 * V 1 E).
Proof.
  intros [Hm He] HE. destruct (Z.le_gt_cases E e) as [Hle|Hlt].
  - left. exists (m * 2 ^ (e - E)). rewrite <- V_mul, V_shift by (unfold scale; lia).
    f_equal. lia.
  - right. split; [lia|]. unfold V, scale.
    assert (2 ^ (E + 5000) = 2 ^ (E - e) * 2 ^ (e + 5000)) as ->.
    { rewrite <- Z.pow_add_r by lia. f_equal. lia. }
    assert (0 < 2 ^ (e + 5000)) by (apply Z.pow_pos_nonneg; lia).
    pose proof (Z.pow_le_mono_r 2 1 (E - e) ltac:(lia) ltac:(lia)). nia.
Qed.

Section rounding_values.
  Context (n d mx ex k m : Z) (r s : bool).
  Context (Hd : 0 < d) (Hex : -4000 <= ex).
  Context (R : rounding n (d * V 1 ex) mx ex k m r s).

Let E := ex + k.
Let U := V 1 E.

Lemma rv_exp : -1074 <= E.
Proof using R. unfold E. rewrite (rd_exp _ _ _ _ _ _ _ _ R), fx_max. lia. Qed.

Lemma rv_unit : 0 < U.
Proof using R. apply V_unit_pos. pose proof rv_exp. unfold scale. lia. Qed.

Lemma rv_loc : located n (d * U) m r s.
Proof using R Hex.
  replace (d * U) with (2 ^ k * (d * V 1 ex)); [exact (rd_loc _ _ _ _ _ _ _ _ R)|].
  unfold U, E. pose proof (rd_shift _ _ _ _ _ _ _ _ R).
  rewrite V_unit_add by (unfold scale; lia). ring.
Qed.

Lemma rv_cases x y :
  repr x y → (∃ j, V x y = j * U) ∨ V x y < m * U.
Proof using R.
  intros Hr. destruct (repr_gap x y E Hr rv_exp) as [?|[HE Hlt]]; [by left|right].
  pose proof (rd_norm _ _ _ _ _ _ _ _ R HE). pose proof rv_unit. fold U in Hlt. nia.
Qed.

Lemma rv_ge x y : repr x y → V x y * d <= n → V x y <= rne m r s * U.
Proof using R Hd Hex.
  intros Hr Hle. pose proof (rne_bounds m r s). pose proof rv_unit.
  destruct (rv_cases x y Hr) as [[j Hj]|Hlt]; [|nia].
  pose proof (proj1 rv_loc) as Hb. rewrite Hj in *.
  assert (j < m + 1) by nia. nia.
Qed.

Lemma rv_le x y : repr x y → n <= V x y * d → rne m r s * U <= V x y.
Proof using R Hd Hex.
  intros Hr Hle. pose proof (rne_bounds m r s). pose proof rv_unit.
  pose proof rv_loc as [Hb Hl]. destruct (rv_cases x y Hr) as [[j Hj]|Hlt]; [|nia].
  rewrite Hj in *. assert (0 < d * U) by nia.
  assert (r = false ∧ s = false ∨ m < j) as [[-> ->]|Hmj].
  { destruct r, s; [right|right|right|left]; try done;
      assert (m * (d * U) < n) by lia; nia. }
  - simpl rne. nia.
  - nia.
Qed.

Lemma rv_near x y :
  repr x y → Z.abs (n - d * (rne m r s * U)) <= Z.abs (n - d * V x y).
Proof using R Hd Hex.
  intros Hr. pose proof rv_unit. pose proof rv_loc as [Hb Hl].
  assert (d * V x y <= d * (m * U) ∨ d * ((m + 1) * U) <= d * V x y) as Hx.
  { destruct (rv_cases x y Hr) as [[j ->]|Hlt]; [|left; nia].
    destruct (Z.le_gt_cases j m); [left|right]; nia. }
  replace (d * ((m + 1) * U)) with (m * (d * U) + d * U) in Hx by ring.
  replace (d * (m * U)) with (m * (d * U)) in Hx by ring.
  replace ((m + 1) * (d * U)) with (m * (d * U) + d * U) in Hb by ring.
  replace (d * (rne m r s * U)) with (m * (d * U) + (rne m r s - m) * (d * U)) by ring.
  assert (0 < d * U) by nia. unfold rne. generalize dependent (m * (d * U)).
  generalize dependent (d * U). generalize dependent (d * V x y). intros.
  destruct r, s; [|destruct (Z.even m)|..];
    replace (m + 1 - m) with 1 by lia; rewrite ?Z.sub_diag; lia.
Qed.

Lemma rv_pack : -1074 < E → 2 ^ 52 <= rne m r s.
Proof using R.
  intros HE. pose proof (rd_norm _ _ _ _ _ _ _ _ R HE). pose proof (rne_bounds m r s). lia.
Qed.
End rounding_values.

Lemma pack_value q E :
  0 <= q <= 2 ^ 53 → -1074 <= E →
  (pack false q E = S754_infinity false ∧ (971 < E ∨ E = 971 ∧ q = 2 ^ 53)) ∨
  value (pack false q E) = Some (q * V 1 E).
Proof.
  intros Hq HE. unfold pack. destruct q as [|p|p]; [by right|..|lia].
  destruct (Z.eqb_spec (Z.pos p) (2 ^ 53)) as [->|Hne].
  - destruct (Z.leb_spec (E + 1) 971); [right|left; split; [done|lia]].
    simpl value. f_equal. change (V (2 ^ 52) (E + 1) = 2 ^ 53 * V 1 E).
    rewrite V_mul, V_unit_add by (unfold scale; lia). change (2 ^ 53) with (2 ^ 52 * 2 ^ 1). ring.
  - destruct (Z.leb_spec E 971); [right|left; split; [done|lia]].
    simpl value. by rewrite V_mul.
Qed.

Lemma pack_nonneg q E :
  0 <= q <= 2 ^ 53 → -1074 <= E → (-1074 < E → 2 ^ 52 <= q) →
  pack false q E = S754_infinity false ∨ nonneg (pack false q E).
Proof.
  intros Hq HE Hn. unfold pack. destruct q as [|p|p]; [by right|..|lia].
  destruct (Z.eqb_spec (Z.pos p) (2 ^ 53)) as [Hp|Hne].
  - destruct (Z.leb_spec (E + 1) 971); [right|by left].
    split; [done|]. rewrite fx_max. change (digs (Z.pos (2 ^ 52))) with 53. lia.
  - destruct (Z.leb_spec E 971); [right|by left]. split; [done|]. rewrite fx_max.
    pose proof (digs_le (Z.pos p) 53 ltac:(lia) ltac:(lia)).
    destruct (decide (E = -1074)) as [->|]; [split; [|done]|].
    + pose proof (digs_pos (Z.pos p)). lia.
    + rewrite (digs_unique (Z.pos p) 53); [lia|lia|]. change (2 ^ (53 - 1)) with (2 ^ 52). lia.
Qed.

Theorem round_aux_rounds n d mx ex l :
  0 < d → 0 < mx → -4000 <= ex → ex <= fx (digs mx + ex) →
  located_rec n (d * V 1 ex) (shr_record_of_loc mx l) →
  rounds_to n d (binary_round_aux prec emax false mx ex l).
Proof.
  intros Hd Hmx Hex Hal Hloc. pose proof (V_unit_pos ex ltac:(unfold scale; lia)).
  destruct (round_aux_rounding n (d * V 1 ex) mx ex l false ltac:(nia) Hmx Hal Hloc)
    as (k & m & r & s & R & ->).
  pose proof (rv_exp _ _ _ _ _ _ _ _ R) as HE.
  pose proof (rne_bounds m r s) as Hq. pose proof (rd_mant _ _ _ _ _ _ _ _ R) as Hm.
  pose proof (rv_pack _ _ _ _ _ _ _ _ R) as Hn.
  pose proof (pack_value (rne m r s) (ex + k) ltac:(lia) HE) as Hpv.
  pose proof (pack_nonneg (rne m r s) (ex + k) ltac:(lia) HE Hn) as Hpn.
  split.
  - intros x y Hr Hle. destruct Hpv as [[-> _]| ->]; [by left|right].
    eexists; split; [done|]. exact (rv_ge _ _ _ _ _ _ _ _ Hd Hex R x y Hr Hle).
  - intros x y Hr Hle. pose proof (rv_le _ _ _ _ _ _ _ _ Hd Hex R x y Hr Hle) as Hz.
    destruct Hpv as [[-> Hinf]|Hpv]; [exfalso|].
    + destruct Hr as [Hx Hy].
      pose proof (V_lt_exp x y 971 Hx ltac:(lia)) as Hmax.
      assert (Hbig : 2 ^ 53 * V 1 971 <= rne m r s * V 1 (ex + k)); [|lia].
      destruct Hinf as [Hlt|[-> ->]]; [|done].
      apply V_above_exp; [done|apply Hn; lia].
    + split; [|rewrite Hpv; eauto]. destruct Hpn as [Hpn|]; [by rewrite Hpn in Hpv|done].
  - intros z x y Hv Hr. destruct Hpv as [[Heq _]|Hpv]; [by rewrite Heq in Hv|].
    rewrite Hpv in Hv. injection Hv as <-. exact (rv_near _ _ _ _ _ _ _ _ Hd Hex R x y Hr).
Qed.

(** ** Operations *)

Lemma rounds_exact m e f :
  repr m e → rounds_to (V m e) 1 f → nonneg f ∧ value f = Some (V m e).
Proof.
  intros Hr [Hge Hle _]. destruct (Hle m e Hr ltac:(lia)) as [Hn (z & Hz & Hz1)].
  split; [done|]. destruct (Hge m e Hr ltac:(lia)) as [->|(z' & Hz' & Hz2)]; [done|].
  rewrite Hz in *. simplify_eq. f_equal. lia.
Qed.

Lemma rounds_zero s : rounds_to 0 1 (S754_zero s).
Proof.
  assert (H0 : ∀ m e, repr m e → 0 <= V m e).
  { intros m e [Hm He]. unfold V. assert (0 < 2 ^ (e + scale)); [|nia].
    apply Z.pow_pos_nonneg; unfold scale; lia. }
  split.
  - intros m e Hr Hle. right. exists 0. split; [done|]. lia.
  - intros m e Hr _. split; [done|]. exists 0. split; [done|]. by apply H0.
  - intros z m e [= <-] Hr. lia.
Qed.

Lemma iter_xO p k : Z.pos (Pos.iter xO p k) = Z.pos p * 2 ^ Z.pos k.
Proof.
  revert p. induction k as [|k IH] using Pos.peano_ind; intros p; [simpl; lia|].
  rewrite Pos.iter_succ, Pos2Z.inj_xO, IH, Pos2Z.inj_succ, Z.pow_succ_r by lia. lia.
Qed.

Lemma digs_shift m k : 0 < m → 0 <= k → digs (m * 2 ^ k) = digs m + k.
Proof.
  intros Hm Hk. pose proof (digs_pos m Hm). pose proof (digs_bounds m Hm).
  assert (0 < 2 ^ k) by (apply Z.pow_pos_nonneg; lia).
  apply digs_unique; [lia|]. replace (digs m + k - 1) with (digs m - 1 + k) by lia.
  rewrite !Z.pow_add_r by lia. nia.
Qed.

Lemma located_exact m D : 0 <= m → 0 < D → located_rec (m * D) D (shr_record_of_loc m loc_Exact).
Proof. intros. split; [done|]. unfold located; simpl. lia. Qed.

Lemma binary_round_rounds p e :
  -2500 <= e → rounds_to (V (Z.pos p) e) 1 (binary_round prec emax false p e).
Proof.
  intros He. unfold binary_round, shl_align.
  change (fexp prec emax (Z.pos (digits2_pos p) + e)) with (fx (digs (Z.pos p) + e)).
  assert (Haux : ∀ m x, 0 < m → -4000 <= x → x <= fx (digs m + x) → V m x = V (Z.pos p) e →
    rounds_to (V (Z.pos p) e) 1 (binary_round_aux prec emax false m x loc_Exact)).
  { intros m x Hm Hx Hal <-. apply round_aux_rounds; try lia.
    pose proof (V_unit_pos x ltac:(unfold scale; lia)).
    rewrite V_mul, Z.mul_1_l. apply located_exact; lia. }
  destruct (fx (digs (Z.pos p) + e) - e) as [|k|k] eqn:Hk.
  - apply Haux; [lia..|done].
  - apply Haux; [lia..|done].
  - assert (-1074 <= fx (digs (Z.pos p) + e)) by (rewrite fx_max; lia).
    apply Haux; rewrite ?iter_xO; [lia|lia|..].
    + rewrite digs_shift by lia. apply Z.eq_le_incl. f_equal. lia.
    + rewrite V_shift by (unfold scale; lia). f_equal. lia.
Qed.

Lemma of_Z_rounds z : 0 <= z → rounds_to (V z 0) 1 (of_Z z).
Proof.
  destruct z as [|p|p]; intros; [|apply binary_round_rounds; lia|lia].
  apply (rounds_zero false).
Qed.

Lemma repr_Z z : 0 <= z <= 2 ^ 53 → ∃ m e, repr m e ∧ V m e = V z 0.
Proof.
  intros Hz. destruct (decide (z = 2 ^ 53)) as [->|].
  - exists (2 ^ 52), 1. split; [split; lia|].
    change (2 ^ 53) with (2 ^ 52 * 2 ^ 1). by rewrite V_shift by (unfold scale; lia).
  - exists z, 0. split; [split; lia|done].
Qed.

Lemma of_Z_exact z : 0 <= z <= 2 ^ 53 → nonneg (of_Z z) ∧ value (of_Z z) = Some (V z 0).
Proof.
  intros Hz. destruct (repr_Z z Hz) as (m & e & Hr & Hv).
  rewrite <- Hv. apply rounds_exact; [done|]. rewrite Hv. apply of_Z_rounds. lia.
Qed.

Lemma of_Z_nonneg z : 0 <= z <= 2 ^ 63 → nonneg (of_Z z).
Proof.
  intros Hz. destruct (of_Z_rounds z ltac:(lia)) as [_ Hle _].
  apply (Hle (2 ^ 52) 11); [split; lia|].
  rewrite Z.mul_1_r. change (V (2 ^ 52) (0 + 11)) with (V (2 ^ 52) 11).
  change (V (2 ^ 52) 11) with (V (2 ^ 52) (0 + 11)).
  rewrite <- V_shift by (unfold scale; lia). rewrite (V_mul z), (V_mul (2 ^ 52 * 2 ^ 11)).
  pose proof (V_unit_pos 0 ltac:(unfold scale; lia)). change (2 ^ 52 * 2 ^ 11) with (2 ^ 63). nia.
Qed.

Lemma digs_mono m n : 0 < m <= n → digs m <= digs n.
Proof.
  intros H. pose proof (digs_pos n ltac:(lia)). pose proof (digs_bounds n ltac:(lia)).
  apply digs_le; lia.
Qed.

Lemma mul_rounds x y vx vy n :
  nonneg x → nonneg y → value x = Some vx → value y = Some vy → n * 2 ^ scale = vx * vy →
  rounds_to n 1 (mul x y).
Proof.
  assert (Hs : 0 < 2 ^ scale) by (apply Z.pow_pos_nonneg; unfold scale; lia).
  intros Hx Hy Hvx Hvy Hn. destruct x as [sx| | |[] mx ex]; try done;
    destruct y as [sy| | |[] my ey]; try done; simpl in Hvx, Hvy; simplify_eq;
    try (assert (n = 0) as -> by nia; apply rounds_zero).
  assert (n = V (Z.pos mx * Z.pos my) (ex + ey)) as ->.
  { destruct Hx as (_ & Hx & _), Hy as (_ & Hy & _). rewrite fx_max in *.
    apply (Z.mul_reg_r _ _ (2 ^ scale)); [lia|]. rewrite Hn. unfold V.
    replace (ex + ey + scale) with ((ex + ey) + scale) by lia.
    transitivity (Z.pos mx * Z.pos my * (2 ^ (ex + scale) * 2 ^ (ey + scale))); [ring|].
    rewrite <- Z.pow_add_r by (unfold scale; lia). rewrite <- !Z.mul_assoc.
    rewrite <- Z.pow_add_r by (unfold scale; lia). do 3 f_equal. lia. }
  destruct Hx as (_ & Hx & Hx'), Hy as (_ & Hy & Hy'). rewrite fx_max in *.
  assert (Hp : ∀ e, 0 < V 1 e ∨ e < -scale).
  { intros e. destruct (Z.le_gt_cases (-scale) e); [left; apply V_unit_pos|right]; lia. }
  unfold mul, SFmul. apply round_aux_rounds; try lia.
  - rewrite fx_max.
    pose proof (digs_mono (Z.pos mx) (Z.pos mx * Z.pos my) ltac:(nia)).
    pose proof (digs_mono (Z.pos my) (Z.pos mx * Z.pos my) ltac:(nia)).
    rewrite Pos2Z.inj_mul. lia.
  - rewrite V_mul, Z.mul_1_l, Pos2Z.inj_mul. apply located_exact; [nia|].
    destruct (Hp (ex + ey)); [done|unfold scale in *; lia].
Qed.

Lemma align_value m e x :
  x <= e → 0 <= x + scale → V (Z.pos (fst (shl_align m e x))) x = V (Z.pos m) e.
Proof.
  intros Hx Hs. unfold shl_align. destruct (x - e) as [|k|k] eqn:E; [|lia|]; cbn [fst].
  - f_equal. lia.
  - rewrite iter_xO, V_shift by lia. f_equal. lia.
Qed.

Lemma normalize_rounds m e :
  0 <= m → -2500 <= e → rounds_to (V m e) 1 (binary_normalize prec emax m e false).
Proof.
  destruct m; intros; [apply (rounds_zero false)|by apply binary_round_rounds|lia].
Qed.

Lemma add_rounds x y vx vy :
  nonneg x → nonneg y → value x = Some vx → value y = Some vy → rounds_to (vx + vy) 1 (add x y).
Proof.
  assert (Hself : ∀ f v, nonneg f → value f = Some v → rounds_to v 1 f).
  { intros [sf| | |[] m e] v Hf Hv; try done; simpl in Hv; simplify_eq; [apply rounds_zero|].
    destruct Hf as (_ & Hf & He). rewrite fx_max in Hf.
    assert (Hr : repr (Z.pos m) e).
    { apply canon_repr. split; [lia|]. split; [by rewrite fx_max|done]. }
    assert (Hc : nonneg (S754_finite false m e)).
    { split; [lia|]. split; [by rewrite fx_max|done]. }
    split.
    - intros x' e' _ Hle. right. exists (V (Z.pos m) e). split; [done|lia].
    - intros x' e' _ Hle. split; [done|]. exists (V (Z.pos m) e). split; [done|lia].
    - intros z x' e' [= <-] _. lia. }
  intros Hx Hy Hvx Hvy. destruct x as [sx| | |[] mx ex] eqn:Ex; try done;
    destruct y as [sy| | |[] my ey] eqn:Ey; try done.
  - simpl in Hvx, Hvy. simplify_eq. simpl. destruct sx, sy; apply rounds_zero.
  - simpl in Hvx. simplify_eq. rewrite Z.add_0_l. apply (Hself _ _ Hy Hvy).
  - simpl in Hvy. simplify_eq. rewrite Z.add_0_r. apply (Hself _ _ Hx Hvx).
  - simpl in Hvx, Hvy. simplify_eq. unfold add, SFadd.
    destruct Hx as (_ & Hx & _), Hy as (_ & Hy & _). rewrite fx_max in *. cbn [SpecFloat.cond_Zopp].
    rewrite <- (align_value mx ex (Z.min ex ey)), <- (align_value my ey (Z.min ex ey))
      by (unfold scale; lia).
    rewrite (V_mul (Z.pos (fst (shl_align mx _ _)))), (V_mul (Z.pos (fst (shl_align my _ _)))),
      <- Z.mul_add_distr_r, <- V_mul. apply normalize_rounds; lia.
Qed.

(** ** Comparison *)

Lemma V_pos m e : 0 < m → 0 <= e + scale → 0 < V m e.
Proof. intros. rewrite V_mul. pose proof (V_unit_pos e). nia. Qed.

Lemma canon_lt_exp m1 e1 m2 e2 :
  canon m1 e1 → canon m2 e2 → e1 < e2 → V m1 e1 < V m2 e2.
Proof.
  intros H1 H2 Hlt. pose proof (canon_repr _ _ H1) as [Hm1 He1].
  destruct H2 as (Hm2 & Hf & _). rewrite fx_max in Hf.
  pose proof (digs_bounds m2 Hm2) as Hd. assert (digs m2 = 53) as Hd53 by lia.
  rewrite Hd53 in Hd. change (2 ^ (53 - 1)) with (2 ^ 52) in Hd.
  rewrite (V_mul m1), (V_mul m2). replace e2 with (e1 + (e2 - e1 - 1 + 1)) by lia.
  rewrite V_unit_add, Z.pow_add_r by (unfold scale; lia).
  pose proof (V_unit_pos e1 ltac:(unfold scale; lia)).
  assert (0 < 2 ^ (e2 - e1 - 1)) by (apply Z.pow_pos_nonneg; lia).
  assert (2 ^ 52 <= m2 * 2 ^ (e2 - e1 - 1)) by nia. nia.
Qed.

Lemma compare_values x y vx vy :
  nonneg x → nonneg y → value x = Some vx → value y = Some vy →
  SFcompare x y = Some (Z.compare vx vy).
Proof.
  intros Hx Hy Hvx Hvy. destruct x as [sx| | |[] mx ex]; try done;
    destruct y as [sy| | |[] my ey]; try done; simpl in Hvx, Hvy; simplify_eq; cbn [SFcompare].
  - done.
  - pose proof (canon_repr _ _ Hy) as [_ He].
    pose proof (V_pos (Z.pos my) ey ltac:(lia) ltac:(unfold scale; lia)).
    by destruct (Z.compare_spec 0 (V (Z.pos my) ey)); try lia.
  - pose proof (canon_repr _ _ Hx) as [_ He].
    pose proof (V_pos (Z.pos mx) ex ltac:(lia) ltac:(unfold scale; lia)).
    by destruct (Z.compare_spec (V (Z.pos mx) ex) 0); try lia.
  - f_equal. destruct (Z.compare_spec ex ey) as [->|Hlt|Hlt].
    + pose proof (canon_repr _ _ Hx) as [_ He].
      pose proof (V_unit_pos ey ltac:(unfold scale; lia)).
      change (Pos.compare_cont Eq mx my) with (Z.compare (Z.pos mx) (Z.pos my)).
      rewrite (V_mul (Z.pos mx)), (V_mul (Z.pos my)).
      destruct (Z.compare_spec (Z.pos mx) (Z.pos my)), (Z.compare_spec (Z.pos mx * V 1 ey) (Z.pos my * V 1 ey));
        try done; nia.
    + symmetry. apply Z.compare_lt_iff. by apply canon_lt_exp.
    + symmetry. apply Z.compare_gt_iff. by apply canon_lt_exp.
Qed.

Lemma le_values x y vx vy :
  nonneg x → nonneg y → value x = Some vx → value y = Some vy →
  le x y = true ↔ vx <= vy.
Proof.
  intros. unfold le, SFleb. erewrite compare_values by done.
  destruct (Z.compare_spec vx vy); split; try done; lia.
Qed.

(** ** Conversions to integers *)

Lemma trunc_value m e : -1074 <= e → trunc m e = V (Z.pos m) e / 2 ^ scale.
Proof.
  intros He. assert (Hs : 0 < 2 ^ scale) by (apply Z.pow_pos_nonneg; unfold scale; lia).
  unfold trunc, V. destruct (Z.leb_spec 0 e).
  - rewrite Z.pow_add_r by (unfold scale; lia). rewrite Z.mul_assoc, Z.div_mul; lia.
  - assert (2 ^ scale = 2 ^ (- e) * 2 ^ (e + scale)) as ->.
    { rewrite <- Z.pow_add_r by (unfold scale; lia). f_equal. lia. }
    assert (0 < 2 ^ (e + scale)) by (apply Z.pow_pos_nonneg; unfold scale; lia).
    assert (0 < 2 ^ (- e)) by (apply Z.pow_pos_nonneg; lia).
    by rewrite Z.div_mul_cancel_r by lia.
Qed.

Lemma to_int64_value {GA : GoArch} f v :
  nonneg f → value f = Some v → v / 2 ^ scale <= max_int64 → to_int64 f = v / 2 ^ scale.
Proof.
  intros Hf Hv Hmax. destruct f as [s| | |[] m e]; try done; simpl in Hv; simplify_eq; [done|].
  pose proof (canon_repr _ _ Hf) as [_ He]. unfold to_int64. rewrite trunc_value by lia.
  cbn [cond_opp]. apply decide_True. split; [|done].
  pose proof (V_pos (Z.pos m) e ltac:(lia) ltac:(unfold scale; lia)).
  transitivity 0; [done|]. apply Z.div_pos; [lia|]. apply Z.pow_pos_nonneg; unfold scale; lia.
Qed.

(** The smallest integer that is not below [v / 2^scale]. *)
Definition ceil_scaled (v : Z) : Z := - (- v / 2 ^ scale).

Lemma ceil_scaled_spec v n :
  ceil_scaled v = n ↔ V (n - 1) 0 < v <= V n 0.
Proof.
  assert (Hs : 0 < 2 ^ scale) by (apply Z.pow_pos_nonneg; unfold scale; lia).
  unfold ceil_scaled, V. rewrite Z.add_0_l. generalize dependent (2 ^ scale). intros P HP. nia.
Qed.

Lemma ceil_div m P : 0 < P → - (- m / P) = if m mod P =? 0 then m / P else m / P + 1.
Proof.
  intros HP. pose proof (Z.div_mod m P ltac:(lia)). pose proof (Z.mod_pos_bound m P HP).
  destruct (Z.eqb_spec (m mod P) 0) as [Hz|Hz].
  - rewrite <- (Z.div_unique_pos (- m) P (- (m / P)) 0); lia.
  - rewrite <- (Z.div_unique_pos (- m) P (- (m / P) - 1) (P - m mod P)); lia.
Qed.

Lemma to_int64_ceil {GA : GoArch} f v :
  nonneg f → value f = Some v → ceil_scaled v <= 2 ^ 53 → to_int64 (ceil f) = ceil_scaled v.
Proof.
  assert (Hs : 0 < 2 ^ scale) by (apply Z.pow_pos_nonneg; unfold scale; lia).
  assert (HV : ∀ z, V z 0 / 2 ^ scale = z).
  { intros z. unfold V. rewrite Z.add_0_l, Z.div_mul; lia. }
  intros Hf Hv Hmax. destruct f as [s| | |[] m e]; try done; simpl in Hv; simplify_eq; [done|].
  pose proof (canon_repr _ _ Hf) as [_ He].
  pose proof (V_pos (Z.pos m) e ltac:(lia) ltac:(unfold scale; lia)) as Hpos.
  unfold ceil. destruct (Z.leb_spec 0 e).
  - assert (V (Z.pos m) e = V (Z.pos m * 2 ^ e) 0) as Hve by (by rewrite V_shift by (unfold scale; lia)).
    assert (ceil_scaled (V (Z.pos m) e) = Z.pos m * 2 ^ e) as Hc.
    { unfold ceil_scaled. rewrite Hve. unfold V. rewrite Z.add_0_l, <- Z.mul_opp_l, Z.div_mul; lia. }
    rewrite Hc in *. rewrite (to_int64_value _ (V (Z.pos m) e)); [|done|done|].
    + rewrite Hve. apply HV.
    + rewrite Hve, HV. lia64.
  - assert (ceil_scaled (V (Z.pos m) e) =
            if Z.pos m mod 2 ^ (- e) =? 0 then Z.pos m / 2 ^ (- e) else Z.pos m / 2 ^ (- e) + 1) as Hc.
    { assert (0 < 2 ^ (- e)) by (apply Z.pow_pos_nonneg; lia).
      assert (0 < 2 ^ (e + scale)) by (apply Z.pow_pos_nonneg; unfold scale; lia).
      rewrite <- ceil_div by done. unfold ceil_scaled, V. f_equal. rewrite <- Z.mul_opp_l.
      assert (2 ^ scale = 2 ^ (- e) * 2 ^ (e + scale)) as ->.
      { rewrite <- Z.pow_add_r by (unfold scale; lia). f_equal. lia. }
      apply Z.div_mul_cancel_r; lia. }
    rewrite <- Hc. set (c := ceil_scaled _) in *.
    assert (0 <= c).
    { unfold c, ceil_scaled. enough (- V (Z.pos m) e / 2 ^ scale < 0 + 1) by lia.
      apply Z.div_lt_upper_bound; lia. }
    destruct (of_Z_exact c ltac:(lia)) as [Hn Hvc].
    rewrite (to_int64_value _ (V c 0)); [apply HV|done|done|]. rewrite HV. lia64.
Qed.

End F64Facts.
