(* ===== verification/GoFloatLemmas.v ===== *)
(** * Float computations of the program

    The three float computations on which the sizing arithmetic rests: scaling
    a count by [1 + headroom] never loses a unit, and dividing milli-units by
    1000 (and by 2^20) and rounding up is exact below [2^53]. *)

From S2P Require Export GoFloatFacts.
From stdpp Require Export sorting base option gmap strings list fin_maps.

Open Scope Z_scope.

Module F64Lemmas.
Import F64 F64Facts.

Lemma rounds_to_cancel c n d f : 0 < c → rounds_to (c * n) (c * d) f → rounds_to n d f.
Proof.
  intros Hc [Hge Hle Hnear]. split.
  - intros m e Hr H. apply Hge; [done|]. nia.
  - intros m e Hr H. apply Hle; [done|]. nia.
  - intros z m e Hv Hr. pose proof (Hnear z m e Hv Hr) as H.
    replace (c * n - c * d * z) with (c * (n - d * z)) in H by ring.
    replace (c * n - c * d * V m e) with (c * (n - d * V m e)) in H by ring.
    rewrite !Z.abs_mul, (Z.abs_eq c) in H by lia. nia.
Qed.

(** The location that a remainder [r] of a division by [d] records. *)
Lemma located_quotient q r d U :
  0 <= q → 0 <= r < d → 0 < U →
  located_rec (q * (d * U) + r * U) (d * U) (shr_record_of_loc q (new_location d r)).
Proof.
  intros Hq Hr HU.
  assert (Hb : q * (d * U) <= q * (d * U) + r * U < (q + 1) * (d * U)) by nia.
  unfold new_location, new_location_even, new_location_odd.
  destruct (Z.even d) eqn:Ev; destruct (Z.eqb_spec r 0) as [->|Hne];
    try (split; [done|]; split; simpl; lia).
  - pose proof (Z.compare_spec (2 * r) d) as Hs. destruct Hs; (split; [done|]);
      split; simpl; nia.
  - pose proof (Z.compare_spec (2 * r + 1) d) as Hs.
    assert (d = 2 * r + 1 ∨ d < 2 * r + 1 ∨ 2 * r + 1 < d) by lia.
    rewrite <- Z.negb_odd in Ev. apply negb_false_iff, Z.odd_spec in Ev as [h Hh].
    destruct Hs; (split; [done|]); split; simpl; nia.
Qed.

(** The quotient of two finite numbers whose ratio is in the normal range. *)
Lemma div_rounds mx ex my ey :
  -500 <= ex - ey → -500 <= digs (Z.pos mx) - digs (Z.pos my) <= 500 → ex - ey <= 2000 →
  rounds_to (V (Z.pos mx) (ex - ey)) (Z.pos my)
    (div (S754_finite false mx ex) (S754_finite false my ey)).
Proof.
  intros H1 H2 H3. unfold div, SFdiv, SFdiv_core_binary.
  change (fexp prec emax (Zdigits2 (Z.pos mx) + ex - (Zdigits2 (Z.pos my) + ey)))
    with (fx (digs (Z.pos mx) + ex - (digs (Z.pos my) + ey))).
  set (e' := Z.min _ _).
  assert (He' : e' = Z.min (digs (Z.pos mx) - digs (Z.pos my) + (ex - ey) - 53) (ex - ey)).
  { unfold e'. rewrite fx_max. lia. }
  clearbody e'. remember (ex - ey - e') as s eqn:Es. assert (Hs : 0 <= s) by lia.
  set (m' := match s with Z.pos _ => Z.shiftl (Z.pos mx) s | Z.neg _ => 0 | Z0 => Z.pos mx end).
  assert (Hm' : m' = Z.pos mx * 2 ^ s).
  { unfold m'. destruct s; [lia|by rewrite Z.shiftl_mul_pow2|lia]. }
  clearbody m'. pose proof (Z_div_mod m' (Z.pos my) ltac:(lia)) as Hqr.
  destruct (Z.div_eucl m' (Z.pos my)) as [q r]. destruct Hqr as [Hqr Hr].
  cbn [xorb]. assert (HU : 0 < V 1 e') by (apply V_unit_pos; unfold scale; lia).
  assert (Hn : V (Z.pos mx) (ex - ey) = m' * V 1 e').
  { rewrite Hm', <- V_mul, V_shift by (unfold scale; lia). f_equal. lia. }
  pose proof (digs_bounds (Z.pos mx) ltac:(lia)) as Hbx.
  pose proof (digs_bounds (Z.pos my) ltac:(lia)) as Hby.
  pose proof (digs_pos (Z.pos mx) ltac:(lia)). pose proof (digs_pos (Z.pos my) ltac:(lia)).
  assert (Hq : 2 ^ 52 <= q).
  { assert (2 ^ (digs (Z.pos my) + 52) <= m') as Hlow.
    { rewrite Hm'. transitivity (2 ^ (digs (Z.pos mx) - 1) * 2 ^ s).
      - rewrite <- Z.pow_add_r by lia. apply Z.pow_le_mono_r; lia.
      - assert (0 < 2 ^ s) by (apply Z.pow_pos_nonneg; lia). nia. }
    rewrite Z.pow_add_r in Hlow by lia. nia. }
  apply round_aux_rounds; [lia|lia|lia| |].
  - rewrite fx_max. assert (53 <= digs q); [|lia].
    destruct (Z.le_gt_cases 53 (digs q)); [done|].
    pose proof (digs_bounds q ltac:(lia)). pose proof (digs_pos q ltac:(lia)).
    pose proof (Z.pow_le_mono_r 2 (digs q) 52 ltac:(lia) ltac:(lia)). lia.
  - rewrite Hn, Hqr.
    replace ((Z.pos my * q + r) * V 1 e') with (q * (Z.pos my * V 1 e') + r * V 1 e') by ring.
    generalize dependent (V 1 e'). intros U HU _.
    apply located_quotient; lia.
Qed.

(** ** Integers as floats *)

Lemma exp_lower m e a : repr m e → V 1 a <= V m e → a - 53 < e.
Proof.
  intros [Hm He] Hle. destruct (Z.le_gt_cases e (a - 53)) as [Hgt|]; [exfalso|lia].
  pose proof (V_unit_pos e ltac:(unfold scale; lia)) as HU.
  rewrite (V_mul m) in Hle. replace a with (e + (a - e)) in Hle by lia.
  rewrite V_unit_add in Hle by (unfold scale; lia).
  pose proof (Z.pow_le_mono_r 2 53 (a - e) ltac:(lia) ltac:(lia)) as Hp.
  apply (Z.mul_le_mono_pos_r _ _ (V 1 e)) in Hle; lia.
Qed.

Lemma exp_upper m e b : 0 < m → 0 <= b + scale → V m e <= V 1 b → e <= b.
Proof.
  intros Hm Hb Hle. destruct (Z.le_gt_cases e b) as [|Hgt]; [done|exfalso].
  pose proof (V_unit_pos b Hb) as HU.
  rewrite (V_mul m) in Hle. replace e with (b + (e - b - 1 + 1)) in Hle by lia.
  rewrite V_unit_add, Z.pow_add_r in Hle by lia.
  assert (0 < 2 ^ (e - b - 1)) by (apply Z.pow_pos_nonneg; lia).
  assert (1 <= m * 2 ^ (e - b - 1)) by nia.
  replace (m * (2 ^ (e - b - 1) * 2 ^ 1 * V 1 b)) with (m * 2 ^ (e - b - 1) * (2 * V 1 b)) in Hle by ring.
  nia.
Qed.

Lemma finite_shape f v :
  nonneg f → value f = Some v → V 1 (-100) <= v →
  ∃ p e, f = S754_finite false p e ∧ digs (Z.pos p) = 53 ∧ V (Z.pos p) e = v ∧ -200 <= e.
Proof.
  intros Hf Hv Hlow. pose proof (V_unit_pos (-100) ltac:(unfold scale; lia)).
  destruct f as [s| | |[] p e]; try done; simpl in Hv; simplify_eq; [lia|].
  exists p, e. pose proof (canon_repr _ _ Hf) as [Hp He].
  assert (-200 <= e).
  { pose proof (exp_lower (Z.pos p) e (-100) (conj Hp He) Hlow). lia. }
  destruct Hf as (_ & Hf & _). rewrite fx_max in Hf. split; [done|]. split; [lia|done].
Qed.

Lemma of_Z_shape m :
  0 < m <= 2 ^ 53 →
  ∃ p e, of_Z m = S754_finite false p e ∧ digs (Z.pos p) = 53 ∧ V (Z.pos p) e = V m 0 ∧
         -200 <= e <= 100.
Proof.
  intros Hm. destruct (of_Z_exact m ltac:(lia)) as [Hn Hv].
  destruct (finite_shape _ _ Hn Hv) as (p & e & Hf & Hd & Hpe & He).
  { rewrite (V_mul m). change 0 with (-100 + 100). rewrite V_unit_add by (unfold scale; lia).
    pose proof (V_unit_pos (-100) ltac:(unfold scale; lia)). nia. }
  exists p, e. repeat split; try done. apply (exp_upper (Z.pos p)); [lia|unfold scale; lia|].
  rewrite Hpe, (V_mul m). change 100 with (0 + 100). rewrite V_unit_add by (unfold scale; lia).
  pose proof (V_unit_pos 0 ltac:(unfold scale; lia)). nia.
Qed.

(** ** Division by 1000 *)

Lemma div1000_rounds m :
  0 < m <= 2 ^ 53 → rounds_to (V m 0) 1000 (div (of_Z m) (of_Z 1000)).
Proof.
  intros Hm. destruct (of_Z_shape m Hm) as (p & e & -> & Hd & Hv & He).
  change (of_Z 1000) with (S754_finite false 8796093022208000 (-43)).
  pose proof (div_rounds p e 8796093022208000 (-43) ltac:(lia)) as Hr.
  change (digs (Z.pos 8796093022208000)) with 53 in Hr.
  specialize (Hr ltac:(lia) ltac:(lia)). apply (rounds_to_cancel (2 ^ 43)); [lia|].
  change (2 ^ 43 * 1000) with (Z.pos 8796093022208000).
  replace (2 ^ 43 * V m 0) with (V (Z.pos p) (e - -43)); [done|].
  rewrite <- Hv, (V_mul (Z.pos p) e), V_mul. replace (e - -43) with (e + 43) by lia.
  rewrite V_unit_add by (unfold scale; lia). ring.
Qed.

Lemma V_le_iff a b : V a 0 <= V b 0 ↔ a <= b.
Proof. rewrite (V_mul a), (V_mul b). pose proof (V_unit_pos 0 ltac:(unfold scale; lia)). nia. Qed.

(** The rounded quotient is on the same side of every integer as the exact one. *)
Lemma div1000_value m :
  0 < m <= 2 ^ 53 →
  ∃ v, nonneg (div (of_Z m) (of_Z 1000)) ∧ value (div (of_Z m) (of_Z 1000)) = Some v ∧
       V 1 (-100) <= v ∧ ∀ n, 0 <= n <= 2 ^ 44 → V n 0 < v ↔ 1000 * n < m.
Proof.
  intros Hm. destruct (div1000_rounds m Hm) as [Hge Hle Hnear].
  pose proof (V_unit_pos 0 ltac:(unfold scale; lia)) as HU.
  destruct (Hle (2 ^ 44) 0) as [Hn (v & Hv & Hv1)].
  { split; lia. }
  { rewrite (V_mul m), (V_mul (2 ^ 44)). nia. }
  exists v. split; [done|]. split; [done|]. split.
  { destruct (Hge 1 (-100)) as [Hinf|(v' & Hv' & ?)]; [split; lia|..].
    - rewrite (V_mul m). change 0 with (-100 + 100). rewrite V_unit_add by (unfold scale; lia).
      pose proof (V_unit_pos (-100) ltac:(unfold scale; lia)). nia.
    - by rewrite Hinf in Hv.
    - congruence. }
  intros n Hn44. split.
  - intros Hlt. destruct (Z.lt_ge_cases (1000 * n) m) as [|Hmn]; [done|exfalso].
    destruct (Hle n 0) as [_ (v' & Hv' & ?)]; [split; lia| |].
    + rewrite (V_mul m), (V_mul n). nia.
    + assert (v' = v) by congruence. lia.
  - intros Hlt. destruct (Hge n 0) as [Hinf|(v' & Hv' & Hvn)]; [split; lia|..].
    { rewrite (V_mul m), (V_mul n). nia. }
    { by rewrite Hinf in Hv. }
    assert (v' = v) as -> by congruence.
    destruct (decide (v = V n 0)) as [->|]; [exfalso|lia].
    pose proof (Hnear (V n 0) (n * 2 ^ 9 + 1) (-9) Hv) as Hnr.
    rewrite (V_mul m), (V_mul n), (V_mul (n * 2 ^ 9 + 1)) in Hnr.
    change 0 with (-9 + 9) in Hnr. rewrite V_unit_add in Hnr by (unfold scale; lia).
    pose proof (V_unit_pos (-9) ltac:(unfold scale; lia)) as HW.
    change (2 ^ 9) with 512 in Hnr. specialize (Hnr ltac:(split; lia)).
    revert Hnr. generalize dependent (V 1 (-9)). intros W HW.
    replace (m * (512 * W) - 1000 * (n * (512 * W))) with (W * (512 * (m - 1000 * n))) by ring.
    replace (m * (512 * W) - 1000 * ((n * 512 + 1) * W))
      with (W * (512 * (m - 1000 * n) - 1000)) by ring.
    rewrite !Z.abs_mul, (Z.abs_eq W) by lia. intros Hnr.
    apply Z.mul_le_mono_pos_l in Hnr; lia.
Qed.

Theorem ceil_div1000 {GA : GoArch} m :
  0 <= m <= 2 ^ 53 → to_int64 (ceil (div (of_Z m) (of_Z 1000))) = cdiv m 1000.
Proof.
  intros Hm. destruct (decide (m = 0)) as [->|]; [reflexivity|].
  destruct (div1000_value m ltac:(lia)) as (v & Hn & Hv & _ & Hcmp).
  assert (ceil_scaled v = cdiv m 1000) as Hc.
  { apply ceil_scaled_spec. pose proof (proj1 (cdiv_spec m 1000 _ ltac:(lia)) eq_refl) as Hcd.
    split.
    - apply Hcmp; lia.
    - apply Z.nlt_ge. rewrite Hcmp by lia. lia. }
  pose proof (proj1 (cdiv_spec m 1000 _ ltac:(lia)) eq_refl).
  rewrite (to_int64_ceil _ v); [done|done|done|]. rewrite Hc. lia.
Qed.

(** Dividing by a power of two afterwards changes nothing. *)
Theorem ceil_div_mi {GA : GoArch} m :
  0 <= m <= 2 ^ 53 →
  to_int64 (ceil (div (div (of_Z m) (of_Z 1000)) (of_Z (2 ^ 20)))) = cdiv m (1000 * 2 ^ 20).
Proof.
  intros Hm. destruct (decide (m = 0)) as [->|]; [reflexivity|].
  destruct (div1000_value m ltac:(lia)) as (v & Hn & Hv & Hlow & Hcmp).
  destruct (finite_shape _ _ Hn Hv Hlow) as (p & e & Hf & Hd & Hpe & He).
  rewrite Hf in *. pose proof (canon_repr _ _ Hn) as Hr.
  assert (Hup : v <= V (2 ^ 44) 0).
  { apply Z.nlt_ge. rewrite Hcmp by lia. lia. }
  assert (He2 : e <= 100).
  { apply (exp_upper (Z.pos p)); [lia|unfold scale; lia|]. rewrite Hpe.
    rewrite (V_mul (2 ^ 44)) in Hup. change 100 with (0 + 100).
    rewrite V_unit_add by (unfold scale; lia). pose proof (V_unit_pos 0 ltac:(unfold scale; lia)). nia. }
  assert (Hr2 : rounds_to (V (Z.pos p) (e - 20)) 1 (div (S754_finite false p e) (of_Z (2 ^ 20)))).
  { change (of_Z (2 ^ 20)) with (S754_finite false 4503599627370496 (-32)).
    pose proof (div_rounds p e 4503599627370496 (-32) ltac:(lia)) as Hq.
    change (digs (Z.pos 4503599627370496)) with 53 in Hq. specialize (Hq ltac:(lia) ltac:(lia)).
    apply (rounds_to_cancel (2 ^ 52)); [lia|].
    replace (2 ^ 52 * V (Z.pos p) (e - 20)) with (V (Z.pos p) (e - -32)); [done|].
    rewrite (V_mul _ (e - 20)), V_mul. replace (e - -32) with (e - 20 + 52) by lia.
    rewrite V_unit_add by (unfold scale; lia). ring. }
  assert (Hr20 : repr (Z.pos p) (e - 20)) by (destruct Hr; split; lia).
  destruct (rounds_exact _ _ _ Hr20 Hr2) as [Hn2 Hv2].
  assert (Hscale : v = 2 ^ 20 * V (Z.pos p) (e - 20)).
  { rewrite <- Hpe, (V_mul _ (e - 20)), V_mul. replace e with (e - 20 + 20) at 1 by lia.
    rewrite V_unit_add by (unfold scale; lia). ring. }
  assert (Hcmp2 : ∀ n, 0 <= n <= 2 ^ 24 → V n 0 < V (Z.pos p) (e - 20) ↔ n * (1000 * 2 ^ 20) < m).
  { intros j Hnn. pose proof (Hcmp (j * 2 ^ 20) ltac:(lia)) as Hc.
    rewrite Hscale, (V_mul (j * 2 ^ 20)) in Hc. rewrite (V_mul j). lia. }
  pose proof (proj1 (cdiv_spec m (1000 * 2 ^ 20) _ ltac:(lia)) eq_refl) as Hcd.
  assert (ceil_scaled (V (Z.pos p) (e - 20)) = cdiv m (1000 * 2 ^ 20)) as Hc.
  { apply ceil_scaled_spec. split.
    - apply Hcmp2; lia.
    - apply Z.nlt_ge. rewrite Hcmp2 by lia. lia. }
  rewrite (to_int64_ceil _ _ Hn2 Hv2); [done|]. rewrite Hc. lia.
Qed.

(** ** Scaling by [1 + headroom] *)

Lemma value_repr_mul n f vf :
  nonneg f → value f = Some vf → 0 <= n →
  ∃ w, w * 2 ^ scale = V n 0 * vf ∧ w = n * vf.
Proof.
  intros Hf Hv Hn. exists (n * vf). split; [|done]. unfold V. rewrite Z.add_0_l. ring.
Qed.

(** The value of [u * (1 + h)] for a headroom [h] between 0 and 1000. *)
Lemma scale_up_rounds u h :
  0 <= u <= 2 ^ 53 → nonneg h → le h (of_Z 1000) = true →
  nonneg (add one h) ∧ nonneg (mul (of_Z u) (add one h)) ∧ ∃ va vm,
    value (add one h) = Some va ∧ V 1 0 <= va ∧ rounds_to (u * va) 1 (mul (of_Z u) (add one h)) ∧
    value (mul (of_Z u) (add one h)) = Some vm ∧ V u 0 <= vm <= V 1001 53.
Proof.
  intros Hu Hh Hle. destruct (of_Z_exact u Hu) as [Hun Huv].
  destruct (of_Z_exact 1000 ltac:(lia)) as [Hkn Hkv].
  destruct (nonneg_value h Hh) as (mh & eh & Hrh & Hvh).
  apply (le_values _ _ _ _ Hh Hkn Hvh Hkv) in Hle.
  pose proof (V_unit_pos 0 ltac:(unfold scale; lia)) as HU.
  assert (Hvh0 : 0 <= V mh eh).
  { destruct Hrh. rewrite V_mul. pose proof (V_unit_pos eh ltac:(unfold scale; lia)). nia. }
  destruct (of_Z_exact 1 ltac:(lia)) as [H1n H1v].
  destruct (add_rounds one h _ _ H1n Hh H1v Hvh) as [Hage Hale _].
  destruct (Hale 1001 0) as [Han (va & Hva & Hva1)].
  { split; lia. }
  { rewrite (V_mul 1001), (V_mul 1000) in *. lia. }
  assert (Hva0 : V 1 0 <= va).
  { destruct (Hage 1 0) as [Hinf|(va' & Hva' & ?)]; [split; lia|lia|by rewrite Hinf in Hva|congruence]. }
  destruct (value_repr_mul u _ _ Han Hva ltac:(lia)) as (w & Hw & Hwe).
  pose proof (mul_rounds _ _ _ _ w Hun Han Huv Hva Hw) as Hmr. pose proof Hmr as [Hmge Hmle _].
  destruct (repr_Z u Hu) as (mu & eu & Hru & Hvu).
  destruct (Hmle 1001 53) as [Hmn (vm & Hvm & Hvm1)].
  { split; lia. }
  { rewrite (V_mul 1001 53). change 53 with (0 + 53). rewrite V_unit_add by (unfold scale; lia).
    rewrite (V_mul 1001) in Hva1. rewrite Hwe. nia. }
  split; [done|]. split; [done|]. exists va, vm. rewrite <- Hwe.
  split; [exact Hva|]. split; [exact Hva0|]. split; [exact Hmr|]. split; [exact Hvm|]. split; [|exact Hvm1].
  destruct (Hmge mu eu Hru) as [Hinf|(vm' & Hvm' & ?)]; [|by rewrite Hinf in Hvm|].
  - rewrite Hvu, Hwe, (V_mul u). nia.
  - rewrite <- Hvu. congruence.
Qed.

(** The value of what [to_int64] truncates. *)
Lemma to_int64_scaled {GA : GoArch} f v :
  nonneg f → value f = Some v → v <= V 1001 53 → V (to_int64 f) 0 <= v < V (to_int64 f + 1) 0.
Proof.
  intros Hf Hv Hb. assert (Hs : 0 < 2 ^ scale) by (apply Z.pow_pos_nonneg; unfold scale; lia).
  assert (Hq : v / 2 ^ scale <= 1001 * 2 ^ 53).
  { apply Z.div_le_upper_bound; [done|]. unfold V in Hb. rewrite Z.pow_add_r in Hb by (unfold scale; lia). lia. }
  rewrite (to_int64_value f v Hf Hv) by lia64. unfold V. rewrite Z.add_0_l.
  pose proof (Z.div_mod v (2 ^ scale) ltac:(lia)). pose proof (Z.mod_pos_bound v _ Hs). nia.
Qed.

(** A headroom between 0 and 1000 keeps the scaled value in range and does not
    lower it. *)
Theorem scale_up_ge {GA : GoArch} u h :
  0 <= u <= 2 ^ 53 → nonneg h → le h (of_Z 1000) = true →
  u <= to_int64 (mul (of_Z u) (add one h)) <= 1001 * 2 ^ 53.
Proof.
  intros Hu Hh Hle. destruct (scale_up_rounds u h Hu Hh Hle) as (_ & Hn & va & v & _ & _ & _ & Hv & Hb).
  pose proof (to_int64_scaled _ v Hn Hv (proj2 Hb)) as Ht. set (t := to_int64 _) in *.
  replace (V 1001 53) with (V (1001 * 2 ^ 53) 0) in Hb by (rewrite V_shift by (unfold scale; lia); done).
  pose proof (V_unit_pos 0 ltac:(unfold scale; lia)). rewrite (V_mul u), (V_mul (1001 * 2 ^ 53)), (V_mul t), (V_mul (t + 1)) in *.
  nia.
Qed.

End F64Lemmas.
