(* ===== verification/GoFloatValid.v ===== *)
(** * Float operations return IEEE 754 values

    Rounding, division and the parsing of literals produce canonical mantissas,
    so that the comparisons of [SpecFloat] compare values. *)

From S2P Require Export GoFloatLemmas.
From stdpp Require Export sorting base option gmap strings list fin_maps.

Open Scope Z_scope.

Module F64Valid.
Import F64 F64Facts F64Lemmas.

(** [f] is a float as IEEE 754 stores it, of any sign or class. *)
Definition valid (f : spec_float) : Prop :=
  match f with S754_finite _ m e => canon (Z.pos m) e | _ => True end.

Lemma nonneg_valid f : nonneg f → valid f.
Proof. by destruct f as [| | |[]]. Qed.

(** A valid float that is not below zero is not negative, or infinite. *)
Lemma valid_le_zero f :
  valid f → le zero f = true → nonneg f ∨ f = S754_infinity false.
Proof. destruct f as [| [] | | []]; intros Hv Hle; try discriminate Hle; auto. Qed.

Lemma pack_valid s q E :
  0 <= q <= 2 ^ 53 → -1074 <= E → (-1074 < E → 2 ^ 52 <= q) → valid (pack s q E).
Proof.
  intros Hq HE Hn. pose proof (pack_nonneg q E Hq HE Hn) as H. unfold pack in *.
  destruct q as [|p|p]; [done| |lia].
  destruct (Z.pos p =? 2 ^ 53); [destruct (E + 1 <=? 971)|destruct (E <=? 971)]; try done;
    destruct H as [H|H]; done.
Qed.

Lemma round_aux_zero s l : valid (binary_round_aux prec emax s 0 (-1074) l).
Proof. destruct l as [|[]]; vm_compute; repeat split; congruence. Qed.

Lemma round_aux_valid s mx ex l :
  0 < mx → ex <= fx (digs mx + ex) → valid (binary_round_aux prec emax s mx ex l).
Proof.
  intros Hmx Hal.
  assert (Hex : ∃ n D, 0 < D ∧ located_rec n D (shr_record_of_loc mx l)).
  { destruct l as [|[]].
    - exists (mx * 4), 4. split; [lia|]. split; [simpl; lia|]. unfold located; simpl. lia.
    - exists (mx * 4 + 2), 4. split; [lia|]. split; [simpl; lia|]. unfold located; simpl. lia.
    - exists (mx * 4 + 1), 4. split; [lia|]. split; [simpl; lia|]. unfold located; simpl. lia.
    - exists (mx * 4 + 3), 4. split; [lia|]. split; [simpl; lia|]. unfold located; simpl. lia. }
  destruct Hex as (n & D & HD & Hloc).
  destruct (round_aux_rounding n D mx ex l s HD Hmx Hal Hloc) as (k & m & r & st & R & ->).
  pose proof (rne_bounds m r st). destruct R as [Hk He _ Hm Hn].
  apply pack_valid; [lia|rewrite He, fx_max; lia|]. intros H'. specialize (Hn H'). lia.
Qed.

Lemma binary_round_valid s p e : valid (binary_round prec emax s p e).
Proof.
  unfold binary_round, shl_align.
  change (fexp prec emax (Z.pos (digits2_pos p) + e)) with (fx (digs (Z.pos p) + e)).
  destruct (fx (digs (Z.pos p) + e) - e) as [|k|k] eqn:Hk;
    apply round_aux_valid; rewrite ?iter_xO; try lia.
  rewrite digs_shift by lia. apply Z.eq_le_incl. f_equal. lia.
Qed.

Lemma normalize_valid m e s : valid (binary_normalize prec emax m e s).
Proof. destruct m; [done|apply binary_round_valid..]. Qed.

Lemma of_Z_valid z : valid (of_Z z).
Proof. apply normalize_valid. Qed.

(** The quotient of integer mantissas whose exponents differ by at least -1074. *)
Lemma div_core_valid s mx ex my ey :
  -1074 <= ex - ey →
  valid (let '(mz, ez, lz) := SFdiv_core_binary prec emax (Z.pos mx) ex (Z.pos my) ey in
         binary_round_aux prec emax s mz ez lz).
Proof.
  intros Hxy. unfold SFdiv_core_binary.
  change (fexp prec emax (Zdigits2 (Z.pos mx) + ex - (Zdigits2 (Z.pos my) + ey)))
    with (fx (digs (Z.pos mx) + ex - (digs (Z.pos my) + ey))).
  set (e' := Z.min _ _).
  assert (He' : e' = Z.min (Z.max (digs (Z.pos mx) - digs (Z.pos my) + (ex - ey) - 53) (-1074)) (ex - ey)).
  { unfold e'. rewrite fx_max. lia. }
  clearbody e'. remember (ex - ey - e') as t eqn:Et. assert (Ht : 0 <= t) by lia.
  set (m' := match t with Z.pos _ => Z.shiftl (Z.pos mx) t | Z.neg _ => 0 | Z0 => Z.pos mx end).
  assert (Hm' : m' = Z.pos mx * 2 ^ t).
  { unfold m'. destruct t; [lia|by rewrite Z.shiftl_mul_pow2|lia]. }
  clearbody m'. pose proof (Z_div_mod m' (Z.pos my) ltac:(lia)) as Hqr.
  destruct (Z.div_eucl m' (Z.pos my)) as [q r]. destruct Hqr as [Hqr Hr].
  pose proof (digs_bounds (Z.pos mx) ltac:(lia)) as Hbx.
  pose proof (digs_bounds (Z.pos my) ltac:(lia)) as Hby.
  pose proof (digs_pos (Z.pos mx) ltac:(lia)). pose proof (digs_pos (Z.pos my) ltac:(lia)).
  assert (Hp : 0 < 2 ^ t) by (apply Z.pow_pos_nonneg; lia).
  assert (Hq0 : 0 <= q) by nia.
  destruct (decide (e' = -1074)) as [->|He].
  - destruct (decide (q = 0)) as [->|]; [apply round_aux_zero|].
    apply round_aux_valid; [lia|]. rewrite fx_max. lia.
  - assert (Hq : 2 ^ 52 <= q).
    { assert (2 ^ (digs (Z.pos my) + 52) <= m') as Hlow.
      { rewrite Hm'. transitivity (2 ^ (digs (Z.pos mx) - 1) * 2 ^ t); [|nia].
        rewrite <- Z.pow_add_r by lia. apply Z.pow_le_mono_r; lia. }
      rewrite Z.pow_add_r in Hlow by lia. nia. }
    apply round_aux_valid; [lia|]. rewrite fx_max. assert (53 <= digs q); [|lia].
    destruct (Z.le_gt_cases 53 (digs q)); [done|].
    pose proof (digs_bounds q ltac:(lia)). pose proof (digs_pos q ltac:(lia)).
    pose proof (Z.pow_le_mono_r 2 (digs q) 52 ltac:(lia) ltac:(lia)). lia.
Qed.

Lemma round_ratio_valid s m d : valid (round_ratio s m d).
Proof. apply (div_core_valid s m 0 d 0). lia. Qed.

Lemma of_decimal_valid s m k : valid (of_decimal s m k).
Proof.
  unfold of_decimal. destruct m; try done.
  destruct (0 <=? k); [apply binary_round_valid|apply round_ratio_valid].
Qed.

(** ** Parsed literals *)

Lemma parse_valid s f : ParseFloat.parse s = Some f → valid f.
Proof.
  assert (Hdec : ∀ neg t g, ParseFloat.read_decimal neg t = Some g → valid g).
  { intros neg t g. unfold ParseFloat.read_decimal. destruct (ParseFloat.read_mantissa _ _ _ _) as [m r].
    intros H. repeat case_hyp H; simplify_eq; apply of_decimal_valid. }
  assert (Hhex : ∀ neg t g, ParseFloat.read_hex neg t = Some g → valid g).
  { intros neg t g. unfold ParseFloat.read_hex. destruct (ParseFloat.read_mantissa _ _ _ _) as [m r].
    intros H. repeat case_hyp H; simplify_eq; try done; apply binary_round_valid. }
  unfold ParseFloat.parse. destruct (ParseFloat.strip_sign s) as [neg r].
  destruct (_ || _); [by intros [= <-]|]. destruct (Str.EqualFold s "nan"); [by intros [= <-]|].
  destruct (ParseFloat.read_number neg r) as [g|] eqn:E; [|done].
  destruct (is_inf g); [done|]. intros [= <-]. unfold ParseFloat.read_number in E.
  repeat case_hyp E; try done; eauto.
Qed.

(** Dividing a percentage by 100. *)
Lemma div100_valid f : valid f → valid (div f (of_Z 100)).
Proof.
  change (of_Z 100) with (S754_finite false 7036874417766400 (-46)).
  destruct f as [| | |s m e]; try done. intros [_ [Hf He]]. rewrite fx_max in Hf.
  apply (div_core_valid (xorb s false) m e 7036874417766400 (-46)). lia.
Qed.

(** ** [100.0 / v - 1.0] *)

Lemma sub_rounds x y vx vy :
  nonneg x → nonneg y → value x = Some vx → value y = Some vy → 0 < vy <= vx →
  rounds_to (vx - vy) 1 (sub x y).
Proof.
  intros Hx Hy Hvx Hvy Hle. destruct x as [sx| | |[] mx ex]; try done;
    destruct y as [sy| | |[] my ey]; try done; simpl in Hvx, Hvy; simplify_eq; try lia.
  unfold sub, SFsub. pose proof (canon_repr _ _ Hx) as [_ Hex]. pose proof (canon_repr _ _ Hy) as [_ Hey].
  cbn [SpecFloat.cond_Zopp].
  rewrite <- (align_value mx ex (Z.min ex ey)), <- (align_value my ey (Z.min ex ey)) in *
    by (unfold scale; lia).
  rewrite (V_mul (Z.pos (fst (shl_align mx _ _)))), (V_mul (Z.pos (fst (shl_align my _ _)))) in *.
  rewrite <- Z.mul_sub_distr_r, <- V_mul.
  pose proof (V_unit_pos (Z.min ex ey) ltac:(unfold scale; lia)).
  apply normalize_rounds; [nia|lia].
Qed.

Lemma rounds_valid n d f : rounds_to n d f → ∀ m e, repr m e → n <= V m e * d → nonneg f.
Proof. intros [_ Hle _] m e Hr H. by apply (Hle m e Hr H). Qed.

Lemma nonneg_le_zero f : nonneg f → le zero f = true.
Proof. by destruct f as [[]| | |[]]. Qed.

Lemma value_pos_nonneg f v : valid f → value f = Some v → 0 < v → nonneg f.
Proof.
  destruct f as [s| | |s m e]; try done. intros Hv [= <-] Hpos. destruct s; [|done].
  destruct (canon_repr _ _ Hv) as [_ He].
  assert (Hu : 0 < V 1 e) by (apply V_unit_pos; unfold scale; lia).
  simpl in Hpos. change (Z.neg m) with (- Z.pos m) in Hpos. rewrite (V_mul (Z.pos m)) in Hpos. nia.
Qed.

Lemma sub_one_nonneg x vx :
  nonneg x → value x = Some vx → V 1 0 <= vx → le zero (sub x one) = true.
Proof.
  intros Hx Hv Hle. destruct (of_Z_exact 1 ltac:(lia)) as [Hon Hov].
  pose proof (V_unit_pos 0 ltac:(unfold scale; lia)).
  pose proof (sub_rounds x one vx (V 1 0) Hx Hon Hv Hov ltac:(lia)) as Hr.
  destruct (nonneg_value x Hx) as (m & e & Hrep & Hm). rewrite Hv in Hm. simplify_eq.
  apply nonneg_le_zero. eapply rounds_valid; [exact Hr|exact Hrep|lia].
Qed.

Lemma V_ratio_le a ea b eb :
  0 <= ea + scale → 0 <= eb + scale → 0 <= ea - eb + scale →
  V b eb <= V a ea → V 1 0 * b <= V a (ea - eb).
Proof.
  intros Ha Hb Hab Hle. rewrite (V_mul a ea), (V_mul b eb) in Hle.
  pose proof (V_unit_pos eb Hb). pose proof (V_unit_pos 0 ltac:(unfold scale; lia)).
  assert (E : V 1 eb * V 1 (ea - eb) = V 1 0 * V 1 ea).
  { unfold V. rewrite !Z.mul_1_l, <- !Z.pow_add_r by (unfold scale in *; lia). f_equal. lia. }
  rewrite (V_mul a (ea - eb)).
  apply (Z.mul_le_mono_pos_r _ _ (V 1 eb)); [lia|].
  replace (a * V 1 (ea - eb) * V 1 eb) with (V 1 0 * (a * V 1 ea)) by (rewrite <- (Z.mul_assoc a), (Z.mul_comm (V 1 (ea - eb))), E; ring).
  replace (V 1 0 * b * V 1 eb) with (V 1 0 * (b * V 1 eb)) by ring.
  apply Z.mul_le_mono_nonneg_l; lia.
Qed.

(** A percentage in (0, 100] gives a headroom that is not negative. *)
Lemma threshold_headroom_nonneg p :
  valid p → lt zero p = true → le p (of_Z 100) = true →
  le zero (sub (div (of_Z 100) p) one) = true.
Proof.
  intros Hv Hlt Hle. destruct p as [s|[]| |[] my ey]; try discriminate.
  destruct (of_Z_exact 100 ltac:(lia)) as [Hn Hhv].
  rewrite (le_values (S754_finite false my ey) _ (V (Z.pos my) ey) _ Hv Hn eq_refl Hhv) in Hle.
  destruct (canon_repr _ _ Hv) as [Hmy Hey].
  assert (Hey' : ey <= 7).
  { eapply (exp_upper (Z.pos my)); [lia|unfold scale; lia|]. etransitivity; [exact Hle|]. by vm_compute. }
  pose proof (digs_bounds (Z.pos my) ltac:(lia)) as Hd. pose proof (digs_pos (Z.pos my) ltac:(lia)).
  assert (digs (Z.pos my) <= 53).
  { pose proof (proj1 (proj2 Hv)) as Hf. rewrite fx_max in Hf. lia. }
  assert (Hr := div_rounds 7036874417766400 (-46) my ey).
  change (S754_finite false 7036874417766400 (-46)) with (of_Z 100) in Hr.
  change (digs 7036874417766400) with 53 in Hr.
  specialize (Hr ltac:(lia) ltac:(lia) ltac:(lia)).
  assert (Hge : V 1 0 * Z.pos my <= V 7036874417766400 (-46 - ey)).
  { apply V_ratio_le; [unfold scale; lia..|]. change (V 7036874417766400 (-46)) with (V 100 0). lia. }
  pose proof (V_unit_pos 0 ltac:(unfold scale; lia)) as Hpos.
  assert (Hrep : repr 1 0) by (split; lia).
  destruct (rt_ge _ _ _ Hr 1 0 Hrep Hge) as [->|(z & Hz & Hz1)]; [done|].
  apply (sub_one_nonneg _ z); [|done..].
  eapply value_pos_nonneg; [|exact Hz|lia].
  apply (div_core_valid (xorb false false) 7036874417766400 (-46) my ey). lia.
Qed.

Lemma sub_one_valid f : valid f → valid (sub f one).
Proof.
  change one with (S754_finite false 4503599627370496 (-52)).
  destruct f as [[]|[]| |[] m e]; intros Hv; try done; try (vm_compute; repeat split; congruence);
    apply normalize_valid.
Qed.

(** A headroom as the policy stores it: a float, not negative, perhaps infinite. *)
Definition fraction_ok (f : spec_float) : Prop := valid f ∧ le zero f = true.

Lemma threshold_headroom_ok p :
  valid p → lt zero p = true → le p (of_Z 100) = true →
  fraction_ok (sub (div (of_Z 100) p) one).
Proof.
  intros Hv Hlt Hle. split; [|by apply threshold_headroom_nonneg].
  apply sub_one_valid. destruct p as [|[]| |[] my ey]; try discriminate.
  apply (div_core_valid (xorb false false) 7036874417766400 (-46) my ey).
  pose proof (canon_repr _ _ Hv) as [_ He]. destruct (of_Z_exact 100 ltac:(lia)) as [Hn Hhv].
  rewrite (le_values (S754_finite false my ey) _ (V (Z.pos my) ey) _ Hv Hn eq_refl Hhv) in Hle.
  assert (ey <= 7); [|lia].
  eapply (exp_upper (Z.pos my)); [lia|unfold scale; lia|]. etransitivity; [exact Hle|]. by vm_compute.
Qed.

End F64Valid.
