(* ===== verification/GoFloatMono.v ===== *)
(** * Scaling by a factor near one

    [h * (1 - t)] stays between 0 and [h], [h * (1 + t)] is not below [h], and
    the comparisons with integers follow: the arithmetic of the tolerance band
    and of the step cap. What exceeds [h] by one still exceeds [h * (1 + f)] when
    it is scaled by at least as much and truncated. *)

From S2P Require Export GoFloatValid.
From stdpp Require Export sorting base option gmap strings list fin_maps.

Open Scope Z_scope.

Module F64Mono.
Import F64 F64Facts F64Lemmas F64Valid.

Lemma lt_values x y vx vy :
  nonneg x → nonneg y → value x = Some vx → value y = Some vy →
  lt x y = true ↔ vx < vy.
Proof.
  intros. unfold lt, SFltb. erewrite compare_values by done.
  destruct (Z.compare_spec vx vy); split; try done; lia.
Qed.

(** A fraction below one. *)
Lemma fraction_value t :
  valid t → le zero t = true → lt t one = true →
  nonneg t ∧ ∃ v, value t = Some v ∧ 0 <= v < V 1 0.
Proof.
  intros Hv H0 H1. destruct (valid_le_zero t Hv H0) as [Hn| ->]; [|done].
  split; [done|]. destruct (nonneg_value t Hn) as (m & e & Hr & Ht).
  destruct (of_Z_exact 1 ltac:(lia)) as [Hon Hov].
  apply (lt_values _ _ _ _ Hn Hon Ht Hov) in H1. exists (V m e). split; [done|]. split; [|done].
  destruct Hr. rewrite V_mul. pose proof (V_unit_pos e ltac:(unfold scale; lia)). nia.
Qed.

(** [1 - t] for a fraction [t]. *)
Lemma one_minus t :
  valid t → le zero t = true → lt t one = true →
  nonneg (sub one t) ∧ ∃ v, value (sub one t) = Some v ∧ 0 <= v <= V 1 0.
Proof.
  intros Hv H0 H1. destruct (fraction_value t Hv H0 H1) as (Hn & v & Hval & Hb).
  destruct (of_Z_exact 1 ltac:(lia)) as [Hon Hov].
  destruct (decide (v = 0)) as [->|Hne].
  - destruct t as [s| | |[] m e]; try (exfalso; exact Hn).
    + change (sub one (S754_zero s)) with one. split; [done|]. exists (V 1 0). split; [done|].
      split; [|done]. pose proof (V_unit_pos 0 ltac:(unfold scale; lia)). lia.
    + exfalso. simpl in Hval. injection Hval as Hz. pose proof (canon_repr _ _ Hn) as [_ He].
      pose proof (V_pos (Z.pos m) e ltac:(lia) ltac:(unfold scale; lia)). lia.
  - pose proof (sub_rounds one t (V 1 0) v Hon Hn Hov Hval ltac:(lia)) as [Hge Hle _].
    destruct (Hle 1 0) as [Hsn (z & Hz & Hz1)]; [split; lia|lia|].
    split; [done|]. exists z. split; [done|]. split; [|done].
    destruct (nonneg_value _ Hsn) as (m & e & [Hm He] & Hz'). rewrite Hz in Hz'. injection Hz' as ->.
    rewrite V_mul. pose proof (V_unit_pos e ltac:(unfold scale; lia)). nia.
Qed.

(** Scaling an integer by a factor of at most one. *)
Lemma scale_down h f v :
  0 <= h <= 2 ^ 53 → nonneg f → value f = Some v → 0 <= v <= V 1 0 →
  nonneg (mul (of_Z h) f) ∧ ∃ w, value (mul (of_Z h) f) = Some w ∧ 0 <= w <= V h 0.
Proof.
  intros Hh Hf Hv Hb. destruct (of_Z_exact h Hh) as [Hhn Hhv].
  destruct (value_repr_mul h f v Hf Hv ltac:(lia)) as (n & Hn & Hne).
  destruct (mul_rounds _ _ _ _ n Hhn Hf Hhv Hv Hn) as [_ Hle _].
  destruct (repr_Z h Hh) as (m & e & Hr & Hm).
  destruct (Hle m e Hr) as [Hmn (z & Hz & Hz1)].
  { rewrite Hm, Hne, (V_mul h). nia. }
  split; [done|]. exists z. split; [done|]. rewrite <- Hm. split; [|done].
  destruct (nonneg_value _ Hmn) as (m' & e' & [Hm' He'] & Hz'). rewrite Hz in Hz'. injection Hz' as ->.
  rewrite V_mul. pose proof (V_unit_pos e' ltac:(unfold scale; lia)). nia.
Qed.

Lemma scale_down_int64 {GA : GoArch} h f v :
  0 <= h <= 2 ^ 53 → nonneg f → value f = Some v → 0 <= v <= V 1 0 →
  0 <= to_int64 (mul (of_Z h) f) <= h.
Proof.
  intros Hh Hf Hv Hb. destruct (scale_down h f v Hh Hf Hv Hb) as (Hn & w & Hw & Hwb).
  assert (Hs : 0 < 2 ^ scale) by (apply Z.pow_pos_nonneg; unfold scale; lia).
  assert (Hfl : 0 <= w / 2 ^ scale <= h).
  { split; [apply Z.div_pos; lia|]. unfold V in Hwb. rewrite Z.add_0_l in Hwb.
    apply Z.div_le_upper_bound; [done|]. lia. }
  rewrite (to_int64_value _ w); [done|done|done|lia64].
Qed.

(** An integer below a scaled one is below it before the scaling. *)
Lemma lt_scaled t h f v :
  0 <= h <= 2 ^ 53 → nonneg f → value f = Some v → 0 <= v <= V 1 0 → 0 <= t <= max_int64 →
  lt (of_Z t) (mul (of_Z h) f) = true → t < h.
Proof.
  intros Hh Hf Hv Hb Ht Hlt. destruct (scale_down h f v Hh Hf Hv Hb) as (Hn & w & Hw & Hwb).
  destruct (Z.lt_ge_cases t h) as [|Hge]; [done|exfalso].
  assert (Htn : nonneg (of_Z t)) by (apply of_Z_nonneg; lia64).
  destruct (nonneg_value _ Htn) as (m & e & _ & Hv').
  apply (lt_values _ _ _ _ Htn Hn Hv' Hw) in Hlt.
  destruct (repr_Z h Hh) as (m' & e' & Hr & Hm). destruct (of_Z_rounds t ltac:(lia)) as [Hrge _ _].
  destruct (Hrge m' e' Hr) as [Hinf|(z & Hz & Hz1)].
  { rewrite Hm, Z.mul_1_r. by apply V_le_iff. }
  - by rewrite Hinf in Htn.
  - rewrite Hv' in Hz. injection Hz as <-. rewrite Hm in Hz1. lia.
Qed.

Lemma fraction_le_1000 f : fraction_ok f → lt f one = true → nonneg f ∧ le f (of_Z 1000) = true.
Proof.
  intros [Hv H0] H1. destruct (fraction_value f Hv H0 H1) as (Hn & v & Hval & Hb). split; [done|].
  destruct (of_Z_exact 1000 ltac:(lia)) as [Hkn Hkv]. apply (le_values _ _ _ _ Hn Hkn Hval Hkv).
  transitivity (V 1 0); [lia|]. by apply V_le_iff.
Qed.

(** Raising an integer by a fraction does not lower it. *)
Lemma scale_up_not_lt t h f :
  0 <= t <= h → h <= 2 ^ 53 → fraction_ok f → lt f one = true →
  lt (mul (of_Z h) (add one f)) (of_Z t) = false.
Proof.
  intros Ht Hh Hf H1. destruct (fraction_le_1000 f Hf H1) as [Hn Hk].
  destruct (scale_up_rounds h f ltac:(lia) Hn Hk) as (_ & Hmn & va & v & _ & _ & _ & Hv & Hb).
  destruct (of_Z_exact t ltac:(lia)) as [Htn Htv].
  apply not_true_iff_false. rewrite (lt_values _ _ _ _ Hmn Htn Hv Htv).
  apply Z.nlt_ge. transitivity (V h 0); [apply V_le_iff|]; lia.
Qed.

(** ** Rounding keeps the order *)

Lemma rounds_mono x y f g vf vg :
  rounds_to x 1 f → rounds_to y 1 g → nonneg f → nonneg g → value f = Some vf → value g = Some vg →
  x < y → vf <= vg.
Proof.
  intros Hf Hg Hnf Hng Hvf Hvg Hlt. destruct (Z.le_gt_cases vf vg) as [|Hgt]; [done|exfalso].
  destruct (nonneg_value f Hnf) as (m & e & Hr & Hm). rewrite Hvf in Hm. injection Hm as ->.
  destruct (nonneg_value g Hng) as (m' & e' & Hr' & Hm'). rewrite Hvg in Hm'. injection Hm' as ->.
  pose proof (rt_near _ _ _ Hf _ _ _ Hvf Hr') as N1. pose proof (rt_near _ _ _ Hg _ _ _ Hvg Hr) as N2.
  lia.
Qed.

Lemma value_inj f g v : nonneg f → nonneg g → value f = Some v → value g = Some v → v ≠ 0 → f = g.
Proof.
  intros Hf Hg Hvf Hvg Hne. pose proof (compare_values f g v v Hf Hg Hvf Hvg) as Hc.
  rewrite Z.compare_refl in Hc.
  destruct f as [| | |[] m e]; try done; [simpl in Hvf; congruence|].
  destruct g as [| | |[] m' e']; try done.
  cbn [SFcompare] in Hc. destruct (Z.compare_spec e e') as [He|?|?]; [subst e'|done|done].
  change (Pos.compare_cont Eq m m') with (Pos.compare m m') in Hc.
  by destruct (Pos.compare_spec m m') as [->| |].
Qed.

Lemma add_one_mono f g va vb :
  nonneg f → nonneg g → le f g = true → nonneg (add one f) → nonneg (add one g) →
  value (add one f) = Some va → value (add one g) = Some vb → va <= vb.
Proof.
  intros Hf Hg Hle Hna Hnb Hva Hvb. destruct (of_Z_exact 1 ltac:(lia)) as [Hon Hov].
  destruct (nonneg_value f Hf) as (m & e & _ & Hvf). destruct (nonneg_value g Hg) as (m' & e' & _ & Hvg).
  apply (le_values _ _ _ _ Hf Hg Hvf Hvg) in Hle.
  pose proof (add_rounds one f _ _ Hon Hf Hov Hvf) as Ra. pose proof (add_rounds one g _ _ Hon Hg Hov Hvg) as Rb.
  destruct (decide (V m e = V m' e')) as [Heq|Hne].
  - destruct (decide (V m e = 0)) as [Hz|Hz].
    + assert (H0 : ∀ x, nonneg x → value x = Some 0 → add one x = one).
      { intros [sx| | |[] mx ex] Hx Hvx; [reflexivity|destruct Hx..|]. exfalso.
        pose proof (canon_repr _ _ Hx) as [_ ?].
        pose proof (V_pos (Z.pos mx) ex ltac:(lia) ltac:(unfold scale; lia)). by injection Hvx; lia. }
      rewrite (H0 f Hf) in Hva by (by rewrite Hvf, Hz). rewrite (H0 g Hg) in Hvb by (by rewrite Hvg, <- Heq, Hz).
      rewrite Hva in Hvb. injection Hvb. lia.
    + assert (f = g) as -> by (apply (value_inj f g (V m e)); congruence). rewrite Hva in Hvb. injection Hvb. lia.
  - apply (rounds_mono _ _ _ _ _ _ Ra Rb Hna Hnb Hva Hvb). lia.
Qed.

(** The number below by one is a number of the format. *)
Lemma repr_pred v : (∃ m e, repr m e ∧ V m e = v) → V 1 0 <= v <= V (2 ^ 53) 0 → ∃ m e, repr m e ∧ V m e = v - V 1 0.
Proof.
  intros (m & e & Hr & <-) Hb. destruct (Z.le_gt_cases 0 e) as [He|He].
  - assert (V m e = V (m * 2 ^ e) 0) as Heq by (by rewrite V_shift by (unfold scale; lia)).
    rewrite Heq in Hb. rewrite !V_le_iff in Hb. destruct (repr_Z (m * 2 ^ e - 1) ltac:(lia)) as (m' & e' & Hr' & Hv').
    exists m', e'. split; [done|]. rewrite Hv', Heq, (V_mul (_ - 1)), (V_mul (m * 2 ^ e)), (V_mul 1). lia.
  - destruct Hr as [Hm He']. pose proof (V_unit_pos e ltac:(unfold scale; lia)).
    assert (V 1 0 = V (2 ^ (- e)) e) as H1.
    { replace (2 ^ (- e)) with (1 * 2 ^ (- e)) by lia. rewrite V_shift by (unfold scale; lia). f_equal. lia. }
    assert (0 < 2 ^ (- e)) by (apply Z.pow_pos_nonneg; lia).
    rewrite H1, (V_mul (2 ^ (- e))), (V_mul m) in *. exists (m - 2 ^ (- e)), e.
    split; [split; [nia|lia]|]. rewrite (V_mul (m - _)). lia.
Qed.

(** What is above [h] stays above [h * (1 + f)] when it is scaled by at least as
    much, truncation included. *)
Theorem scale_up_gap {GA : GoArch} h n f g :
  0 <= h < n → n <= 2 ^ 53 → fraction_ok f → lt f one = true → nonneg g → le g (of_Z 1000) = true →
  le f g = true → to_int64 (mul (of_Z n) (add one g)) < 2 ^ 53 →
  lt (mul (of_Z h) (add one f)) (of_Z (to_int64 (mul (of_Z n) (add one g)))) = true.
Proof.
  intros Hh Hn Hfo Hf1 Hg Hg1 Hfg Ht. destruct (fraction_le_1000 f Hfo Hf1) as [Hf Hf2].
  destruct (scale_up_rounds h f ltac:(lia) Hf Hf2) as (Han & Hxn & va & x & Hva & Ha1 & Rx & Hx & Hxb).
  destruct (scale_up_rounds n g ltac:(lia) Hg Hg1) as (Hbn & Hyn & vb & y & Hvb & Hb1 & Ry & Hy & Hyb).
  pose proof (add_one_mono f g va vb Hf Hg Hfg Han Hbn Hva Hvb) as Hab.
  pose proof (to_int64_scaled _ _ Hyn Hy (proj2 Hyb)) as Hty.
  set (t := to_int64 (mul (of_Z n) (add one g))) in *.
  assert (Htn : n <= t).
  { assert (V n 0 < V (t + 1) 0) as Hlt by lia. rewrite (V_mul n), (V_mul (t + 1)) in Hlt.
    pose proof (V_unit_pos 0 ltac:(unfold scale; lia)). nia. }
  destruct (of_Z_exact t ltac:(lia)) as [Htn' Htv]. apply (lt_values _ _ _ _ Hxn Htn' Hx Htv).
  apply Z.nle_gt. intros Hle. set (S := V 1 0) in *. set (p := h * va) in *. set (q := n * vb) in *.
  assert (HS : 0 < S) by (apply V_unit_pos; unfold scale; lia).
  assert (Hpq : p + va <= q) by (unfold p, q; nia).
  assert (HT1 : V (t + 1) 0 = V t 0 + S) by (unfold S; rewrite (V_mul (t + 1)), (V_mul t); lia).
  destruct (repr_Z t ltac:(lia)) as (mt & et & Hrt & Hmt).
  destruct (repr_Z (t + 1) ltac:(lia)) as (mt1 & et1 & Hrt1 & Hmt1).
  assert (Hq1 : q < V (t + 1) 0).
  { apply Z.nle_gt. intros Hge. destruct (rt_ge _ _ _ Ry _ _ Hrt1) as [Hi|(z & Hz & ?)]; [lia|by rewrite Hi in Hy|].
    rewrite Hy in Hz. injection Hz as <-. lia. }
  assert (Hp : p < V t 0) by lia.
  assert (HxT : x = V t 0).
  { destruct (rt_le _ _ _ Rx _ _ Hrt) as [_ (z & Hz & ?)]; [lia|]. rewrite Hx in Hz. injection Hz as <-. lia. }
  destruct (decide (va = S)) as [HaS|HaS].
  - destruct (repr_Z h ltac:(lia)) as (mh & eh & Hrh & Hmh).
    assert (p = V h 0) as Hph by (unfold p; rewrite HaS, (V_mul h); reflexivity).
    destruct (rt_le _ _ _ Rx _ _ Hrh) as [_ (z & Hz & ?)]; [lia|]. rewrite Hx in Hz. injection Hz as <-. lia.
  - destruct (nonneg_value _ Hyn) as (my & ey & Hry & Hmy). rewrite Hy in Hmy. injection Hmy as Hmy.
    pose proof (rt_near _ _ _ Ry _ _ _ Hy Hrt1) as Ny.
    destruct (repr_pred y) as (mz & ez & Hrz & Hz).
    { by exists my, ey. }
    { split; [|transitivity (V (t + 1) 0); [lia|apply V_le_iff; lia]].
      transitivity (V t 0); [apply V_le_iff; lia|lia]. }
    pose proof (rt_near _ _ _ Rx _ _ _ Hx Hrz) as Nx.
    destruct (Z.le_gt_cases p (y - S)) as [Hlow|Hhigh].
    + destruct (rt_le _ _ _ Rx _ _ Hrz) as [_ (z & Hz' & ?)]; [lia|]. rewrite Hx in Hz'. injection Hz' as <-. lia.
    + lia.
Qed.

End F64Mono.
