(* ===== verification/GoTime.v ===== *)
(** * Go's package time

    The part of package [time] that the program uses. A [time.Time] is the
    number of nanoseconds since the zero time, 1 January of year 1, 00:00:00
    UTC, so that [IsZero] is the test against 0; a [time.Duration] is a 64-bit
    number of nanoseconds. The calendar is the proleptic Gregorian one, in UTC:
    the program converts to UTC before it formats.

    [time.Now] readings carry no monotonic clock here: every instant they are
    subtracted from or compared with comes out of a parsed string or of an API
    object, and Go then compares the wall clocks. *)

From S2P Require Export GoStrings GoFloat.
From stdpp Require Export sorting base option gmap strings list fin_maps.

Open Scope Z_scope.

Module Time.

Definition Nanosecond : Z := 1.
Definition Second : Z := 1000000000.
Definition Minute : Z := 60 * Second.
Definition Hour : Z := 60 * Minute.
Definition Day : Z := 24 * Hour.

Definition zero : Z := 0.
Definition IsZero (t : Z) : bool := t =? 0.
Definition Before (t u : Z) : bool := t <? u.
Definition Add (t d : Z) : Z := t + d.

(** [t.Sub(u)] saturates. *)
Definition Sub (t u : Z) : Z := Z.max min_int64 (Z.min max_int64 (t - u)).

(** [d.Truncate(m)] for [m > 0]: towards zero. *)
Definition Truncate (d m : Z) : Z := d - Z.rem d m.

(** ** The calendar *)

Definition is_leap (y : Z) : bool :=
  (y mod 4 =? 0) && (negb (y mod 100 =? 0) || (y mod 400 =? 0)).

(** Days before month [m] of a year, and the length of month [m]. *)
Definition days_before (leap : bool) (m : Z) : Z :=
  match m with
  | 1 => 0 | 2 => 31
  | _ =>
      (if leap then 1 else 0) +
      match m with
      | 3 => 59 | 4 => 90 | 5 => 120 | 6 => 151 | 7 => 181
      | 8 => 212 | 9 => 243 | 10 => 273 | 11 => 304 | 12 => 334 | _ => 365
      end
  end.
Definition days_in (leap : bool) (m : Z) : Z := days_before leap (m + 1) - days_before leap m.

(** Days from 1 January of year 1 to 1 January of year [y], and to a date. *)
Definition days_before_year (y : Z) : Z :=
  365 * (y - 1) + (y - 1) / 4 - (y - 1) / 100 + (y - 1) / 400.
Definition days_of_civil (y m d : Z) : Z :=
  days_before_year y + days_before (is_leap y) m + (d - 1).

(** Month and day of the [n]-th day of a year. *)
Fixpoint month_of (fuel : nat) (leap : bool) (n m : Z) : Z * Z :=
  match fuel with
  | O => (m, n + 1)
  | S f => if n <? days_in leap m then (m, n + 1) else month_of f leap (n - days_in leap m) (m + 1)
  end.

(** Year, month and day of a day number: a cycle of 400 years has 146097 days. *)
Definition civil_in_cycle (doe : Z) : Z * Z * Z :=
  let n100 := Z.min 3 (doe / 36524) in
  let d1 := doe - 36524 * n100 in
  let n4 := d1 / 1461 in
  let d2 := d1 - 1461 * n4 in
  let n1 := Z.min 3 (d2 / 365) in
  let y := 100 * n100 + 4 * n4 + n1 + 1 in
  let '(m, d) := month_of 11 (is_leap y) (d2 - 365 * n1) 1 in
  (y, m, d).

Definition civil (day : Z) : Z * Z * Z :=
  let '(y, m, d) := civil_in_cycle (day mod 146097) in
  (400 * (day / 146097) + y, m, d).

Definition day_of (t : Z) : Z := t / Day.

(** [t.AddDate(0, 0, n)] in UTC. *)
Definition AddDays (t n : Z) : Z := t + n * Day.

(** ** Formatting *)

Definition pad_year (y : Z) : string :=
  if y <? 0 then "-" +:+ (if - y <? 10000 then Str.pad4 (- y) else Str.dec (- y))
  else if y <? 10000 then Str.pad4 y else Str.dec y.

(** The layout "2006-01-02" of a day number. *)
Definition date_string (day : Z) : string :=
  let '(y, m, d) := civil day in
  pad_year y +:+ "-" +:+ Str.pad2 m +:+ "-" +:+ Str.pad2 d.

Definition hour_of (t : Z) : Z := t mod Day / Hour.
Definition minute_of (t : Z) : Z := t mod Hour / Minute.
Definition second_of (t : Z) : Z := t mod Minute / Second.

(** [t.Format("2006-01-02")] and [t.Format("15:04")]. *)
Definition FormatDate (t : Z) : string := date_string (day_of t).
Definition FormatClock (t : Z) : string :=
  Str.pad2 (hour_of t) +:+ ":" +:+ Str.pad2 (minute_of t).

(** [t.Format(time.RFC3339)] in UTC. *)
Definition FormatRFC3339 (t : Z) : string :=
  FormatDate t +:+ "T" +:+ Str.pad2 (hour_of t) +:+ ":" +:+ Str.pad2 (minute_of t) +:+
  ":" +:+ Str.pad2 (second_of t) +:+ "Z".

(** ** [time.Parse(time.RFC3339, s)] *)

Definition get_digit (s : string) : option (Z * string) :=
  match s with
  | String c s' => if Str.is_digit c then Some (Str.digit_value c, s') else None
  | EmptyString => None
  end.

(** Exactly two digits; one or two digits. *)
Definition get2 (s : string) : option (Z * string) :=
  match get_digit s with
  | Some (a, s') =>
      match get_digit s' with Some (b, s'') => Some (10 * a + b, s'') | None => None end
  | None => None
  end.
Definition get12 (s : string) : option (Z * string) :=
  match get2 s with Some r => Some r | None => get_digit s end.

Definition get_char (c : ascii) (s : string) : option string :=
  match s with
  | String a s' => if Ascii.eqb a c then Some s' else None
  | EmptyString => None
  end.

(** Up to nine digits of a fraction count; further digits are dropped. *)
Fixpoint get_fraction (fuel : nat) (unit acc : Z) (s : string) : Z * string :=
  match fuel with
  | O => (acc, s)
  | S f =>
      match get_digit s with
      | Some (d, s') => get_fraction f (unit / 10) (acc + d * unit) s'
      | None => (acc, s)
      end
  end.

Definition get_nanos (s : string) : Z * string :=
  match s with
  | String c s' =>
      if (Ascii.eqb c "." || Ascii.eqb c ",")%char then
        match get_digit s' with
        | Some _ => get_fraction (String.length s') 100000000 0 s'
        | None => (0, s)
        end
      else (0, s)
  | EmptyString => (0, s)
  end.

(** The zone: Z, or a sign, hours, a colon and minutes, in seconds. *)
Definition get_zone (s : string) : option (Z * string) :=
  match s with
  | String "Z" s' => Some (0, s')
  | String c s' =>
      match get2 s' with
      | Some (h, s1) =>
          match get_char ":" s1 with
          | Some s2 =>
              match get2 s2 with
              | Some (m, s3) =>
                  if (h <=? 24) && (m <=? 60) then
                    if Ascii.eqb c "+" then Some ((h * 60 + m) * 60, s3)
                    else if Ascii.eqb c "-" then Some (- ((h * 60 + m) * 60), s3)
                    else None
                  else None
              | None => None
              end
          | None => None
          end
      | None => None
      end
  | EmptyString => None
  end.

Notation "'let?' x ':=' e 'in' k" :=
  (match e with Some x => k | None => None end)
  (at level 10, x pattern, e at level 100, k at level 200, only parsing).

Definition get_date (s : string) : option (Z * string) :=
  let? (y1, s) := get2 s in
  let? (y2, s) := get2 s in
  let? s := get_char "-" s in
  let? (mo, s) := get2 s in
  let? s := get_char "-" s in
  let? (d, s) := get2 s in
  let y := 100 * y1 + y2 in
  if (1 <=? mo) && (mo <=? 12) && (1 <=? d) && (d <=? days_in (is_leap y) mo)
  then Some (days_of_civil y mo d, s) else None.

Definition ParseRFC3339 (s : string) : option Z :=
  let? (day, s) := get_date s in
  let? s := get_char "T" s in
  let? (h, s) := get12 s in
  let? s := get_char ":" s in
  let? (mi, s) := get2 s in
  let? s := get_char ":" s in
  let? (se, s) := get2 s in
  let '(ns, s) := get_nanos s in
  let? (off, s) := get_zone s in
  if (h <? 24) && (mi <? 60) && (se <? 60) && String.eqb s ""
  then Some (day * Day + h * Hour + mi * Minute + (se - off) * Second + ns)
  else None.

(** ** Durations *)

(** [d.String()] for a whole number of seconds. *)
Definition seconds_string (n : Z) : string :=
  if n <? 60 then Str.dec n +:+ "s"
  else if n <? 3600 then Str.dec (n / 60) +:+ "m" +:+ Str.dec (n mod 60) +:+ "s"
  else Str.dec (n / 3600) +:+ "h" +:+ Str.dec (n / 60 mod 60) +:+ "m" +:+
       Str.dec (n mod 60) +:+ "s".
Definition DurationString (d : Z) : string :=
  if d <? 0 then "-" +:+ seconds_string (- d / Second) else seconds_string (d / Second).

(** Leading digits of a duration: [None] when the value exceeds [2^63]. *)
Fixpoint leading_int (acc : Z) (s : string) : option (Z * string) :=
  match s with
  | String c s' =>
      if Str.is_digit c then
        if two63 / 10 <? acc then None
        else let x := 10 * acc + Str.digit_value c in
             if two63 <? x then None else leading_int x s'
      else Some (acc, s)
  | EmptyString => Some (acc, s)
  end.

(** Digits of a fraction and the power of ten they are over. *)
Fixpoint leading_fraction (acc : Z) (scale : F64.t) (over : bool) (s : string) : Z * F64.t * string :=
  match s with
  | String c s' =>
      if Str.is_digit c then
        let y := 10 * acc + Str.digit_value c in
        if over || (max_int64 / 10 <? acc) || (two63 <? y)
        then leading_fraction acc scale true s'
        else leading_fraction y (F64.mul scale (F64.of_Z 10)) false s'
      else (acc, scale, s)
  | EmptyString => (acc, scale, s)
  end.

(** The characters up to the next digit or dot. *)
Fixpoint leading_unit (s : string) : string * string :=
  match s with
  | String c s' =>
      if Str.is_digit c || Ascii.eqb c "." then (EmptyString, s)
      else let '(u, r) := leading_unit s' in (String c u, r)
  | EmptyString => (EmptyString, EmptyString)
  end.

(** The units; both code points for micro are accepted. *)
Definition unit_map : list (string * Z) :=
  [("ns", 1); ("us", 1000); (Str.bytes [194; 181; 115]%N, 1000); (Str.bytes [206; 188; 115]%N, 1000);
   ("ms", 1000000); ("s", Second); ("m", Minute); ("h", Hour)].
Definition unit_of (u : string) : option Z :=
  snd <$> List.find (λ p, String.eqb p.1 u) unit_map.

Definition float_part (f : Z) (unit : Z) (scale : F64.t) : Z :=
  match F64.mul (F64.of_Z f) (F64.div (F64.of_Z unit) scale) with
  | S754_finite false m e => F64.trunc m e
  | _ => 0
  end.

(** One number with its unit, as a count of nanoseconds. *)
Definition duration_term (s : string) : option (Z * string) :=
  let? (v, s1) := leading_int 0 s in
  let pre := negb (String.length s =? String.length s1)%nat in
  let '(f, scale, s2, post) :=
    match s1 with
    | String "." s1' =>
        let '(f, scale, s2) := leading_fraction 0 F64.one false s1' in
        (f, scale, s2, negb (String.length s1' =? String.length s2)%nat)
    | _ => (0, F64.one, s1, false)
    end in
  if negb pre && negb post then None else
  let '(u, s3) := leading_unit s2 in
  let? unit := unit_of u in
  if two63 / unit <? v then None else
  let v := v * unit + (if 0 <? f then float_part f unit scale else 0) in
  if two63 <? v then None else Some (v, s3).

Fixpoint duration_terms (fuel : nat) (d : Z) (s : string) : option Z :=
  match s with
  | EmptyString => Some d
  | _ =>
      match fuel with
      | O => None
      | S f =>
          let? (v, s') := duration_term s in
          let d := (d + v) mod two64 in
          if two63 <? d then None else duration_terms f d s'
      end
  end.

(** [time.ParseDuration]. Every term takes at least one character. *)
Definition ParseDuration (s : string) : option Z :=
  let '(neg, s) := match s with
                   | String "-" s' => (true, s')
                   | String "+" s' => (false, s')
                   | _ => (false, s)
                   end in
  if String.eqb s "0" then Some 0
  else if String.eqb s "" then None
  else let? d := duration_terms (String.length s) 0 s in
       if neg then Some (- d) else if max_int64 <? d then None else Some d.

End Time.
