(* ===== verification/GoTimeFacts.v ===== *)
(** * Facts about time

    The calendar functions are inverse to each other, the order of formatted
    dates is the order of days, and the printed forms of instants and durations
    that the program stores are read back. *)

From S2P Require Export GoTime.
From stdpp Require Export sorting base option gmap strings list fin_maps.

Open Scope Z_scope.

Module TimeFacts.
Import Time.

(** ** The calendar *)

Definition valid_date (y m d : Z) : Prop :=
  1 <= m <= 12 ∧ 1 <= d <= days_in (is_leap y) m.

Definition valid_dateb (y m d : Z) : bool :=
  (1 <=? m) && (m <=? 12) && (1 <=? d) && (d <=? days_in (is_leap y) m).

(** A day of the cycle of 400 years is split as it should be. *)
Definition cycle_ok (doe : Z) : bool :=
  let '(y, m, d) := civil_in_cycle doe in
  (1 <=? y) && (y <=? 400) && valid_dateb y m d && (days_of_civil y m d =? doe).

Fixpoint forall_below (n : nat) (z : Z) (f : Z → bool) : bool :=
  match n with
  | O => true
  | S n' => f z && forall_below n' (z + 1) f
  end.

Lemma forall_below_spec n z f x :
  forall_below n z f = true → z <= x < z + Z.of_nat n → f x = true.
Proof.
  revert z. induction n as [|n IH]; intros z H Hx; [lia|].
  simpl in H. apply andb_true_iff in H as [H1 H2].
  destruct (decide (x = z)) as [->|]; [done|]. apply (IH (z + 1)); [done|lia].
Qed.

(** The days of a year, one by one. *)
Definition month_ok (leap : bool) (n : Z) : bool :=
  let '(m, d) := month_of 11 leap n 1 in
  (1 <=? m) && (m <=? 12) && (1 <=? d) && (d <=? days_in leap m) && (days_before leap m + (d - 1) =? n).

Lemma month_all_ok (leap : bool) n : 0 <= n < 365 + (if leap then 1 else 0) → month_ok leap n = true.
Proof.
  intros Hn. destruct leap.
  - apply (forall_below_spec 366 0 (month_ok true)); [vm_compute; reflexivity|lia].
  - apply (forall_below_spec 365 0 (month_ok false)); [vm_compute; reflexivity|lia].
Qed.

(** The year of a day in the cycle. *)
Lemma year_in_cycle doe :
  0 <= doe < 146097 →
  let n100 := Z.min 3 (doe / 36524) in
  let n4 := (doe - 36524 * n100) / 1461 in
  let n1 := Z.min 3 ((doe - 36524 * n100 - 1461 * n4) / 365) in
  let y := 100 * n100 + 4 * n4 + n1 + 1 in
  let n := doe - 36524 * n100 - 1461 * n4 - 365 * n1 in
  1 <= y <= 400 ∧ days_before_year y + n = doe ∧ 0 <= n < 365 + (if is_leap y then 1 else 0).
Proof.
  intros Hd n100 n4 n1 y n.
  assert (H100 : 0 <= n100 <= 3) by lia.
  assert (Hd1 : 0 <= doe - 36524 * n100 ∧ (n100 < 3 → doe - 36524 * n100 < 36524) ∧ doe - 36524 * n100 < 36525) by lia.
  assert (H4 : 0 <= n4 <= 24) by lia.
  set (d2 := doe - 36524 * n100 - 1461 * n4) in *.
  assert (Hd2 : 0 <= d2 < 1461 ∧ (n4 = 24 → n100 < 3 → d2 < 1460) ∧ doe = 36524 * n100 + 1461 * n4 + d2) by lia.
  assert (H1 : 0 <= n1 <= 3) by lia.
  assert (Hn : 0 <= n ∧ (n1 < 3 → n < 365) ∧ n = d2 - 365 * n1) by lia.
  assert (Hyd : y - 1 = 100 * n100 + 4 * n4 + n1) by lia.
  clearbody n100 n4 n1 d2 n y. unfold days_before_year, is_leap.
  split; [lia|]. split; [lia|]. split; [lia|].
  destruct (Z.eqb_spec (y mod 4) 0), (Z.eqb_spec (y mod 100) 0), (Z.eqb_spec (y mod 400) 0); simpl; lia.
Qed.

Lemma cycle_all_ok doe : 0 <= doe < 146097 → cycle_ok doe = true.
Proof.
  intros Hd. destruct (year_in_cycle doe Hd) as (Hy & Hb & Hn). unfold cycle_ok, civil_in_cycle.
  set (n100 := Z.min 3 (doe / 36524)) in *. set (n4 := (doe - 36524 * n100) / 1461) in *.
  set (n1 := Z.min 3 ((doe - 36524 * n100 - 1461 * n4) / 365)) in *.
  set (y := 100 * n100 + 4 * n4 + n1 + 1) in *.
  set (n := doe - 36524 * n100 - 1461 * n4 - 365 * n1) in *.
  pose proof (month_all_ok (is_leap y) n Hn) as Hm. unfold month_ok in Hm.
  destruct (month_of 11 (is_leap y) n 1) as [m d]. unfold valid_dateb, days_of_civil. bool_to_prop.
  rewrite !andb_true_iff, !Z.leb_le, Z.eqb_eq. lia.
Qed.

Lemma is_leap_cycle k y : is_leap (400 * k + y) = is_leap y.
Proof.
  unfold is_leap. f_equal; [f_equal; lia|]. f_equal; [f_equal; f_equal; lia|f_equal; lia].
Qed.

Lemma days_before_year_cycle k y :
  days_before_year (400 * k + y) = 146097 * k + days_before_year y.
Proof. unfold days_before_year. lia. Qed.

Lemma civil_spec day y m d :
  civil day = (y, m, d) → valid_date y m d ∧ days_of_civil y m d = day.
Proof.
  unfold civil. intros H.
  assert (cycle_ok (day mod 146097) = true) as Hok.
  { apply cycle_all_ok. lia. }
  unfold cycle_ok in Hok. destruct (civil_in_cycle _) as [[y0 m0] d0]. simplify_eq.
  unfold valid_dateb in Hok. bool_to_prop. split.
  - unfold valid_date. rewrite is_leap_cycle. lia.
  - unfold days_of_civil in *. rewrite days_before_year_cycle, is_leap_cycle. lia.
Qed.

(** ** Days are ordered like dates *)

Ltac month_cases m :=
  let H := fresh in
  assert (m = 1 ∨ m = 2 ∨ m = 3 ∨ m = 4 ∨ m = 5 ∨ m = 6 ∨ m = 7 ∨ m = 8 ∨ m = 9 ∨ m = 10 ∨
          m = 11 ∨ m = 12) as H by lia;
  destruct H as [->|[->|[->|[->|[->|[->|[->|[->|[->|[->|[->| ->]]]]]]]]]]].

Lemma days_before_step l m : 1 <= m <= 12 → 0 <= days_before l m ∧ 28 <= days_in l m <= 31.
Proof. intros H. month_cases m; destruct l; vm_compute; intuition congruence. Qed.

Lemma days_before_mono l m m' :
  1 <= m → m < m' → m' <= 12 → days_before l m + days_in l m <= days_before l m'.
Proof.
  intros H1 H2 H3. unfold days_in.
  replace (days_before l m + (days_before l (m + 1) - days_before l m))
    with (days_before l (m + 1)) by lia.
  month_cases m; month_cases m'; try lia; destruct l; vm_compute; congruence.
Qed.

Lemma days_before_top l m :
  1 <= m <= 12 → days_before l m + days_in l m <= 365 + (if l then 1 else 0).
Proof. intros H. month_cases m; destruct l; vm_compute; congruence. Qed.

Lemma year_step y : days_before_year (y + 1) = days_before_year y + 365 + (if is_leap y then 1 else 0).
Proof.
  unfold days_before_year, is_leap. replace (y + 1 - 1) with y by lia.
  destruct (Z.eqb_spec (y mod 4) 0), (Z.eqb_spec (y mod 100) 0), (Z.eqb_spec (y mod 400) 0);
    simpl; lia.
Qed.

Lemma year_mono y y' : y <= y' → days_before_year y <= days_before_year y'.
Proof. unfold days_before_year. lia. Qed.

Definition date_lt (p q : Z * Z * Z) : Prop :=
  let '(y, m, d) := p in let '(y', m', d') := q in
  y < y' ∨ y = y' ∧ (m < m' ∨ m = m' ∧ d < d').

Lemma days_of_civil_mono y m d y' m' d' :
  valid_date y m d → valid_date y' m' d' → date_lt (y, m, d) (y', m', d') →
  days_of_civil y m d < days_of_civil y' m' d'.
Proof.
  intros [Hm Hd] [Hm' Hd'] Hlt. unfold days_of_civil.
  pose proof (days_before_step (is_leap y') m' Hm').
  destruct Hlt as [Hy|[-> [Hmm|[-> Hdd]]]].
  - pose proof (days_before_top (is_leap y) m Hm). pose proof (year_step y).
    pose proof (year_mono (y + 1) y' ltac:(lia)). lia.
  - pose proof (days_before_mono (is_leap y') m m' ltac:(lia) Hmm ltac:(lia)). lia.
  - lia.
Qed.

Lemma civil_of_days y m d : valid_date y m d → civil (days_of_civil y m d) = (y, m, d).
Proof.
  intros Hv. destruct (civil (days_of_civil y m d)) as [[y' m'] d'] eqn:E.
  apply civil_spec in E as [Hv' He].
  assert (¬ date_lt (y, m, d) (y', m', d')) as H1.
  { intros H. pose proof (days_of_civil_mono _ _ _ _ _ _ Hv Hv' H). lia. }
  assert (¬ date_lt (y', m', d') (y, m, d)) as H2.
  { intros H. pose proof (days_of_civil_mono _ _ _ _ _ _ Hv' Hv H). lia. }
  simpl in H1, H2. assert (y' = y) as -> by lia. assert (m' = m) as -> by lia.
  assert (d' = d) as -> by lia. done.
Qed.

Lemma civil_mono a b : a < b → date_lt (civil a) (civil b).
Proof.
  intros Hab. destruct (civil a) as [[y m] d] eqn:Ea, (civil b) as [[y' m'] d'] eqn:Eb.
  apply civil_spec in Ea as [Hv <-]. apply civil_spec in Eb as [Hv' <-].
  destruct (decide (y = y' ∧ m = m' ∧ d = d')) as [(-> & -> & ->)|Hne]; [lia|].
  assert (¬ date_lt (y', m', d') (y, m, d)) as H.
  { intros H. pose proof (days_of_civil_mono _ _ _ _ _ _ Hv' Hv H). lia. }
  simpl in *. lia.
Qed.

(** ** The order of formatted dates *)

Lemma compare_pad2 a b s t :
  0 <= a < 100 → 0 <= b < 100 →
  String.compare (Str.pad2 a +:+ s) (Str.pad2 b +:+ t) =
    match a ?= b with Eq => String.compare s t | c => c end.
Proof.
  intros Ha Hb. unfold Str.pad2. cbn [String.append]. rewrite !Str.compare_cons.
  unfold Ascii.compare, Str.digit, Str.byte. rewrite !N_ascii_embedding by lia.
  destruct (N.compare_spec (Z.to_N (48 + a / 10)) (Z.to_N (48 + b / 10)));
    destruct (N.compare_spec (Z.to_N (48 + a mod 10)) (Z.to_N (48 + b mod 10)));
    destruct (Z.compare_spec a b); done || lia.
Qed.

Lemma compare_pad4 a b s t :
  0 <= a < 10000 → 0 <= b < 10000 →
  String.compare (Str.pad4 a +:+ s) (Str.pad4 b +:+ t) =
    match a ?= b with Eq => String.compare s t | c => c end.
Proof.
  intros Ha Hb. unfold Str.pad4. rewrite !Str.app_assoc, !compare_pad2 by lia.
  destruct (Z.compare_spec (a / 100) (b / 100));
    destruct (Z.compare_spec (a mod 100) (b mod 100));
    destruct (Z.compare_spec a b); done || lia.
Qed.

Definition day_in_range (day : Z) : Prop := 0 <= (civil day).1.1 < 10000.

Lemma date_string_compare a b :
  day_in_range a → day_in_range b →
  String.compare (date_string a) (date_string b) = (a ?= b).
Proof.
  intros Ha Hb. unfold day_in_range, date_string in *.
  destruct (civil a) as [[y m] d] eqn:Ea, (civil b) as [[y' m'] d'] eqn:Eb. simpl in Ha, Hb.
  pose proof (civil_spec _ _ _ _ Ea) as [[Hm Hd] _].
  pose proof (civil_spec _ _ _ _ Eb) as [[Hm' Hd'] _].
  pose proof (days_before_step (is_leap y) m Hm). pose proof (days_before_step (is_leap y') m' Hm').
  unfold pad_year. destruct (Z.ltb_spec y 0), (Z.ltb_spec y' 0); try lia.
  destruct (Z.ltb_spec y 10000), (Z.ltb_spec y' 10000); try lia.
  assert (Hdash : ∀ s t, String.compare ("-" +:+ s) ("-" +:+ t) = String.compare s t) by done.
  rewrite compare_pad4, Hdash, compare_pad2, Hdash by lia.
  rewrite <- (Str.app_nil_r (Str.pad2 d)), <- (Str.app_nil_r (Str.pad2 d')).
  rewrite compare_pad2 by lia.
  destruct (Z.lt_trichotomy a b) as [Hlt|[->|Hlt]].
  - apply civil_mono in Hlt as Hc. rewrite Ea, Eb in Hc. simpl in Hc.
    rewrite (proj2 (Z.compare_lt_iff a b) Hlt).
    destruct (Z.compare_spec y y'), (Z.compare_spec m m'), (Z.compare_spec d d'); done || lia.
  - rewrite Ea in Eb. simplify_eq. by rewrite !Z.compare_refl.
  - apply civil_mono in Hlt as Hc. rewrite Ea, Eb in Hc. simpl in Hc.
    rewrite (proj2 (Z.compare_gt_iff a b) Hlt).
    destruct (Z.compare_spec y y'), (Z.compare_spec m m'), (Z.compare_spec d d'); done || lia.
Qed.

Lemma date_string_ltb a b :
  day_in_range a → day_in_range b → Str.ltb (date_string a) (date_string b) = (a <? b).
Proof.
  intros Ha Hb. unfold Str.ltb. rewrite date_string_compare by done.
  unfold Z.ltb. by destruct (a ?= b).
Qed.

Lemma date_string_inj a b :
  day_in_range a → day_in_range b → date_string a = date_string b → a = b.
Proof.
  intros Ha Hb Heq. apply Z.compare_eq. rewrite <- date_string_compare by done.
  rewrite Heq. apply Str.compare_refl.
Qed.

Lemma day_in_range_years day : 0 <= day < 3652059 → day_in_range day.
Proof.
  intros Hday. unfold day_in_range. destruct (civil day) as [[y m] d] eqn:E. simpl.
  apply civil_spec in E as [[Hm Hd] He]. unfold days_of_civil in He.
  pose proof (days_before_step (is_leap y) m Hm).
  pose proof (days_before_top (is_leap y) m Hm).
  assert (days_before_year 10000 = 3652059) as Htop by reflexivity.
  assert (days_before_year 0 = -366) as Hbot by reflexivity.
  destruct (Z.lt_ge_cases y 0) as [Hy|Hy].
  - pose proof (year_mono (y + 1) 0 ltac:(lia)). pose proof (year_step y). destruct (is_leap y); lia.
  - destruct (Z.lt_ge_cases y 10000) as [|Hy2]; [lia|].
    pose proof (year_mono 10000 y ltac:(lia)). lia.
Qed.

(** ** Reading back an instant *)

Lemma get2_pad2 a s : 0 <= a < 100 → get2 (Str.pad2 a +:+ s) = Some (a, s).
Proof.
  intros Ha. unfold get2, get_digit, Str.pad2. cbn [String.append].
  rewrite !Str.digit_is_digit, !Str.digit_value_digit by lia. do 2 f_equal. lia.
Qed.

Lemma get12_pad2 a s : 0 <= a < 100 → get12 (Str.pad2 a +:+ s) = Some (a, s).
Proof. intros Ha. unfold get12. by rewrite get2_pad2. Qed.

Lemma get_char_app c s : get_char c (String c "" +:+ s) = Some s.
Proof. simpl. by rewrite Ascii.eqb_refl. Qed.

Lemma get_date_string day s :
  day_in_range day → get_date (date_string day +:+ s) = Some (day, s).
Proof.
  unfold day_in_range, date_string. destruct (civil day) as [[y m] d] eqn:E. simpl fst.
  intros Hy. apply civil_spec in E as [[Hm Hd] He].
  pose proof (days_before_step (is_leap y) m Hm).
  unfold pad_year. destruct (Z.ltb_spec y 0), (Z.ltb_spec y 10000); try lia.
  unfold Str.pad4. rewrite !Str.app_assoc. unfold get_date.
  rewrite !get2_pad2, get_char_app, get2_pad2, get_char_app, get2_pad2 by lia.
  replace (100 * (y / 100) + y mod 100) with y by lia.
  destruct (Z.leb_spec 1 m), (Z.leb_spec m 12), (Z.leb_spec 1 d),
    (Z.leb_spec d (days_in (is_leap y) m)); try lia. simpl. by rewrite He.
Qed.

(** An instant survives printing, up to the fraction of its second. *)
Theorem parse_format_rfc3339 t :
  day_in_range (day_of t) → ParseRFC3339 (FormatRFC3339 t) = Some (t - t mod Second).
Proof.
  intros Hr. unfold FormatRFC3339, ParseRFC3339, FormatDate.
  rewrite get_date_string by done. rewrite get_char_app.
  assert (0 <= hour_of t < 24) by (unfold hour_of, Day, Hour, Minute, Second; lia).
  assert (0 <= minute_of t < 60) by (unfold minute_of, Hour, Minute, Second; lia).
  assert (0 <= second_of t < 60) by (unfold second_of, Minute, Second; lia).
  rewrite get12_pad2, get_char_app, get2_pad2, get_char_app, get2_pad2 by lia.
  cbn [get_nanos get_zone Ascii.eqb Bool.eqb orb].
  destruct (Z.ltb_spec (hour_of t) 24), (Z.ltb_spec (minute_of t) 60),
    (Z.ltb_spec (second_of t) 60); try lia. cbn [andb String.eqb]. f_equal.
  unfold hour_of, minute_of, second_of, day_of, Day, Hour, Minute, Second in *. lia.
Qed.

(** ** Reading back a duration *)

Lemma leading_int_digits acc s c r v :
  Str.digits_acc acc s = Some v → 0 <= acc → v <= max_int64 → Str.is_digit c = false →
  leading_int acc (s +:+ String c r) = Some (v, String c r).
Proof.
  revert acc. induction s as [|a s IH]; intros acc; simpl.
  - intros [= ->] _ _ ->. done.
  - destruct (Str.is_digit a) eqn:Ea; [|done]. intros Hv Hacc Hmax Hc.
    assert (0 <= Str.digit_value a <= 9) as Hda.
    { unfold Str.is_digit, Str.digit_value in *. apply andb_true_iff in Ea as [H1 H2].
      apply N.leb_le in H1, H2. lia. }
    assert (∀ x w u, Str.digits_acc x w = Some u → 0 <= x → x <= u) as Hmono.
    { clear. intros x w. revert x. induction w as [|b w IH]; intros x u; simpl; [intros [= ->]; lia|].
      destruct (Str.is_digit b) eqn:Eb; [|done]. intros H Hx.
      assert (0 <= Str.digit_value b).
      { unfold Str.is_digit, Str.digit_value in *. apply andb_true_iff in Eb as [H1 H2].
        apply N.leb_le in H1, H2. lia. }
      specialize (IH _ _ H ltac:(lia)). lia. }
    specialize (Hmono _ _ _ Hv ltac:(lia)).
    destruct (Z.ltb_spec (two63 / 10) acc); [lia64|].
    destruct (Z.ltb_spec two63 (10 * acc + Str.digit_value a)); [lia64|].
    apply IH; done || lia.
Qed.

Lemma leading_int_dec n c r :
  0 <= n <= max_int64 → Str.is_digit c = false →
  leading_int 0 (Str.dec n +:+ String c r) = Some (n, String c r).
Proof.
  intros Hn Hc. apply leading_int_digits; try done || lia.
  pose proof (Str.digits_dec n ltac:(lia)) as Hd. unfold Str.digits in Hd.
  destruct (Str.dec n) eqn:E; [done|]. by rewrite <- E in *.
Qed.

Lemma dec_length n : (1 <= String.length (Str.dec n))%nat.
Proof.
  unfold Str.dec. pose proof (Str.dec_fuel_ne (S (Z.to_nat (Z.log2 n))) n ltac:(lia)).
  destruct (Str.dec_fuel _ _); [done|simpl; lia].
Qed.

(** The text after a unit starts with a digit or is empty. *)
Definition unit_end (r : string) : Prop :=
  match r with EmptyString => True | String c _ => Str.is_digit c = true end.

Lemma dec_unit_end n r : 0 <= n → unit_end (Str.dec n +:+ r).
Proof.
  intros Hn. pose proof (Str.digits_dec n Hn) as Hd. unfold Str.digits in Hd.
  destruct (Str.dec n) as [|c s]; [done|]. simpl. eapply Str.digits_acc_head, Hd.
Qed.

Lemma duration_term_dec n c unit r :
  0 <= n → unit_of (String c "") = Some unit → n * unit <= max_int64 → 0 < unit →
  Str.is_digit c = false → c ≠ "."%char → unit_end r →
  duration_term (Str.dec n +:+ String c r) = Some (n * unit, r).
Proof.
  intros Hn Hu Hmax Hu0 Hc Hdot Hr. unfold duration_term.
  rewrite leading_int_dec; [|split; [done|nia]|done].
  rewrite Str.length_app. pose proof (dec_length n).
  assert ((String.length (Str.dec n) + String.length (String c r) =? String.length (String c r))%nat
          = false) as -> by (apply Nat.eqb_neq; lia).
  assert (match String c r with
          | String "." s1' => let '(f, scale, s2) := leading_fraction 0 F64.one false s1' in
              (f, scale, s2, negb (String.length s1' =? String.length s2)%nat)
          | _ => (0, F64.one, String c r, false)
          end = (0, F64.one, String c r, false)) as ->.
  { clear -Hdot. destruct c as [[] [] [] [] [] [] [] []]; done. }
  assert (leading_unit (String c r) = (String c "", r)) as Hlu.
  { cbn [leading_unit]. rewrite Hc. destruct (Ascii.eqb_spec c "."); [done|]. simpl.
    destruct r as [|b r]; [done|]. simpl in Hr. cbn [leading_unit]. by rewrite Hr. }
  cbn [negb andb]. rewrite Hlu, Hu.
  destruct (Z.ltb_spec (two63 / unit) n) as [Hlt|_].
  { exfalso. pose proof (Z.div_le_lower_bound two63 unit n Hu0). lia64. }
  destruct (Z.ltb_spec 0 0); [lia|]. rewrite Z.add_0_r.
  destruct (Z.ltb_spec two63 (n * unit)); [lia64|done].
Qed.

Lemma duration_terms_step fuel d s v s' :
  s ≠ "" → duration_term s = Some (v, s') → 0 <= d → 0 <= v → d + v <= max_int64 →
  duration_terms (S fuel) d s = duration_terms fuel (d + v) s'.
Proof.
  intros Hs Ht Hd Hv Hmax. destruct s as [|c s]; [done|]. cbn [duration_terms]. rewrite Ht.
  rewrite Z.mod_small by lia64. destruct (Z.ltb_spec two63 (d + v)); [lia64|done].
Qed.

Lemma dec_app_ne n s : Str.dec n +:+ s ≠ "".
Proof. pose proof (dec_length n). destruct (Str.dec n); [simpl in *; lia|done]. Qed.

Lemma duration_terms_fuel k k' d s v :
  duration_terms k d s = Some v → (k <= k')%nat → duration_terms k' d s = Some v.
Proof.
  revert k' d s. induction k as [|k IH]; intros k' d s H Hk.
  - destruct s; [|done]. by destruct k'.
  - destruct k' as [|k']; [lia|]. destruct s as [|c s]; [done|]. cbn [duration_terms] in *.
    destruct (duration_term (String c s)) as [[w r]|]; [|done].
    destruct (two63 <? (d + w) mod two64); [done|]. apply IH; [done|lia].
Qed.

Lemma seconds_terms n :
  0 <= n → n * Second <= max_int64 →
  ∃ k, (k <= String.length (seconds_string n))%nat ∧
       duration_terms k 0 (seconds_string n) = Some (n * Second).
Proof.
  intros Hn Hmax. unfold seconds_string.
  destruct (Z.ltb_spec n 60); [|destruct (Z.ltb_spec n 3600)].
  - exists 1%nat. split; [rewrite Str.length_app; simpl; lia|].
    rewrite (duration_terms_step _ _ _ (n * Second) "");
      [done|apply dec_app_ne|by apply duration_term_dec|unfold Second in *; lia..].
  - exists 2%nat. split; [rewrite !Str.length_app; simpl; lia|].
    rewrite (duration_terms_step _ _ _ (n / 60 * Minute) (Str.dec (n mod 60) +:+ "s"));
      [|apply dec_app_ne|apply duration_term_dec; try done|unfold Minute, Second in *; lia..].
    2-3: unfold Minute, Second in *; lia. 2: apply dec_unit_end; lia.
    rewrite (duration_terms_step _ _ _ (n mod 60 * Second) "");
      [|apply dec_app_ne|apply duration_term_dec; try done|unfold Minute, Second in *; lia..].
    2-3: unfold Minute, Second in *; lia.
    simpl. f_equal. unfold Minute, Second. lia.
  - exists 3%nat. split; [rewrite !Str.length_app; simpl; lia|].
    rewrite (duration_terms_step _ _ _ (n / 3600 * Hour) (Str.dec (n / 60 mod 60) +:+ "m" +:+ Str.dec (n mod 60) +:+ "s"));
      [|apply dec_app_ne|apply duration_term_dec; try done|unfold Hour, Minute, Second in *; lia..].
    2-3: unfold Hour, Minute, Second in *; lia. 2: apply dec_unit_end; lia.
    rewrite (duration_terms_step _ _ _ (n / 60 mod 60 * Minute) (Str.dec (n mod 60) +:+ "s"));
      [|apply dec_app_ne|apply duration_term_dec; try done|unfold Hour, Minute, Second in *; lia..].
    2-3: unfold Hour, Minute, Second in *; lia. 2: apply dec_unit_end; lia.
    rewrite (duration_terms_step _ _ _ (n mod 60 * Second) "");
      [|apply dec_app_ne|apply duration_term_dec; try done|unfold Hour, Minute, Second in *; lia..].
    2-3: unfold Hour, Minute, Second in *; lia.
    simpl. f_equal. unfold Hour, Minute, Second. lia.
Qed.

(** A duration of whole seconds survives printing. *)
Theorem parse_duration_string n :
  0 <= n → n * Second <= max_int64 → ParseDuration (DurationString (n * Second)) = Some (n * Second).
Proof.
  intros Hn Hmax. unfold DurationString. destruct (Z.ltb_spec (n * Second) 0); [unfold Second in *; lia|].
  rewrite Z.div_mul by done.
  destruct (seconds_terms n Hn Hmax) as (k & Hk & Ht). unfold ParseDuration.
  assert (∃ c s, seconds_string n = String c s ∧ Str.is_digit c = true ∧ seconds_string n ≠ "0")
    as (c & s & Hs & Hc & H0).
  { assert (Hhead : ∀ z r, 0 <= z → r ≠ "" → ∃ c s, Str.dec z +:+ r = String c s ∧
              Str.is_digit c = true ∧ Str.dec z +:+ r ≠ "0").
    { intros z r Hz Hr. pose proof (dec_unit_end z r Hz) as Hu. pose proof (dec_length z).
      destruct (Str.dec z) as [|c s]; simpl in *; [lia|]. exists c, (s +:+ r).
      split; [done|]. split; [done|]. intros [= _ Hnil]. destruct s; [by destruct r|done]. }
    unfold seconds_string. repeat case_match; apply Hhead; lia || (intros Hx; by apply dec_app_ne in Hx) || done. }
  assert (Hplain : match seconds_string n with
          | String "-" s' => (true, s')
          | String "+" s' => (false, s')
          | _ => (false, seconds_string n)
          end = (false, seconds_string n)).
  { rewrite Hs. clear -Hc. destruct c as [[] [] [] [] [] [] [] []]; done. }
  rewrite Hplain. rewrite (proj2 (String.eqb_neq _ _) H0).
  assert (seconds_string n ≠ "") as He by (by rewrite Hs).
  rewrite (proj2 (String.eqb_neq _ _) He).
  rewrite (duration_terms_fuel _ _ _ _ _ Ht Hk).
  destruct (Z.ltb_spec max_int64 (n * Second)); [lia|done].
Qed.

End TimeFacts.
