(* ===== verification/KubeQuantity.v ===== *)
(** * The interface of resource.Quantity

    [k8s.io/apimachinery/pkg/api/resource] is a library outside the repository.
    The development takes its quantities as a parameter: [KubeQuantity] names
    the operations the program calls, and [QuantityLaws] the documented
    behaviour that the theorems use: a quantity denotes a decimal number (here in
    units of [10^-9], the smallest that the parser keeps), comparison and sign
    are those of the number, [MilliValue] is the number of thousandths rounded
    up as long as that fits in an [int64], and the text of a quantity is read
    back as the same number. The instance [nano_quantity] at the end satisfies
    the laws; the examples are evaluated with it. *)

From S2P Require Export GoStrings.
From stdpp Require Export sorting base option gmap strings list fin_maps.

Open Scope Z_scope.

(** ** Names of the Kubernetes API

    The string constants of [k8s.io/api/core/v1] that the program compares
    resource names with: they are the names that the API documents for the keys
    of a ResourceQuota. *)

Module Core.

Definition ResourceCPU : string := "cpu".
Definition ResourceMemory : string := "memory".
Definition ResourceStorage : string := "storage".
Definition ResourceRequestsCPU : string := "requests.cpu".
Definition ResourceRequestsMemory : string := "requests.memory".
Definition ResourceRequestsStorage : string := "requests.storage".
Definition ResourceLimitsCPU : string := "limits.cpu".
Definition ResourceLimitsMemory : string := "limits.memory".
Definition ResourcePods : string := "pods".
Definition ResourceServices : string := "services".
Definition ResourceReplicationControllers : string := "replicationcontrollers".
Definition ResourceQuotas : string := "resourcequotas".
Definition ResourceSecrets : string := "secrets".
Definition ResourceConfigMaps : string := "configmaps".
Definition ResourcePersistentVolumeClaims : string := "persistentvolumeclaims".
Definition ResourceServicesNodePorts : string := "services.nodeports".
Definition ResourceServicesLoadBalancers : string := "services.loadbalancers".

Definition EventTypeNormal : string := "Normal".
Definition EventTypeWarning : string := "Warning".

End Core.

Class KubeQuantity : Type := {
  Quantity : Type;
  Format : Type;
  DecimalSI : Format;
  BinarySI : Format;
(** [resource.ParseQuantity]: [None] is a parse error. *)
ParseQuantity : string → option Quantity;
(** Methods of a quantity. [Cmp] is -1, 0 or 1, here [Lt], [Eq] or [Gt]. *)
QString : Quantity → string;
QCmp : Quantity → Quantity → comparison;
QSign : Quantity → Z;
MilliValue : Quantity → Z;
QFormat : Quantity → Format;
(** [resource.NewQuantity], [resource.NewMilliQuantity] and [Quantity{}]. *)
NewQuantity : Z → Format → Quantity;
NewMilliQuantity : Z → Format → Quantity;
ZeroQuantity : Quantity
}.

Definition nano_per_unit : Z := 1000000000.
Definition nano_per_milli : Z := 1000000.

Class QuantityLaws (KQ : KubeQuantity) : Type := {
  nano : Quantity → Z;
  cmp_nano : forall a b, QCmp a b = (nano a ?= nano b);
  sign_nano : forall q, QSign q = Z.sgn (nano q);
  milli_nano : forall q, 0 <= nano q → cdiv (nano q) nano_per_milli <= max_int64 →
    MilliValue q = cdiv (nano q) nano_per_milli;
  milli_int64 : forall q, in_int64 (MilliValue q);
  new_nano : forall v f, in_int64 v → nano (NewQuantity v f) = v * nano_per_unit;
  new_milli_nano : forall v f, in_int64 v → nano (NewMilliQuantity v f) = v * nano_per_milli;
  zero_nano : nano ZeroQuantity = 0;
  parse_string : forall q, ∃ q', ParseQuantity (QString q) = Some q' ∧ nano q' = nano q
}.

(** The comparisons the program writes. *)
Section compare.
  Context {KQ : KubeQuantity}.

Definition q_gt (a b : Quantity) : bool := match QCmp a b with Gt => true | _ => false end.
Definition q_ge (a b : Quantity) : bool := match QCmp a b with Lt => false | _ => true end.
Definition q_le (a b : Quantity) : bool := match QCmp a b with Gt => false | _ => true end.
Definition q_eq (a b : Quantity) : bool := match QCmp a b with Eq => true | _ => false end.

  Context {QL : QuantityLaws KQ}.

Lemma q_gt_nano a b : q_gt a b = (nano b <? nano a).
Proof. unfold q_gt. rewrite cmp_nano, (Z.compare_antisym (nano b)). unfold Z.ltb. by destruct (nano b ?= nano a). Qed.

Lemma q_le_nano a b : q_le a b = (nano a <=? nano b).
Proof. unfold q_le, Z.leb. rewrite cmp_nano. done. Qed.

Lemma q_ge_nano a b : q_ge a b = (nano b <=? nano a).
Proof. unfold q_ge, Z.leb. rewrite cmp_nano, (Z.compare_antisym (nano b)). by destruct (nano b ?= nano a). Qed.

Lemma q_eq_nano a b : q_eq a b = (nano a =? nano b).
Proof.
  unfold q_eq. rewrite cmp_nano. destruct (Z.compare_spec (nano a) (nano b)), (Z.eqb_spec (nano a) (nano b));
    done || lia.
Qed.
End compare.

(** ** A concrete instance *)

Module NanoQuantity.

Record quantity := mk { value : Z; binary : bool }.

Fixpoint cut_end (s : string) : option (string * ascii) :=
  match s with
  | EmptyString => None
  | String c s' =>
      match cut_end s' with
      | Some (b, e) => Some (String c b, e)
      | None => Some (EmptyString, c)
      end
  end.

Definition parse_int (s : string) : option Z :=
  match s with
  | String "-" s' => Z.opp <$> Str.digits s'
  | _ => Str.digits s
  end.

Definition parse_scaled (s : string) (scale : Z) (bin : bool) : option quantity :=
  (λ z, mk (z * scale) bin) <$> parse_int s.

Definition parse (s : string) : option quantity :=
  match cut_end s with
  | None => None
  | Some (b, e) =>
      if Ascii.eqb e "n" then parse_scaled b 1 false
      else if Ascii.eqb e "m" then parse_scaled b nano_per_milli false
      else if Ascii.eqb e "i" then
        match cut_end b with
        | Some (b', "K"%char) => parse_scaled b' (2 ^ 10 * nano_per_unit) true
        | Some (b', "M"%char) => parse_scaled b' (2 ^ 20 * nano_per_unit) true
        | Some (b', "G"%char) => parse_scaled b' (2 ^ 30 * nano_per_unit) true
        | _ => None
        end
      else parse_scaled s nano_per_unit false
  end.

Definition print (q : quantity) : string :=
  let v := value q in
  if v mod nano_per_unit =? 0 then
    let u := v / nano_per_unit in
    if binary q && (u mod 2 ^ 20 =? 0) then Str.Itoa (u / 2 ^ 20) +:+ "Mi" else Str.Itoa u
  else if v mod nano_per_milli =? 0 then Str.Itoa (v / nano_per_milli) +:+ "m"
  else Str.Itoa v +:+ "n".

Lemma cut_end_app s c : cut_end (s +:+ String c "") = Some (s, c).
Proof. induction s as [|a s IH]; [done|]. cbn [String.append cut_end]. by rewrite IH. Qed.

Lemma parse_int_Itoa z : parse_int (Str.Itoa z) = Some z.
Proof.
  unfold Str.Itoa. destruct (Z.ltb_spec z 0).
  - simpl. rewrite Str.digits_dec by lia. simpl. f_equal. lia.
  - pose proof (Str.digits_dec z ltac:(lia)) as Hd. unfold parse_int.
    destruct (Str.dec z) as [|c s] eqn:E; [done|].
    assert (Str.is_digit c = true) as Hc by (eapply Str.digits_acc_head, Hd).
    destruct c as [[] [] [] [] [] [] [] []]; try discriminate Hc; done.
Qed.

Lemma Itoa_end z : ∃ s d, Str.Itoa z = s +:+ String (Str.digit d) "" ∧ 0 <= d < 10.
Proof.
  assert (Hdec : ∀ u, 0 <= u → ∃ s d, Str.dec u = s +:+ String (Str.digit d) "" ∧ 0 <= d < 10).
  { intros u Hu. unfold Str.dec. cbn [Str.dec_fuel]. eexists _, (u mod 10). split; [done|lia]. }
  unfold Str.Itoa. destruct (Z.ltb_spec z 0).
  - destruct (Hdec (- z)) as (s & d & -> & Hd); [lia|]. by exists ("-" +:+ s), d.
  - apply Hdec. lia.
Qed.

Lemma parse_plain z : parse (Str.Itoa z) = Some (mk (z * nano_per_unit) false).
Proof.
  unfold parse. destruct (Itoa_end z) as (s & d & Hs & Hd). rewrite Hs, cut_end_app, <- Hs.
  assert (Hc : ∀ c, Str.is_digit c = false → Ascii.eqb (Str.digit d) c = false).
  { intros c Hc. apply Ascii.eqb_neq. intros <-. by rewrite Str.digit_is_digit in Hc. }
  rewrite !Hc by done. unfold parse_scaled. by rewrite parse_int_Itoa.
Qed.

Lemma parse_print q : ∃ q', parse (print q) = Some q' ∧ value q' = value q.
Proof.
  unfold print. destruct (Z.eqb_spec (value q mod nano_per_unit) 0) as [H0|_].
  - destruct (binary q && (value q / nano_per_unit mod 2 ^ 20 =? 0)) eqn:Eb.
    + apply andb_true_iff in Eb as [_ Em%Z.eqb_eq].
      exists (mk (value q) true). split; [|done]. unfold parse.
      change "Mi" with ("M" +:+ "i"). rewrite <- Str.app_assoc, cut_end_app. cbn [Ascii.eqb Bool.eqb].
      rewrite cut_end_app. unfold parse_scaled. rewrite parse_int_Itoa. simpl. do 2 f_equal.
      unfold nano_per_unit in *. lia.
    + rewrite parse_plain. eexists; split; [done|]. simpl. unfold nano_per_unit in *. lia.
  - destruct (Z.eqb_spec (value q mod nano_per_milli) 0) as [H0|_];
      unfold parse; rewrite cut_end_app; cbn [Ascii.eqb Bool.eqb];
      unfold parse_scaled; rewrite parse_int_Itoa; eexists; (split; [done|]); simpl;
      unfold nano_per_milli in *; lia.
Qed.

End NanoQuantity.

Definition nano_quantity : KubeQuantity := {|
  Quantity := NanoQuantity.quantity;
  Format := bool;
  DecimalSI := false;
  BinarySI := true;
  ParseQuantity := NanoQuantity.parse;
  QString := NanoQuantity.print;
  QCmp a b := NanoQuantity.value a ?= NanoQuantity.value b;
  QSign q := Z.sgn (NanoQuantity.value q);
  MilliValue q := wrap64 (cdiv (NanoQuantity.value q) nano_per_milli);
  QFormat q := NanoQuantity.binary q;
  NewQuantity v f := NanoQuantity.mk (v * nano_per_unit) f;
  NewMilliQuantity v f := NanoQuantity.mk (v * nano_per_milli) f;
  ZeroQuantity := NanoQuantity.mk 0 false
|}.

Definition nano_quantity_laws : QuantityLaws nano_quantity.
Proof.
  refine {| nano := (NanoQuantity.value : @Quantity nano_quantity → Z) |}; try done.
  - intros q Hq Hmax. apply wrap64_id. split; [|done]. unfold cdiv, nano_per_milli in *. lia64.
  - intros q. apply wrap64_range.
  - intros q. apply NanoQuantity.parse_print.
Defined.
