(* ===== verification/SizingQuantity.v ===== *)
(** * internal/sizing/quantity.go

    Classification of quota keys and the conversion of a computed milli-value
    into a quantity. *)

From S2P Require Export KubeQuantity GoFloatLemmas.
From stdpp Require Export sorting base option gmap strings list fin_maps.

Open Scope Z_scope.

Section quantity.
  Context {KQ : KubeQuantity} {GA : GoArch}.

(* go: internal/sizing/quantity.go 11-14 bytesPerMi *)
Definition bytesPerMi : Z := 1024 * 1024.

(* go: internal/sizing/quantity.go 11-14 countPrefix *)
Definition countPrefix : string := "count/".

(* go: internal/sizing/quantity.go 16-31 measureOf *)
Definition measureOf (name : string) : string :=
  if Str.HasPrefix name countPrefix then name
  else match Str.cut_last name "/" with
       | Some (_, rest) => rest
       | None => name
       end.

(* go: internal/sizing/quantity.go 41-49 IsCountable *)
Definition countable_names : list string :=
  [Core.ResourcePods; Core.ResourceServices; Core.ResourceReplicationControllers;
   Core.ResourceQuotas; Core.ResourceSecrets; Core.ResourceConfigMaps;
   Core.ResourcePersistentVolumeClaims; Core.ResourceServicesNodePorts;
   Core.ResourceServicesLoadBalancers].

(* go: internal/sizing/quantity.go 33-53 IsCountable *)
Definition IsCountable (res : string) : bool :=
  if Str.HasPrefix res countPrefix then true
  else bool_decide (measureOf res ∈ countable_names).

(* go: internal/sizing/quantity.go 55-79 Quantize *)
Definition Quantize (res : string) (milli : Z) (format : Format) : Quantity :=
  if IsCountable res then
    let whole := F64.to_int64 (F64.ceil (F64.div (F64.of_Z milli) (F64.of_Z 1000))) in
    NewQuantity whole DecimalSI
  else
    let measure := measureOf res in
    if Str.Contains measure "memory" || Str.Contains measure "storage" then
      let bytes := F64.div (F64.of_Z milli) (F64.of_Z 1000) in
      let mi := F64.ceil (F64.div bytes (F64.of_Z bytesPerMi)) in
      NewQuantity (wrap64 (F64.to_int64 mi * bytesPerMi)) BinarySI
    else NewMilliQuantity milli format.

(** The granularity of a key, in nano-units: whole objects, whole Mi or
    thousandths. *)
Definition quantum (res : string) : Z :=
  if IsCountable res then nano_per_unit
  else if Str.Contains (measureOf res) "memory" || Str.Contains (measureOf res) "storage"
  then bytesPerMi * nano_per_unit else nano_per_milli.

(** ** Theorems *)

Context {QL : QuantityLaws KQ}.

Lemma quantum_pos res : 0 < quantum res.
Proof. unfold quantum. repeat case_match; by vm_compute. Qed.

Lemma Quantize_nano res milli format :
  0 <= milli <= 2 ^ 53 →
  nano (Quantize res milli format) = cdiv (milli * nano_per_milli) (quantum res) * quantum res.
Proof.
  intros Hm. unfold Quantize, quantum. destruct (IsCountable res).
  - rewrite F64Lemmas.ceil_div1000 by done. rewrite new_nano by (unfold cdiv; lia64).
    unfold cdiv, nano_per_unit, nano_per_milli. lia.
  - destruct (_ || _).
    + change bytesPerMi with (2 ^ 20). rewrite F64Lemmas.ceil_div_mi by done.
      rewrite wrap64_id by (unfold cdiv; lia64). rewrite new_nano by (unfold cdiv; lia64).
      unfold cdiv, nano_per_unit, nano_per_milli. lia.
    + rewrite new_milli_nano by lia64. unfold cdiv, nano_per_milli. lia.
Qed.

(** The quantity written back is never below the computed target, is less than
    one unit of the key's granularity above it, and is a multiple of that unit:
    a countable key gets a whole number, a byte-sized key whole Mi. *)
Theorem Quantize_rounds_up res milli format :
  0 <= milli <= 2 ^ 53 →
  milli * nano_per_milli <= nano (Quantize res milli format) < milli * nano_per_milli + quantum res
  ∧ (quantum res | nano (Quantize res milli format)).
Proof.
  intros Hm. rewrite Quantize_nano by done. pose proof (quantum_pos res) as Hq.
  pose proof (proj1 (cdiv_spec (milli * nano_per_milli) _ _ Hq) eq_refl). split; [lia|].
  apply Z.divide_factor_r.
Qed.

End quantity.

Module QuantizeDemo.

#[local] Existing Instances nano_quantity nano_quantity_laws amd64.

(** A tenth of a Mi more than 512 Mi becomes 513 Mi. *)
Lemma Quantize_rounds_up_witness :
  0 <= 536975769600 <= 2 ^ 53 ∧
  (quantum "limits.memory" | nano (Quantize "limits.memory" 536975769600 BinarySI)).
Proof.
  assert (0 <= 536975769600 <= 2 ^ 53) as H by lia. split; [exact H|].
  exact (proj2 (Quantize_rounds_up "limits.memory" 536975769600 _ H)).
Defined.

End QuantizeDemo.
