(* ===== verification/Policy.v ===== *)
(** * internal/sizing/policy.go

    The effective configuration of one quota: built-in defaults, overridden by
    the annotations of the namespace. [ParsePolicy] walks the annotations in
    the unspecified order of a Go map. *)

From S2P Require Export SizingQuantity GoTime.
From stdpp Require Export sorting base option gmap strings list fin_maps.

Open Scope Z_scope.

Section policy.
  Context {KQ : KubeQuantity} {GR : GoRange} {GQ : GoQuote}.

(* go: internal/sizing/policy.go 13-14 AnnotationPrefix *)
Definition AnnotationPrefix : string := "resizer.io/".

(* go: internal/sizing/policy.go 16-17 DefaultKey *)
Definition DefaultKey : string := "default".

(* go: internal/sizing/policy.go 24-38 WarningKind *)
Inductive WarningKind := WarningDeprecated | WarningRejected.

(* go: internal/sizing/policy.go 40-44 PolicyWarning *)
Record PolicyWarning := { Kind : WarningKind; Message : string }.

(* go: internal/sizing/policy.go 46-61 Policy *)
Record Policy := {
  Headroom : gmap string F64.t;
  Min : gmap string Quantity;
  Tolerance : F64.t;
  WindowDays : Z;
  MaxShrinkStep : F64.t;
  ShrinkCooldown : Z;
  ShrinkPRTTL : Z;
  GrowCooldown : Z;
  Enabled : bool;
  ShrinkEnabled : bool
}.

(** The constants 0.25 and 0.15. *)
Definition f025 : F64.t := F64.of_decimal false 25 (-2).
Definition f015 : F64.t := F64.of_decimal false 15 (-2).

(* go: internal/sizing/policy.go 63-77 DefaultPolicy *)
Definition DefaultPolicy : Policy := {|
  Headroom := {[ DefaultKey := f025 ]};
  Min := ∅;
  Tolerance := f015;
  WindowDays := 14;
  MaxShrinkStep := f025;
  ShrinkCooldown := 7 * 24 * Time.Hour;
  ShrinkPRTTL := 7 * 24 * Time.Hour;
  GrowCooldown := 60 * Time.Minute;
  Enabled := true;
  ShrinkEnabled := true
|}.

(** Assignments to one field. *)
Definition set_headroom (h : gmap string F64.t) (p : Policy) : Policy :=
  {| Headroom := h; Min := Min p; Tolerance := Tolerance p; WindowDays := WindowDays p;
     MaxShrinkStep := MaxShrinkStep p; ShrinkCooldown := ShrinkCooldown p;
     ShrinkPRTTL := ShrinkPRTTL p; GrowCooldown := GrowCooldown p; Enabled := Enabled p;
     ShrinkEnabled := ShrinkEnabled p |}.
Definition set_min (m : gmap string Quantity) (p : Policy) : Policy :=
  {| Headroom := Headroom p; Min := m; Tolerance := Tolerance p; WindowDays := WindowDays p;
     MaxShrinkStep := MaxShrinkStep p; ShrinkCooldown := ShrinkCooldown p;
     ShrinkPRTTL := ShrinkPRTTL p; GrowCooldown := GrowCooldown p; Enabled := Enabled p;
     ShrinkEnabled := ShrinkEnabled p |}.
Definition set_tolerance (v : F64.t) (p : Policy) : Policy :=
  {| Headroom := Headroom p; Min := Min p; Tolerance := v; WindowDays := WindowDays p;
     MaxShrinkStep := MaxShrinkStep p; ShrinkCooldown := ShrinkCooldown p;
     ShrinkPRTTL := ShrinkPRTTL p; GrowCooldown := GrowCooldown p; Enabled := Enabled p;
     ShrinkEnabled := ShrinkEnabled p |}.
Definition set_window_days (v : Z) (p : Policy) : Policy :=
  {| Headroom := Headroom p; Min := Min p; Tolerance := Tolerance p; WindowDays := v;
     MaxShrinkStep := MaxShrinkStep p; ShrinkCooldown := ShrinkCooldown p;
     ShrinkPRTTL := ShrinkPRTTL p; GrowCooldown := GrowCooldown p; Enabled := Enabled p;
     ShrinkEnabled := ShrinkEnabled p |}.
Definition set_max_shrink_step (v : F64.t) (p : Policy) : Policy :=
  {| Headroom := Headroom p; Min := Min p; Tolerance := Tolerance p; WindowDays := WindowDays p;
     MaxShrinkStep := v; ShrinkCooldown := ShrinkCooldown p;
     ShrinkPRTTL := ShrinkPRTTL p; GrowCooldown := GrowCooldown p; Enabled := Enabled p;
     ShrinkEnabled := ShrinkEnabled p |}.
Definition set_shrink_cooldown (v : Z) (p : Policy) : Policy :=
  {| Headroom := Headroom p; Min := Min p; Tolerance := Tolerance p; WindowDays := WindowDays p;
     MaxShrinkStep := MaxShrinkStep p; ShrinkCooldown := v;
     ShrinkPRTTL := ShrinkPRTTL p; GrowCooldown := GrowCooldown p; Enabled := Enabled p;
     ShrinkEnabled := ShrinkEnabled p |}.
Definition set_shrink_pr_ttl (v : Z) (p : Policy) : Policy :=
  {| Headroom := Headroom p; Min := Min p; Tolerance := Tolerance p; WindowDays := WindowDays p;
     MaxShrinkStep := MaxShrinkStep p; ShrinkCooldown := ShrinkCooldown p;
     ShrinkPRTTL := v; GrowCooldown := GrowCooldown p; Enabled := Enabled p;
     ShrinkEnabled := ShrinkEnabled p |}.
Definition set_grow_cooldown (v : Z) (p : Policy) : Policy :=
  {| Headroom := Headroom p; Min := Min p; Tolerance := Tolerance p; WindowDays := WindowDays p;
     MaxShrinkStep := MaxShrinkStep p; ShrinkCooldown := ShrinkCooldown p;
     ShrinkPRTTL := ShrinkPRTTL p; GrowCooldown := v; Enabled := Enabled p;
     ShrinkEnabled := ShrinkEnabled p |}.
Definition set_enabled (v : bool) (p : Policy) : Policy :=
  {| Headroom := Headroom p; Min := Min p; Tolerance := Tolerance p; WindowDays := WindowDays p;
     MaxShrinkStep := MaxShrinkStep p; ShrinkCooldown := ShrinkCooldown p;
     ShrinkPRTTL := ShrinkPRTTL p; GrowCooldown := GrowCooldown p; Enabled := v;
     ShrinkEnabled := ShrinkEnabled p |}.
Definition set_shrink_enabled (v : bool) (p : Policy) : Policy :=
  {| Headroom := Headroom p; Min := Min p; Tolerance := Tolerance p; WindowDays := WindowDays p;
     MaxShrinkStep := MaxShrinkStep p; ShrinkCooldown := ShrinkCooldown p;
     ShrinkPRTTL := ShrinkPRTTL p; GrowCooldown := GrowCooldown p; Enabled := Enabled p;
     ShrinkEnabled := v |}.

(* go: internal/sizing/policy.go 114-131 resourceFamily *)
Definition resourceFamily (res : string) : option string :=
  let name := measureOf res in
  if Str.Contains name "cpu" then Some Core.ResourceCPU
  else if Str.Contains name "memory" then Some Core.ResourceMemory
  else if Str.Contains name "storage" then Some Core.ResourceStorage
  else None.

(* go: internal/sizing/policy.go 79-94 HeadroomFor *)
Definition HeadroomFor (p : Policy) (res : string) : F64.t :=
  match Headroom p !! res with
  | Some v => v
  | None =>
      match (match resourceFamily res with Some family => Headroom p !! family | None => None end) with
      | Some v => v
      | None => match Headroom p !! DefaultKey with Some v => v | None => f025 end
      end
  end.

(* go: internal/sizing/policy.go 96-112 MinFor *)
Definition MinFor (p : Policy) (res : string) : option Quantity :=
  match Min p !! res with
  | Some q => Some q
  | None => match resourceFamily res with Some family => Min p !! family | None => None end
  end.

(* go: internal/sizing/policy.go 322-336 parseFraction *)
Definition parseFraction (value : string) : option F64.t :=
  if Str.HasSuffix value "%" then
    match ParseFloat.parse (Str.TrimSuffix value "%") with
    | Some v => Some (F64.div v (F64.of_Z 100))
    | None => None
    end
  else ParseFloat.parse value.

(** [PolicyWarning{}]. *)
Definition no_warning : PolicyWarning := {| Kind := WarningDeprecated; Message := "" |}.

(* go: internal/sizing/policy.go 193-202 rejectionWarning *)
Definition rejectionWarning (name value requirement : string) : PolicyWarning := {|
  Kind := WarningRejected;
  Message := "annotation " +:+ AnnotationPrefix +:+ name +:+ " has the invalid value " +:+
    Quote value +:+ ", so it is ignored and the previous value is kept (" +:+ requirement +:+ ")"
|}.

(* go: internal/sizing/policy.go 338-349 deprecationWarning *)
Definition deprecationWarning (res old : string) : PolicyWarning :=
  let prefix := if bool_decide (res = DefaultKey) then "" else res +:+ "-" in {|
  Kind := WarningDeprecated;
  Message := "annotation " +:+ AnnotationPrefix +:+ prefix +:+ old +:+ " is deprecated, use " +:+
    AnnotationPrefix +:+ prefix +:+ "headroom instead"
|}.

(* go: internal/sizing/policy.go 204-231 parseShrinkOptOut *)
Definition parseShrinkOptOut (value : string) (out : Policy) : Policy * PolicyWarning :=
  if Str.EqualFold value "true" then (out, no_warning)
  else if Str.EqualFold value "false" then (set_shrink_enabled false out, no_warning)
  else (set_shrink_enabled false out, {|
    Kind := WarningRejected;
    Message := "annotation " +:+ AnnotationPrefix +:+ "shrink-enabled has the unrecognised " +:+
      "value " +:+ Quote value +:+ ", so shrinking is switched off for this namespace; " +:+
      "use " +:+ Str.quoted "true" +:+ " or " +:+ Str.quoted "false" |}).

(** [time.Duration(v) * 24 * time.Hour] and [time.Duration(v) * time.Minute]. *)
Definition days (v : Z) : Z := wrap64 (wrap64 (v * 24) * Time.Hour).
Definition minutes (v : Z) : Z := wrap64 (v * Time.Minute).

(* go: internal/sizing/policy.go 133-191 parseScalar *)
Definition parseScalar (name value : string) (out : Policy) : Policy * PolicyWarning :=
  if Str.HasSuffix name "-min" then
    match ParseQuantity value with
    | Some q => (set_min (<[Str.TrimSuffix name "-min" := q]> (Min out)) out, no_warning)
    | None => (out, rejectionWarning name value "must be a valid resource quantity")
    end
  else if String.eqb name "tolerance" then
    match parseFraction value with
    | Some v =>
        if F64.le F64.zero v && F64.lt v F64.one then (set_tolerance v out, no_warning)
        else (out, rejectionWarning name value ("must be a fraction in [0, 1), e.g. " +:+ Str.quoted "0.15" +:+ " or " +:+ Str.quoted "15%"))
    | None => (out, rejectionWarning name value ("must be a fraction in [0, 1), e.g. " +:+ Str.quoted "0.15" +:+ " or " +:+ Str.quoted "15%"))
    end
  else if String.eqb name "max-shrink-step" then
    match parseFraction value with
    | Some v =>
        if F64.lt F64.zero v && F64.lt v F64.one then (set_max_shrink_step v out, no_warning)
        else (out, rejectionWarning name value ("must be a fraction in (0, 1), e.g. " +:+ Str.quoted "0.25" +:+ " or " +:+ Str.quoted "25%"))
    | None => (out, rejectionWarning name value ("must be a fraction in (0, 1), e.g. " +:+ Str.quoted "0.25" +:+ " or " +:+ Str.quoted "25%"))
    end
  else if String.eqb name "window-days" then
    match Str.Atoi value with
    | Some v =>
        if 0 <? v then (set_window_days v out, no_warning)
        else (out, rejectionWarning name value "must be a positive integer")
    | None => (out, rejectionWarning name value "must be a positive integer")
    end
  else if String.eqb name "shrink-cooldown-days" then
    match Str.Atoi value with
    | Some v =>
        if 0 <=? v then (set_shrink_cooldown (days v) out, no_warning)
        else (out, rejectionWarning name value "must be a non-negative integer")
    | None => (out, rejectionWarning name value "must be a non-negative integer")
    end
  else if String.eqb name "shrink-pr-ttl-days" then
    match Str.Atoi value with
    | Some v =>
        if 0 <? v then (set_shrink_pr_ttl (days v) out, no_warning)
        else (out, rejectionWarning name value "must be a positive integer")
    | None => (out, rejectionWarning name value "must be a positive integer")
    end
  else if String.eqb name "cooldown-minutes" then
    match Str.Atoi value with
    | Some v =>
        if 0 <=? v then (set_grow_cooldown (minutes v) out, no_warning)
        else (out, rejectionWarning name value "must be a non-negative integer")
    | None => (out, rejectionWarning name value "must be a non-negative integer")
    end
  else if String.eqb name "enabled" then
    (set_enabled (negb (String.eqb value "false")) out, no_warning)
  else if String.eqb name "shrink-enabled" then parseShrinkOptOut value out
  else (out, no_warning).

(* go: internal/sizing/policy.go 312-320 suffixKey *)
Definition suffixKey (name suffix : string) : string :=
  let trimmed := Str.TrimSuffix (Str.TrimSuffix name suffix) "-" in
  if String.eqb trimmed "" then DefaultKey else trimmed.

(* go: internal/sizing/policy.go 351-357 copyFloatMap *)
Definition copyFloatMap (m : gmap string F64.t) : gmap string F64.t :=
  foldl insert_step ∅ (range 5 m).

(* go: internal/sizing/policy.go 359-367 copyQuantityMap *)
Definition copyQuantityMap (m : gmap string Quantity) : gmap string Quantity :=
  foldl insert_step ∅ (range 6 m).

(** The local variables of [ParsePolicy]. *)
Record parse_state := {
  ps_out : Policy;
  ps_headroom : gmap string F64.t;
  ps_increment : gmap string F64.t;
  ps_threshold : gmap string F64.t;
  ps_warnings : list PolicyWarning
}.

Definition ps_warn (w : PolicyWarning) (st : parse_state) : parse_state :=
  {| ps_out := ps_out st; ps_headroom := ps_headroom st; ps_increment := ps_increment st;
     ps_threshold := ps_threshold st; ps_warnings := ps_warnings st ++ [w] |}.

(** One annotation: the body of the first loop. *)
(* go: internal/sizing/policy.go 251-284 ParsePolicy *)
Definition parse_annotation (st : parse_state) (kv : string * string) : parse_state :=
  let '(key, value) := kv in
  if negb (Str.HasPrefix key AnnotationPrefix) then st else
  let name := Str.TrimPrefix key AnnotationPrefix in
  if Str.HasSuffix name "headroom" then
    match parseFraction value with
    | Some v =>
        if F64.le F64.zero v then
          {| ps_out := ps_out st;
             ps_headroom := <[suffixKey name "headroom" := v]> (ps_headroom st);
             ps_increment := ps_increment st; ps_threshold := ps_threshold st;
             ps_warnings := ps_warnings st |}
        else ps_warn (rejectionWarning name value ("must be a fraction >= 0, e.g. " +:+ Str.quoted "0.25" +:+ " or " +:+ Str.quoted "25%")) st
    | None => ps_warn (rejectionWarning name value ("must be a fraction >= 0, e.g. " +:+ Str.quoted "0.25" +:+ " or " +:+ Str.quoted "25%")) st
    end
  else if Str.HasSuffix name "increment" then
    match parseFraction value with
    | Some v =>
        if F64.le F64.zero v then
          {| ps_out := ps_out st; ps_headroom := ps_headroom st;
             ps_increment := <[suffixKey name "increment" := v]> (ps_increment st);
             ps_threshold := ps_threshold st; ps_warnings := ps_warnings st |}
        else ps_warn (rejectionWarning name value ("must be a fraction >= 0, e.g. " +:+ Str.quoted "0.2" +:+ " or " +:+ Str.quoted "20%")) st
    | None => ps_warn (rejectionWarning name value ("must be a fraction >= 0, e.g. " +:+ Str.quoted "0.2" +:+ " or " +:+ Str.quoted "20%")) st
    end
  else if Str.HasSuffix name "threshold" then
    match ParseFloat.parse value with
    | Some v =>
        if F64.lt F64.zero v && F64.le v (F64.of_Z 100) then
          {| ps_out := ps_out st; ps_headroom := ps_headroom st; ps_increment := ps_increment st;
             ps_threshold := <[suffixKey name "threshold" :=
               F64.sub (F64.div (F64.of_Z 100) v) F64.one]> (ps_threshold st);
             ps_warnings := ps_warnings st |}
        else ps_warn (rejectionWarning name value "must be a percentage in (0, 100]") st
    | None => ps_warn (rejectionWarning name value "must be a percentage in (0, 100]") st
    end
  else
    let '(out, w) := parseScalar name value (ps_out st) in
    let st := {| ps_out := out; ps_headroom := ps_headroom st; ps_increment := ps_increment st;
                 ps_threshold := ps_threshold st; ps_warnings := ps_warnings st |} in
    if String.eqb (Message w) "" then st else ps_warn w st.

(** The bodies of the three merge loops. *)
(* go: internal/sizing/policy.go 286-304 ParsePolicy *)
Definition merge_deprecated (old : string) (overrides : list (gmap string F64.t))
    (acc : Policy * list PolicyWarning) (kv : string * F64.t) : Policy * list PolicyWarning :=
  let '(out, warnings) := acc in
  let '(res, v) := kv in
  if existsb (λ m, bool_decide (is_Some (m !! res))) overrides then acc
  else (set_headroom (<[res := v]> (Headroom out)) out, warnings ++ [deprecationWarning res old]).

(* go: internal/sizing/policy.go 305-307 ParsePolicy *)
Definition merge_headroom (out : Policy) (kv : string * F64.t) : Policy :=
  set_headroom (<[kv.1 := kv.2]> (Headroom out)) out.

(* go: internal/sizing/policy.go 233-310 ParsePolicy *)
Definition ParsePolicy (annotations : gmap string string) (base : Policy)
    : Policy * list PolicyWarning :=
  let out := set_min (copyQuantityMap (Min base))
               (set_headroom (copyFloatMap (Headroom base)) base) in
  let st := foldl parse_annotation
    {| ps_out := out; ps_headroom := ∅; ps_increment := ∅; ps_threshold := ∅; ps_warnings := [] |}
    (range 1 annotations) in
  let acc := foldl (merge_deprecated "threshold" [ps_headroom st; ps_increment st])
    (ps_out st, ps_warnings st) (range 2 (ps_threshold st)) in
  let '(out, warnings) := foldl (merge_deprecated "increment" [ps_headroom st])
    acc (range 3 (ps_increment st)) in
  (foldl merge_headroom out (range 4 (ps_headroom st)), warnings).

End policy.
