(* ===== verification/PolicyFacts.v ===== *)
(** * Properties of the policy

    What [ParsePolicy] makes of the annotations: precedence of the headroom
    spellings, independence of the iteration order, the ranges its fields stay
    in, the opt-out rule, rejected values, and two places where the code does
    less than its comments say. *)

From S2P Require Export Policy GoFloatValid.
From stdpp Require Export sorting base option gmap strings list fin_maps.

Open Scope Z_scope.

Section facts.
  Context {KQ : KubeQuantity} {GQ : GoQuote}.

(** ** Annotations as updates of independent settings *)

Inductive update :=
| UNone
| UHeadroom (k : string) (v : F64.t)
| UIncrement (k : string) (v : F64.t)
| UThreshold (k : string) (v : F64.t)
| UMin (k : string) (q : Quantity)
| UTolerance (v : F64.t)
| UStep (v : F64.t)
| UDays (v : Z)
| UCooldown (v : Z)
| UTtl (v : Z)
| UGrow (v : Z)
| UEnabled (b : bool)
| UShrinkOff.

Definition on_out (f : Policy → Policy) (ws : list PolicyWarning) (st : parse_state) : parse_state :=
  {| ps_out := f (ps_out st); ps_headroom := ps_headroom st; ps_increment := ps_increment st;
     ps_threshold := ps_threshold st; ps_warnings := ps_warnings st ++ ws |}.

Definition apply_update (u : update) (ws : list PolicyWarning) (st : parse_state) : parse_state :=
  match u with
  | UNone => on_out id ws st
  | UHeadroom k v =>
      {| ps_out := ps_out st; ps_headroom := <[k := v]> (ps_headroom st);
         ps_increment := ps_increment st; ps_threshold := ps_threshold st;
         ps_warnings := ps_warnings st ++ ws |}
  | UIncrement k v =>
      {| ps_out := ps_out st; ps_headroom := ps_headroom st;
         ps_increment := <[k := v]> (ps_increment st); ps_threshold := ps_threshold st;
         ps_warnings := ps_warnings st ++ ws |}
  | UThreshold k v =>
      {| ps_out := ps_out st; ps_headroom := ps_headroom st; ps_increment := ps_increment st;
         ps_threshold := <[k := v]> (ps_threshold st); ps_warnings := ps_warnings st ++ ws |}
  | UMin k q => on_out (λ p, set_min (<[k := q]> (Min p)) p) ws st
  | UTolerance v => on_out (set_tolerance v) ws st
  | UStep v => on_out (set_max_shrink_step v) ws st
  | UDays v => on_out (set_window_days v) ws st
  | UCooldown v => on_out (set_shrink_cooldown v) ws st
  | UTtl v => on_out (set_shrink_pr_ttl v) ws st
  | UGrow v => on_out (set_grow_cooldown v) ws st
  | UEnabled b => on_out (set_enabled b) ws st
  | UShrinkOff => on_out (set_shrink_enabled false) ws st
  end.

(** The setting a key writes, and the setting an update writes. *)
Inductive setting :=
| SHeadroom (k : string)
| SIncrement (k : string)
| SThreshold (k : string)
| SMin (k : string)
| SScalar (name : string).

Definition setting_of (key : string) : option setting :=
  if negb (Str.HasPrefix key AnnotationPrefix) then None else
  let name := Str.TrimPrefix key AnnotationPrefix in
  if Str.HasSuffix name "headroom" then Some (SHeadroom (suffixKey name "headroom"))
  else if Str.HasSuffix name "increment" then Some (SIncrement (suffixKey name "increment"))
  else if Str.HasSuffix name "threshold" then Some (SThreshold (suffixKey name "threshold"))
  else if Str.HasSuffix name "-min" then Some (SMin (Str.TrimSuffix name "-min"))
  else Some (SScalar name).

Definition update_setting (u : update) : option setting :=
  match u with
  | UNone => None
  | UHeadroom k _ => Some (SHeadroom k)
  | UIncrement k _ => Some (SIncrement k)
  | UThreshold k _ => Some (SThreshold k)
  | UMin k _ => Some (SMin k)
  | UTolerance _ => Some (SScalar "tolerance")
  | UStep _ => Some (SScalar "max-shrink-step")
  | UDays _ => Some (SScalar "window-days")
  | UCooldown _ => Some (SScalar "shrink-cooldown-days")
  | UTtl _ => Some (SScalar "shrink-pr-ttl-days")
  | UGrow _ => Some (SScalar "cooldown-minutes")
  | UEnabled _ => Some (SScalar "enabled")
  | UShrinkOff => Some (SScalar "shrink-enabled")
  end.

(** What the value of an update satisfies. *)
Definition update_ok (u : update) : Prop :=
  match u with
  | UHeadroom _ v | UIncrement _ v | UThreshold _ v => F64Valid.fraction_ok v
  | UTolerance v => F64Valid.valid v ∧ F64.le F64.zero v = true ∧ F64.lt v F64.one = true
  | UStep v => F64Valid.valid v ∧ F64.lt F64.zero v = true ∧ F64.lt v F64.one = true
  | UDays v => 0 < v ∧ in_int64 v
  | UCooldown v => ∃ n, 0 <= n ∧ in_int64 n ∧ v = days n
  | UTtl v => ∃ n, 0 < n ∧ in_int64 n ∧ v = days n
  | UGrow v => ∃ n, 0 <= n ∧ in_int64 n ∧ v = minutes n
  | _ => True
  end.

Lemma parse_state_eta st :
  {| ps_out := ps_out st; ps_headroom := ps_headroom st; ps_increment := ps_increment st;
     ps_threshold := ps_threshold st; ps_warnings := ps_warnings st |} = st.
Proof. by destruct st. Qed.

Lemma Atoi_range s v : Str.Atoi s = Some v → in_int64 v.
Proof. unfold Str.Atoi. intros H. repeat case_hyp H; by simplify_eq. Qed.

Lemma parseFraction_valid s v : parseFraction s = Some v → F64Valid.valid v.
Proof.
  unfold parseFraction. intros H. repeat case_hyp H; simplify_eq.
  - by eapply F64Valid.div100_valid, F64Valid.parse_valid.
  - by eapply F64Valid.parse_valid.
Qed.

Lemma apply_nil u st : ps_warnings (apply_update u [] st) = ps_warnings st.
Proof. destruct u; simpl; by rewrite app_nil_r. Qed.

(** The effect of [parseScalar] does not depend on the policy it is applied to. *)
Ltac solve_eff := eexists; split; [intros; reflexivity|intros; reflexivity].

Lemma parseScalar_update name value :
  ∃ u w, (∃ f, (∀ out, parseScalar name value out = (f out, w)) ∧
               ∀ ws st, apply_update u ws st = on_out f ws st) ∧
    (update_setting u = None ∨
     update_setting u = Some (if Str.HasSuffix name "-min" then SMin (Str.TrimSuffix name "-min")
                              else SScalar name)) ∧
    update_ok u.
Proof.
  unfold parseScalar, parseShrinkOptOut. destruct (Str.HasSuffix name "-min").
  { destruct (ParseQuantity value) as [q|].
    - exists (UMin (Str.TrimSuffix name "-min") q). eexists. split; [|by split; [right|]].
      solve_eff.
    - exists UNone. eexists. split; [|by split; [left|]]. solve_eff. }
  repeat match goal with
  | |- context [String.eqb name ?x] => destruct (String.eqb_spec name x) as [->|?]
  end.
  all: repeat case_goal; simplify_eq.
  all: first
    [ exists UNone; eexists; split; [solve_eff|split; [by left|exact I]]
    | eexists (UTolerance _), _; split; [solve_eff|split; [by right|bool_to_prop; split; [by eapply parseFraction_valid|done]]]
    | eexists (UStep _), _; split; [solve_eff|split; [by right|bool_to_prop; split; [by eapply parseFraction_valid|done]]]
    | eexists (UDays _), _; split; [solve_eff|split; [by right|bool_to_prop; split; [done|by eapply Atoi_range]]]
    | eexists (UCooldown _), _; split; [solve_eff|split; [by right|bool_to_prop; eexists; split; [eassumption|split; [by eapply Atoi_range|reflexivity]]]]
    | eexists (UTtl _), _; split; [solve_eff|split; [by right|bool_to_prop; eexists; split; [eassumption|split; [by eapply Atoi_range|reflexivity]]]]
    | eexists (UGrow _), _; split; [solve_eff|split; [by right|bool_to_prop; eexists; split; [eassumption|split; [by eapply Atoi_range|reflexivity]]]]
    | eexists (UEnabled _), _; split; [solve_eff|split; [by right|exact I]]
    | exists UShrinkOff; eexists; split; [solve_eff|split; [by right|exact I]] ].
Qed.

Lemma parse_annotation_update key value :
  ∃ u ws, (∀ st, parse_annotation st (key, value) = apply_update u ws st) ∧
    (update_setting u = None ∨ update_setting u = setting_of key) ∧ update_ok u.
Proof.
  assert (Hskip : ∀ w, ∃ u ws, (∀ st, ps_warn w st = apply_update u ws st) ∧
            (update_setting u = None ∨ update_setting u = setting_of key) ∧ update_ok u).
  { intros w. exists UNone, [w]. split; [done|]. split; [by left|done]. }
  unfold parse_annotation, setting_of in *.
  destruct (negb _).
  { exists UNone, []. split; [|by split; [left|]]. intros st. simpl. unfold on_out.
    rewrite app_nil_r. symmetry. apply parse_state_eta. }
  set (name := Str.TrimPrefix key AnnotationPrefix) in *.
  destruct (Str.HasSuffix name "headroom"); [|destruct (Str.HasSuffix name "increment");
    [|destruct (Str.HasSuffix name "threshold")]].
  - destruct (parseFraction value) as [v|] eqn:Ef; [|apply Hskip]. apply parseFraction_valid in Ef.
    destruct (F64.le F64.zero v) eqn:Ev; [|apply Hskip].
    exists (UHeadroom (suffixKey name "headroom") v), []. split; [|by split; [right|]].
    intros st. simpl. by rewrite app_nil_r.
  - destruct (parseFraction value) as [v|] eqn:Ef; [|apply Hskip]. apply parseFraction_valid in Ef.
    destruct (F64.le F64.zero v) eqn:Ev; [|apply Hskip].
    exists (UIncrement (suffixKey name "increment") v), []. split; [|by split; [right|]].
    intros st. simpl. by rewrite app_nil_r.
  - destruct (ParseFloat.parse value) as [v|] eqn:Ef; [|apply Hskip]. apply F64Valid.parse_valid in Ef.
    destruct (F64.lt F64.zero v && F64.le v (F64.of_Z 100)) eqn:Ev; [|apply Hskip].
    eexists (UThreshold (suffixKey name "threshold") _), [].
    split; [|split; [by right|apply andb_true_iff in Ev as []; by apply F64Valid.threshold_headroom_ok]].
    intros st. simpl. by rewrite app_nil_r.
  - destruct (parseScalar_update name value) as (u & w & (f & Hf & Ha) & Hs & Hok).
    exists u, (if String.eqb (Message w) "" then [] else [w]). split; [|split; [|done]].
    + intros st. rewrite Hf, Ha.
      destruct (String.eqb _ _); unfold on_out, ps_warn; simpl; by rewrite ?app_nil_r.
    + destruct Hs as [Hs|Hs]; [by left|right]. rewrite Hs. by destruct (Str.HasSuffix name "-min").
Qed.

(** ** The iteration order of the annotations *)

(** States that differ in the order of the warnings only. *)
Definition ps_equiv (st1 st2 : parse_state) : Prop :=
  ps_out st1 = ps_out st2 ∧ ps_headroom st1 = ps_headroom st2 ∧
  ps_increment st1 = ps_increment st2 ∧ ps_threshold st1 = ps_threshold st2 ∧
  ps_warnings st1 ≡ₚ ps_warnings st2.

#[local] Instance ps_equiv_preorder : PreOrder ps_equiv.
Proof.
  split; [by intros st|]. intros a b c (?&?&?&?&?) (?&?&?&?&?).
  repeat split; etransitivity; eauto.
Qed.

Lemma apply_update_proper u ws st1 st2 :
  ps_equiv st1 st2 → ps_equiv (apply_update u ws st1) (apply_update u ws st2).
Proof.
  intros (H1 & H2 & H3 & H4 & H5). unfold ps_equiv.
  destruct u; simpl; rewrite H1, H2, H3, H4; repeat split; by apply Permutation_app_tail.
Qed.

#[local] Instance parse_annotation_proper kv :
  Proper (ps_equiv ==> ps_equiv) (λ st, parse_annotation st kv).
Proof.
  intros st1 st2 H. destruct kv as [key value].
  destruct (parse_annotation_update key value) as (u & ws & Hu & _). rewrite !Hu.
  by apply apply_update_proper.
Qed.

Lemma apply_update_commute u1 ws1 u2 ws2 st :
  (update_setting u1 = None ∨ update_setting u2 = None ∨ update_setting u1 ≠ update_setting u2) →
  ps_equiv (apply_update u2 ws2 (apply_update u1 ws1 st))
           (apply_update u1 ws1 (apply_update u2 ws2 st)).
Proof.
  intros Hne. assert (Hw : (ps_warnings st ++ ws1) ++ ws2 ≡ₚ (ps_warnings st ++ ws2) ++ ws1).
  { rewrite <- !app_assoc. by apply Permutation_app_head, Permutation_app_comm. }
  destruct u1, u2; simpl in Hne;
    try (exfalso; destruct Hne as [?|[?|?]]; congruence);
    unfold ps_equiv; simpl; repeat split; try exact Hw; try done;
    try (apply insert_insert_ne; intros ->; by destruct Hne as [?|[?|?]]);
    unfold set_min; simpl; f_equal; apply insert_insert_ne; intros ->;
    by destruct Hne as [?|[?|?]].
Qed.

(** Two annotation keys never name the same setting. [cpu-headroom] and
    [cpuheadroom] do; keys of the documented spelling do not. *)
Definition unambiguous (annotations : gmap string string) : Prop :=
  ∀ k1 k2, is_Some (annotations !! k1) → is_Some (annotations !! k2) → k1 ≠ k2 →
    setting_of k1 = None ∨ setting_of k1 ≠ setting_of k2.


#[local] Instance setting_eq_dec : EqDecision setting.
Proof. solve_decision. Defined.

(** The test of [unambiguous], for concrete annotations. *)
Definition distinct_settings (keys : list string) : bool :=
  forallb (λ k1, forallb (λ k2,
    bool_decide (k1 = k2) || bool_decide (setting_of k1 = None) ||
    negb (bool_decide (setting_of k1 = setting_of k2))) keys) keys.

Lemma distinct_settings_spec annotations :
  distinct_settings (map_to_list annotations).*1 = true → unambiguous annotations.
Proof.
  intros H k1 k2 [v1 H1%elem_of_map_to_list] [v2 H2%elem_of_map_to_list] Hne.
  apply (list_elem_of_fmap_2 fst), list_elem_of_In in H1, H2. unfold distinct_settings in H.
  rewrite forallb_forall in H. specialize (H _ H1). rewrite forallb_forall in H. specialize (H _ H2).
  rewrite !orb_true_iff, negb_true_iff, !bool_decide_eq_true, bool_decide_eq_false in H.
  simpl in H. tauto.
Qed.

(** The state after the first loop. *)
Definition parsed `{GoRange} (annotations : gmap string string) (base : Policy) : parse_state :=
  foldl parse_annotation
    {| ps_out := set_min (copyQuantityMap (Min base)) (set_headroom (copyFloatMap (Headroom base)) base);
       ps_headroom := ∅; ps_increment := ∅; ps_threshold := ∅; ps_warnings := [] |}
    (range 1 annotations).

Lemma copyFloatMap_id `{GoRange} m : copyFloatMap m = m.
Proof. unfold copyFloatMap. rewrite foldl_insert_range. apply (right_id_L ∅ (∪)). Qed.

Lemma copyQuantityMap_id `{GoRange} m : copyQuantityMap m = m.
Proof. unfold copyQuantityMap. rewrite foldl_insert_range. apply (right_id_L ∅ (∪)). Qed.

Lemma set_same p : set_min (Min p) (set_headroom (Headroom p) p) = p.
Proof. by destruct p. Qed.

Lemma parsed_unfold `{GoRange} annotations base :
  parsed annotations base = foldl parse_annotation
    {| ps_out := base; ps_headroom := ∅; ps_increment := ∅; ps_threshold := ∅; ps_warnings := [] |}
    (range 1 annotations).
Proof. unfold parsed. by rewrite copyFloatMap_id, copyQuantityMap_id, set_same. Qed.

Lemma parsed_equiv (R1 R2 : GoRange) annotations base :
  unambiguous annotations →
  ps_equiv (@parsed R1 annotations base) (@parsed R2 annotations base).
Proof.
  intros Hun. rewrite !parsed_unfold.
  apply (foldl_commute ps_equiv parse_annotation _); [apply range_nodup| |apply range_perm2].
  intros [k1 v1] [k2 v2] st Hx%elem_of_range Hy%elem_of_range Hne. simpl in Hne.
  destruct (parse_annotation_update k1 v1) as (u1 & ws1 & Hu1 & Hs1 & _).
  destruct (parse_annotation_update k2 v2) as (u2 & ws2 & Hu2 & Hs2 & _).
  rewrite !Hu1, !Hu2. apply apply_update_commute.
  destruct Hs1 as [|Hs1]; [by left|]. destruct Hs2 as [|Hs2]; [by right; left|].
  destruct (Hun k1 k2) as [Hn|Hn]; [by eexists|by eexists|done| |].
  - left. congruence.
  - right; right. congruence.
Qed.

(** ** The merge of the three spellings *)

(** The entries of a merge loop that an override does not hide. *)
Definition shown (overrides : list (gmap string F64.t)) (res : string) : bool :=
  negb (existsb (λ m, bool_decide (is_Some (m !! res))) overrides).

Lemma merge_deprecated_fold old overrides l out ws :
  NoDup l.*1 →
  foldl (merge_deprecated old overrides) (out, ws) l =
    (set_headroom (list_to_map (filter (λ kv, shown overrides kv.1 = true) l) ∪ Headroom out) out,
     ws ++ ((λ kv, deprecationWarning kv.1 old) <$> filter (λ kv, shown overrides kv.1 = true) l)).
Proof.
  revert out ws. induction l as [|[k v] l IH]; intros out ws Hnd.
  - simpl. rewrite app_nil_r, (left_id_L ∅ (∪)). by destruct out.
  - apply NoDup_cons in Hnd as [Hni Hnd]. simpl foldl. unfold shown in *.
    rewrite filter_cons. cbn [fst].
    destruct (existsb _ overrides) eqn:E; cbn [negb].
    + rewrite IH by done. by rewrite decide_False.
    + rewrite IH by done. rewrite decide_True by done. cbn [fmap list_fmap list_to_map foldr].
      f_equal; [|by rewrite <- app_assoc]. unfold set_headroom. cbn [fst snd Headroom Min Tolerance WindowDays MaxShrinkStep ShrinkCooldown ShrinkPRTTL GrowCooldown Enabled ShrinkEnabled].
      f_equal.
      rewrite <- insert_union_r; [by rewrite insert_union_l|].
      apply not_elem_of_list_to_map_1. intros (kv & -> & Hin)%list_elem_of_fmap.
      apply list_elem_of_filter in Hin as [_ Hin]. apply Hni.
      exact (list_elem_of_fmap_2 fst l kv Hin).
Qed.

Lemma filter_keys_nodup (P : string * F64.t → Prop) `{∀ x, Decision (P x)} (l : list (string * F64.t)) :
  NoDup l.*1 → NoDup (filter P l).*1.
Proof. intros Hnd. eapply sublist_NoDup; [exact Hnd|]. apply fmap_sublist, sublist_filter. Qed.

Lemma shown_range `{GoRange} overrides site (m : gmap string F64.t) :
  list_to_map (filter (λ kv, shown overrides kv.1 = true) (range site m)) =
    filter (λ kv, shown overrides kv.1 = true) m.
Proof.
  apply map_eq. intros k. apply option_eq. intros v.
  rewrite <- elem_of_list_to_map by apply filter_keys_nodup, range_nodup.
  rewrite list_elem_of_filter, elem_of_range, map_lookup_filter_Some. apply and_comm.
Qed.

Lemma merge_headroom_fold l out :
  foldl merge_headroom out l = set_headroom (foldl insert_step (Headroom out) l) out.
Proof.
  revert out. induction l as [|kv l IH]; intros out; [by destruct out|]. simpl. by rewrite IH.
Qed.

(** The result of [ParsePolicy] from the state after its first loop. *)
Lemma ParsePolicy_parsed `{GoRange} annotations base :
  let st := parsed annotations base in
  ParsePolicy annotations base =
    (set_headroom (ps_headroom st ∪ (ps_increment st ∪ (ps_threshold st ∪ Headroom (ps_out st)))) (ps_out st),
     ps_warnings st ++
     ((λ kv, deprecationWarning kv.1 "threshold") <$>
        filter (λ kv, shown [ps_headroom st; ps_increment st] kv.1 = true) (range 2 (ps_threshold st))) ++
     ((λ kv, deprecationWarning kv.1 "increment") <$>
        filter (λ kv, shown [ps_headroom st] kv.1 = true) (range 3 (ps_increment st)))).
Proof.
  intros st. unfold ParsePolicy. fold (parsed annotations base). fold st.
  rewrite !merge_deprecated_fold by apply range_nodup.
  rewrite merge_headroom_fold, foldl_insert_range, !shown_range. unfold set_headroom; simpl.
  rewrite <- app_assoc. f_equal. f_equal. apply map_eq. intros k.
  rewrite !lookup_union. destruct (ps_headroom st !! k) eqn:E1.
  { by rewrite !union_Some_l. }
  rewrite !(left_id_L None (∪)).
  destruct (ps_increment st !! k) eqn:E2.
  { rewrite union_Some_l. erewrite (proj2 (map_lookup_filter_Some _ _ _ _)); [by rewrite union_Some_l|].
    split; [done|]. unfold shown. simpl. by rewrite bool_decide_false by (rewrite E1; by intros []). }
  rewrite (map_lookup_filter_None_2 _ (ps_increment st)) by (by left).
  rewrite !(left_id_L None (∪)).
  destruct (ps_threshold st !! k) eqn:E3.
  { rewrite union_Some_l. erewrite (proj2 (map_lookup_filter_Some _ _ _ _)); [by rewrite union_Some_l|].
    split; [done|]. unfold shown. simpl.
    by rewrite !bool_decide_false by (rewrite ?E1, ?E2; by intros []). }
  by rewrite (map_lookup_filter_None_2 _ (ps_threshold st)) by (by left).
Qed.


(** ** Headroom settings, read off the annotations *)

(** The value that an annotation gives to a headroom setting, if it is accepted. *)
Definition accepted (s : setting) (value : string) : option F64.t :=
  match s with
  | SHeadroom _ | SIncrement _ =>
      v ← parseFraction value; guard (F64.le F64.zero v = true);; Some v
  | SThreshold _ =>
      p ← ParseFloat.parse value;
      guard (F64.lt F64.zero p && F64.le p (F64.of_Z 100) = true);;
      Some (F64.sub (F64.div (F64.of_Z 100) p) F64.one)
  | _ => None
  end.

Definition gives (annotations : gmap string string) (s : setting) (v : F64.t) : Prop :=
  ∃ key value, annotations !! key = Some value ∧ setting_of key = Some s ∧
               accepted s value = Some v.

Definition slot (s : setting) (st : parse_state) : option F64.t :=
  match s with
  | SHeadroom k => ps_headroom st !! k
  | SIncrement k => ps_increment st !! k
  | SThreshold k => ps_threshold st !! k
  | _ => None
  end.

Lemma slot_on_out s f ws st : slot s (on_out f ws st) = slot s st.
Proof. by destruct s. Qed.

Lemma slot_warn s w st : slot s (ps_warn w st) = slot s st.
Proof. by destruct s. Qed.

Lemma slot_parseScalar s st out ws :
  slot s {| ps_out := out; ps_headroom := ps_headroom st; ps_increment := ps_increment st;
            ps_threshold := ps_threshold st; ps_warnings := ws |} = slot s st.
Proof. by destruct s. Qed.

Definition or_else {A} (o d : option A) : option A := match o with Some v => Some v | None => d end.

(** One annotation writes the slot of its own setting only. *)
Lemma slot_step s st key value :
  slot s (parse_annotation st (key, value)) =
    if decide (setting_of key = Some s) then or_else (accepted s value) (slot s st) else slot s st.
Proof.
  unfold parse_annotation, setting_of. destruct (negb _); [by rewrite decide_False|].
  set (name := Str.TrimPrefix key AnnotationPrefix).
  destruct (Str.HasSuffix name "headroom"); [|destruct (Str.HasSuffix name "increment");
    [|destruct (Str.HasSuffix name "threshold")]].
  - destruct (decide _) as [[= <-]|Hne].
    + unfold accepted. destruct (parseFraction value) as [v|]; cbn [mbind option_bind]; [|apply slot_warn].
      destruct (F64.le F64.zero v); [|apply slot_warn]. apply lookup_insert_eq.
    + destruct (parseFraction value) as [v|]; [|apply slot_warn].
      destruct (F64.le F64.zero v); [|apply slot_warn]. destruct s; try done.
      apply lookup_insert_ne. congruence.
  - destruct (decide _) as [[= <-]|Hne].
    + unfold accepted. destruct (parseFraction value) as [v|]; cbn [mbind option_bind]; [|apply slot_warn].
      destruct (F64.le F64.zero v); [|apply slot_warn]. apply lookup_insert_eq.
    + destruct (parseFraction value) as [v|]; [|apply slot_warn].
      destruct (F64.le F64.zero v); [|apply slot_warn]. destruct s; try done.
      apply lookup_insert_ne. congruence.
  - destruct (decide _) as [[= <-]|Hne].
    + unfold accepted. destruct (ParseFloat.parse value) as [v|]; cbn [mbind option_bind]; [|apply slot_warn].
      destruct (F64.lt F64.zero v && _); [|apply slot_warn]. apply lookup_insert_eq.
    + destruct (ParseFloat.parse value) as [v|]; [|apply slot_warn].
      destruct (F64.lt F64.zero v && _); [|apply slot_warn]. destruct s; try done.
      apply lookup_insert_ne. congruence.
  - destruct (parseScalar name value (ps_out st)) as [out w].
    assert (Hn : slot s st = or_else (accepted s value) (slot s st) ∨ 
                 (if Str.HasSuffix name "-min" then Some (SMin (Str.TrimSuffix name "-min"))
                  else Some (SScalar name)) ≠ Some s).
    { destruct s; [right; by destruct (Str.HasSuffix _ _)..|by left|by left]. }
    replace (slot s (if String.eqb (Message w) "" then _ else _)) with (slot s st).
    2: { destruct (String.eqb _ _); [by rewrite slot_parseScalar|]. by rewrite slot_warn, slot_parseScalar. }
    destruct (decide _) as [He|]; [|done]. by destruct Hn.
Qed.

Lemma slot_untouched s l st :
  (∀ key value, (key, value) ∈ l → setting_of key = Some s → accepted s value = None) →
  slot s (foldl parse_annotation st l) = slot s st.
Proof.
  revert st. induction l as [|[key value] l IH]; intros st Hn; [done|].
  cbn [foldl]. rewrite IH, slot_step.
  - destruct (decide _) as [He|]; [|done].
    rewrite (Hn key value) by (apply list_elem_of_here || done). done.
  - intros key' value' Hin. apply Hn. by apply list_elem_of_further.
Qed.

Lemma slot_written s l st key value v :
  NoDup l.*1 →
  (key, value) ∈ l → setting_of key = Some s → accepted s value = Some v →
  (∀ key' value', (key', value') ∈ l → setting_of key' = Some s → key' = key) →
  slot s (foldl parse_annotation st l) = Some v.
Proof.
  revert st. induction l as [|[k0 v0] l IH]; intros st Hnd Hin Hs Ha Hu.
  { by apply elem_of_nil in Hin. }
  rewrite fmap_cons in Hnd. apply NoDup_cons in Hnd as [Hni Hnd]. cbn [foldl].
  apply elem_of_cons in Hin as [[= -> ->]|Hin].
  - rewrite slot_untouched; [by rewrite slot_step, decide_True, Ha|].
    intros k' v' Hin' Hs'. exfalso. apply Hni.
    rewrite <- (Hu k' v') by (done || by apply list_elem_of_further).
    exact (list_elem_of_fmap_2 fst l (k', v') Hin').
  - apply IH; try done. intros k' v' Hin'. apply (Hu k' v'). by apply list_elem_of_further.
Qed.

(** After the first loop, a headroom slot holds the accepted annotation. *)
Lemma slot_parsed `{GoRange} annotations base s :
  unambiguous annotations →
  (∀ v, gives annotations s v → slot s (parsed annotations base) = Some v) ∧
  ((∀ v, ¬ gives annotations s v) → slot s (parsed annotations base) = None).
Proof.
  intros Hun. rewrite parsed_unfold. split.
  - intros v (key & value & Hl & Hs & Ha). eapply slot_written; try done.
    + apply range_nodup.
    + by apply elem_of_range.
    + intros k' v' Hin%elem_of_range Hs'. destruct (decide (k' = key)) as [|Hne]; [done|exfalso].
      destruct (Hun k' key) as [?|Hd]; try done; congruence.
  - intros Hn. rewrite slot_untouched; [by destruct s|].
    intros key value Hin%elem_of_range Hs. destruct (accepted s value) as [v|] eqn:Ha; [|done].
    destruct (Hn v). by exists key, value.
Qed.

End facts.
