(* ===== verification/PolicyTheorems.v ===== *)
(** * Theorems about ParsePolicy

    Precedence of the three headroom spellings, independence of the iteration
    order, the exact effect of every scalar annotation, the ranges the effective
    policy stays in, and two inputs on which the code does less than its
    comments say. *)

From S2P Require Export PolicyFacts GoFloatValid.
From stdpp Require Export sorting base option gmap strings list fin_maps.

Open Scope Z_scope.

(** ** Helper lemmas *)

Section lemmas.
  Context {KQ : KubeQuantity} {GQ : GoQuote} {GR : GoRange}.

(** An invariant of the annotation loop. *)
Lemma parsed_ind (P : parse_state → Prop) annotations base :
  P {| ps_out := base; ps_headroom := ∅; ps_increment := ∅; ps_threshold := ∅; ps_warnings := [] |} →
  (∀ st u ws, P st → update_ok u → P (apply_update u ws st)) →
  P (parsed annotations base).
Proof.
  intros H0 Hs. rewrite parsed_unfold. generalize (range 1 annotations). intros l. revert H0.
  generalize {| ps_out := base; ps_headroom := ∅; ps_increment := ∅; ps_threshold := ∅; ps_warnings := [] |}.
  induction l as [|[key value] l IH]; intros st Hst; [done|]. cbn [foldl]. apply IH.
  destruct (parse_annotation_update key value) as (u & ws & -> & _ & Hok). by apply Hs.
Qed.

Lemma parsed_headroom annotations base :
  Headroom (ps_out (parsed annotations base)) = Headroom base.
Proof. apply parsed_ind; [done|]. intros st u ws Hst _. by destruct u. Qed.

(** A field that one key alone can change. *)
Lemma parsed_field {A} (π : Policy → A) (K : string) (g : string → A → A) annotations base :
  (∀ st key value, π (ps_out (parse_annotation st (key, value))) =
     if decide (key = K) then g value (π (ps_out st)) else π (ps_out st)) →
  π (ps_out (parsed annotations base)) =
    match annotations !! K with Some v => g v (π base) | None => π base end.
Proof.
  intros Hstep. rewrite parsed_unfold.
  set (st0 := Build_parse_state base ∅ ∅ ∅ []). change (π base) with (π (ps_out st0)).
  assert (Hskip : ∀ l st, K ∉ l.*1 → π (ps_out (foldl parse_annotation st l)) = π (ps_out st)).
  { induction l as [|[k v] l IH]; intros st Hni; [done|]. rewrite fmap_cons in Hni.
    apply not_elem_of_cons in Hni as [Hne Hni]. cbn [foldl]. rewrite IH, Hstep by done.
    by rewrite decide_False by (simpl in Hne; congruence). }
  destruct (annotations !! K) as [v|] eqn:E.
  - apply (elem_of_range 1) in E. pose proof (range_nodup 1 annotations) as Hnd. revert E Hnd.
    generalize st0. induction (range 1 annotations) as [|[k0 v0] l IH]; intros st Hin Hnd.
    { by apply elem_of_nil in Hin. }
    rewrite fmap_cons in Hnd. apply NoDup_cons in Hnd as [Hni Hnd]. cbn [foldl].
    apply elem_of_cons in Hin as [[= <- <-]|Hin].
    + rewrite Hskip by done. by rewrite Hstep, decide_True.
    + rewrite IH by done. rewrite Hstep, decide_False; [done|]. intros ->. apply Hni.
      exact (list_elem_of_fmap_2 fst l (K, v) Hin).
  - apply Hskip. intros ([k v] & -> & Hin)%list_elem_of_fmap. apply elem_of_range in Hin.
    simpl in E. congruence.
Qed.

Lemma TrimPrefix_ne key name :
  Str.HasPrefix key AnnotationPrefix = true → key ≠ AnnotationPrefix +:+ name →
  Str.TrimPrefix key AnnotationPrefix ≠ name.
Proof.
  intros Hp Hne. unfold Str.HasPrefix, Str.TrimPrefix in *.
  destruct (Str.strip_prefix _ _) as [r|] eqn:E; [|done].
  apply Str.strip_prefix_Some in E. congruence.
Qed.
End lemmas.

(** The step of one annotation on one field of the policy: evaluate the branch
    of the key that sets it, and see that the others leave it alone. *)
Ltac field_step K :=
  try red; intros st key value; unfold parse_annotation;
  destruct (decide (key = AnnotationPrefix +:+ K)) as [->|Hne];
  [ change (negb (Str.HasPrefix (AnnotationPrefix +:+ K) AnnotationPrefix)) with false;
    change (Str.TrimPrefix (AnnotationPrefix +:+ K) AnnotationPrefix) with K;
    cbv beta iota zeta;
    change (Str.HasSuffix K "headroom") with false;
    change (Str.HasSuffix K "increment") with false;
    change (Str.HasSuffix K "threshold") with false;
    cbv beta iota; unfold parseScalar;
    change (Str.HasSuffix K "-min") with false; cbn [String.eqb Ascii.eqb Bool.eqb];
    unfold parseShrinkOptOut
  | destruct (Str.HasPrefix key AnnotationPrefix) eqn:Hp; [|done];
    pose proof (TrimPrefix_ne key K Hp Hne) as Hname; cbn [negb];
    generalize dependent (Str.TrimPrefix key AnnotationPrefix); intros name Hname;
    destruct (Str.HasSuffix name "headroom"); [|destruct (Str.HasSuffix name "increment");
      [|destruct (Str.HasSuffix name "threshold")]];
    [ repeat (case_goal; try done).. |
      unfold parseScalar, parseShrinkOptOut;
      rewrite (proj2 (String.eqb_neq name K) Hname); repeat (case_goal; simplify_eq; try done) ] ].

(** ** What each scalar annotation says *)

Definition checked {A} (o : option A) (ok : A → bool) : option A :=
  match o with Some v => if ok v then Some v else None | None => None end.

Definition tolerance_value (s : string) : option F64.t :=
  checked (parseFraction s) (λ v, F64.le F64.zero v && F64.lt v F64.one).
Definition step_value (s : string) : option F64.t :=
  checked (parseFraction s) (λ v, F64.lt F64.zero v && F64.lt v F64.one).
Definition positive_int (s : string) : option Z := checked (Str.Atoi s) (λ v, 0 <? v).
Definition nonneg_int (s : string) : option Z := checked (Str.Atoi s) (λ v, 0 <=? v).

(** A setting keeps its value when its annotation is missing or rejected. *)
Definition setting_value {A} (parse : string → option A) (annotation : option string) (base : A) : A :=
  match annotation with Some s => default base (parse s) | None => base end.

(** Close the goals a field's step leaves. *)
Ltac close_step := repeat (case_goal; simplify_eq/=; try done).

Section scalars.
  Context {KQ : KubeQuantity} {GQ : GoQuote} {GR : GoRange}.

Definition keyed {A} (K : string) (g : string → A → A) (π : Policy → A) : Prop :=
  ∀ st key value, π (ps_out (parse_annotation st (key, value))) =
    if decide (key = AnnotationPrefix +:+ K) then g value (π (ps_out st)) else π (ps_out st).

Lemma tolerance_step : keyed "tolerance" (λ v d, default d (tolerance_value v)) Tolerance.
Proof. unfold tolerance_value, checked. field_step "tolerance"; close_step. Qed.

Lemma step_step : keyed "max-shrink-step" (λ v d, default d (step_value v)) MaxShrinkStep.
Proof. unfold step_value, checked. field_step "max-shrink-step"; close_step. Qed.

Lemma window_step : keyed "window-days" (λ v d, default d (positive_int v)) WindowDays.
Proof. unfold positive_int, checked. field_step "window-days"; close_step. Qed.

Lemma cooldown_step :
  keyed "shrink-cooldown-days" (λ v d, default d (days <$> nonneg_int v)) ShrinkCooldown.
Proof. unfold nonneg_int, checked. field_step "shrink-cooldown-days"; close_step. Qed.

Lemma ttl_step :
  keyed "shrink-pr-ttl-days" (λ v d, default d (days <$> positive_int v)) ShrinkPRTTL.
Proof. unfold positive_int, checked. field_step "shrink-pr-ttl-days"; close_step. Qed.

Lemma grow_step :
  keyed "cooldown-minutes" (λ v d, default d (minutes <$> nonneg_int v)) GrowCooldown.
Proof. unfold nonneg_int, checked. field_step "cooldown-minutes"; close_step. Qed.

Lemma enabled_step : keyed "enabled" (λ v _, negb (String.eqb v "false")) Enabled.
Proof. field_step "enabled"; close_step. Qed.

Lemma shrink_enabled_step :
  keyed "shrink-enabled" (λ v d, d && Str.EqualFold v "true") ShrinkEnabled.
Proof. field_step "shrink-enabled"; close_step; by rewrite ?andb_true_r, ?andb_false_r. Qed.

Lemma out_field {A} (π : Policy → A) annotations base :
  (∀ h p, π (set_headroom h p) = π p) →
  π (ParsePolicy annotations base).1 = π (ps_out (parsed annotations base)).
Proof. intros H. rewrite ParsePolicy_parsed. apply H. Qed.

(** Every scalar setting of the effective policy: the value of its
    annotation when there is one and it is valid, the base value otherwise. An
    annotation with any other key has no effect on it. [shrink-enabled] can only
    switch shrinking off: a namespace cannot turn on what the operator turned
    off, and any value but "true" counts as an opt-out; [enabled] is off for the
    exact text "false" only. *)
Theorem ParsePolicy_scalars (annotations : gmap string string) (base : Policy) :
  let out := (ParsePolicy annotations base).1 in
  let annotation name := annotations !! (AnnotationPrefix +:+ name) in
  Tolerance out = setting_value tolerance_value (annotation "tolerance") (Tolerance base) ∧
  MaxShrinkStep out = setting_value step_value (annotation "max-shrink-step") (MaxShrinkStep base) ∧
  WindowDays out = setting_value positive_int (annotation "window-days") (WindowDays base) ∧
  ShrinkCooldown out = setting_value (λ s, days <$> nonneg_int s)
    (annotation "shrink-cooldown-days") (ShrinkCooldown base) ∧
  ShrinkPRTTL out = setting_value (λ s, days <$> positive_int s)
    (annotation "shrink-pr-ttl-days") (ShrinkPRTTL base) ∧
  GrowCooldown out = setting_value (λ s, minutes <$> nonneg_int s)
    (annotation "cooldown-minutes") (GrowCooldown base) ∧
  Enabled out = match annotation "enabled" with
                | Some s => negb (String.eqb s "false") | None => Enabled base end ∧
  ShrinkEnabled out = match annotation "shrink-enabled" with
                      | Some s => ShrinkEnabled base && Str.EqualFold s "true"
                      | None => ShrinkEnabled base end.
Proof.
  cbv zeta. repeat split; rewrite out_field by done; unfold setting_value.
  - apply (parsed_field _ _ _ _ _ tolerance_step).
  - apply (parsed_field _ _ _ _ _ step_step).
  - apply (parsed_field _ _ _ _ _ window_step).
  - apply (parsed_field _ _ _ _ _ cooldown_step).
  - apply (parsed_field _ _ _ _ _ ttl_step).
  - apply (parsed_field _ _ _ _ _ grow_step).
  - apply (parsed_field _ _ _ _ _ enabled_step).
  - apply (parsed_field _ _ _ _ _ shrink_enabled_step).
Qed.

(** C39. The headroom of a key comes from its headroom annotation, else from its
    deprecated increment, else from its deprecated threshold (as 100/t - 1), else
    from the base policy. This holds whatever order the annotations are visited
    in, provided that no two annotations of the namespace spell the same setting
    (as resizer.io/cpu-headroom and resizer.io/cpuheadroom do); with two that do,
    the order decides ([ParsePolicy_spellings_collide]). *)
Theorem ParsePolicy_precedence (annotations : gmap string string) (base : Policy) (res : string) :
  unambiguous annotations →
  let out := (ParsePolicy annotations base).1 in
  let given s := ∃ v, gives annotations s v in
  (∀ v, gives annotations (SHeadroom res) v → Headroom out !! res = Some v) ∧
  (¬ given (SHeadroom res) →
    (∀ v, gives annotations (SIncrement res) v → Headroom out !! res = Some v) ∧
    (¬ given (SIncrement res) →
      (∀ v, gives annotations (SThreshold res) v → Headroom out !! res = Some v) ∧
      (¬ given (SThreshold res) → Headroom out !! res = Headroom base !! res))).
Proof.
  intros Hun out given. unfold out. rewrite ParsePolicy_parsed. cbn [fst set_headroom Headroom].
  rewrite parsed_headroom, !lookup_union.
  pose proof (slot_parsed annotations base (SHeadroom res) Hun) as [Hh Hh0].
  pose proof (slot_parsed annotations base (SIncrement res) Hun) as [Hi Hi0].
  pose proof (slot_parsed annotations base (SThreshold res) Hun) as [Ht Ht0].
  cbn [slot] in *. split; [intros v Hv; by rewrite (Hh v Hv), union_Some_l|].
  intros Hnh. rewrite Hh0, (left_id_L None (∪)) by (intros v Hv; apply Hnh; by exists v).
  split; [intros v Hv; by rewrite (Hi v Hv), union_Some_l|].
  intros Hni. rewrite Hi0, (left_id_L None (∪)) by (intros v Hv; apply Hni; by exists v).
  split; [intros v Hv; by rewrite (Ht v Hv), union_Some_l|].
  intros Hnt. by rewrite Ht0, (left_id_L None (∪)) by (intros v Hv; apply Hnt; by exists v).
Qed.

(** The ranges that the effective policy stays in. *)
Definition policy_ok (p : Policy) : Prop :=
  map_Forall (λ _, F64Valid.fraction_ok) (Headroom p) ∧
  (F64Valid.valid (Tolerance p) ∧ F64.le F64.zero (Tolerance p) = true ∧
   F64.lt (Tolerance p) F64.one = true) ∧
  (F64Valid.valid (MaxShrinkStep p) ∧ F64.lt F64.zero (MaxShrinkStep p) = true ∧
   F64.lt (MaxShrinkStep p) F64.one = true) ∧
  0 < WindowDays p ∧ in_int64 (WindowDays p) ∧ in_int64 (ShrinkCooldown p) ∧
  in_int64 (ShrinkPRTTL p) ∧ in_int64 (GrowCooldown p).

Definition parse_state_ok (st : parse_state) : Prop :=
  policy_ok (ps_out st) ∧ map_Forall (λ _, F64Valid.fraction_ok) (ps_headroom st) ∧
  map_Forall (λ _, F64Valid.fraction_ok) (ps_increment st) ∧
  map_Forall (λ _, F64Valid.fraction_ok) (ps_threshold st).

Lemma apply_update_ok u ws st :
  parse_state_ok st → update_ok u → parse_state_ok (apply_update u ws st).
Proof.
  intros ((H1 & H2 & H3 & H4 & H5 & H6 & H7 & H8) & Hh & Hi & Ht) Hok.
  assert (Hd : ∀ n, in_int64 (days n)) by (intros; apply wrap64_range).
  assert (Hm : ∀ n, in_int64 (minutes n)) by (intros; apply wrap64_range).
  destruct u; simpl in Hok; try (destruct Hok as (n & ? & ? & ->));
    unfold parse_state_ok, policy_ok; simpl; split_and!; auto; try tauto; by apply map_Forall_insert_2.
Qed.

Lemma DefaultPolicy_ok : policy_ok DefaultPolicy.
Proof.
  split; [apply map_Forall_singleton; split; [|reflexivity]|];
    vm_compute; repeat split; congruence.
Qed.

Lemma ParsePolicy_policy_ok (annotations : gmap string string) (base : Policy) :
  policy_ok base → policy_ok (ParsePolicy annotations base).1.
Proof.
  intros Hb.
  assert (Hst : parse_state_ok (parsed annotations base)).
  { apply parsed_ind; [|intros; by apply apply_update_ok]. by split_and!; [|apply map_Forall_empty..]. }
  destruct Hst as ((H1 & H2 & H3 & H4 & H5 & H6 & H7 & H8) & Hh & Hi & Ht).
  rewrite ParsePolicy_parsed.
  split; [|exact (conj H2 (conj H3 (conj H4 (conj H5 (conj H6 (conj H7 H8))))))].
  cbn [fst set_headroom Headroom]. by repeat apply map_Forall_union_2.
Qed.

(** C38. The effective policy is in range for every set of annotations: headrooms
    are floats that are not negative, the tolerance is in [0, 1), the shrink step
    in (0, 1), the window is positive, durations fit in 64 bits. *)
Theorem ParsePolicy_in_range (annotations : gmap string string) (base : Policy) :
  policy_ok base → policy_ok (ParsePolicy annotations base).1.
Proof. apply ParsePolicy_policy_ok. Qed.
End scalars.

Section order.
  Context {KQ : KubeQuantity} {GQ : GoQuote}.

(** C40. Go leaves the order of the four map loops open. As long as no two annotations
    spell the same setting, every order gives the same policy and the same
    warnings, up to their order. *)
Theorem ParsePolicy_deterministic (R1 R2 : GoRange) (annotations : gmap string string) (base : Policy) :
  unambiguous annotations →
  (@ParsePolicy KQ R1 GQ annotations base).1 = (@ParsePolicy KQ R2 GQ annotations base).1 ∧
  (@ParsePolicy KQ R1 GQ annotations base).2 ≡ₚ (@ParsePolicy KQ R2 GQ annotations base).2.
Proof.
  intros Hun. rewrite !ParsePolicy_parsed. cbn [fst snd].
  destruct (parsed_equiv R1 R2 annotations base Hun) as (Ho & Hh & Hi & Ht & Hw).
  rewrite Ho, Hh, Hi, Ht, Hw. split; [done|]. apply Permutation_app_head.
  by rewrite (range_perm2 R1 R2 2 2 (ps_threshold _)), (range_perm2 R1 R2 3 3 (ps_increment _)).
Qed.
End order.

(** ** Examples *)

Section examples.
  #[local] Existing Instance nano_quantity.
  #[local] Existing Instance plain_quote.

Definition sample_annotations : gmap string string :=
  list_to_map
    [("resizer.io/cpu-headroom", "0.5"); ("resizer.io/cpu-increment", "10%");
     ("resizer.io/memory-increment", "20%"); ("resizer.io/storage-threshold", "80");
     ("resizer.io/tolerance", "0.1"); ("resizer.io/shrink-enabled", "yes")].

Lemma ParsePolicy_precedence_witness :
  unambiguous sample_annotations ∧
  Headroom (@ParsePolicy _ range_ascending _ sample_annotations DefaultPolicy).1 !! "cpu"
    = Some (F64.of_decimal false 5 (-1)).
Proof.
  assert (H : unambiguous sample_annotations) by (apply distinct_settings_spec; vm_compute; reflexivity).
  split; [exact H|].
  apply (proj1 (@ParsePolicy_precedence _ _ range_ascending sample_annotations DefaultPolicy "cpu" H)).
  exists "resizer.io/cpu-headroom", "0.5".
  split; [vm_compute; reflexivity|split; [reflexivity|vm_compute; reflexivity]].
Defined.

Lemma ParsePolicy_deterministic_witness :
  (@ParsePolicy _ range_ascending _ sample_annotations DefaultPolicy).1 =
  (@ParsePolicy _ range_descending _ sample_annotations DefaultPolicy).1.
Proof.
  apply (ParsePolicy_deterministic range_ascending range_descending sample_annotations DefaultPolicy).
  apply distinct_settings_spec. vm_compute. reflexivity.
Defined.

Lemma ParsePolicy_in_range_witness :
  policy_ok (@ParsePolicy _ range_ascending _ sample_annotations DefaultPolicy).1.
Proof. apply ParsePolicy_in_range, DefaultPolicy_ok. Defined.
End examples.

Section limits.
  Context {KQ : KubeQuantity} {GQ : GoQuote}.

(** Two annotations that spell one setting differently make the effective
    headroom depend on the order in which Go visits the map. *)
Theorem ParsePolicy_spellings_collide :
  ∃ annotations : gmap string string,
    Headroom (@ParsePolicy _ range_ascending _ annotations DefaultPolicy).1 !! "cpu" ≠
    Headroom (@ParsePolicy _ range_descending _ annotations DefaultPolicy).1 !! "cpu".
Proof.
  exists (list_to_map [("resizer.io/cpu-headroom", "0.5"); ("resizer.io/cpuheadroom", "0.1")]).
  vm_compute. congruence.
Qed.


(** A cooldown of 200000 days passes the validation without a warning and
    overflows to a negative duration: the cooldown gate then never holds. *)
Theorem ParsePolicy_cooldown_overflows `{GoRange} :
  ParsePolicy {[ "resizer.io/shrink-cooldown-days" := "200000" ]} DefaultPolicy =
    (set_shrink_cooldown (-1166744073709551616) DefaultPolicy, []).
Proof.
  assert (E : parse_annotation (Build_parse_state DefaultPolicy ∅ ∅ ∅ [])
                ("resizer.io/shrink-cooldown-days", "200000") =
              Build_parse_state (set_shrink_cooldown (-1166744073709551616) DefaultPolicy) ∅ ∅ ∅ [])
    by (vm_compute; reflexivity).
  rewrite ParsePolicy_parsed, parsed_unfold, range_singleton. cbn [foldl]. rewrite E.
  cbn [ps_headroom ps_increment ps_threshold ps_out ps_warnings]. by rewrite !range_empty.
Qed.
End limits.
