(* ===== verification/Config.v ===== *)
(** * internal/config/constants.go

    The names of the annotations on a namespace. The parser of the policy does
    not use the constants: it takes the text after the prefix apart. *)

From S2P Require Export PolicyTheorems.
From stdpp Require Export sorting base option gmap strings list fin_maps.

Open Scope Z_scope.

(* go: internal/config/constants.go 4-5 AnnotationEnabled *)
Definition AnnotationEnabled : string := "resizer.io/enabled".
(* go: internal/config/constants.go 7-11 AnnotationCPUThreshold *)
Definition AnnotationCPUThreshold : string := "resizer.io/cpu-threshold".
(* go: internal/config/constants.go 12-16 AnnotationMemoryThreshold *)
Definition AnnotationMemoryThreshold : string := "resizer.io/memory-threshold".
(* go: internal/config/constants.go 17-21 AnnotationStorageThreshold *)
Definition AnnotationStorageThreshold : string := "resizer.io/storage-threshold".
(* go: internal/config/constants.go 23-26 AnnotationCPUIncrement *)
Definition AnnotationCPUIncrement : string := "resizer.io/cpu-increment".
(* go: internal/config/constants.go 27-30 AnnotationMemoryIncrement *)
Definition AnnotationMemoryIncrement : string := "resizer.io/memory-increment".
(* go: internal/config/constants.go 31-34 AnnotationStorageIncrement *)
Definition AnnotationStorageIncrement : string := "resizer.io/storage-increment".
(* go: internal/config/constants.go 36-37 AnnotationCPUHeadroom *)
Definition AnnotationCPUHeadroom : string := "resizer.io/cpu-headroom".
(* go: internal/config/constants.go 38-39 AnnotationMemoryHeadroom *)
Definition AnnotationMemoryHeadroom : string := "resizer.io/memory-headroom".
(* go: internal/config/constants.go 40-41 AnnotationStorageHeadroom *)
Definition AnnotationStorageHeadroom : string := "resizer.io/storage-headroom".
(* go: internal/config/constants.go 43-44 AnnotationTolerance *)
Definition AnnotationTolerance : string := "resizer.io/tolerance".
(* go: internal/config/constants.go 45-46 AnnotationWindowDays *)
Definition AnnotationWindowDays : string := "resizer.io/window-days".
(* go: internal/config/constants.go 47-48 AnnotationShrinkCooldownDays *)
Definition AnnotationShrinkCooldownDays : string := "resizer.io/shrink-cooldown-days".
(* go: internal/config/constants.go 49-50 AnnotationMaxShrinkStep *)
Definition AnnotationMaxShrinkStep : string := "resizer.io/max-shrink-step".
(* go: internal/config/constants.go 51-52 AnnotationShrinkPRTTLDays *)
Definition AnnotationShrinkPRTTLDays : string := "resizer.io/shrink-pr-ttl-days".
(* go: internal/config/constants.go 53-55 AnnotationShrinkEnabled *)
Definition AnnotationShrinkEnabled : string := "resizer.io/shrink-enabled".
(* go: internal/config/constants.go 57-59 AnnotationAutoMerge *)
Definition AnnotationAutoMerge : string := "resizer.io/auto-merge".

(** ** The documented annotations

    Each annotation is read by the parser of the policy, and changes the field
    that its comment promises. *)

Section documented.
#[local] Existing Instances nano_quantity plain_quote range_ascending.

Definition with_headroom (family : string) (h : F64.t) : Policy :=
  set_headroom (<[family := h]> (Headroom DefaultPolicy)) DefaultPolicy.

(** A setting of every annotation that the parser reads, and the policy that it
    should give. One annotation alone is visited in one order only. *)
Definition documented : list (string * string * Policy) :=
  let d := F64.of_decimal false in
  [(AnnotationEnabled, "false", set_enabled false DefaultPolicy);
   (AnnotationCPUThreshold, "80", with_headroom "cpu" (d 25 (-2)));
   (AnnotationMemoryThreshold, "50", with_headroom "memory" (d 1 0));
   (AnnotationStorageThreshold, "80", with_headroom "storage" (d 25 (-2)));
   (AnnotationCPUIncrement, "10%", with_headroom "cpu" (d 1 (-1)));
   (AnnotationMemoryIncrement, "0.5", with_headroom "memory" (d 5 (-1)));
   (AnnotationStorageIncrement, "20%", with_headroom "storage" (d 2 (-1)));
   (AnnotationCPUHeadroom, "0.25", with_headroom "cpu" (d 25 (-2)));
   (AnnotationMemoryHeadroom, "25%", with_headroom "memory" (d 25 (-2)));
   (AnnotationStorageHeadroom, "2", with_headroom "storage" (d 2 0));
   (AnnotationTolerance, "0.3", set_tolerance (d 3 (-1)) DefaultPolicy);
   (AnnotationWindowDays, "30", set_window_days 30 DefaultPolicy);
   (AnnotationShrinkCooldownDays, "3", set_shrink_cooldown (3 * 24 * Time.Hour) DefaultPolicy);
   (AnnotationMaxShrinkStep, "50%", set_max_shrink_step (d 5 (-1)) DefaultPolicy);
   (AnnotationShrinkPRTTLDays, "2", set_shrink_pr_ttl (2 * 24 * Time.Hour) DefaultPolicy);
   (AnnotationShrinkEnabled, "false", set_shrink_enabled false DefaultPolicy)].

(** Every annotation does what its comment says. *)
Theorem documented_annotations_understood :
  Forall (λ '(name, value, policy), (ParsePolicy {[ name := value ]} DefaultPolicy).1 = policy) documented.
Proof. unfold documented. rewrite !Forall_cons, Forall_nil. by repeat split. Qed.

(** Automatic merging is not part of the policy: the parser passes it over
    without a warning, and the reconciler reads it itself. *)
Lemma auto_merge_not_a_policy :
  (ParsePolicy {[ AnnotationAutoMerge := "true" ]} DefaultPolicy).1 = DefaultPolicy ∧
  (ParsePolicy {[ AnnotationAutoMerge := "true" ]} DefaultPolicy).2 = [].
Proof. by split. Qed.

End documented.
