(* ===== verification/Window.v ===== *)
(** * internal/sizing/window.go

    The rolling observation window: one bucket per day with the highest usage of
    every resource and what is needed to judge whether the day was observed
    continuously. [Observe] folds one sample in, [Peak] and [IsComplete] read
    the completed days.

    A nil and an empty [Days] are one list here: the code takes lengths and
    ranges only. The map of a bucket is [None] when it is nil. *)

From S2P Require Export Policy.
From stdpp Require Export sorting base option gmap strings list fin_maps.

Open Scope Z_scope.

Section window.
  Context {KQ : KubeQuantity} {GR : GoRange}.

(* go: internal/sizing/window.go 14-16 WindowVersion *)
Definition WindowVersion : Z := 1.

(* go: internal/sizing/window.go 18-29 dayCoverageMaxGap *)
Definition dayCoverageMaxGap : Z := Time.Hour.
(* go: internal/sizing/window.go 18-29 coverageFirstBy *)
Definition coverageFirstBy : string := "00:30".
(* go: internal/sizing/window.go 18-29 coverageLastBy *)
Definition coverageLastBy : string := "23:30".

(* go: internal/sizing/window.go 31-40 DayBucket *)
Record DayBucket := {
  Date : string;
  N : Z;
  First : string;
  Last : string;
  MaxGap : string;
  Peaks : option (gmap string string)
}.

(* go: internal/sizing/window.go 42-49 Window *)
Record Window := {
  Version : Z;
  UID : string;
  LastSampleAt : string;
  LastWriteAt : string;
  Days : list DayBucket
}.

(** [Window{Version: WindowVersion}]. *)
Definition empty_window : Window :=
  {| Version := WindowVersion; UID := ""; LastSampleAt := ""; LastWriteAt := ""; Days := [] |}.

(** Reading a nil map finds nothing. *)
Definition peak_of (b : DayBucket) (res : string) : option string :=
  match Peaks b with Some m => m !! res | None => None end.

(* go: internal/sizing/window.go 79-90 hasDuplicateDates *)
Fixpoint has_duplicates (seen : gset string) (days : list DayBucket) : bool :=
  match days with
  | [] => false
  | bucket :: days =>
      if bool_decide (Date bucket ∈ seen) then true
      else has_duplicates ({[ Date bucket ]} ∪ seen) days
  end.
(* go: internal/sizing/window.go 79-90 hasDuplicateDates *)
Definition hasDuplicateDates (days : list DayBucket) : bool := has_duplicates ∅ days.

(* go: internal/sizing/window.go 282-295 parseGap *)
Definition parseGap (raw : string) : option Z :=
  if String.eqb raw "" then Some 0 else Time.ParseDuration raw.

(* go: internal/sizing/window.go 239-251 covered *)
Definition covered (b : DayBucket) : bool :=
  if String.eqb (First b) "" || String.eqb (Last b) "" then false
  else match parseGap (MaxGap b) with
       | None => false
       | Some gap =>
           if dayCoverageMaxGap <? gap then false
           else Str.leb (First b) coverageFirstBy && Str.leb coverageLastBy (Last b)
       end.

(** [now.UTC().AddDate(0, 0, -windowDays).Format(dateLayout)]: the negation wraps
    around. *)
Definition oldest_date (now windowDays : Z) : string :=
  Time.FormatDate (Time.AddDays now (wrap64 (- windowDays))).

(** The buckets that [prune] keeps: not in the future, not before the window. *)
(* go: internal/sizing/window.go 260-265 prune *)
Definition in_window (now windowDays : Z) (b : DayBucket) : Prop :=
  ¬ (Str.ltb (Time.FormatDate now) (Date b) || Str.ltb (Date b) (oldest_date now windowDays) = true).

#[export] Instance in_window_dec now windowDays b : Decision (in_window now windowDays b).
Proof. unfold in_window. apply _. Defined.

(* go: internal/sizing/window.go 253-271 prune *)
Definition prune (w : Window) (now windowDays : Z) : Window * bool :=
  let kept := filter (in_window now windowDays) (Days w) in
  if (length kept =? length (Days w))%nat then (w, false)
  else ({| Version := Version w; UID := UID w; LastSampleAt := LastSampleAt w;
           LastWriteAt := LastWriteAt w; Days := kept |}, true).

(** The index of the first bucket of a date; [None] is the code's -1. *)
(* go: internal/sizing/window.go 273-280 indexOf *)
Definition indexOf (days : list DayBucket) (date : string) : option nat :=
  fst <$> list_find (λ b, Date b = date) days.

(** The body of the loop over [usedList]. *)
(* go: internal/sizing/window.go 153-166 Observe *)
Definition observe_peak (acc : gmap string string * bool) (kv : string * Quantity)
    : gmap string string * bool :=
  let '(peaks, changed) := acc in
  let '(key, qty) := kv in
  match peaks !! key with
  | None => (<[key := QString qty]> peaks, true)
  | Some previous =>
      match ParseQuantity previous with
      | None => (<[key := QString qty]> peaks, true)
      | Some parsed => if q_gt qty parsed then (<[key := QString qty]> peaks, true) else acc
      end
  end.

(** The gap of a bucket after a sample at [stamp]. *)
(* go: internal/sizing/window.go 138-148 Observe *)
Definition observe_gap (lastSampleAt : string) (stamp : Z) (maxGap : string) : string :=
  match Time.ParseRFC3339 lastSampleAt with
  | None => maxGap
  | Some last =>
      let gap := Time.Sub stamp last in
      match parseGap maxGap with
      | Some previous =>
          if previous <? gap then Time.DurationString (Time.Truncate gap Time.Second) else maxGap
      | None => maxGap
      end
  end.

(* go: internal/sizing/window.go 102-169 Observe *)
Definition Observe (w : Window) (now : Z) (uid : string) (usedList : gmap string Quantity)
    (windowDays : Z) : Window * bool :=
  let w := if negb (String.eqb (UID w) "") && negb (String.eqb (UID w) uid) then empty_window else w in
  let w := {| Version := WindowVersion; UID := uid; LastSampleAt := LastSampleAt w;
              LastWriteAt := LastWriteAt w; Days := Days w |} in
  let '(w, changed) := prune w now windowDays in
  let today := Time.FormatDate now in
  let '(days, idx, changed) :=
    match indexOf (Days w) today with
    | Some idx => (Days w, idx, changed)
    | None =>
        (Days w ++ [{| Date := today; N := 0; First := Time.FormatClock now; Last := "";
                       MaxGap := ""; Peaks := Some ∅ |}], length (Days w), true)
    end in
  match days !! idx with
  | None => (w, changed) (* not reached: idx is in range *)
  | Some bucket =>
      let '(peaks, changed) :=
        foldl observe_peak (default ∅ (Peaks bucket), changed) (range 7 usedList) in
      let bucket := {| Date := Date bucket; N := wrap64 (N bucket + 1); First := First bucket;
                       Last := Time.FormatClock now;
                       MaxGap := observe_gap (LastSampleAt w) now (MaxGap bucket);
                       Peaks := Some peaks |} in
      ({| Version := Version w; UID := UID w; LastSampleAt := Time.FormatRFC3339 now;
          LastWriteAt := LastWriteAt w; Days := <[idx := bucket]> days |}, changed)
  end.

(** ** Reading the window *)

(* go: internal/sizing/decide.go 14-20 maxMilliValue *)
Definition maxMilliValue : Z := max_int64 / 1000.

(* go: internal/sizing/decide.go 22-56 overflowsMilliValue *)
Definition overflowsMilliValue (q : Quantity) : bool :=
  q_gt q (NewQuantity maxMilliValue DecimalSI) || (QSign q <? 0).

(** The body of the loop of [Peak]; [None] is [found = false]. *)
(* go: internal/sizing/window.go 181-206 Peak *)
Definition peak_step (res today oldest : string) (best : option Z) (bucket : DayBucket) : option Z :=
  if Str.leb today (Date bucket) || Str.ltb (Date bucket) oldest then best else
  match peak_of bucket res with
  | None => best
  | Some raw =>
      match ParseQuantity raw with
      | None => best
      | Some qty =>
          if overflowsMilliValue qty then best else
          let milli := MilliValue qty in
          match best with
          | None => Some milli
          | Some b => if b <? milli then Some milli else best
          end
      end
  end.

(* go: internal/sizing/window.go 171-208 Peak *)
Definition Peak (w : Window) (res : string) (now windowDays : Z) : option Z :=
  foldl (peak_step res (Time.FormatDate now) (oldest_date now windowDays)) None (Days w).

(** The bucket of every date; the last one wins. *)
(* go: internal/sizing/window.go 213-216 IsComplete *)
Definition by_date (days : list DayBucket) : gmap string DayBucket :=
  foldl (λ m b, <[Date b := b]> m) ∅ days.

(* go: internal/sizing/window.go 218-235 IsComplete *)
Definition complete_day (m : gmap string DayBucket) (res : string) (now i : Z) : bool :=
  match m !! Time.FormatDate (Time.AddDays now (- i)) with
  | None => false
  | Some bucket =>
      if negb (covered bucket) then false
      else match peak_of bucket res with
           | None => false
           | Some raw => match ParseQuantity raw with Some _ => true | None => false end
           end
  end.

(* go: internal/sizing/window.go 210-237 IsComplete *)
Definition IsComplete (w : Window) (res : string) (now windowDays : Z) : bool :=
  forallb (complete_day (by_date (Days w)) res now) (seqZ 1 windowDays).

End window.
