(* ===== verification/WindowFacts.v ===== *)
(** * Properties of the observation window

    What one [Observe] does to the buckets, and what a sequence of samples
    leaves in them. *)

From S2P Require Export Window GoTimeFacts.
From stdpp Require Export sorting base option gmap strings list fin_maps.

Open Scope Z_scope.

Section facts.
  Context {KQ : KubeQuantity}.

(** ** The loop over the sample *)

(** The text a peak has after a sample, and whether the sample replaces it. *)
Definition replaces (previous : option string) (qty : Quantity) : bool :=
  match previous with
  | None => true
  | Some p => match ParseQuantity p with None => true | Some parsed => q_gt qty parsed end
  end.

Definition raised (previous : option string) (qty : Quantity) : string :=
  if replaces previous qty then QString qty else default "" previous.

Lemma observe_peak_eq peaks changed key qty :
  observe_peak (peaks, changed) (key, qty) =
    if replaces (peaks !! key) qty then (<[key := raised (peaks !! key) qty]> peaks, true)
    else (peaks, changed).
Proof.
  unfold observe_peak, raised, replaces. destruct (peaks !! key) as [p|]; [|done].
  destruct (ParseQuantity p) as [parsed|]; [|done]. by destruct (q_gt qty parsed).
Qed.

Lemma observe_peaks_lookup l peaks changed k :
  NoDup l.*1 →
  (foldl observe_peak (peaks, changed) l).1 !! k =
    match (list_to_map l : gmap string Quantity) !! k with
    | Some qty => Some (raised (peaks !! k) qty)
    | None => peaks !! k
    end.
Proof.
  revert peaks changed. induction l as [|[key qty] l IH]; intros peaks changed Hnd.
  { simpl. by rewrite lookup_empty. }
  rewrite fmap_cons in Hnd. apply NoDup_cons in Hnd as [Hni Hnd]. cbn [foldl list_to_map foldr fst snd].
  rewrite observe_peak_eq. destruct (decide (k = key)) as [->|Hne].
  - rewrite lookup_insert_eq.
    assert (Hl : (list_to_map l : gmap string Quantity) !! key = None) by by apply not_elem_of_list_to_map_1.
    destruct (replaces (peaks !! key) qty) eqn:E; rewrite IH, Hl by done.
    + by rewrite lookup_insert_eq.
    + unfold raised. rewrite E. destruct (peaks !! key); [done|discriminate].
  - rewrite lookup_insert_ne by done.
    destruct (replaces (peaks !! key) qty); rewrite IH by done; [|done].
    by rewrite lookup_insert_ne.
Qed.

Lemma observe_peaks_changed l peaks changed :
  NoDup l.*1 →
  (foldl observe_peak (peaks, changed) l).2 =
    changed || existsb (λ kv, replaces (peaks !! kv.1) kv.2) l.
Proof.
  revert peaks changed. induction l as [|[key qty] l IH]; intros peaks changed Hnd.
  { simpl. by rewrite orb_false_r. }
  rewrite fmap_cons in Hnd. apply NoDup_cons in Hnd as [Hni Hnd]. cbn [foldl existsb fst snd].
  rewrite observe_peak_eq. destruct (replaces (peaks !! key) qty); rewrite IH by done; [|done].
  by rewrite orb_true_r.
Qed.

Lemma observe_peaks_same l peaks changed :
  NoDup l.*1 → existsb (λ kv, replaces (peaks !! kv.1) kv.2) l = false →
  (foldl observe_peak (peaks, changed) l).1 = peaks.
Proof.
  revert peaks changed. induction l as [|[key qty] l IH]; intros peaks changed Hnd Hex; [done|].
  rewrite fmap_cons in Hnd. apply NoDup_cons in Hnd as [_ Hnd]. cbn [foldl existsb fst snd] in *.
  apply orb_false_iff in Hex as [Hr Hex]. rewrite observe_peak_eq, Hr. by apply IH.
Qed.

(** ** The buckets after a sample *)

Lemma filter_id {A} (P : A → Prop) `{∀ x, Decision (P x)} (l : list A) :
  (∀ x, x ∈ l → P x) → filter P l = l.
Proof.
  induction l as [|x l IH]; intros H'; [done|].
  rewrite filter_cons, decide_True by (apply H', list_elem_of_here). f_equal. apply IH.
  intros y Hy. by apply H', list_elem_of_further.
Qed.

Lemma filter_length_same {A} (P : A → Prop) `{∀ x, Decision (P x)} (l : list A) :
  length (filter P l) = length l → filter P l = l.
Proof.
  intros Hl. induction l as [|x l IH]; [done|]. rewrite filter_cons in *.
  destruct (decide (P x)); simpl in *.
  - f_equal. apply IH. lia.
  - pose proof (length_filter P l). lia.
Qed.

Lemma prune_eq w now windowDays :
  prune w now windowDays =
    ({| Version := Version w; UID := UID w; LastSampleAt := LastSampleAt w;
        LastWriteAt := LastWriteAt w; Days := filter (in_window now windowDays) (Days w) |},
     negb (length (filter (in_window now windowDays) (Days w)) =? length (Days w))%nat).
Proof.
  unfold prune.
  destruct (Nat.eqb_spec (length (filter (in_window now windowDays) (Days w))) (length (Days w))) as [He|]; [|done].
  rewrite (filter_length_same _ _ He). by destruct w.
Qed.

(** A window that starts over when the quota was recreated. *)
Definition reset (w : Window) (uid : string) : Window :=
  if negb (String.eqb (UID w) "") && negb (String.eqb (UID w) uid) then empty_window else w.

Definition fresh_bucket (now : Z) : DayBucket :=
  {| Date := Time.FormatDate now; Window.N := 0; First := Time.FormatClock now; Last := ""; MaxGap := "";
     Peaks := Some ∅ |}.

Section observe.
  Context {GR : GoRange} (w : Window) (now : Z) (uid : string) (used : gmap string Quantity) (wd : Z).

Definition kept : list DayBucket := filter (in_window now wd) (Days (reset w uid)).

Definition current : DayBucket :=
  default (fresh_bucket now) (snd <$> list_find (λ b, Date b = Time.FormatDate now) kept).

Definition fold_sample : gmap string string * bool :=
  foldl observe_peak (default ∅ (Peaks current), false) (range 7 used).

Definition updated : DayBucket :=
  {| Date := Time.FormatDate now; Window.N := wrap64 (Window.N current + 1); First := First current;
     Last := Time.FormatClock now;
     MaxGap := observe_gap (LastSampleAt (reset w uid)) now (MaxGap current);
     Peaks := Some fold_sample.1 |}.

Lemma fold_changed peaks changed l :
  NoDup l.*1 →
  foldl observe_peak (peaks, changed) l =
    ((foldl observe_peak (peaks, false) l).1, changed || (foldl observe_peak (peaks, false) l).2).
Proof.
  intros Hnd. rewrite (surjective_pairing (foldl observe_peak (peaks, changed) l)).
  rewrite !observe_peaks_changed by done. f_equal. apply map_eq. intros k.
  by rewrite !observe_peaks_lookup.
Qed.

Lemma current_date : Date current = Time.FormatDate now.
Proof.
  unfold current. destruct (list_find _ kept) as [[i b]|] eqn:E; [|done].
  apply list_find_Some in E. simpl. tauto.
Qed.

(** [Observe] in terms of the pieces above. *)
Lemma Observe_eq :
  Observe w now uid used wd =
    ({| Version := WindowVersion; UID := uid; LastSampleAt := Time.FormatRFC3339 now;
        LastWriteAt := LastWriteAt (reset w uid);
        Days := match list_find (λ b, Date b = Time.FormatDate now) kept with
                | Some (i, _) => <[i := updated]> kept
                | None => kept ++ [updated]
                end |},
     negb (length kept =? length (Days (reset w uid)))%nat ||
     match list_find (λ b, Date b = Time.FormatDate now) kept with Some _ => false | None => true end ||
     fold_sample.2).
Proof.
  pose proof current_date as Hd. unfold updated, fold_sample, current in *.
  unfold Observe. fold (reset w uid). rewrite prune_eq. cbn [Version UID LastSampleAt LastWriteAt Days].
  fold kept. unfold indexOf.
  destruct (list_find _ kept) as [[i b]|] eqn:E; cbn [fmap option_fmap option_map fst snd default] in *.
  - apply list_find_Some in E as (Hb & _ & _). rewrite Hb.
    rewrite fold_changed by apply range_nodup. unfold id in *. rewrite Hd.
    by rewrite orb_false_r.
  - rewrite lookup_app_r, Nat.sub_diag by lia. cbn [lookup list_lookup].
    rewrite fold_changed by apply range_nodup. unfold fresh_bucket, id; cbn [Date Window.N First Last MaxGap Peaks].
    rewrite insert_app_r_alt, Nat.sub_diag by lia. by rewrite orb_true_r.
Qed.
End observe.


(** ** The buckets as a set keyed by date *)

Lemma upsert_perm {A} (f : A → string) (t : string) (x : A) (l : list A) :
  NoDup (f <$> l) → f x = t →
  match list_find (λ b, f b = t) l with
  | Some (i, _) => <[i := x]> l
  | None => l ++ [x]
  end ≡ₚ x :: filter (λ b, f b ≠ t) l.
Proof.
  intros Hnd Hx. induction l as [|y l IH]; [done|].
  rewrite fmap_cons in Hnd. apply NoDup_cons in Hnd as [Hni Hnd]. simpl.
  destruct (decide (f y = t)) as [Heq|Hne].
  - rewrite filter_cons, decide_False by tauto. simpl.
    rewrite filter_id; [done|]. intros z Hz Hzt. apply Hni. rewrite Heq, <- Hzt.
    by apply list_elem_of_fmap_2.
  - rewrite filter_cons, decide_True by done. specialize (IH Hnd).
    destruct (list_find _ l) as [[i b]|]; simpl; rewrite IH; constructor.
Qed.

Lemma dates_nodup_filter (P : DayBucket → Prop) `{∀ x, Decision (P x)} l :
  NoDup (Date <$> l) → NoDup (Date <$> filter P l).
Proof. intros Hnd. eapply sublist_NoDup; [exact Hnd|]. apply fmap_sublist, sublist_filter. Qed.

(** The dates of a window are distinct. *)
Definition window_ok (w : Window) : Prop := NoDup (Date <$> Days w).

Lemma reset_ok w uid : window_ok w → window_ok (reset w uid).
Proof. intros Hw. unfold reset. destruct (_ && _); [constructor|done]. Qed.

Lemma Observe_days `{GoRange} w now uid used wd :
  window_ok w →
  Days (Observe w now uid used wd).1 ≡ₚ
    updated w now uid used wd ::
    filter (λ b, Date b ≠ Time.FormatDate now) (kept w now uid wd).
Proof.
  intros Hw. rewrite Observe_eq. cbn [fst Days].
  apply (upsert_perm Date); [|done]. apply dates_nodup_filter. by apply reset_ok.
Qed.

Lemma Observe_ok `{GoRange} w now uid used wd :
  window_ok w → window_ok (Observe w now uid used wd).1.
Proof.
  intros Hw. unfold window_ok. rewrite Observe_days by done. rewrite fmap_cons. constructor.
  - intros (b & Hd & [Hb _]%list_elem_of_filter)%list_elem_of_fmap. by apply Hb.
  - by apply dates_nodup_filter, dates_nodup_filter, reset_ok.
Qed.

Lemma elem_of_Observe `{GoRange} w now uid used wd b :
  window_ok w →
  b ∈ Days (Observe w now uid used wd).1 ↔
    b = updated w now uid used wd ∨
    (b ∈ Days (reset w uid) ∧ in_window now wd b ∧ Date b ≠ Time.FormatDate now).
Proof.
  intros Hw. rewrite Observe_days, elem_of_cons by done. unfold kept.
  rewrite !list_elem_of_filter. tauto.
Qed.

(** ** The values a bucket records *)

Context {QL : QuantityLaws KQ}.

Definition recorded (b : DayBucket) (res : string) : option Z :=
  raw ← peak_of b res; nano <$> ParseQuantity raw.

Definition max_opt (o : option Z) (v : Z) : Z := match o with Some u => Z.max u v | None => v end.

Lemma recorded_raised o q raw :
  raw = raised o q →
  nano <$> ParseQuantity raw = Some (max_opt (p ← o; nano <$> ParseQuantity p) (nano q)).
Proof.
  intros ->. unfold raised, replaces. destruct (parse_string q) as (q' & Hq & Hn).
  destruct o as [p|]; simpl; [|by rewrite Hq; simpl; rewrite Hn].
  destruct (ParseQuantity p) as [parsed|] eqn:Hp; simpl; [|by rewrite Hq; simpl; rewrite Hn].
  rewrite q_gt_nano. destruct (Z.ltb_spec (nano parsed) (nano q)); simpl.
  - rewrite Hq. simpl. rewrite Hn. f_equal. lia.
  - rewrite Hp. simpl. f_equal. lia.
Qed.

(** What the bucket of today records after a sample: the maximum of what it
    recorded and what the sample says. *)
Lemma recorded_updated `{GoRange} w now uid used wd res :
  recorded (updated w now uid used wd) res =
    match used !! res with
    | Some q => Some (max_opt (recorded (current w now uid wd) res) (nano q))
    | None => recorded (current w now uid wd) res
    end.
Proof.
  unfold recorded at 1, peak_of. cbn [updated Peaks]. unfold fold_sample.
  rewrite observe_peaks_lookup by apply range_nodup.
  assert ((list_to_map (range 7 used) : gmap string Quantity) = used) as ->.
  { apply map_eq. intros k. apply option_eq. intros v.
    rewrite <- elem_of_list_to_map by apply range_nodup. apply elem_of_range. }
  assert (Hp : default ∅ (Peaks (current w now uid wd)) !! res = peak_of (current w now uid wd) res).
  { unfold peak_of. by destruct (Peaks _). }
  rewrite Hp. destruct (used !! res) as [q|]; [|done].
  cbn [mbind option_bind]. by apply recorded_raised.
Qed.

End facts.
