(* ===== verification/WindowHistory.v ===== *)
(** * What a history of samples leaves in the window

    The window after a chronological sequence of samples, by induction on the
    sequence: every bucket describes the samples of its day. The theorems on a
    complete window follow. *)

From S2P Require Export WindowFacts.
From stdpp Require Export sorting base option gmap strings list fin_maps.

Open Scope Z_scope.

Section gap.
  Context {KQ : KubeQuantity}.

Lemma rem_split x : 0 <= x → ∃ n, 0 <= n ∧ Time.Truncate x Time.Second = n * Time.Second ∧
  n * Time.Second <= x < n * Time.Second + Time.Second.
Proof.
  intros Hx. exists (x / Time.Second). unfold Time.Truncate. rewrite Z.rem_mod_nonneg by (unfold Time.Second; lia).
  unfold Time.Second. lia.
Qed.

Lemma DurationString_nonempty d : 0 <= d → Time.DurationString d ≠ "".
Proof.
  intros Hd. unfold Time.DurationString. destruct (Z.ltb_spec d 0); [lia|].
  unfold Time.seconds_string. repeat case_match; apply TimeFacts.dec_app_ne.
Qed.

(** A sample at [t] after one at [last] makes the recorded gap cover both the
    earlier gaps and the new one, to the second. *)
Lemma observe_gap_spec last t g n :
  TimeFacts.day_in_range (Time.day_of last) → last <= t →
  0 <= n → parseGap g = Some (n * Time.Second) →
  ∃ n', n <= n' ∧
    parseGap (observe_gap (Time.FormatRFC3339 last) t g) = Some (n' * Time.Second) ∧
    (n' * Time.Second <= Time.Hour → t - last < n' * Time.Second + Time.Second).
Proof.
  intros Hr Hle Hn Hg. unfold observe_gap. rewrite TimeFacts.parse_format_rfc3339 by done. rewrite Hg.
  set (gap := Time.Sub t (last - last mod Time.Second)).
  assert (Hgap : 0 <= gap <= max_int64 ∧ (t - last <= gap ∨ gap = max_int64)).
  { unfold gap, Time.Sub. assert (0 <= last mod Time.Second < Time.Second) by (apply Z.mod_pos_bound; done).
    lia64. }
  destruct (Z.ltb_spec (n * Time.Second) gap) as [Hlt|Hge].
  - destruct (rem_split gap) as (m & Hm & -> & Hb); [lia|]. exists m.
    split; [unfold Time.Second in *; lia|]. split.
    + unfold parseGap. rewrite (proj2 (String.eqb_neq _ _)).
      * apply TimeFacts.parse_duration_string; lia.
      * apply DurationString_nonempty. unfold Time.Second in *. lia.
    + intros Hh. destruct Hgap as [_ [Hc|Hc]]; [lia|].
      unfold Time.Hour, Time.Minute, Time.Second in *. lia64.
  - exists n. split; [lia|]. split; [done|]. intros Hh. destruct Hgap as [_ [Hc|Hc]].
    + unfold Time.Second in *. lia.
    + unfold Time.Hour, Time.Minute, Time.Second in *. lia64.
Qed.
End gap.

Section history.
  Context {KQ : KubeQuantity} {QL : QuantityLaws KQ} {GR : GoRange} (uid : string) (wd : Z).

(** A sample: when it was taken and the usage it saw. *)
Definition sample : Type := Z * gmap string Quantity.

(** The window after a sequence of samples of one quota. *)
Definition observe_all (w : Window) (samples : list sample) : Window :=
  foldl (λ w s, (Observe w s.1 uid s.2 wd).1) w samples.

(** Samples in the order they were taken, in years 1 to 9999, with the whole
    window inside these years. *)
Definition samples_ok (samples : list sample) : Prop :=
  StronglySorted (λ s1 s2, s1.1 <= s2.1) samples ∧
  Forall (λ s, 0 <= wd <= Time.day_of s.1 ∧ Time.day_of s.1 < 3652059) samples.

Definition on_day (d : Z) (samples : list sample) : list sample :=
  filter (λ s, Time.day_of s.1 = d) samples.

(** The highest usage of a resource in a list of samples, in nano-units. *)
Definition highest_step (res : string) (o : option Z) (s : sample) : option Z :=
  match s.2 !! res with Some q => Some (max_opt o (nano q)) | None => o end.
Definition highest (res : string) (samples : list sample) : option Z :=
  foldl (highest_step res) None samples.

Definition adjacent (s1 s2 : sample) (samples : list sample) : Prop :=
  ∃ l1 l2, samples = l1 ++ s1 :: s2 :: l2.

Record bucket_history (samples : list sample) (d : Z) (b : DayBucket) : Prop := {
  bh_range : 0 <= d < 3652059;
  bh_date : Date b = Time.date_string d;
  bh_first : First b = default "" ((λ s, Time.FormatClock s.1) <$> head (on_day d samples));
  bh_last : Last b = default "" ((λ s, Time.FormatClock s.1) <$> last (on_day d samples));
  bh_some : on_day d samples ≠ [];
  bh_gap : ∃ n, 0 <= n ∧ parseGap (MaxGap b) = Some (n * Time.Second) ∧
    (n * Time.Second <= Time.Hour →
      ∀ s1 s2, adjacent s1 s2 samples → Time.day_of s2.1 = d →
        s2.1 - s1.1 < n * Time.Second + Time.Second);
  bh_values : ∀ res, recorded b res = highest res (on_day d samples)
}.

Record window_history (samples : list sample) (w : Window) : Prop := {
  wh_uid : UID w = "" ∨ UID w = uid;
  wh_last : LastSampleAt w = default "" ((λ s, Time.FormatRFC3339 s.1) <$> last samples);
  wh_ok : window_ok w;
  wh_days : ∀ b, b ∈ Days w → ∃ d, bucket_history samples d b;
  wh_today : ∀ s, last samples = Some s → ∃ b, b ∈ Days w ∧ Date b = Time.FormatDate s.1
}.

Lemma reset_same w : UID w = "" ∨ UID w = uid → reset w uid = w.
Proof.
  unfold reset. intros [-> | ->]; [done|]. destruct (String.eqb_spec uid ""); [done|].
  by rewrite String.eqb_refl.
Qed.

Lemma on_day_snoc d samples s :
  on_day d (samples ++ [s]) = on_day d samples ++ (if decide (Time.day_of s.1 = d) then [s] else []).
Proof. unfold on_day. rewrite filter_app. done. Qed.

Lemma adjacent_snoc s1 s2 samples s :
  adjacent s1 s2 (samples ++ [s]) → adjacent s1 s2 samples ∨ (s2 = s ∧ last samples = Some s1).
Proof.
  intros (l1 & l2 & E). destruct l2 as [|x l2 _] using rev_ind.
  - replace (l1 ++ [s1; s2]) with ((l1 ++ [s1]) ++ [s2]) in E by by rewrite <- app_assoc.
    apply app_inj_2 in E as [-> [= ->]]; [|done]. right. by rewrite last_snoc.
  - left. exists l1, l2. rewrite 2!app_comm_cons, app_assoc in E.
    by apply app_inj_2 in E as [-> _].
Qed.

Lemma samples_ok_snoc samples s :
  samples_ok (samples ++ [s]) →
  samples_ok samples ∧ (∀ s', s' ∈ samples → s'.1 <= s.1) ∧
  0 <= wd <= Time.day_of s.1 ∧ Time.day_of s.1 < 3652059.
Proof.
  intros [Hs Hf]. apply Forall_app in Hf as [Hf Hl]. apply Forall_inv in Hl. split.
  { split; [by eapply StronglySorted_app_1_l|done]. }
  split; [|exact Hl]. intros s' Hin. eapply (StronglySorted_app_1_elem_of _ _ _ s' s Hs); [done|].
  apply list_elem_of_here.
Qed.

Lemma day_mono t u : t <= u → Time.day_of t <= Time.day_of u.
Proof. intros H. apply Z.div_le_mono; [done|lia]. Qed.

Lemma FormatDate_inj t d :
  0 <= Time.day_of t < 3652059 → 0 <= d < 3652059 → Time.date_string d = Time.FormatDate t → d = Time.day_of t.
Proof. intros. apply TimeFacts.date_string_inj; [by apply TimeFacts.day_in_range_years..|done]. Qed.

Lemma oldest_day now :
  0 <= wd → Time.day_of now < 3652059 → wd <= Time.day_of now →
  oldest_date now wd = Time.date_string (Time.day_of now - wd).
Proof.
  intros. unfold oldest_date, Time.FormatDate, Time.AddDays. f_equal. rewrite wrap64_id by lia64.
  unfold Time.day_of in *. change Time.Day with 86400000000000 in *. lia.
Qed.

(** A bucket of today is never pruned. *)
Lemma today_in_window now b :
  0 <= wd → Time.day_of now < 3652059 → wd <= Time.day_of now →
  Date b = Time.FormatDate now → in_window now wd b.
Proof.
  intros H1 H2 H3 Hd. unfold in_window. rewrite Hd, oldest_day by done. unfold Time.FormatDate.
  rewrite !TimeFacts.date_string_ltb by (apply TimeFacts.day_in_range_years; lia).
  rewrite !(proj2 (Z.ltb_ge _ _)) by lia. done.
Qed.

(** If a sample was taken on the day of the next one, so was the last sample. *)
Lemma last_day_same samples (s0 s : sample) :
  samples_ok samples → s0 ∈ samples → (∀ s', s' ∈ samples → s'.1 <= s.1) →
  Time.day_of s0.1 = Time.day_of s.1 →
  ∃ sl, last samples = Some sl ∧ Time.day_of sl.1 = Time.day_of s.1.
Proof.
  intros Hok H0 Hle Hd. destruct (last samples) as [sl|] eqn:El.
  2: { apply last_None in El. subst. by apply elem_of_nil in H0. }
  exists sl. split; [done|]. pose proof (Hle sl (last_Some_elem_of _ _ El)) as H1.
  apply last_Some in El as [l' ->]. apply samples_ok_snoc in Hok as (_ & Hl & _).
  apply elem_of_app in H0 as [H0|H0%list_elem_of_singleton]; [|by subst].
  apply Hl, day_mono in H0. apply day_mono in H1. lia.
Qed.

(** The bucket that a sample extends is the one of its day, or a fresh one when
    it is the first of the day. *)
Lemma current_history samples w s :
  window_history samples w → samples_ok (samples ++ [s]) →
  bucket_history samples (Time.day_of s.1) (current w s.1 uid wd) ∨
  (current w s.1 uid wd = fresh_bucket s.1 ∧ on_day (Time.day_of s.1) samples = []).
Proof.
  intros [Hu Hl Hok Hdays Htoday] Hs. apply samples_ok_snoc in Hs as (Hso & Hle & Hwd & Hd).
  unfold current, kept. rewrite reset_same by done.
  destruct (list_find _ _) as [[i b]|] eqn:E.
  - left. apply list_find_Some in E as (Hi & Hb & _).
    apply list_elem_of_lookup_2, list_elem_of_filter in Hi as [_ Hin].
    destruct (Hdays b Hin) as (d & Hh). rewrite (bh_date _ _ _ Hh) in Hb.
    apply FormatDate_inj in Hb; [|lia|apply Hh]. simpl. by subst d.
  - right. split; [done|]. destruct (on_day _ samples) as [|s0 l] eqn:Eo; [done|exfalso].
    assert (H0 : s0 ∈ on_day (Time.day_of s.1) samples) by (rewrite Eo; apply list_elem_of_here).
    unfold on_day in H0. apply list_elem_of_filter in H0 as [Hd0 H0].
    destruct (last_day_same samples s0 s Hso H0 Hle Hd0) as (sl & El & Hdl).
    destruct (Htoday sl El) as (b & Hb & Hbd).
    assert (Hbt : Date b = Time.FormatDate s.1) by (unfold Time.FormatDate in *; congruence).
    eapply list_find_None, Forall_forall in E; [by apply E|].
    apply list_elem_of_filter. split; [|done]. apply today_in_window; [lia..|done].
Qed.

(** The bucket of the new sample's day. *)
Lemma updated_history samples w s :
  window_history samples w → samples_ok (samples ++ [s]) →
  bucket_history (samples ++ [s]) (Time.day_of s.1) (updated w s.1 uid s.2 wd).
Proof.
  intros Hw Hs. pose proof (current_history samples w s Hw Hs) as Hcur.
  apply samples_ok_snoc in Hs as (Hso & Hle & Hwd & Hd).
  assert (Hon : on_day (Time.day_of s.1) (samples ++ [s]) = on_day (Time.day_of s.1) samples ++ [s])
    by (rewrite on_day_snoc, decide_True; done).
  split; cbn [updated Date First Last MaxGap].
  - lia.
  - done.
  - rewrite Hon. destruct Hcur as [Hh|[-> Hnil]]; [|by rewrite Hnil].
    rewrite (bh_first _ _ _ Hh). pose proof (bh_some _ _ _ Hh).
    by destruct (on_day (Time.day_of s.1) samples).
  - by rewrite Hon, last_snoc.
  - rewrite Hon. by destruct (on_day _ samples).
  - rewrite reset_same, (wh_last _ _ Hw) by apply Hw.
    assert (Hc : ∃ n, 0 <= n ∧ parseGap (MaxGap (current w s.1 uid wd)) = Some (n * Time.Second) ∧
      (n * Time.Second <= Time.Hour → ∀ s1 s2, adjacent s1 s2 samples →
        Time.day_of s2.1 = Time.day_of s.1 → s2.1 - s1.1 < n * Time.Second + Time.Second)).
    { destruct Hcur as [Hh|[-> Hnil]]; [apply (bh_gap _ _ _ Hh)|]. exists 0.
      split; [done|]. split; [done|]. intros _ s1 s2 (l1 & l2 & ->) Hday. exfalso.
      assert (s2 ∈ on_day (Time.day_of s.1) (l1 ++ s1 :: s2 :: l2)) as Hin; [|rewrite Hnil in Hin; by apply elem_of_nil in Hin].
      apply list_elem_of_filter. split; [done|]. apply elem_of_app. right.
      apply list_elem_of_further, list_elem_of_here. }
    destruct Hc as (n & Hn & Hg & Hgap). destruct (last samples) as [sl|] eqn:El; cbn [fmap option_fmap option_map default].
    + pose proof (last_Some_elem_of _ _ El) as Hsl.
      destruct (observe_gap_spec sl.1 s.1 (MaxGap (current w s.1 uid wd)) n) as (n' & Hnn & Hg' & Hb); try done.
      { apply TimeFacts.day_in_range_years. pose proof (day_mono _ _ (Hle sl Hsl)).
        destruct Hso as [_ Hf]. rewrite Forall_forall in Hf. specialize (Hf sl Hsl). simpl in Hf. lia. }
      { by apply Hle. }
      exists n'. split; [lia|]. split; [exact Hg'|]. intros Hh s1 s2 [Hadj|[-> Hs1]]%adjacent_snoc Hday.
      * specialize (Hgap ltac:(unfold Time.Second in *; lia) s1 s2 Hadj Hday). unfold Time.Second in *. lia.
      * rewrite El in Hs1. simplify_eq. by apply Hb.
    + apply last_None in El as ->. exists n. split; [done|]. split; [done|].
      intros _ s1 s2 [(l1 & l2 & E)|[_ E]]%adjacent_snoc _; [|done]. by destruct l1.
  - intros res. rewrite recorded_updated, Hon. unfold highest. rewrite foldl_app. cbn [foldl].
    unfold highest_step at 1.
    assert (Hrec : recorded (current w s.1 uid wd) res =
                   foldl (highest_step res) None (on_day (Time.day_of s.1) samples)).
    { destruct Hcur as [Hh|[-> Hnil]]; [apply (bh_values _ _ _ Hh)|]. by rewrite Hnil. }
    rewrite Hrec. by destruct (s.2 !! res).
Qed.

(** The other buckets. *)
Lemma other_history samples s d b :
  bucket_history samples d b → d ≠ Time.day_of s.1 → bucket_history (samples ++ [s]) d b.
Proof.
  intros [Hr Hd Hf Hl Hsm (n & Hn & Hg & Hgap) Hv] Hne.
  assert (Hon : on_day d (samples ++ [s]) = on_day d samples)
    by (rewrite on_day_snoc, decide_False, app_nil_r by done; done).
  split; rewrite ?Hon; try done. exists n. split; [done|]. split; [done|].
  intros Hh s1 s2 [Hadj|[-> _]]%adjacent_snoc Hday; [by apply Hgap|congruence].
Qed.

Lemma history_step samples w s :
  window_history samples w → samples_ok (samples ++ [s]) →
  window_history (samples ++ [s]) (Observe w s.1 uid s.2 wd).1.
Proof.
  intros Hw Hs. pose proof (wh_ok _ _ Hw) as Hok.
  split.
  - right. by rewrite Observe_eq.
  - by rewrite last_snoc, Observe_eq.
  - by apply Observe_ok.
  - intros b [->|(Hin & _ & Hne)]%elem_of_Observe; [| |done].
    + exists (Time.day_of s.1). by apply updated_history.
    + rewrite reset_same in Hin by apply Hw. destruct (wh_days _ _ Hw b Hin) as (d & Hh).
      exists d. apply other_history; [done|]. intros ->. apply Hne. by rewrite (bh_date _ _ _ Hh).
  - intros s'. rewrite last_snoc. intros [= <-]. exists (updated w s.1 uid s.2 wd).
    split; [|done]. apply elem_of_Observe; [done|]. by left.
Qed.

(** The window after any chronological sequence of samples. *)
Lemma history samples :
  samples_ok samples → window_history samples (observe_all empty_window samples).
Proof.
  induction samples as [|s samples IH] using rev_ind; intros Hs.
  { split; simpl; try done; [by left|constructor|]. intros b Hb. by apply elem_of_nil in Hb. }
  unfold observe_all. rewrite foldl_app. apply history_step; [|done].
  apply IH. by apply samples_ok_snoc in Hs as [? _].
Qed.
End history.
