(* ===== verification/WindowTheorems.v ===== *)
(** * Theorems about the observation window

    What one sample changes, what [Peak] and [IsComplete] compute, and what a
    complete window says about the samples it was built from. *)

From S2P Require Export WindowHistory.
From stdpp Require Export sorting base option gmap strings list fin_maps.

Open Scope Z_scope.

(** ** Helper lemmas *)

Section clock.

Lemma compare_clock t h m :
  0 <= h < 100 → 0 <= m < 100 →
  String.compare (Time.FormatClock t) (Str.pad2 h +:+ ":" +:+ Str.pad2 m) =
    match Time.hour_of t ?= h with Eq => Time.minute_of t ?= m | c => c end.
Proof.
  intros Hh Hm. unfold Time.FormatClock.
  assert (0 <= Time.hour_of t < 100 ∧ 0 <= Time.minute_of t < 100) as [Ht1 Ht2].
  { unfold Time.hour_of, Time.minute_of, Time.Day, Time.Hour, Time.Minute, Time.Second. lia. }
  rewrite TimeFacts.compare_pad2 by done. destruct (Time.hour_of t ?= h); [|done..].
  change (String.compare (":" +:+ Str.pad2 (Time.minute_of t)) (":" +:+ Str.pad2 m))
    with (String.compare (Str.pad2 (Time.minute_of t)) (Str.pad2 m)).
  rewrite <- (Str.app_nil_r (Str.pad2 (Time.minute_of t))), <- (Str.app_nil_r (Str.pad2 m)).
  rewrite TimeFacts.compare_pad2 by done. simpl. by destruct (_ ?= _).
Qed.

Lemma first_by t : Str.leb (Time.FormatClock t) coverageFirstBy = true → t mod Time.Day < 31 * Time.Minute.
Proof.
  unfold Str.leb. change coverageFirstBy with (Str.pad2 0 +:+ ":" +:+ Str.pad2 30).
  rewrite compare_clock by lia.
  destruct (Z.compare_spec (Time.hour_of t) 0), (Z.compare_spec (Time.minute_of t) 30); try done;
    unfold Time.hour_of, Time.minute_of, Time.Day, Time.Hour, Time.Minute, Time.Second in *; lia.
Qed.

Lemma last_by t :
  Str.leb coverageLastBy (Time.FormatClock t) = true → 23 * Time.Hour + 30 * Time.Minute <= t mod Time.Day.
Proof.
  unfold Str.leb. change coverageLastBy with (Str.pad2 23 +:+ ":" +:+ Str.pad2 30).
  rewrite String.compare_antisym, compare_clock by lia.
  destruct (Z.compare_spec (Time.hour_of t) 23), (Z.compare_spec (Time.minute_of t) 30); try done;
    unfold Time.hour_of, Time.minute_of, Time.Day, Time.Hour, Time.Minute, Time.Second in *; lia.
Qed.

End clock.

Section reading.
  Context {KQ : KubeQuantity}.

(** The value a bucket contributes to the peak: it is of a completed day of the
    window, and its text can be read and converted. *)
Definition contribution (res : string) (now windowDays : Z) (b : DayBucket) : option Z :=
  raw ← peak_of b res; q ← ParseQuantity raw;
  if Str.ltb (Date b) (Time.FormatDate now) && negb (Str.ltb (Date b) (oldest_date now windowDays)) &&
     negb (overflowsMilliValue q)
  then Some (MilliValue q) else None.

Lemma leb_negb_ltb a b : Str.leb a b = negb (Str.ltb b a).
Proof. unfold Str.leb, Str.ltb. rewrite (String.compare_antisym a b). by destruct (String.compare b a). Qed.

Definition max_step (o : option Z) (v : Z) : option Z := Some (max_opt o v).

Lemma peak_step_eq res now wd best b :
  peak_step res (Time.FormatDate now) (oldest_date now wd) best b =
    match contribution res now wd b with Some m => max_step best m | None => best end.
Proof.
  unfold peak_step, contribution. rewrite leb_negb_ltb. destruct (peak_of b res) as [raw|]; simpl.
  2: by destruct (_ || _).
  destruct (ParseQuantity raw) as [q|]; simpl; [|by destruct (_ || _)].
  destruct (Str.ltb (Date b) _), (Str.ltb (Date b) _), (overflowsMilliValue q); try done.
  simpl. destruct best as [p|]; [|done]. unfold max_step. simpl.
  destruct (Z.ltb_spec p (MilliValue q)); f_equal; lia.
Qed.

Lemma max_fold l best :
  match foldl max_step best l with
  | Some p => (best = Some p ∨ p ∈ l) ∧ (∀ v, best = Some v → v <= p) ∧ ∀ v, v ∈ l → v <= p
  | None => best = None ∧ l = []
  end.
Proof.
  revert best. induction l as [|x l IH]; intros best; cbn [foldl].
  - destruct best as [p|]; [|done]. split; [by left|]. split; [by intros v [= ->]|].
    intros v Hv. by apply elem_of_nil in Hv.
  - specialize (IH (max_step best x)). destruct (foldl _ _ l) as [p|]; [|by destruct IH].
    destruct IH as (H1 & H2 & H3). specialize (H2 _ eq_refl).
    assert (Hmax : x <= max_opt best x ∧ (∀ v, best = Some v → v <= max_opt best x) ∧
                   (best = Some (max_opt best x) ∨ max_opt best x = x)).
    { destruct best as [v|]; simpl; split_and!; try lia; try (by right).
      - intros ? [= ->]. lia.
      - destruct (Z.max_spec v x) as [[_ ->]|[_ ->]]; [by right|by left].
      - done. }
    destruct Hmax as (Hx & Hv & Hor). split; [|split].
    + destruct H1 as [[= <-]|H1]; [|right; by apply list_elem_of_further].
      destruct Hor as [|Hm]; [by left|right]. rewrite Hm. apply list_elem_of_here.
    + intros v E. specialize (Hv v E). lia.
    + intros v [->|Hin]%elem_of_cons; [lia|by apply H3].
Qed.

Lemma Peak_fold w res now wd :
  Peak w res now wd = foldl max_step None (omap (contribution res now wd) (Days w)).
Proof.
  unfold Peak. generalize (@None Z). induction (Days w) as [|b l IH]; intros o; [done|].
  cbn [foldl omap list_omap]. rewrite peak_step_eq.
  destruct (contribution res now wd b); apply IH.
Qed.

(** The peak is the highest of the contributions of the completed days. *)
Lemma Peak_max w res now wd :
  match Peak w res now wd with
  | Some p => (∃ b, b ∈ Days w ∧ contribution res now wd b = Some p) ∧
              ∀ b v, b ∈ Days w → contribution res now wd b = Some v → v <= p
  | None => ∀ b, b ∈ Days w → contribution res now wd b = None
  end.
Proof.
  rewrite Peak_fold. pose proof (max_fold (omap (contribution res now wd) (Days w)) None) as H.
  destruct (foldl _ _ _) as [p|].
  - destruct H as ([?|H] & _ & Hall); [done|]. split; [by apply list_elem_of_omap in H|].
    intros b v Hb Hv. apply Hall, list_elem_of_omap. by exists b.
  - destruct H as [_ H]. intros b Hb. destruct (contribution res now wd b) as [v|] eqn:E; [|done].
    assert (v ∈ omap (contribution res now wd) (Days w)) as Hin by (apply list_elem_of_omap; by exists b).
    rewrite H in Hin. by apply elem_of_nil in Hin.
Qed.

(** ** Completeness *)

Lemma by_date_lookup l (m : gmap string DayBucket) d :
  NoDup (Date <$> l) →
  foldl (λ m b, <[Date b := b]> m) m l !! d =
    match list_find (λ b, Date b = d) l with Some (_, b) => Some b | None => m !! d end.
Proof.
  revert m. induction l as [|b l IH]; intros m Hnd; [done|].
  rewrite fmap_cons in Hnd. apply NoDup_cons in Hnd as [Hni Hnd]. cbn [foldl list_find].
  rewrite IH by done. destruct (decide (Date b = d)) as [<-|Hne].
  - assert (list_find (λ b', Date b' = Date b) l = None) as ->.
    { apply list_find_None, Forall_forall. intros b' Hin Heq. apply Hni. rewrite <- Heq.
      by apply list_elem_of_fmap_2. }
    apply lookup_insert_eq.
  - destruct (list_find _ l) as [[i b']|]; [done|]. simpl. by apply lookup_insert_ne.
Qed.

Lemma by_date_Some l d b :
  NoDup (Date <$> l) → by_date l !! d = Some b → b ∈ l ∧ Date b = d.
Proof.
  intros Hnd. unfold by_date. rewrite by_date_lookup, lookup_empty by done.
  destruct (list_find _ l) as [[i b']|] eqn:E; [|done]. intros [= ->].
  apply list_find_Some in E as (Hi & Hd & _). split; [by eapply list_elem_of_lookup_2|done].
Qed.

Lemma by_date_elem l b : NoDup (Date <$> l) → b ∈ l → by_date l !! Date b = Some b.
Proof.
  intros Hnd Hb. unfold by_date. rewrite by_date_lookup, lookup_empty by done.
  destruct (list_find _ l) as [[i b']|] eqn:E.
  - apply list_find_Some in E as (Hi & Hd & _). f_equal.
    apply list_elem_of_lookup in Hb as [j Hj].
    assert (i = j) as ->; [|congruence].
    eapply NoDup_lookup; [exact Hnd| |]; rewrite list_lookup_fmap.
    + rewrite Hi. simpl. by rewrite Hd.
    + by rewrite Hj.
  - apply list_find_None in E. rewrite Forall_forall in E. by destruct (E b Hb).
Qed.

(** A complete window has, for each of the days before today, a covered bucket
    with a value that can be read. *)
Lemma IsComplete_days w res now wd :
  window_ok w →
  IsComplete w res now wd = true ↔
  ∀ i, 1 <= i <= wd → ∃ b q, b ∈ Days w ∧ Date b = Time.FormatDate (Time.AddDays now (- i)) ∧
    covered b = true ∧ (raw ← peak_of b res; ParseQuantity raw) = Some q.
Proof.
  intros Hok. unfold IsComplete. rewrite forallb_forall. split.
  - intros H i Hi. specialize (H i). rewrite <- list_elem_of_In, elem_of_seqZ in H.
    specialize (H ltac:(lia)). unfold complete_day in H.
    destruct (by_date _ !! _) as [b|] eqn:E; [|done]. apply by_date_Some in E as [Hb Hd]; [|done].
    destruct (covered b) eqn:Hc; [|done]. destruct (peak_of b res) as [raw|] eqn:Hp; [|done]. simpl in H.
    destruct (ParseQuantity raw) as [q|] eqn:Hq; [|done]. exists b, q. rewrite Hp. simpl. by rewrite Hq.
  - intros H i. rewrite <- list_elem_of_In, elem_of_seqZ. intros Hi.
    destruct (H i ltac:(lia)) as (b & q & Hb & Hd & Hc & Hq). unfold complete_day.
    rewrite <- Hd, by_date_elem by done. rewrite Hc. simpl.
    destruct (peak_of b res) as [raw|]; [|done]. simpl in Hq. by rewrite Hq.
Qed.

End reading.

Section samples.
  Context {KQ : KubeQuantity}.

Lemma range_list_to_map `{GoRange} {V} site (m : gmap string V) :
  (list_to_map (range site m) : gmap string V) = m.
Proof.
  apply map_eq. intros k. apply option_eq. intros v.
  rewrite <- elem_of_list_to_map by apply range_nodup. apply elem_of_range.
Qed.

Lemma existsb_perm {A} (f : A → bool) l1 l2 : l1 ≡ₚ l2 → existsb f l1 = existsb f l2.
Proof.
  intros Hp. apply eq_true_iff_eq. rewrite !existsb_exists.
  split; intros (x & Hx & Hf); exists x; (split; [|done]); revert Hx;
    rewrite <- !list_elem_of_In, Hp; done.
Qed.

Lemma fold_sample_det (R1 R2 : GoRange) w now uid used wd :
  @fold_sample KQ R1 w now uid used wd = @fold_sample KQ R2 w now uid used wd.
Proof.
  unfold fold_sample. set (p := default ∅ _).
  rewrite (surjective_pairing (foldl _ _ (@range R1 _ _ _))), (surjective_pairing (foldl _ _ (@range R2 _ _ _))).
  rewrite !observe_peaks_changed by apply range_nodup. f_equal.
  - apply map_eq. intros k. by rewrite !observe_peaks_lookup, !range_list_to_map by apply range_nodup.
  - f_equal. apply existsb_perm, range_perm2.
Qed.

Lemma fold_sample_changed `{GoRange} w now uid used wd :
  (fold_sample w now uid used wd).2 = false ↔
  ∀ res q, used !! res = Some q → replaces (peak_of (current w now uid wd) res) q = false.
Proof.
  unfold fold_sample. rewrite observe_peaks_changed by apply range_nodup. cbn [orb].
  assert (Hp : ∀ res, default ∅ (Peaks (current w now uid wd)) !! res = peak_of (current w now uid wd) res).
  { intros res. unfold peak_of. by destruct (Peaks _). }
  rewrite <- not_true_iff_false, existsb_exists. split.
  - intros Hn res q Hq. apply not_true_iff_false. intros Hr. apply Hn. exists (res, q).
    rewrite <- list_elem_of_In, elem_of_range. simpl. by rewrite Hp.
  - intros Hall ([res q] & Hin & Hr). apply list_elem_of_In, elem_of_range in Hin. simpl in Hr.
    rewrite Hp, (Hall res q Hin) in Hr. done.
Qed.
End samples.

Section complete.
  Context {KQ : KubeQuantity} {QL : QuantityLaws KQ} {GR : GoRange}.

Lemma highest_fold res l o :
  match foldl (highest_step res) o l with
  | Some v => (∀ u, o = Some u → u <= v) ∧
              (∀ s q, s ∈ l → s.2 !! res = Some q → nano q <= v) ∧
              (o = Some v ∨ ∃ s q, s ∈ l ∧ s.2 !! res = Some q ∧ nano q = v)
  | None => o = None ∧ ∀ s, s ∈ l → s.2 !! res = None
  end.
Proof.
  revert o. induction l as [|s0 l IH]; intros o; cbn [foldl].
  - destruct o as [v|]; [|by split; [|intros s Hs; apply elem_of_nil in Hs]].
    split; [by intros u [= ->]|]. split; [|by left]. intros s q Hs. by apply elem_of_nil in Hs.
  - specialize (IH (highest_step res o s0)).
    destruct (foldl (highest_step res) (highest_step res o s0) l) as [v|]; unfold highest_step in IH.
    + destruct IH as (Hu & Hs & Hor).
      assert (Ho : ∀ u, o = Some u → u <= v).
      { intros u ->. destruct (s0.2 !! res) as [q|]; [|by apply Hu]. simpl in Hu.
        specialize (Hu _ eq_refl). lia. }
      split; [done|]. split.
      * intros s q [->|Hin]%elem_of_cons Hq; [|by apply (Hs s q)]. rewrite Hq in Hu.
        specialize (Hu _ eq_refl). destruct o; simpl in Hu; lia.
      * destruct Hor as [Hor|(s & q & Hin & Hq & Hv)].
        2: { right. exists s, q. split; [by apply list_elem_of_further|done]. }
        destruct (s0.2 !! res) as [q|] eqn:Eq; [|by left]. injection Hor as Hor.
        destruct o as [u|]; simpl in Hor.
        -- destruct (Z.max_spec u (nano q)) as [[_ Hm]|[_ Hm]]; rewrite Hm in Hor.
           ++ right. exists s0, q. split; [apply list_elem_of_here|done].
           ++ left. by f_equal.
        -- right. exists s0, q. split; [apply list_elem_of_here|done].
    + destruct IH as [Hn Hs]. destruct (s0.2 !! res) eqn:Eq; [done|]. split; [done|].
      by intros s [->|Hin]%elem_of_cons; [|apply Hs].
Qed.

Lemma highest_Some res l v :
  highest res l = Some v →
  (∀ s q, s ∈ l → s.2 !! res = Some q → nano q <= v) ∧
  ∃ s q, s ∈ l ∧ s.2 !! res = Some q ∧ nano q = v.
Proof.
  intros H. pose proof (highest_fold res l None) as Hf. unfold highest in H. rewrite H in Hf.
  destruct Hf as (_ & H1 & [?|H2]); done.
Qed.

(** The bucket of a day of a complete window. *)
Lemma complete_bucket samples uid wd res now i :
  samples_ok wd samples →
  0 <= wd <= Time.day_of now → Time.day_of now < 3652059 →
  IsComplete (observe_all uid wd empty_window samples) res now wd = true →
  1 <= i <= wd →
  ∃ b q, bucket_history samples (Time.day_of now - i) b ∧ covered b = true ∧
    b ∈ Days (observe_all uid wd empty_window samples) ∧
    (raw ← peak_of b res; ParseQuantity raw) = Some q.
Proof.
  intros Hs Hwd Hnow Hc Hi. pose proof (history uid wd samples Hs) as [_ _ Hok Hdays _].
  rewrite IsComplete_days in Hc by done. destruct (Hc i Hi) as (b & q & Hb & Hd & Hcov & Hq).
  destruct (Hdays b Hb) as (d & Hh). exists b, q. split; [|done].
  rewrite (bh_date _ _ _ Hh) in Hd.
  assert (Time.day_of (Time.AddDays now (- i)) = Time.day_of now - i) as Ha.
  { unfold Time.day_of, Time.AddDays. change Time.Day with 86400000000000. lia. }
  apply FormatDate_inj in Hd; [|lia|apply Hh]. by rewrite <- Ha, <- Hd.
Qed.

(** Such a bucket counts for the peak, with the highest usage of its day. *)
Lemma complete_contribution samples uid wd res now i :
  samples_ok wd samples →
  0 <= wd <= Time.day_of now → Time.day_of now < 3652059 →
  (∀ s q, s ∈ samples → s.2 !! res = Some q → 0 <= nano q <= maxMilliValue * nano_per_unit) →
  IsComplete (observe_all uid wd empty_window samples) res now wd = true →
  1 <= i <= wd →
  ∃ b v, b ∈ Days (observe_all uid wd empty_window samples) ∧
    highest res (on_day (Time.day_of now - i) samples) = Some v ∧
    contribution res now wd b = Some (cdiv v nano_per_milli).
Proof.
  intros Hs Hwd Hnow Hrange Hc Hi.
  destruct (complete_bucket samples uid wd res now i Hs Hwd Hnow Hc Hi) as (b & q & Hh & _ & Hb & Hq).
  exists b, (nano q). split; [done|].
  assert (Hv : highest res (on_day (Time.day_of now - i) samples) = Some (nano q)).
  { rewrite <- (bh_values _ _ _ Hh). unfold recorded. destruct (peak_of b res) as [raw|]; [|done].
    simpl in *. by rewrite Hq. }
  split; [done|]. destruct (highest_Some _ _ _ Hv) as [_ (s & q' & [_ Hin]%list_elem_of_filter & Hq' & Hn)].
  assert (Hr : 0 <= nano q <= maxMilliValue * nano_per_unit) by (rewrite <- Hn; by apply (Hrange s q')).
  unfold contribution. destruct (peak_of b res) as [raw|]; [|done]. simpl in *. rewrite Hq. simpl.
  rewrite (bh_date _ _ _ Hh). pose proof (bh_range _ _ _ Hh). unfold Time.FormatDate.
  rewrite oldest_day by lia.
  rewrite !TimeFacts.date_string_ltb by (apply TimeFacts.day_in_range_years; lia).
  rewrite (proj2 (Z.ltb_lt _ _)), (proj2 (Z.ltb_ge _ _)) by lia. simpl.
  unfold overflowsMilliValue. rewrite q_gt_nano, new_nano by by vm_compute.
  rewrite sign_nano. rewrite (proj2 (Z.ltb_ge _ _)) by lia.
  rewrite (proj2 (Z.ltb_ge _ _)) by (apply Z.sgn_nonneg; lia). simpl.
  rewrite milli_nano; [done|lia|].
  unfold cdiv, nano_per_milli, nano_per_unit, maxMilliValue in *. lia64.
Qed.
End complete.

Section theorems.
  Context {KQ : KubeQuantity} {QL : QuantityLaws KQ} {GR : GoRange}.

(** C31. One sample: a window of distinct dates stays one; the bucket of today
    records, for every resource, the maximum of what it recorded before and what
    the sample says; the other buckets inside the window are kept as they are,
    and all others are dropped. A window of another quota object is forgotten
    first. *)
Theorem Observe_keeps_daily_maximum w now uid used wd :
  window_ok w →
  let w' := (Observe w now uid used wd).1 in
  let today := Time.FormatDate now in
  let old := if negb (String.eqb (UID w) "") && negb (String.eqb (UID w) uid) then [] else Days w in
  window_ok w' ∧ UID w' = uid ∧ LastSampleAt w' = Time.FormatRFC3339 now ∧
  (∃ b, b ∈ Days w' ∧ Date b = today ∧
    ∀ res, recorded b res =
      let before := match list_find (λ b, Date b = today) (filter (in_window now wd) old) with
                    | Some (_, b0) => recorded b0 res | None => None end in
      match used !! res with Some q => Some (max_opt before (nano q)) | None => before end) ∧
  (∀ b, Date b ≠ today → b ∈ Days w' ↔ b ∈ old ∧ in_window now wd b).
Proof.
  intros Hok w' today old. unfold w'.
  assert (Hold : Days (reset w uid) = old) by (unfold reset, old; by destruct (_ && _)).
  split; [by apply Observe_ok|]. split; [by rewrite Observe_eq|]. split; [by rewrite Observe_eq|]. split.
  - exists (updated w now uid used wd). split; [apply elem_of_Observe; [done|by left]|]. split; [done|].
    intros res. rewrite recorded_updated.
    assert (Hc : recorded (current w now uid wd) res =
      match list_find (λ b, Date b = today) (filter (in_window now wd) old) with
      | Some (_, b0) => recorded b0 res | None => None end).
    { unfold current, kept. rewrite Hold. by destruct (list_find _ _) as [[i b0]|]. }
    by rewrite Hc.
  - intros b Hb. rewrite elem_of_Observe, Hold by done. split; [|tauto].
    intros [->|H]; [by destruct Hb|tauto].
Qed.

(** [Observe] reports no change exactly when no bucket was dropped, today's
    bucket existed, and no peak of it was missing, unreadable or exceeded; a
    sample that is not persisted has then changed no recorded value. *)
Theorem Observe_changed w now uid used wd :
  (Observe w now uid used wd).2 = false ↔
  let old := if negb (String.eqb (UID w) "") && negb (String.eqb (UID w) uid) then [] else Days w in
  Forall (in_window now wd) old ∧
  ∃ i b, list_find (λ b, Date b = Time.FormatDate now) old = Some (i, b) ∧
    ∀ res q, used !! res = Some q →
      ∃ raw parsed, peak_of b res = Some raw ∧ ParseQuantity raw = Some parsed ∧ nano q <= nano parsed.
Proof.
  intros. rewrite Observe_eq. cbn [snd]. rewrite !orb_false_iff, fold_sample_changed, negb_false_iff, Nat.eqb_eq.
  unfold current, kept. set (old := Days (reset w uid)).
  replace (if negb (String.eqb (UID w) "") && negb (String.eqb (UID w) uid) then [] else Days w) with old
    by (unfold old, reset; by destruct (_ && _)).
  assert (Hrep : ∀ o q, replaces o q = false ↔
    ∃ raw parsed, o = Some raw ∧ ParseQuantity raw = Some parsed ∧ nano q <= nano parsed).
  { intros o q. unfold replaces. destruct o as [raw|]; [|by split; [|intros (? & ? & ? & _)]].
    destruct (ParseQuantity raw) as [parsed|] eqn:E.
    2: { split; [done|]. intros (? & ? & [= <-] & ? & _). congruence. }
    rewrite q_gt_nano, Z.ltb_ge.
    split; [by exists raw, parsed|]. intros (? & ? & [= <-] & ? & ?). congruence. }
  setoid_rewrite Hrep. cbv zeta. split.
  - intros ((Hlen & Hf) & Hr). pose proof (filter_length_same _ _ Hlen) as Hall. rewrite Hall in *.
    split.
    + rewrite <- Hall. apply Forall_forall. intros b [Hb _]%list_elem_of_filter. done.
    + destruct (list_find _ old) as [[i b]|]; [|done]. exists i, b. split; [done|apply Hr].
  - intros (Hall & i & b & Hb & Hr). rewrite Forall_forall in Hall.
    rewrite (filter_id _ _ Hall), Hb. split; [done|apply Hr].
Qed.

(** A complete window was observed: each of its days has a first sample before
    00:31, a last one at 23:30 or later, and no two consecutive samples that end
    on it are more than an hour (and the fraction of a second that the record
    drops) apart. *)
Theorem complete_window_observed samples uid wd res now i :
  samples_ok wd samples →
  0 <= wd <= Time.day_of now → Time.day_of now < 3652059 →
  IsComplete (observe_all uid wd empty_window samples) res now wd = true →
  1 <= i <= wd →
  let d := Time.day_of now - i in
  (∃ s, head (on_day d samples) = Some s ∧ s.1 mod Time.Day < 31 * Time.Minute) ∧
  (∃ s, last (on_day d samples) = Some s ∧ 23 * Time.Hour + 30 * Time.Minute <= s.1 mod Time.Day) ∧
  (∀ s1 s2, adjacent s1 s2 samples → Time.day_of s2.1 = d → s2.1 - s1.1 < Time.Hour + Time.Second).
Proof.
  intros Hs Hwd Hnow Hc Hi d.
  destruct (complete_bucket samples uid wd res now i Hs Hwd Hnow Hc Hi) as (b & q & Hb & Hcov & _).
  fold d in Hb. destruct Hb as [_ _ Hf Hl Hsome (n & Hn & Hg & Hgap) _].
  unfold covered in Hcov. rewrite Hg in Hcov.
  destruct (_ || _); [done|]. destruct (Z.ltb_spec dayCoverageMaxGap (n * Time.Second)) as [|Hle]; [done|].
  apply andb_true_iff in Hcov as [Hfb Hlb]. rewrite Hf in Hfb. rewrite Hl in Hlb. split; [|split].
  - destruct (on_day d samples) as [|s l]; [done|]. exists s. split; [done|]. by apply first_by.
  - destruct (last (on_day d samples)) as [s|] eqn:E; [|by apply last_None in E].
    exists s. split; [done|]. by apply last_by.
  - intros s1 s2 Hadj Hd. specialize (Hgap Hle s1 s2 Hadj Hd).
    unfold dayCoverageMaxGap in Hle. lia.
Qed.

(** C32. The peak of a complete window bounds the usage that every sample of its days
    saw, as long as the samples are in the range that the code can convert. *)
Theorem complete_window_peak samples uid wd res now :
  samples_ok wd samples →
  0 < wd <= Time.day_of now → Time.day_of now < 3652059 →
  (∀ s q, s ∈ samples → s.2 !! res = Some q → 0 <= nano q <= maxMilliValue * nano_per_unit) →
  IsComplete (observe_all uid wd empty_window samples) res now wd = true →
  ∃ p, Peak (observe_all uid wd empty_window samples) res now wd = Some p ∧
    ∀ s q, s ∈ samples → 1 <= Time.day_of now - Time.day_of s.1 <= wd → s.2 !! res = Some q →
      nano q <= p * nano_per_milli.
Proof.
  intros Hs Hwd Hnow Hrange Hc.
  set (w := observe_all uid wd empty_window samples) in *.
  assert (Hday : ∀ i, 1 <= i <= wd → ∃ b v, b ∈ Days w ∧
    highest res (on_day (Time.day_of now - i) samples) = Some v ∧
    contribution res now wd b = Some (cdiv v nano_per_milli)).
  { intros i Hi. by apply (complete_contribution samples uid wd res now i); try lia. }
  pose proof (Peak_max w res now wd) as Hp. destruct (Peak w res now wd) as [p|].
  - exists p. split; [done|]. destruct Hp as [_ Hmax]. intros s q Hin Hd Hq.
    destruct (Hday (Time.day_of now - Time.day_of s.1) Hd) as (b & v & Hb & Hv & Hcon).
    specialize (Hmax b _ Hb Hcon).
    destruct (highest_Some _ _ _ Hv) as [Hub _].
    assert (nano q <= v).
    { apply (Hub s q); [|done]. apply list_elem_of_filter. split; [lia|done]. }
    unfold cdiv, nano_per_milli in *. lia.
  - exfalso. destruct (Hday 1 ltac:(lia)) as (b & v & Hb & _ & Hcon). rewrite (Hp b Hb) in Hcon. done.
Qed.
End theorems.

(** ** Examples *)

Section examples.
  #[local] Existing Instance nano_quantity.
  #[local] Existing Instance nano_quantity_laws.
  #[local] Existing Instance range_ascending.

(** A day of hourly samples, the last one at 23:30: 1 March 2024. *)
Definition sample_day : list sample :=
  (λ k, (738945 * Time.Day + k * 30 * Time.Minute, {[ "cpu" := NanoQuantity.mk (k * 1000000000) false ]}))
    <$> (((λ k, 2 * k) <$> seqZ 0 24) ++ [47]).

Lemma sample_day_ok : samples_ok 1 sample_day.
Proof.
  split.
  - apply Sorted_StronglySorted; [intros x y z; apply Z.le_trans|].
    repeat constructor; vm_compute; congruence.
  - repeat constructor; vm_compute; congruence.
Qed.

Definition next_day : Z := 738946 * Time.Day + 8 * Time.Hour.

Lemma Observe_keeps_daily_maximum_witness :
  window_ok empty_window ∧
  UID (Observe empty_window next_day "u1" {[ "cpu" := NanoQuantity.mk 5 false ]} 14).1 = "u1".
Proof.
  assert (H : window_ok empty_window) by apply NoDup_nil_2.
  split; [exact H|].
  apply (proj1 (proj2 (Observe_keeps_daily_maximum empty_window next_day "u1" {[ "cpu" := NanoQuantity.mk 5 false ]} 14 H))).
Defined.

Lemma complete_window_observed_witness :
  IsComplete (observe_all "u1" 1 empty_window sample_day) "cpu" next_day 1 = true ∧
  ∃ s, head (on_day (Time.day_of next_day - 1) sample_day) = Some s ∧ s.1 mod Time.Day < 31 * Time.Minute.
Proof.
  assert (Hwd : 0 <= 1 <= Time.day_of next_day) by by vm_compute.
  assert (Hnow : Time.day_of next_day < 3652059) by by vm_compute.
  assert (Hi : 1 <= 1 <= 1) by lia.
  assert (H : IsComplete (observe_all "u1" 1 empty_window sample_day) "cpu" next_day 1 = true)
    by (vm_compute; reflexivity).
  exact (conj H (proj1 (complete_window_observed sample_day "u1" 1 "cpu" next_day 1 sample_day_ok Hwd Hnow H Hi))).
Defined.

Lemma complete_window_peak_witness :
  ∃ p, Peak (observe_all "u1" 1 empty_window sample_day) "cpu" next_day 1 = Some p.
Proof.
  edestruct (complete_window_peak sample_day "u1" 1 "cpu" next_day sample_day_ok) as (p & Hp & _).
  - by vm_compute.
  - by vm_compute.
  - intros s q Hs Hq. change (0 <= NanoQuantity.value q <= 9223372036854775 * 1000000000).
    unfold sample_day in Hs. apply list_elem_of_fmap in Hs as (k & -> & Hk). simpl in Hq.
    apply lookup_singleton_Some in Hq as [_ <-]. simpl.
    assert (0 <= k <= 47); [|lia].
    apply elem_of_app in Hk as [Hk|Hk%list_elem_of_singleton]; [|lia].
    apply list_elem_of_fmap in Hk as (j & -> & Hj%elem_of_seqZ). lia.
  - vm_compute. reflexivity.
  - exists p. exact Hp.
Defined.
End examples.
