(* ===== verification/Provider.v ===== *)
(** * The Provider interface of internal/git

    The data that the controller and a Git provider exchange. The methods of the
    interface are calls of the controller, in [Calls.v]; [LogOnly.v],
    [StatefulLog.v], [FakeGit.v] and [GitHub.v] implement them. *)

From S2P Require Export KubeQuantity GoTime.
From stdpp Require Export sorting base option gmap strings list fin_maps.

Open Scope Z_scope.

(** ** Errors

    An error is its text and what [errors.Is] and the predicates of [apierrors]
    find in it; wrapping with %w keeps that. *)
Inductive error_kind :=
| ErrNotFound | ErrAlreadyExists | ErrConflict | ErrFileNotFound | ErrOther.

#[export] Instance error_kind_eq_dec : EqDecision error_kind.
Proof. solve_decision. Defined.

Record error := mk_error { error_is : error_kind; error_text : string }.

Definition Errorf (text : string) : error := mk_error ErrOther text.
Definition wrap_error (prefix : string) (e : error) : error :=
  mk_error (error_is e) (prefix +:+ error_text e).

Definition is_kind (k : error_kind) (e : error) : bool := bool_decide (error_is e = k).

(* go: internal/git/github.go 25-31 MergeableStateClean *)
Definition MergeableStateClean : string := "clean".
(* go: internal/git/github.go 25-31 MergeableStateBlocked *)
Definition MergeableStateBlocked : string := "blocked".
(* go: internal/git/github.go 25-31 ChecksStateSuccess *)
Definition ChecksStateSuccess : string := "success".

(* go: internal/git/github.go 33-41 DirectionGrow *)
Definition dirGrow : string := "grow".
(* go: internal/git/github.go 33-41 DirectionShrink *)
Definition dirShrink : string := "shrink".
(* go: internal/git/github.go 33-41 labelManaged *)
Definition labelManaged : string := "resizer/managed".
(* go: internal/git/github.go 33-41 labelDirectionPrefix *)
Definition labelDirectionPrefix : string := "resizer/direction:".

(* go: internal/git/github.go 60-70 PRStatus *)
Record PRStatus := {
  IsOpen : bool;
  IsMerged : bool;
  Mergeable : bool;
  MergeableState : string;
  ChecksState : string;
  ChecksTotalCount : Z;
  CreatedAt : Z
}.
