(* ===== verification/Deficit.v ===== *)
(** * internal/sizing/deficit.go

    What a FailedCreate event asks for: the resource and quantity in the message,
    the workload behind an object name, and the requests of a pod template. The
    pod types of [k8s.io/api/core/v1] are records with the fields the code
    reads. *)

From S2P Require Export KubeQuantity.
From stdpp Require Export sorting base option gmap strings list fin_maps.

Open Scope Z_scope.

Section deficit.
  Context {KQ : KubeQuantity} {GR : GoRange}.

(** [corev1.Container], [corev1.PodSpec] and [corev1.PersistentVolumeClaim]. *)
Record Container := { Requests : gmap string Quantity; Limits : gmap string Quantity }.
Record PodSpec := { Containers : list Container; InitContainers : list Container }.
Record PersistentVolumeClaim := { PVCRequestList : gmap string Quantity }.

(* go: internal/sizing/deficit.go 20-35 ParseEventMessage *)
Definition parse_part (part : string) : option (string * Quantity) :=
  let part := Str.TrimSpace part in
  if Str.HasPrefix part "requested: " then
    match Str.Split (Str.TrimPrefix part "requested: ") "=" with
    | [name; value] =>
        match ParseQuantity value with Some qty => Some (name, qty) | None => None end
    | _ => None
    end
  else None.

(** [None] is the error "failed to parse message". *)
(* go: internal/sizing/deficit.go 14-37 ParseEventMessage *)
Definition ParseEventMessage (message : string) : option (string * Quantity) :=
  Str.first_some parse_part (Str.Split message ",").

(* go: internal/sizing/deficit.go 39-54 WorkloadKey *)
Definition WorkloadKey (name : string) : string :=
  match Str.cut_last name "-" with Some (before, _) => before | None => name end.

(** The mapping of resource names to quota keys, for requests and limits. *)
(* go: internal/sizing/deficit.go 66-83 PodRequests *)
Definition quota_key (name : string) (isLimit : bool) : string :=
  if isLimit then
    if String.eqb name Core.ResourceCPU then Core.ResourceLimitsCPU
    else if String.eqb name Core.ResourceMemory then Core.ResourceLimitsMemory
    else name
  else
    if String.eqb name Core.ResourceCPU then Core.ResourceRequestsCPU
    else if String.eqb name Core.ResourceMemory then Core.ResourceRequestsMemory
    else if String.eqb name Core.ResourceStorage then Core.ResourceRequestsStorage
    else name.

(** [reqs[key] += qty.MilliValue()]: a missing key reads as zero. *)
Definition add_to (reqs : gmap string Z) (key : string) (v : Z) : gmap string Z :=
  <[key := wrap64 (default 0 (reqs !! key) + v)]> reqs.

(* go: internal/sizing/deficit.go 63-86 PodRequests *)
Definition addResources (reqs : gmap string Z) (l : gmap string Quantity) (isLimit : bool) : gmap string Z :=
  foldl (λ reqs kv, add_to reqs (quota_key kv.1 isLimit) (MilliValue kv.2)) reqs (range 8 l).

(* go: internal/sizing/deficit.go 112-135 PodRequests *)
Definition addInit (initReqs : gmap string Z) (l : gmap string Quantity) (isLimit : bool) : gmap string Z :=
  foldl (λ reqs kv, <[quota_key kv.1 isLimit := MilliValue kv.2]> reqs) initReqs (range 9 l).

(** [if v > reqs[k] { reqs[k] = v }] *)
(* go: internal/sizing/deficit.go 140-145 PodRequests *)
Definition raise_to (reqs : gmap string Z) (kv : string * Z) : gmap string Z :=
  if default 0 (reqs !! kv.1) <? kv.2 then <[kv.1 := kv.2]> reqs else reqs.

(* go: internal/sizing/deficit.go 88-92 PodRequests *)
Definition add_container (reqs : gmap string Z) (c : Container) : gmap string Z :=
  addResources (addResources reqs (Requests c) false) (Limits c) true.

(* go: internal/sizing/deficit.go 108-146 PodRequests *)
Definition raise_container (reqs : gmap string Z) (c : Container) : gmap string Z :=
  let initReqs := addInit (addInit ∅ (Requests c) false) (Limits c) true in
  foldl raise_to reqs (range 10 initReqs).

(* go: internal/sizing/deficit.go 56-148 PodRequests *)
Definition PodRequests (spec : PodSpec) : gmap string Z :=
  foldl raise_container (foldl add_container ∅ (Containers spec)) (InitContainers spec).

(* go: internal/sizing/deficit.go 154-163 PVCRequests *)
Definition add_claim (reqs : gmap string Z) (pvc : PersistentVolumeClaim) : gmap string Z :=
  foldl (λ reqs kv,
    add_to reqs (if String.eqb kv.1 Core.ResourceStorage then Core.ResourceRequestsStorage else kv.1)
      (MilliValue kv.2)) reqs (range 11 (PVCRequestList pvc)).

(* go: internal/sizing/deficit.go 150-165 PVCRequests *)
Definition PVCRequests (templates : list PersistentVolumeClaim) : gmap string Z :=
  foldl add_claim ∅ templates.

End deficit.
