(* ===== verification/Decide.v ===== *)
(** * internal/sizing/decide.go

    The decision for one quota: a target per resource, folded into growing,
    shrinking or leaving it alone, with the gates that hold a shrink back.
    [overflowsMilliValue] is in [Window.v], which uses it too. *)

From S2P Require Export Window.
From stdpp Require Export sorting base option gmap strings list fin_maps.

Open Scope Z_scope.

Section decide.
  Context {KQ : KubeQuantity} {GR : GoRange} {GA : GoArch}.

(* go: internal/sizing/decide.go 58-69 Direction *)
Inductive Direction := DirectionNone | DirectionGrow | DirectionShrink.

(* go: internal/sizing/decide.go 71-80 String *)
Definition direction_string (d : Direction) : string :=
  match d with
  | DirectionGrow => "grow"
  | DirectionShrink => "shrink"
  | DirectionNone => "none"
  end.

(* go: internal/sizing/decide.go 82-94 Gate *)
Inductive Gate := GateEnabled | GateWindow | GateRecentGrow | GateCooldown.

(* go: internal/sizing/decide.go 82-94 Gate *)
Definition gate_string (g : Gate) : string :=
  match g with
  | GateEnabled => "enabled"
  | GateWindow => "window"
  | GateRecentGrow => "recent-grow"
  | GateCooldown => "cooldown"
  end.

(* go: internal/sizing/decide.go 96-108 Input *)
Record Input := {
  Now : Z;
  Hard : gmap string Quantity;
  Used : gmap string Quantity;
  Deficits : gmap string Z;
  InWindow : Window;
  InPolicy : Policy;
  LastGrow : Z;
  LastShrink : Z
}.

(* go: internal/sizing/decide.go 110-138 Decision *)
Record Decision := {
  DDirection : Direction;
  Targets : gmap string Quantity;
  ShrinkPreview : gmap string Quantity;
  RawTargets : gmap string Quantity;
  Reason : string;
  BlockedBy : list Gate
}.

(* go: internal/sizing/decide.go 305-313 describe *)
Definition describe (res : string) (from to : Quantity) (driver : string) : string :=
  "- `" +:+ res +:+ "`: " +:+ QString from +:+ " -> " +:+ QString to +:+
  " (driven by " +:+ driver +:+ ")".

(** [int64(float64(milli) * factor)]. *)
Definition scale_milli (milli : Z) (factor : F64.t) : Z :=
  F64.to_int64 (F64.mul (F64.of_Z milli) factor).

(** The usage that the target has to cover, and the term that decided it. *)
(* go: internal/sizing/decide.go 252-264 targetFor *)
Definition peak_milli (inp : Input) (res : string) (usedMilli : Z) : Z * string :=
  let '(peakMilli, driver) := (usedMilli, "current usage") in
  let '(peakMilli, driver) :=
    match Peak (InWindow inp) res (Now inp) (WindowDays (InPolicy inp)) with
    | Some p =>
        if peakMilli <? p then (p, Str.Itoa (WindowDays (InPolicy inp)) +:+ "-day peak")
        else (peakMilli, driver)
    | None => (peakMilli, driver)
    end in
  match Deficits inp !! res with
  | Some deficit =>
      if 0 <? deficit then
        let need := wrap64 (usedMilli + deficit) in
        if peakMilli <? need then (need, "pending shortage") else (peakMilli, driver)
      else (peakMilli, driver)
  | None => (peakMilli, driver)
  end.

(* go: internal/sizing/decide.go 244-278 targetFor *)
Definition targetFor (inp : Input) (res : string) (usedMilli : Z) (headroom : F64.t) : Z * string :=
  let '(peakMilli, driver) := peak_milli inp res usedMilli in
  let factor := F64.add F64.one headroom in
  let '(target, driver) := (scale_milli peakMilli factor, driver) in
  let '(target, driver) :=
    let lowerBound := scale_milli usedMilli factor in
    if target <? lowerBound then (lowerBound, "current usage floor") else (target, driver) in
  match MinFor (InPolicy inp) res with
  | Some floor =>
      if target <? MilliValue floor then (MilliValue floor, "configured minimum") else (target, driver)
  | None => (target, driver)
  end.

(* go: internal/sizing/decide.go 280-303 shrinkGates *)
Definition shrinkGates (inp : Input) (targets : gmap string Quantity) : list Gate :=
  let pol := InPolicy inp in
  let windowSpan := days (WindowDays pol) in
  (if ShrinkEnabled pol then [] else [GateEnabled]) ++
  (if forallb (λ kv, IsComplete (InWindow inp) kv.1 (Now inp) (WindowDays pol)) (range 12 targets)
   then [] else [GateWindow]) ++
  (if negb (Time.IsZero (LastGrow inp)) && (Time.Sub (Now inp) (LastGrow inp) <? windowSpan)
   then [GateRecentGrow] else []) ++
  (if negb (Time.IsZero (LastShrink inp)) &&
      (Time.Sub (Now inp) (LastShrink inp) <? ShrinkCooldown pol)
   then [GateCooldown] else []).

(** The local variables of [Decide]. *)
Record decide_state := {
  growTargets : gmap string Quantity;
  shrinkTargets : gmap string Quantity;
  rawTargets : gmap string Quantity;
  growReasons : list string;
  shrinkReasons : list string
}.

Definition decide_start : decide_state :=
  {| growTargets := ∅; shrinkTargets := ∅; rawTargets := ∅; growReasons := []; shrinkReasons := [] |}.

(** One resource: the body of the loop over the hard limits. *)
(* go: internal/sizing/decide.go 154-209 Decide *)
Definition decide_resource (inp : Input) (st : decide_state) (kv : string * Quantity) : decide_state :=
  let '(res, hard) := kv in
  let pol := InPolicy inp in
  if overflowsMilliValue hard then st else
  let hardMilli := MilliValue hard in
  if hardMilli =? 0 then st else
  match Used inp !! res with
  | None => st
  | Some used =>
      if overflowsMilliValue used then st else
      let usedMilli := MilliValue used in
      let headroom := HeadroomFor pol res in
      let '(targetMilli, driver) := targetFor inp res usedMilli headroom in
      let st := {| growTargets := growTargets st; shrinkTargets := shrinkTargets st;
                   rawTargets := <[res := Quantize res targetMilli (QFormat hard)]> (rawTargets st);
                   growReasons := growReasons st; shrinkReasons := shrinkReasons st |} in
      if F64.lt (F64.mul (F64.of_Z hardMilli) (F64.add F64.one (Tolerance pol))) (F64.of_Z targetMilli) then
        let qty := Quantize res targetMilli (QFormat hard) in
        if q_le qty hard then st
        else {| growTargets := <[res := qty]> (growTargets st); shrinkTargets := shrinkTargets st;
                rawTargets := rawTargets st;
                growReasons := growReasons st ++ [describe res hard qty driver];
                shrinkReasons := shrinkReasons st |}
      else if F64.lt (F64.of_Z targetMilli) (F64.mul (F64.of_Z hardMilli) (F64.sub F64.one (Tolerance pol))) then
        let capped := scale_milli hardMilli (F64.sub F64.one (MaxShrinkStep pol)) in
        let '(targetMilli, driver) :=
          if targetMilli <? capped then (capped, "step cap") else (targetMilli, driver) in
        let qty := Quantize res targetMilli (QFormat hard) in
        if q_ge qty hard then st
        else {| growTargets := growTargets st; shrinkTargets := <[res := qty]> (shrinkTargets st);
                rawTargets := rawTargets st; growReasons := growReasons st;
                shrinkReasons := shrinkReasons st ++ [describe res hard qty driver] |}
      else st
  end.

(** The decision from the targets of all resources. *)
(* go: internal/sizing/decide.go 211-241 Decide *)
Definition conclude (inp : Input) (st : decide_state) : Decision :=
  if (0 <? size (growTargets st))%nat then
    {| DDirection := DirectionGrow; Targets := growTargets st; ShrinkPreview := ∅;
       RawTargets := rawTargets st; Reason := Str.Join (Str.sort (growReasons st)) (Str.bytes [10]%N);
       BlockedBy := [] |}
  else if (size (shrinkTargets st) =? 0)%nat then
    {| DDirection := DirectionNone; Targets := ∅; ShrinkPreview := ∅; RawTargets := rawTargets st;
       Reason := ""; BlockedBy := [] |}
  else
    let blocked := shrinkGates inp (shrinkTargets st) in
    if (0 <? length blocked)%nat then
      {| DDirection := DirectionNone; Targets := ∅; ShrinkPreview := shrinkTargets st;
         RawTargets := rawTargets st; Reason := ""; BlockedBy := blocked |}
    else
      {| DDirection := DirectionShrink; Targets := shrinkTargets st; ShrinkPreview := shrinkTargets st;
         RawTargets := rawTargets st; Reason := Str.Join (Str.sort (shrinkReasons st)) (Str.bytes [10]%N);
         BlockedBy := [] |}.

(* go: internal/sizing/decide.go 140-242 Decide *)
Definition Decide (inp : Input) : Decision :=
  if negb (Enabled (InPolicy inp)) then
    {| DDirection := DirectionNone; Targets := ∅; ShrinkPreview := ∅; RawTargets := ∅; Reason := "";
       BlockedBy := [] |}
  else conclude inp (foldl (decide_resource inp) decide_start (range 13 (Hard inp))).

End decide.
