(* ===== verification/DecideFacts.v ===== *)
(** * The decision, resource by resource

    [evaluate] is what the loop of [Decide] does with one resource, and the loop
    collects the results of [evaluate], in any order. *)

From S2P Require Export Decide GoFloatMono WindowTheorems.
From stdpp Require Export sorting base option gmap strings list fin_maps.

Open Scope Z_scope.

Section evaluate.
  Context {KQ : KubeQuantity} {GA : GoArch}.

Inductive outcome :=
| OSkip
| OKeep (raw : Quantity)
| OGrow (raw qty : Quantity) (reason : string)
| OShrink (raw qty : Quantity) (reason : string).

(** The candidate of a resource that is measurable. *)
Definition candidate (inp : Input) (res : string) (hard : Quantity) (target : Z) (driver : string) : outcome :=
  let raw := Quantize res target (QFormat hard) in
  let hardMilli := MilliValue hard in
  if F64.lt (F64.mul (F64.of_Z hardMilli) (F64.add F64.one (Tolerance (InPolicy inp)))) (F64.of_Z target) then
    if q_le raw hard then OKeep raw else OGrow raw raw (describe res hard raw driver)
  else if F64.lt (F64.of_Z target) (F64.mul (F64.of_Z hardMilli) (F64.sub F64.one (Tolerance (InPolicy inp)))) then
    let capped := scale_milli hardMilli (F64.sub F64.one (MaxShrinkStep (InPolicy inp))) in
    let qty := Quantize res (Z.max target capped) (QFormat hard) in
    if q_ge qty hard then OKeep raw
    else OShrink raw qty (describe res hard qty (if target <? capped then "step cap" else driver))
  else OKeep raw.

Definition evaluate (inp : Input) (res : string) (hard : Quantity) : outcome :=
  if overflowsMilliValue hard then OSkip
  else if MilliValue hard =? 0 then OSkip
  else match Used inp !! res with
       | None => OSkip
       | Some used =>
           if overflowsMilliValue used then OSkip
           else let '(target, driver) := targetFor inp res (MilliValue used) (HeadroomFor (InPolicy inp) res) in
                candidate inp res hard target driver
       end.

Definition raw_of (o : outcome) : option Quantity :=
  match o with OSkip => None | OKeep raw | OGrow raw _ _ | OShrink raw _ _ => Some raw end.
Definition grow_of (o : outcome) : option Quantity :=
  match o with OGrow _ qty _ => Some qty | _ => None end.
Definition shrink_of (o : outcome) : option Quantity :=
  match o with OShrink _ qty _ => Some qty | _ => None end.
Definition grow_reason (o : outcome) : option string :=
  match o with OGrow _ _ reason => Some reason | _ => None end.
Definition shrink_reason (o : outcome) : option string :=
  match o with OShrink _ _ reason => Some reason | _ => None end.

Definition to_list {A} (o : option A) : list A := match o with Some x => [x] | None => [] end.

Definition record_in {V} (res : string) (o : option V) (m : gmap string V) : gmap string V :=
  match o with Some v => <[res := v]> m | None => m end.

Lemma decide_resource_eq inp st res hard :
  let o := evaluate inp res hard in
  decide_resource inp st (res, hard) =
    {| growTargets := record_in res (grow_of o) (growTargets st);
       shrinkTargets := record_in res (shrink_of o) (shrinkTargets st);
       rawTargets := record_in res (raw_of o) (rawTargets st);
       growReasons := growReasons st ++ to_list (grow_reason o);
       shrinkReasons := shrinkReasons st ++ to_list (shrink_reason o) |}.
Proof.
  assert (Heta : ∀ g s r gr sr, Build_decide_state g s r (gr ++ []) (sr ++ []) = Build_decide_state g s r gr sr)
    by (intros; by rewrite !app_nil_r).
  assert (Hst : st = {| growTargets := growTargets st; shrinkTargets := shrinkTargets st;
    rawTargets := rawTargets st; growReasons := growReasons st ++ []; shrinkReasons := shrinkReasons st ++ [] |}).
  { rewrite Heta. by destruct st. }
  unfold decide_resource, evaluate.
  destruct (overflowsMilliValue hard); [exact Hst|].
  destruct (MilliValue hard =? 0); [exact Hst|].
  destruct (Used inp !! res) as [used|]; [|exact Hst].
  destruct (overflowsMilliValue used); [exact Hst|].
  destruct (targetFor _ _ _ _) as [target driver]. unfold candidate.
  destruct (F64.lt (F64.mul _ _) _).
  - destruct (q_le _ hard); cbn; by rewrite ?app_nil_r.
  - destruct (F64.lt _ (F64.mul _ _)); [|cbn; by rewrite ?app_nil_r].
    set (capped := scale_milli _ _).
    replace (Z.max target capped) with (if target <? capped then capped else target)
      by (destruct (Z.ltb_spec target capped); lia).
    destruct (target <? capped); destruct (q_ge _ hard); cbn; by rewrite ?app_nil_r.
Qed.

(** ** The loop *)

Definition evaluated {V} (inp : Input) (f : outcome → option V) (hard : gmap string Quantity) : gmap string V :=
  map_imap (λ res h, f (evaluate inp res h)) hard.

Lemma record_in_step {V} (inp : Input) (f : outcome → option V) (m : gmap string V) (kv : string * Quantity) :
  record_in kv.1 (f (evaluate inp kv.1 kv.2)) m = collect_step (λ res h, f (evaluate inp res h)) m kv.
Proof. done. Qed.

Lemma decide_fold inp l st :
  foldl (decide_resource inp) st l =
    {| growTargets := foldl (collect_step (λ res h, grow_of (evaluate inp res h))) (growTargets st) l;
       shrinkTargets := foldl (collect_step (λ res h, shrink_of (evaluate inp res h))) (shrinkTargets st) l;
       rawTargets := foldl (collect_step (λ res h, raw_of (evaluate inp res h))) (rawTargets st) l;
       growReasons := growReasons st ++ omap (λ kv, grow_reason (evaluate inp kv.1 kv.2)) l;
       shrinkReasons := shrinkReasons st ++ omap (λ kv, shrink_reason (evaluate inp kv.1 kv.2)) l |}.
Proof.
  assert (Hcons : ∀ (f : outcome → option string) kv (l : list (string * Quantity)),
    omap (λ kv, f (evaluate inp kv.1 kv.2)) (kv :: l) =
    to_list (f (evaluate inp kv.1 kv.2)) ++ omap (λ kv, f (evaluate inp kv.1 kv.2)) l).
  { intros f kv l'. simpl. by destruct (f _). }
  revert st. induction l as [|[res hard] l IH]; intros st.
  { simpl. rewrite !app_nil_r. by destruct st. }
  cbn [foldl]. rewrite IH, decide_resource_eq, !Hcons, !app_assoc. reflexivity.
Qed.

Lemma collect_range `{GoRange} {V} (inp : Input) (f : outcome → option V) site (hard : gmap string Quantity) :
  foldl (collect_step (λ res h, f (evaluate inp res h))) ∅ (range site hard) = evaluated inp f hard.
Proof.
  apply map_eq. intros k. rewrite collect_lookup by apply range_nodup.
  unfold evaluated. rewrite map_lookup_imap, lookup_empty.
  destruct (list_find _ _) as [[i [k' h]]|] eqn:E; simpl.
  - apply list_find_Some in E as (Hi & Hk & _). simpl in Hk. subst k'.
    apply list_elem_of_lookup_2, elem_of_range in Hi. rewrite Hi. simpl. by destruct (f _).
  - destruct (hard !! k) as [h|] eqn:Eh; [|done]. exfalso.
    apply (elem_of_range site) in Eh. apply list_find_None in E. rewrite Forall_forall in E.
    by apply (E (k, h) Eh).
Qed.

(** The result of [Decide], without the loop. *)
Lemma Decide_eq `{GoRange} inp :
  Enabled (InPolicy inp) = true →
  Decide inp = conclude inp
    {| growTargets := evaluated inp grow_of (Hard inp);
       shrinkTargets := evaluated inp shrink_of (Hard inp);
       rawTargets := evaluated inp raw_of (Hard inp);
       growReasons := omap (λ kv, grow_reason (evaluate inp kv.1 kv.2)) (range 13 (Hard inp));
       shrinkReasons := omap (λ kv, shrink_reason (evaluate inp kv.1 kv.2)) (range 13 (Hard inp)) |}.
Proof.
  intros He. unfold Decide. rewrite He. cbn [negb]. f_equal. rewrite decide_fold.
  cbn [decide_start growTargets shrinkTargets rawTargets growReasons shrinkReasons app].
  by rewrite !collect_range.
Qed.

Lemma evaluated_lookup {V} inp (f : outcome → option V) hard res :
  evaluated inp f hard !! res = h ← hard !! res; f (evaluate inp res h).
Proof. apply map_lookup_imap. Qed.

(** ** The cases of [conclude] *)

Lemma conclude_grow `{GoRange} inp st :
  growTargets st ≠ ∅ →
  DDirection (conclude inp st) = DirectionGrow ∧ Targets (conclude inp st) = growTargets st ∧
  BlockedBy (conclude inp st) = [].
Proof.
  intros Hg. unfold conclude. rewrite (proj2 (Nat.ltb_lt _ _)); [done|].
  destruct (size (growTargets st)) eqn:E; [|lia]. by apply map_size_empty_inv in E.
Qed.

Lemma conclude_no_grow `{GoRange} inp st :
  growTargets st = ∅ →
  conclude inp st =
    if decide (shrinkTargets st = ∅) then
      {| DDirection := DirectionNone; Targets := ∅; ShrinkPreview := ∅; RawTargets := rawTargets st;
         Reason := ""; BlockedBy := [] |}
    else match shrinkGates inp (shrinkTargets st) with
         | [] => {| DDirection := DirectionShrink; Targets := shrinkTargets st;
                    ShrinkPreview := shrinkTargets st; RawTargets := rawTargets st;
                    Reason := Str.Join (Str.sort (shrinkReasons st)) (Str.bytes [10]%N); BlockedBy := [] |}
         | g :: gs => {| DDirection := DirectionNone; Targets := ∅; ShrinkPreview := shrinkTargets st;
                         RawTargets := rawTargets st; Reason := ""; BlockedBy := g :: gs |}
         end.
Proof.
  intros Hg. unfold conclude. rewrite Hg, map_size_empty. cbn [Nat.ltb Nat.leb].
  destruct (decide (shrinkTargets st = ∅)) as [->|Hne].
  - by rewrite map_size_empty.
  - rewrite (proj2 (Nat.eqb_neq _ _)) by (by rewrite map_size_empty_iff).
    by destruct (shrinkGates _ _).
Qed.

End evaluate.
