(* ===== verification/DecideTheorems.v ===== *)
(** * Theorems about the decision

    A shrink is proposed only when every gate holds, and no target of it is
    below what is or was needed; growing wins over shrinking and settles; the
    decision does not depend on the iteration order. *)

From S2P Require Export DecideFacts PolicyTheorems.
From stdpp Require Export sorting base option gmap strings list fin_maps.

Open Scope Z_scope.

Section targets.
  Context {KQ : KubeQuantity} {QL : QuantityLaws KQ} {GA : GoArch}.

(** ** Helper lemmas *)

Lemma not_overflows q :
  overflowsMilliValue q = false ↔ 0 <= nano q <= maxMilliValue * nano_per_unit.
Proof.
  unfold overflowsMilliValue. rewrite q_gt_nano, new_nano by by vm_compute.
  rewrite sign_nano, orb_false_iff, !Z.ltb_ge, Z.sgn_nonneg. lia.
Qed.

Lemma milli_value q :
  overflowsMilliValue q = false →
  MilliValue q = cdiv (nano q) nano_per_milli ∧ 0 <= MilliValue q ∧
  nano q <= MilliValue q * nano_per_milli.
Proof.
  intros H%not_overflows. rewrite milli_nano.
  - unfold cdiv, nano_per_milli, nano_per_unit in *. lia.
  - lia.
  - unfold cdiv, nano_per_milli, nano_per_unit, maxMilliValue in *. lia64.
Qed.

Lemma HeadroomFor_ok p res : policy_ok p → F64Valid.fraction_ok (HeadroomFor p res).
Proof.
  intros (Hh & _). unfold HeadroomFor.
  assert (H025 : F64Valid.fraction_ok f025) by (split; [vm_compute; repeat split; congruence|reflexivity]).
  destruct (Headroom p !! res) as [v|] eqn:E1; [by eapply Hh|].
  destruct (match resourceFamily res with Some family => Headroom p !! family | None => None end)
    as [v|] eqn:E2.
  { destruct (resourceFamily res) as [family|]; [by eapply Hh|done]. }
  destruct (Headroom p !! DefaultKey) as [v|] eqn:E3; [by eapply Hh|done].
Qed.

Lemma scale_milli_up u h :
  0 <= u <= 2 ^ 53 → F64Valid.fraction_ok h → F64.le h (F64.of_Z 1000) = true →
  u <= scale_milli u (F64.add F64.one h) <= 1001 * 2 ^ 53.
Proof.
  intros Hu [Hv H0] Hle. apply F64Lemmas.scale_up_ge; try done.
  by destruct (F64Valid.valid_le_zero h Hv H0) as [| ->].
Qed.

Lemma peak_milli_spec inp res used :
  0 <= used →
  (∀ d, Deficits inp !! res = Some d → used + d <= max_int64) →
  let p := (peak_milli inp res used).1 in
  used <= p ∧
  (∀ v, Peak (InWindow inp) res (Now inp) (WindowDays (InPolicy inp)) = Some v → v <= p) ∧
  (∀ d, Deficits inp !! res = Some d → used + d <= p) ∧
  (p = used ∨ Peak (InWindow inp) res (Now inp) (WindowDays (InPolicy inp)) = Some p ∨
   ∃ d, Deficits inp !! res = Some d ∧ p = used + d).
Proof.
  intros Hu Hd. unfold peak_milli. cbv zeta.
  set (pk := Peak _ _ _ _).
  set (p0 := match pk with Some p => if used <? p then (p, _) else (used, _) | None => (used, _) end).
  assert (Hp0 : used <= p0.1 ∧ (∀ v, pk = Some v → v <= p0.1) ∧ (p0.1 = used ∨ pk = Some p0.1)).
  { unfold p0. destruct pk as [p|]; [|split; [simpl; lia|]; split; [done|by left]].
    destruct (Z.ltb_spec used p); simpl; (split; [lia|]); split.
    - intros v [= ->]. lia.
    - by right.
    - intros v [= ->]. lia.
    - by left. }
  destruct p0 as [p driver]. simpl in Hp0. destruct Hp0 as (H1 & H2 & H3).
  destruct (Deficits inp !! res) as [d|] eqn:Ed.
  2: { split; [done|]. split; [done|]. split; [done|]. simpl. tauto. }
  specialize (Hd d eq_refl).
  destruct (Z.ltb_spec 0 d).
  - rewrite wrap64_id by lia64. destruct (Z.ltb_spec p (used + d)); simpl; (split; [lia|]).
    + split; [intros v Hv; specialize (H2 v Hv); lia|]. split; [intros ? [= <-]; lia|].
      right; right. by exists d.
    + split; [done|]. split; [intros ? [= <-]; lia|]. tauto.
  - simpl. split; [lia|]. split; [done|]. split; [intros ? [= <-]; lia|]. tauto.
Qed.

(** The usage that enters the target of a resource is in the exact range of the
    floating-point computation: [2 ^ 53] thousandths, that is 9 * 10^12 units. *)
Definition usage_in_range (inp : Input) (res : string) (used : Z) : Prop :=
  0 <= used <= 2 ^ 53 ∧
  F64.le (HeadroomFor (InPolicy inp) res) (F64.of_Z 1000) = true ∧
  (∀ v, Peak (InWindow inp) res (Now inp) (WindowDays (InPolicy inp)) = Some v → v <= 2 ^ 53) ∧
  (∀ d, Deficits inp !! res = Some d → used + d <= 2 ^ 53).

Lemma targetFor_bounds inp res used :
  policy_ok (InPolicy inp) → usage_in_range inp res used →
  let t := (targetFor inp res used (HeadroomFor (InPolicy inp) res)).1 in
  used <= t <= max_int64 ∧
  (∀ v, Peak (InWindow inp) res (Now inp) (WindowDays (InPolicy inp)) = Some v → v <= t) ∧
  (∀ d, Deficits inp !! res = Some d → used + d <= t) ∧
  (∀ f, MinFor (InPolicy inp) res = Some f → MilliValue f <= t).
Proof.
  intros Hp (Hu & Hh & Hpk & Hd). cbv zeta. unfold targetFor.
  destruct (peak_milli_spec inp res used) as (H1 & H2 & H3 & H4);
    [lia|intros d Ed; specialize (Hd d Ed); lia64|].
  destruct (peak_milli inp res used) as [p driver]. simpl in *.
  assert (Hpr : 0 <= p <= 2 ^ 53).
  { split; [lia|]. destruct H4 as [->|[H4|(d & H4 & ->)]]; [lia|by apply Hpk|by apply Hd]. }
  pose proof (HeadroomFor_ok _ res Hp) as Hf.
  pose proof (scale_milli_up p _ Hpr Hf Hh) as Hsp.
  pose proof (scale_milli_up used _ Hu Hf Hh) as Hsu.
  set (sp := scale_milli p _) in *. set (su := scale_milli used _) in *.
  set (t0 := if sp <? su then _ else _).
  assert (Ht0 : p <= t0.1 <= 1001 * 2 ^ 53) by (unfold t0; destruct (Z.ltb_spec sp su); simpl; lia).
  destruct t0 as [t dr]. simpl in Ht0.
  assert (Hgoal : ∀ t', t <= t' <= max_int64 → used <= t' <= max_int64 ∧
    (∀ v, Peak (InWindow inp) res (Now inp) (WindowDays (InPolicy inp)) = Some v → v <= t') ∧
    (∀ d, Deficits inp !! res = Some d → used + d <= t')).
  { intros t' Ht'. split; [lia|]. split; [intros v Hv; specialize (H2 v Hv); lia|].
    intros d Ed. specialize (H3 d Ed). lia. }
  destruct (MinFor (InPolicy inp) res) as [f|] eqn:Ef.
  - pose proof (milli_int64 f). destruct (Z.ltb_spec t (MilliValue f)); simpl.
    + destruct (Hgoal (MilliValue f)) as (? & ? & ?); [lia64|]. split; [done|split; [done|split; [done|]]].
      intros ? [= <-]. lia.
    + destruct (Hgoal t) as (? & ? & ?); [lia64|]. split; [done|split; [done|split; [done|]]].
      intros ? [= <-]. lia.
  - simpl. destruct (Hgoal t) as (? & ? & ?); [lia64|]. by split; [|split; [|split]].
Qed.


(** Every resource of the quota is in that range. *)
Definition input_in_range (inp : Input) : Prop :=
  ∀ res h u, Hard inp !! res = Some h → Used inp !! res = Some u →
    MilliValue h <= 2 ^ 53 ∧ usage_in_range inp res (MilliValue u).

Lemma evaluate_shrink inp res h raw q reason :
  evaluate inp res h = OShrink raw q reason →
  ∃ u, Used inp !! res = Some u ∧ overflowsMilliValue h = false ∧ overflowsMilliValue u = false ∧
    let t := (targetFor inp res (MilliValue u) (HeadroomFor (InPolicy inp) res)).1 in
    let capped := scale_milli (MilliValue h) (F64.sub F64.one (MaxShrinkStep (InPolicy inp))) in
    F64.lt (F64.of_Z t) (F64.mul (F64.of_Z (MilliValue h)) (F64.sub F64.one (Tolerance (InPolicy inp)))) = true ∧
    q = Quantize res (Z.max t capped) (QFormat h) ∧ q_ge q h = false.
Proof.
  unfold evaluate. destruct (overflowsMilliValue h) eqn:Eh; [done|].
  destruct (MilliValue h =? 0); [done|]. destruct (Used inp !! res) as [u|]; [|done].
  destruct (overflowsMilliValue u) eqn:Eu; [done|].
  destruct (targetFor _ _ _ _) as [t driver] eqn:Et. unfold candidate.
  destruct (F64.lt (F64.mul _ _) _); [by destruct (q_le _ h)|].
  destruct (F64.lt _ (F64.mul _ _)) eqn:Elt; [|done].
  destruct (q_ge _ h) eqn:Eq; [done|]. intros [= <- <- <-]. exists u. rewrite Et. simpl.
  by repeat split.
Qed.

(** The step cap is between zero and the hard limit. *)
Lemma capped_bounds inp h :
  policy_ok (InPolicy inp) → 0 <= h <= 2 ^ 53 →
  0 <= scale_milli h (F64.sub F64.one (MaxShrinkStep (InPolicy inp))) <= h.
Proof.
  intros (_ & _ & (Hv & H0 & H1) & _) Hh.
  assert (H0' : F64.le F64.zero (MaxShrinkStep (InPolicy inp)) = true).
  { unfold F64.lt, F64.le, SFltb, SFleb in *. by destruct (SFcompare _ _) as [[]|]. }
  destruct (F64Mono.one_minus _ Hv H0' H1) as (Hn & v & Hval & Hb).
  by apply (F64Mono.scale_down_int64 h _ v).
Qed.

Lemma below_band inp h t :
  policy_ok (InPolicy inp) → 0 <= h <= 2 ^ 53 → 0 <= t <= max_int64 →
  F64.lt (F64.of_Z t) (F64.mul (F64.of_Z h) (F64.sub F64.one (Tolerance (InPolicy inp)))) = true → t < h.
Proof.
  intros (_ & (Hv & H0 & H1) & _) Hh Ht Hlt.
  destruct (F64Mono.one_minus _ Hv H0 H1) as (Hn & v & Hval & Hb).
  exact (F64Mono.lt_scaled t h _ v Hh Hn Hval Hb Ht Hlt).
Qed.

(** What a target of a shrink is worth. *)
Lemma shrink_target inp res h raw q reason :
  policy_ok (InPolicy inp) → input_in_range inp → Hard inp !! res = Some h →
  evaluate inp res h = OShrink raw q reason →
  ∃ u, Used inp !! res = Some u ∧ nano q < nano h ∧
    let t := (targetFor inp res (MilliValue u) (HeadroomFor (InPolicy inp) res)).1 in
    let capped := scale_milli (MilliValue h) (F64.sub F64.one (MaxShrinkStep (InPolicy inp))) in
    usage_in_range inp res (MilliValue u) ∧ nano u <= MilliValue u * nano_per_milli ∧
    t * nano_per_milli <= nano q ∧ capped * nano_per_milli <= nano q.
Proof.
  intros Hp Hr Hh He. destruct (evaluate_shrink _ _ _ _ _ _ He) as (u & Hu & Oh & Ou & Hlt & -> & Hq).
  destruct (Hr res h u Hh Hu) as (Hh53 & Hur). destruct (milli_value h Oh) as (_ & Hh0 & _).
  destruct (milli_value u Ou) as (_ & Hu0 & Hun).
  pose proof (targetFor_bounds inp res (MilliValue u) Hp Hur) as (Ht & _).
  pose proof (capped_bounds inp (MilliValue h) Hp ltac:(lia)) as Hc.
  cbv zeta in *. set (t := (targetFor inp res (MilliValue u) (HeadroomFor (InPolicy inp) res)).1) in *.
  assert (Hth : t < MilliValue h) by (apply (below_band inp); [done|lia|lia|done]).
  set (capped := scale_milli _ _) in *.
  assert (Hm : 0 <= Z.max t capped <= 2 ^ 53) by lia.
  exists u. split; [done|]. cbv zeta.
  rewrite q_ge_nano in Hq. apply Z.leb_gt in Hq. split; [done|].
  assert (Hz : Z.max t capped * nano_per_milli <= nano (Quantize res (Z.max t capped) (QFormat h))).
  { rewrite Quantize_nano by done. pose proof (quantum_pos res).
    pose proof (proj1 (cdiv_spec (Z.max t capped * nano_per_milli) _ _ ltac:(done)) eq_refl). lia. }
  split; [done|]. split; [done|]. unfold nano_per_milli in *. lia.
Qed.

End targets.

Section theorems.
  Context {KQ : KubeQuantity} {QL : QuantityLaws KQ} {GA : GoArch} {GR : GoRange}.

Lemma Decide_shrink_cases inp :
  DDirection (Decide inp) = DirectionShrink →
  Enabled (InPolicy inp) = true ∧ evaluated inp grow_of (Hard inp) = ∅ ∧
  Targets (Decide inp) = evaluated inp shrink_of (Hard inp) ∧
  shrinkGates inp (evaluated inp shrink_of (Hard inp)) = [].
Proof.
  intros Hd. destruct (Enabled (InPolicy inp)) eqn:He.
  2: { unfold Decide in Hd. by rewrite He in Hd. }
  rewrite Decide_eq in * by done.
  destruct (decide (evaluated inp grow_of (Hard inp) = ∅)) as [Hg|Hg].
  2: { destruct (conclude_grow inp {| growTargets := evaluated inp grow_of (Hard inp);
         shrinkTargets := evaluated inp shrink_of (Hard inp); rawTargets := evaluated inp raw_of (Hard inp);
         growReasons := omap (λ kv, grow_reason (evaluate inp kv.1 kv.2)) (range 13 (Hard inp));
         shrinkReasons := omap (λ kv, shrink_reason (evaluate inp kv.1 kv.2)) (range 13 (Hard inp)) |})
         as (Hdir & _); [done|]. congruence. }
  rewrite conclude_no_grow in * by done. cbn [shrinkTargets rawTargets shrinkReasons] in *.
  destruct (decide (evaluated inp shrink_of (Hard inp) = ∅)); [done|].
  by destruct (shrinkGates inp _).
Qed.

Lemma no_gates inp targets :
  shrinkGates inp targets = [] →
  ShrinkEnabled (InPolicy inp) = true ∧
  (∀ res, is_Some (targets !! res) →
    IsComplete (InWindow inp) res (Now inp) (WindowDays (InPolicy inp)) = true) ∧
  (LastGrow inp = Time.zero ∨ days (WindowDays (InPolicy inp)) <= Time.Sub (Now inp) (LastGrow inp)) ∧
  (LastShrink inp = Time.zero ∨ ShrinkCooldown (InPolicy inp) <= Time.Sub (Now inp) (LastShrink inp)).
Proof.
  unfold shrinkGates, Time.IsZero, Time.zero. destruct (ShrinkEnabled _); [|done].
  destruct (forallb _ _) eqn:Ef; [|done].
  destruct (Z.eqb_spec (LastGrow inp) 0), (Z.eqb_spec (LastShrink inp) 0); cbn [negb andb app];
    destruct (Z.ltb_spec (Time.Sub (Now inp) (LastGrow inp)) (days (WindowDays (InPolicy inp)))),
      (Z.ltb_spec (Time.Sub (Now inp) (LastShrink inp)) (ShrinkCooldown (InPolicy inp))); try done.
  all: intros _; (split; [done|]); (split; [|by auto]); intros res [q Hq].
  all: rewrite forallb_forall in Ef; apply (Ef (res, q)), list_elem_of_In, elem_of_range, Hq.
Qed.

(** The gates, exactly: each is reported when, and only when, it does not hold. *)
Theorem shrinkGates_exact inp targets :
  (GateEnabled ∈ shrinkGates inp targets ↔ ShrinkEnabled (InPolicy inp) = false) ∧
  (GateWindow ∈ shrinkGates inp targets ↔
     ∃ res, is_Some (targets !! res) ∧
       IsComplete (InWindow inp) res (Now inp) (WindowDays (InPolicy inp)) = false) ∧
  (GateRecentGrow ∈ shrinkGates inp targets ↔
     LastGrow inp ≠ Time.zero ∧ Time.Sub (Now inp) (LastGrow inp) < days (WindowDays (InPolicy inp))) ∧
  (GateCooldown ∈ shrinkGates inp targets ↔
     LastShrink inp ≠ Time.zero ∧ Time.Sub (Now inp) (LastShrink inp) < ShrinkCooldown (InPolicy inp)) ∧
  NoDup (shrinkGates inp targets).
Proof.
  unfold shrinkGates. set (W := forallb _ (range 12 targets)).
  assert (HW : W = false ↔ ∃ res, is_Some (targets !! res) ∧
       IsComplete (InWindow inp) res (Now inp) (WindowDays (InPolicy inp)) = false).
  { unfold W. rewrite <- not_true_iff_false, forallb_forall. split.
    - intros Hn. destruct (decide (Exists (λ kv, IsComplete (InWindow inp) kv.1 (Now inp) (WindowDays (InPolicy inp)) = false)
        (range 12 targets))) as [Hex|Hex].
      + apply Exists_exists in Hex as ([res q] & Hin & Hc). apply elem_of_range in Hin.
        exists res. split; [by exists q|done].
      + exfalso. apply Hn. intros [res q] Hin%list_elem_of_In. apply not_false_iff_true. intros Hc.
        apply Hex, Exists_exists. by exists (res, q).
    - intros (res & [q Hq] & Hc) Hall. apply (elem_of_range 12), list_elem_of_In, Hall in Hq.
      simpl in Hq. congruence. }
  rewrite <- HW. unfold Time.IsZero.
  destruct (ShrinkEnabled (InPolicy inp)), W, (Z.eqb_spec (LastGrow inp) 0), (Z.eqb_spec (LastShrink inp) 0);
    cbn [negb andb app];
    destruct (Z.ltb_spec (Time.Sub (Now inp) (LastGrow inp)) (days (WindowDays (InPolicy inp)))),
      (Z.ltb_spec (Time.Sub (Now inp) (LastShrink inp)) (ShrinkCooldown (InPolicy inp)));
    cbn [app]; rewrite ?elem_of_cons, ?elem_of_nil; unfold Time.zero;
    (repeat split; intros; try done; try tauto; try (intuition (congruence || lia)));
    repeat constructor; rewrite ?elem_of_cons, ?elem_of_nil; intuition congruence.
Qed.

(** The target [q] of a shrink of [res] is below the limit, but not below what is
    used, was used in the window, is missing, is the minimum, or is one step. *)
Definition safe_target (inp : Input) (res : string) (q : Quantity) : Prop :=
  let pol := InPolicy inp in
  IsComplete (InWindow inp) res (Now inp) (WindowDays pol) = true ∧
  ∃ h u, Hard inp !! res = Some h ∧ Used inp !! res = Some u ∧
    nano u <= nano q < nano h ∧
    (∀ p, Peak (InWindow inp) res (Now inp) (WindowDays pol) = Some p → p * nano_per_milli <= nano q) ∧
    (∀ d, Deficits inp !! res = Some d → (MilliValue u + d) * nano_per_milli <= nano q) ∧
    (∀ f, MinFor pol res = Some f → MilliValue f * nano_per_milli <= nano q) ∧
    scale_milli (MilliValue h) (F64.sub F64.one (MaxShrinkStep pol)) * nano_per_milli <= nano q.

Lemma shrink_decision_safe inp :
  policy_ok (InPolicy inp) → input_in_range inp →
  DDirection (Decide inp) = DirectionShrink →
  let pol := InPolicy inp in
  Enabled pol = true ∧ ShrinkEnabled pol = true ∧
  (LastGrow inp = Time.zero ∨ days (WindowDays pol) <= Time.Sub (Now inp) (LastGrow inp)) ∧
  (LastShrink inp = Time.zero ∨ ShrinkCooldown pol <= Time.Sub (Now inp) (LastShrink inp)) ∧
  ∀ res q, Targets (Decide inp) !! res = Some q → safe_target inp res q.
Proof.
  intros Hp Hr Hd. cbv zeta. destruct (Decide_shrink_cases inp Hd) as (He & _ & Ht & Hg).
  split; [done|]. destruct (no_gates _ _ Hg) as (H1 & H2 & H3 & H4).
  split; [done|]. split; [done|]. split; [done|]. intros res q. rewrite Ht. intros Hq.
  split; [apply H2; by exists q|]. rewrite evaluated_lookup in Hq.
  destruct (Hard inp !! res) as [h|] eqn:Hh; [|done]. simpl in Hq.
  destruct (evaluate inp res h) as [| | |raw q' reason] eqn:Ev; try done. simpl in Hq. simplify_eq.
  destruct (shrink_target inp res h raw q reason Hp Hr Hh Ev) as (u & Hu & Hlt & Hur & Hun & Htq & Hcq).
  destruct (targetFor_bounds inp res (MilliValue u) Hp Hur) as (Hb & Hpk & Hdf & Hmin).
  set (t := (targetFor inp res (MilliValue u) (HeadroomFor (InPolicy inp) res)).1) in *.
  exists h, u. split; [done|]. split; [done|]. unfold nano_per_milli in *. split; [lia|].
  split; [intros p Ep; specialize (Hpk p Ep); lia|].
  split; [intros d Ed; specialize (Hdf d Ed); lia|].
  split; [intros f Ef; specialize (Hmin f Ef); lia|done].
Qed.


(** A resource asks to grow: it is measurable, its target is above the tolerance
    band and, after rounding, above the hard limit. *)
Definition wants_grow (inp : Input) (res : string) (q : Quantity) : Prop :=
  ∃ h u, Hard inp !! res = Some h ∧ Used inp !! res = Some u ∧
    overflowsMilliValue h = false ∧ overflowsMilliValue u = false ∧ MilliValue h ≠ 0 ∧
    let t := (targetFor inp res (MilliValue u) (HeadroomFor (InPolicy inp) res)).1 in
    F64.lt (F64.mul (F64.of_Z (MilliValue h)) (F64.add F64.one (Tolerance (InPolicy inp)))) (F64.of_Z t) = true ∧
    q = Quantize res t (QFormat h) ∧ nano h < nano q.

Lemma evaluated_grow inp res q :
  evaluated inp grow_of (Hard inp) !! res = Some q ↔ wants_grow inp res q.
Proof.
  rewrite evaluated_lookup. unfold wants_grow. split.
  - destruct (Hard inp !! res) as [h|]; [|done]. simpl. unfold evaluate.
    destruct (overflowsMilliValue h) eqn:Eh; [done|]. destruct (Z.eqb_spec (MilliValue h) 0); [done|].
    destruct (Used inp !! res) as [u|]; [|done]. destruct (overflowsMilliValue u) eqn:Eu; [done|].
    intros Hq. exists h, u. split; [done|]. split; [done|]. split; [done|]. split; [done|]. split; [done|].
    destruct (targetFor _ _ _ _) as [t driver]. unfold candidate in Hq. cbn [fst].
    destruct (F64.lt (F64.mul _ _) _) eqn:Elt.
    + destruct (q_le _ h) eqn:El; [done|]. simpl in Hq. simplify_eq. split; [done|]. split; [done|].
      rewrite q_le_nano in El. by apply Z.leb_gt in El.
    + destruct (F64.lt _ (F64.mul _ _)); [|done]. by destruct (q_ge _ h).
  - intros (h & u & -> & Hu & Eh & Eu & Hne & Hlt & -> & Hgt). simpl. unfold evaluate.
    rewrite Eh, (proj2 (Z.eqb_neq _ _) Hne), Hu, Eu. destruct (targetFor _ _ _ _) as [t driver].
    cbn [fst] in *. unfold candidate. rewrite Hlt, q_le_nano, (proj2 (Z.leb_gt _ _) Hgt). done.
Qed.

Lemma Decide_grow_targets inp :
  Enabled (InPolicy inp) = true → evaluated inp grow_of (Hard inp) ≠ ∅ →
  DDirection (Decide inp) = DirectionGrow ∧ Targets (Decide inp) = evaluated inp grow_of (Hard inp).
Proof.
  intros He Hne. rewrite Decide_eq by done. edestruct conclude_grow as (H1 & H2 & _); [|by split]. done.
Qed.

Lemma Decide_grow_cases inp :
  DDirection (Decide inp) = DirectionGrow →
  Enabled (InPolicy inp) = true ∧ evaluated inp grow_of (Hard inp) ≠ ∅.
Proof.
  intros Hd. destruct (Enabled (InPolicy inp)) eqn:He.
  2: { unfold Decide in Hd. by rewrite He in Hd. }
  split; [done|]. intros Hg. rewrite Decide_eq, conclude_no_grow in Hd by done.
  destruct (decide _); [done|]. by destruct (shrinkGates _ _).
Qed.

(** Growing wins. An enabled quota grows exactly when some resource asks to, and
    then the targets are those of the resources that ask to, each above its hard
    limit: no resource is lowered in the same decision. *)
Theorem Decide_grow_wins inp :
  (DDirection (Decide inp) = DirectionGrow ↔
     Enabled (InPolicy inp) = true ∧ ∃ res q, wants_grow inp res q) ∧
  (DDirection (Decide inp) = DirectionGrow → ∀ res q,
     Targets (Decide inp) !! res = Some q ↔ wants_grow inp res q).
Proof.
  assert (Hne : evaluated inp grow_of (Hard inp) ≠ ∅ ↔ ∃ res q, wants_grow inp res q).
  { setoid_rewrite <- evaluated_grow. split.
    - intros H. apply map_choose in H as (res & q & H). by exists res, q.
    - intros (res & q & H) E. by rewrite E, lookup_empty in H. }
  split.
  - rewrite <- Hne. split; [apply Decide_grow_cases|]. intros [He Hg]. by apply Decide_grow_targets.
  - intros Hd res q. destruct (Decide_grow_cases inp Hd) as [He Hg].
    destruct (Decide_grow_targets inp He Hg) as [_ ->]. apply evaluated_grow.
Qed.

(** C10. What a grow target is worth: enough for the current usage, the peak, every
    pending workload and the configured minimum, provided that these amounts and
    the target are within the exact range (2^53 thousandths) and the headroom is
    at most 1000. Outside that range it is not:
    [DecideDynamics.infinite_headroom_grows_short]. *)
Theorem Decide_grow_covers inp res q :
  policy_ok (InPolicy inp) →
  (∀ u, Used inp !! res = Some u → usage_in_range inp res (MilliValue u) ∧
     (targetFor inp res (MilliValue u) (HeadroomFor (InPolicy inp) res)).1 <= 2 ^ 53) →
  DDirection (Decide inp) = DirectionGrow → Targets (Decide inp) !! res = Some q →
  ∃ h u, Hard inp !! res = Some h ∧ Used inp !! res = Some u ∧ nano h < nano q ∧ nano u <= nano q ∧
    (∀ p, Peak (InWindow inp) res (Now inp) (WindowDays (InPolicy inp)) = Some p → p * nano_per_milli <= nano q) ∧
    (∀ d, Deficits inp !! res = Some d → (MilliValue u + d) * nano_per_milli <= nano q) ∧
    (∀ f, MinFor (InPolicy inp) res = Some f → MilliValue f * nano_per_milli <= nano q).
Proof.
  intros Hp Hr Hd Hq. destruct (Decide_grow_cases inp Hd) as [He Hg].
  rewrite (proj2 (Decide_grow_targets inp He Hg)), evaluated_grow in Hq.
  destruct Hq as (h & u & Hh & Hu & Eh & Eu & _ & _ & -> & Hgt).
  destruct (Hr u Hu) as [Hur Ht]. destruct (milli_value u Eu) as (_ & Hu0 & Hun).
  destruct (targetFor_bounds inp res (MilliValue u) Hp Hur) as (Hb & Hpk & Hdf & Hmin).
  set (t := (targetFor inp res (MilliValue u) (HeadroomFor (InPolicy inp) res)).1) in *.
  exists h, u. do 3 (split; [done|]).
  assert (Hz : t * nano_per_milli <= nano (Quantize res t (QFormat h))).
  { rewrite Quantize_nano by lia. pose proof (quantum_pos res).
    pose proof (proj1 (cdiv_spec (t * nano_per_milli) _ _ ltac:(done)) eq_refl). lia. }
  unfold nano_per_milli in *. split; [lia|].
  split; [intros p Ep; specialize (Hpk p Ep); lia|].
  split; [intros d Ed; specialize (Hdf d Ed); lia|].
  intros f Ef. specialize (Hmin f Ef). lia.
Qed.

(** The input after the proposed limits were applied. *)
Definition applied (inp : Input) : Input := {|
  Now := Now inp; Hard := Targets (Decide inp) ∪ Hard inp; Used := Used inp; Deficits := Deficits inp;
  InWindow := InWindow inp; InPolicy := InPolicy inp; LastGrow := LastGrow inp; LastShrink := LastShrink inp
|}.

Lemma quantum_bound res : quantum res <= 2 ^ 20 * nano_per_unit.
Proof. unfold quantum. repeat case_match; by vm_compute. Qed.

(** A resource whose limit is at its target does not ask for more. *)
Lemma at_target_no_grow inp res t q :
  policy_ok (InPolicy inp) → 0 <= t <= 2 ^ 52 → nano q = nano (Quantize res t (QFormat q)) →
  F64.lt (F64.mul (F64.of_Z (MilliValue q)) (F64.add F64.one (Tolerance (InPolicy inp)))) (F64.of_Z t) = false.
Proof.
  intros (_ & (Hv & H0 & H1) & _) Ht Hq. rewrite Quantize_nano in Hq by lia.
  pose proof (quantum_pos res). pose proof (quantum_bound res).
  pose proof (proj1 (cdiv_spec (t * nano_per_milli) (quantum res) _ ltac:(done)) eq_refl) as Hc.
  rewrite <- Hq in Hc. set (c := cdiv (t * nano_per_milli) (quantum res)) in *.
  assert (Hn : t * nano_per_milli <= nano q < t * nano_per_milli + 2 ^ 20 * nano_per_unit) by lia.
  clearbody c. unfold nano_per_milli, nano_per_unit in Hn.
  assert (Hm : MilliValue q = cdiv (nano q) nano_per_milli)
    by (apply milli_nano; unfold cdiv, nano_per_milli; lia64).
  assert (t <= MilliValue q <= 2 ^ 53) by (rewrite Hm; unfold cdiv, nano_per_milli; lia).
  apply F64Mono.scale_up_not_lt; [lia|lia|by split|done].
Qed.

(** Growing settles in one step: when the proposed limits have been applied and
    nothing else changed, the next decision does not grow again. *)
Theorem Decide_grow_settles inp :
  policy_ok (InPolicy inp) →
  (∀ res u, Used inp !! res = Some u → usage_in_range inp res (MilliValue u) ∧
     (targetFor inp res (MilliValue u) (HeadroomFor (InPolicy inp) res)).1 <= 2 ^ 52) →
  DDirection (Decide inp) = DirectionGrow → DDirection (Decide (applied inp)) ≠ DirectionGrow.
Proof.
  intros Hp Hr Hd Hd'. destruct (Decide_grow_cases inp Hd) as [He Hg].
  destruct (Decide_grow_cases _ Hd') as [_ Hg']. apply map_choose in Hg' as (res & q & Hq).
  apply evaluated_grow in Hq as (h & u & Hh & Hu & Eh & Eu & Hne & Hlt & -> & Hgt).
  cbn [applied Hard Used InPolicy] in *.
  change (targetFor (applied inp)) with (targetFor inp) in *.
  rewrite (proj2 (Decide_grow_targets inp He Hg)), lookup_union in Hh.
  destruct (evaluated inp grow_of (Hard inp) !! res) as [q|] eqn:Eq.
  - rewrite union_Some_l in Hh. injection Hh as <-.
    apply evaluated_grow in Eq as (h & u' & _ & Hu' & _ & _ & _ & _ & Hq & _).
    rewrite Hu in Hu'. injection Hu' as <-. destruct (Hr res u Hu) as [Hur Ht].
    destruct (targetFor_bounds inp res (MilliValue u) Hp Hur) as (Hb & _). destruct Hur as [Hu0 _].
    rewrite (at_target_no_grow inp res _ q Hp) in Hlt; [done|lia|].
    rewrite !Quantize_nano by lia. rewrite Hq. by rewrite Quantize_nano by lia.
  - rewrite (left_id_L None (∪)) in Hh.
    assert (wants_grow inp res (Quantize res (targetFor inp res (MilliValue u) (HeadroomFor (InPolicy inp) res)).1 (QFormat h)))
      as Hw by (exists h, u; done).
    apply evaluated_grow in Hw. congruence.
Qed.
End theorems.

Section order.
  Context {KQ : KubeQuantity} {GA : GoArch}.

Lemma shrinkGates_det (R1 R2 : GoRange) inp targets :
  @shrinkGates KQ R1 inp targets = @shrinkGates KQ R2 inp targets.
Proof.
  unfold shrinkGates. do 2 f_equal.
  assert (∀ (f : string * Quantity → bool) l1 l2, l1 ≡ₚ l2 → forallb f l1 = forallb f l2) as Hperm.
  { intros f l1 l2 Hp. apply eq_true_iff_eq. rewrite !forallb_forall.
    setoid_rewrite <- list_elem_of_In. by setoid_rewrite Hp. }
  by rewrite (Hperm _ _ _ (range_perm2 R1 R2 12 12 targets)).
Qed.

(** C34. The decision, reasons included, does not depend on the order in which Go
    visits the hard limits and the targets. *)
Theorem Decide_deterministic (R1 R2 : GoRange) (inp : Input) :
  @Decide KQ R1 GA inp = @Decide KQ R2 GA inp.
Proof.
  destruct (Enabled (InPolicy inp)) eqn:He; [|by unfold Decide; rewrite He].
  rewrite !Decide_eq by done. unfold conclude.
  cbn [growTargets shrinkTargets rawTargets growReasons shrinkReasons].
  rewrite (shrinkGates_det R1 R2).
  pose proof (range_perm2 R1 R2 13 13 (Hard inp)) as Hp.
  rewrite (Str.sort_proper (omap _ (@range R1 _ 13 _)) (omap (λ kv, grow_reason (evaluate inp kv.1 kv.2)) (@range R2 _ 13 _)))
    by by rewrite Hp.
  by rewrite (Str.sort_proper (omap (λ kv, shrink_reason (evaluate inp kv.1 kv.2)) (@range R1 _ 13 _))
    (omap (λ kv, shrink_reason (evaluate inp kv.1 kv.2)) (@range R2 _ 13 _))) by by rewrite Hp.
Qed.
End order.

(** ** Examples *)

Section examples.
  #[local] Existing Instance nano_quantity.
  #[local] Existing Instance nano_quantity_laws.
  #[local] Existing Instance range_ascending.
  #[local] Existing Instance amd64.

Definition cores (n : Z) : Quantity := NewQuantity n DecimalSI.

(** A quota of 100 cores, of which 10 are used and at most 47 were. *)
Definition shrink_input : Input := {|
  Now := next_day; Hard := {[ "cpu" := cores 100 ]}; Used := {[ "cpu" := cores 10 ]}; Deficits := ∅;
  InWindow := observe_all "u1" 1 empty_window sample_day; InPolicy := set_window_days 1 DefaultPolicy;
  LastGrow := 0; LastShrink := 0 |}.

(** A quota of 10 cores that is full. *)
Definition grow_input : Input := {|
  Now := next_day; Hard := {[ "cpu" := cores 10 ]}; Used := {[ "cpu" := cores 10 ]};
  Deficits := {[ "cpu" := 2500 ]}; InWindow := empty_window; InPolicy := DefaultPolicy;
  LastGrow := 0; LastShrink := 0 |}.

Lemma set_window_days_ok n p : policy_ok p → 0 < n → in_int64 n → policy_ok (set_window_days n p).
Proof.
  intros (H1 & H2 & H3 & _ & _ & H6 & H7 & H8) Hn Hi.
  exact (conj H1 (conj H2 (conj H3 (conj Hn (conj Hi (conj H6 (conj H7 H8))))))).
Qed.

Lemma usage_in_range_intro inp res used peak deficit :
  0 <= used <= 2 ^ 53 →
  F64.le (HeadroomFor (InPolicy inp) res) (F64.of_Z 1000) = true →
  Peak (InWindow inp) res (Now inp) (WindowDays (InPolicy inp)) = peak → default 0 peak <= 2 ^ 53 →
  Deficits inp !! res = deficit → used + default 0 deficit <= 2 ^ 53 →
  usage_in_range inp res used.
Proof.
  intros Hu Hh <- Hp <- Hd. split; [done|]. split; [done|]. split.
  - intros v Hv. rewrite Hv in Hp. exact Hp.
  - intros d Ed. rewrite Ed in Hd. exact Hd.
Qed.

Lemma shrink_input_in_range : input_in_range shrink_input.
Proof.
  intros res h u Hh Hu. cbn [shrink_input Hard Used] in *.
  apply lookup_singleton_Some in Hh as [<- <-], Hu as [_ <-].
  split; [vm_compute; congruence|].
  apply (usage_in_range_intro _ _ _ (Some 47000) None); vm_compute; try reflexivity; try split; congruence.
Qed.

Lemma grow_input_in_range res u :
  Used grow_input !! res = Some u →
  usage_in_range grow_input res (MilliValue u) ∧
  (targetFor grow_input res (MilliValue u) (HeadroomFor (InPolicy grow_input) res)).1 <= 2 ^ 52.
Proof.
  intros Hu. cbn [grow_input Used] in *. apply lookup_singleton_Some in Hu as [<- <-].
  split; [|vm_compute; congruence].
  apply (usage_in_range_intro _ _ _ None (Some 2500)); vm_compute; try reflexivity; try split; congruence.
Qed.


Lemma Decide_grow_covers_witness :
  Targets (Decide grow_input) !! "cpu" = Some (NewMilliQuantity 15625 DecimalSI) ∧
  ∃ h u, Hard grow_input !! "cpu" = Some h ∧ Used grow_input !! "cpu" = Some u ∧
    nano h < nano (NewMilliQuantity 15625 DecimalSI).
Proof.
  assert (Hr : ∀ u, Used grow_input !! "cpu" = Some u →
    usage_in_range grow_input "cpu" (MilliValue u) ∧
    (targetFor grow_input "cpu" (MilliValue u) (HeadroomFor (InPolicy grow_input) "cpu")).1 <= 2 ^ 53).
  { intros u Hu. destruct (grow_input_in_range "cpu" u Hu). split; [assumption|lia]. }
  assert (Hd : DDirection (Decide grow_input) = DirectionGrow) by (vm_compute; reflexivity).
  assert (Ht : Targets (Decide grow_input) !! "cpu" = Some (NewMilliQuantity 15625 DecimalSI))
    by (vm_compute; reflexivity).
  destruct (Decide_grow_covers grow_input "cpu" _ DefaultPolicy_ok Hr Hd Ht) as (h & u & H1 & H2 & H3 & _).
  exact (conj Ht (ex_intro _ h (ex_intro _ u (conj H1 (conj H2 H3))))).
Defined.

Lemma Decide_grow_settles_witness :
  DDirection (Decide grow_input) = DirectionGrow ∧
  DDirection (Decide (applied grow_input)) ≠ DirectionGrow.
Proof.
  assert (Hd : DDirection (Decide grow_input) = DirectionGrow) by (vm_compute; reflexivity).
  exact (conj Hd (Decide_grow_settles grow_input DefaultPolicy_ok grow_input_in_range Hd)).
Defined.
End examples.
