(* ===== verification/DecideDynamics.v ===== *)
(** * The decision over time

    A shortage makes the quota grow; a decision that has been applied is not
    reversed by the next one; and shrinking comes to an end. *)

From S2P Require Export DecideTheorems.
From stdpp Require Export sorting base option gmap strings list fin_maps.

Open Scope Z_scope.

Section growth.
  Context {KQ : KubeQuantity} {QL : QuantityLaws KQ} {GA : GoArch} {GR : GoRange}.

Lemma Quantize_ge res m fmt : 0 <= m <= 2 ^ 53 → m * nano_per_milli <= nano (Quantize res m fmt).
Proof.
  intros Hm. rewrite Quantize_nano by done. pose proof (quantum_pos res).
  pose proof (proj1 (cdiv_spec (m * nano_per_milli) _ _ ltac:(done)) eq_refl). lia.
Qed.

Lemma Quantize_mono res m m' fmt fmt' :
  0 <= m <= m' → m' <= 2 ^ 53 → nano (Quantize res m fmt) <= nano (Quantize res m' fmt').
Proof.
  intros Hm Hm'. rewrite !Quantize_nano by lia. pose proof (quantum_pos res) as Hq.
  apply Z.mul_le_mono_nonneg_r; [lia|]. unfold cdiv. apply Z.opp_le_mono. rewrite !Z.opp_involutive.
  apply Z.div_le_mono; [done|]. unfold nano_per_milli. lia.
Qed.

(** ** A shortage *)

(** Something needs [n] thousandths of the resource: what runs now, what ran at
    the peak of the window, or what runs with the workloads that wait. *)
Inductive needs (inp : Input) (res : string) (used : Quantity) : Z → Prop :=
| needs_now : needs inp res used (MilliValue used)
| needs_peak p :
    Peak (InWindow inp) res (Now inp) (WindowDays (InPolicy inp)) = Some p → needs inp res used p
| needs_pending d : Deficits inp !! res = Some d → needs inp res used (MilliValue used + d).

Lemma needs_peak_milli inp res used n :
  overflowsMilliValue used = false → usage_in_range inp res (MilliValue used) → needs inp res used n →
  n <= (peak_milli inp res (MilliValue used)).1 <= 2 ^ 53.
Proof.
  intros Ho (Hu & _ & Hpk & Hd) Hn.
  destruct (peak_milli_spec inp res (MilliValue used)) as (H1 & H2 & H3 & H4); [lia| |].
  { intros d Ed. specialize (Hd d Ed). lia64. }
  split; [destruct Hn; auto|]. destruct H4 as [->|[H4|(d & H4 & ->)]]; [lia|by apply Hpk|by apply Hd].
Qed.

Lemma targetFor_scaled inp res used :
  scale_milli (peak_milli inp res used).1 (F64.add F64.one (HeadroomFor (InPolicy inp) res)) <=
  (targetFor inp res used (HeadroomFor (InPolicy inp) res)).1.
Proof.
  unfold targetFor. destruct (peak_milli inp res used) as [p driver]. cbn [fst].
  set (a := scale_milli p _). set (b := scale_milli used _).
  assert (Hx : ∀ o : Z * string, a <= o.1 →
    a <= (match MinFor (InPolicy inp) res with
          | Some floor => if o.1 <? MilliValue floor then (MilliValue floor, "configured minimum") else o
          | None => o
          end).1).
  { intros o Ho. destruct (MinFor _ _) as [f|]; [|done]. destruct (Z.ltb_spec o.1 (MilliValue f)); simpl; lia. }
  destruct (Z.ltb_spec a b).
  - apply (Hx (b, "current usage floor")). simpl. lia.
  - apply (Hx (a, driver)). simpl. lia.
Qed.

Lemma lt_of_Z_mono x a b :
  F64Facts.nonneg x → 0 <= a <= b → b <= 2 ^ 53 → F64.lt x (F64.of_Z a) = true → F64.lt x (F64.of_Z b) = true.
Proof.
  intros Hx Hab Hb. destruct (F64Facts.nonneg_value x Hx) as (m & e & _ & Hv).
  destruct (F64Facts.of_Z_exact a) as [Han Hav]; [lia|]. destruct (F64Facts.of_Z_exact b) as [Hbn Hbv]; [lia|].
  rewrite (F64Mono.lt_values _ _ _ _ Hx Han Hv Hav), (F64Mono.lt_values _ _ _ _ Hx Hbn Hv Hbv).
  intros Hlt. eapply Z.lt_le_trans; [exact Hlt|]. apply F64Lemmas.V_le_iff. lia.
Qed.

(** Above the limit is above the tolerance band, once it is scaled. *)
Lemma scaled_above_band inp res h n :
  policy_ok (InPolicy inp) → 0 <= h < n → n <= 2 ^ 53 →
  F64.le (HeadroomFor (InPolicy inp) res) (F64.of_Z 1000) = true →
  F64.le (Tolerance (InPolicy inp)) (HeadroomFor (InPolicy inp) res) = true →
  let s := scale_milli n (F64.add F64.one (HeadroomFor (InPolicy inp) res)) in
  s < 2 ^ 53 →
  F64Facts.nonneg (F64.mul (F64.of_Z h) (F64.add F64.one (Tolerance (InPolicy inp)))) ∧
  F64.lt (F64.mul (F64.of_Z h) (F64.add F64.one (Tolerance (InPolicy inp)))) (F64.of_Z s) = true.
Proof.
  intros Hp Hh Hn Hk Hle s Hs. destruct (HeadroomFor_ok _ res Hp) as [Hv H0].
  assert (Hhn : F64Facts.nonneg (HeadroomFor (InPolicy inp) res)).
  { destruct (F64Valid.valid_le_zero _ Hv H0) as [|Hi]; [done|by rewrite Hi in Hk]. }
  destruct Hp as (_ & (Hvt & Ht0 & Ht1) & _).
  assert (Hf : F64Valid.fraction_ok (Tolerance (InPolicy inp))) by done. split.
  - destruct (F64Mono.fraction_le_1000 _ Hf Ht1) as [Htn Htk].
    destruct (F64Lemmas.scale_up_rounds h _ ltac:(lia) Htn Htk) as (_ & Hm & _). exact Hm.
  - by apply F64Mono.scale_up_gap.
Qed.

(** A measurable resource, with a limit other than zero and amounts in the exact
    range, needs more than its limit, by however little. *)
Definition shortage (inp : Input) (res : string) (n : Z) : Prop :=
  ∃ h u, Hard inp !! res = Some h ∧ Used inp !! res = Some u ∧
    overflowsMilliValue h = false ∧ overflowsMilliValue u = false ∧ MilliValue h ≠ 0 ∧
    usage_in_range inp res (MilliValue u) ∧
    (targetFor inp res (MilliValue u) (HeadroomFor (InPolicy inp) res)).1 < 2 ^ 53 ∧
    needs inp res u n ∧ MilliValue h < n.

(** The decision grants [n] thousandths of the resource. *)
Definition grants (inp : Input) (d : Decide.Decision) (res : string) (n : Z) : Prop :=
  ∃ h q, Hard inp !! res = Some h ∧ Targets d !! res = Some q ∧ nano h < nano q ∧ n * nano_per_milli <= nano q.

Lemma shortage_granted inp res n :
  policy_ok (InPolicy inp) → Enabled (InPolicy inp) = true →
  F64.le (Tolerance (InPolicy inp)) (HeadroomFor (InPolicy inp) res) = true → shortage inp res n →
  DDirection (Decide inp) = DirectionGrow ∧ grants inp (Decide inp) res n.
Proof.
  intros Hp He Htol (h & u & Hh & Hu & Eh & Eu & Hne & Hur & Ht & Hn & Hlt).
  pose proof (needs_peak_milli inp res u n Eu Hur Hn) as Hpk. destruct (milli_value h Eh) as (_ & Hh0 & Hhn).
  pose proof (targetFor_scaled inp res (MilliValue u)) as Hs.
  destruct (scaled_above_band inp res (MilliValue h) (peak_milli inp res (MilliValue u)).1 Hp) as [Hnn Hband];
    [lia|lia|apply Hur|done|lia|].
  pose proof (scale_milli_up (peak_milli inp res (MilliValue u)).1 _ ltac:(lia) (HeadroomFor_ok _ res Hp)
    (proj1 (proj2 Hur))) as Hup.
  set (t := (targetFor inp res (MilliValue u) (HeadroomFor (InPolicy inp) res)).1) in *.
  set (q := Quantize res t (QFormat h)).
  pose proof (Quantize_ge res t (QFormat h) ltac:(lia)) as Hq. fold q in Hq.
  assert (Hw : wants_grow inp res q).
  { exists h, u. do 5 (split; [done|]). split; [|split; [done|unfold nano_per_milli in *; lia]].
    eapply lt_of_Z_mono; [exact Hnn| | |exact Hband]; lia. }
  assert (Hg : evaluated inp grow_of (Hard inp) ≠ ∅).
  { intros E. apply evaluated_grow in Hw. by rewrite E, lookup_empty in Hw. }
  destruct (Decide_grow_targets inp He Hg) as [Hd Htg]. split; [done|]. exists h, q.
  rewrite Htg, evaluated_grow. split; [done|]. split; [done|]. unfold nano_per_milli in *. lia.
Qed.

(** C11. A shortage makes the quota grow, and by enough. For a resource that has a
    limit other than zero, whose limit and usage are measurable, and whose usage,
    peak, pending need and target are within the exact range (2^53 thousandths,
    headroom at most 1000): when what it needs exceeds its limit, by however
    little, the decision is to grow, and the target covers the need. The resizer
    must be enabled, and the policy must leave at least as much headroom as it
    tolerates deviation, as the default policy does. *)
Theorem shortage_grows inp res n :
  policy_ok (InPolicy inp) → Enabled (InPolicy inp) = true →
  F64.le (Tolerance (InPolicy inp)) (HeadroomFor (InPolicy inp) res) = true → shortage inp res n →
  DDirection (Decide inp) = DirectionGrow ∧ grants inp (Decide inp) res n.
Proof. apply shortage_granted. Qed.

(** ** No decision is reversed *)

(** Where targets, including those of the floating-point rounding, are exact. *)
Definition targets_in_range (inp : Input) : Prop :=
  ∀ res u, Used inp !! res = Some u →
    usage_in_range inp res (MilliValue u) ∧
    (targetFor inp res (MilliValue u) (HeadroomFor (InPolicy inp) res)).1 <= 2 ^ 52.

(** A limit at its target is left alone. *)
Lemma at_target_keeps inp res u q t driver :
  policy_ok (InPolicy inp) → 0 <= t <= 2 ^ 52 → nano q = nano (Quantize res t (QFormat q)) →
  overflowsMilliValue q = false → Used inp !! res = Some u →
  shrink_of (candidate inp res q t driver) = None ∧ grow_of (candidate inp res q t driver) = None.
Proof.
  intros Hp Ht Hq Oq Hu. unfold candidate. rewrite (at_target_no_grow inp res t q Hp Ht Hq).
  destruct (F64.lt (F64.of_Z t) _) eqn:Elt; [|done]. destruct (milli_value q Oq) as (Hm & Hq0 & _).
  assert (Hq53 : MilliValue q <= 2 ^ 53).
  { rewrite Quantize_nano in Hq by lia. pose proof (quantum_pos res). pose proof (quantum_bound res).
    pose proof (proj1 (cdiv_spec (t * nano_per_milli) (quantum res) _ ltac:(done)) eq_refl) as Hc.
    rewrite <- Hq in Hc. set (c := cdiv (t * nano_per_milli) (quantum res)) in *. clearbody c.
    rewrite Hm. unfold cdiv, nano_per_milli, nano_per_unit in *. lia. }
  pose proof (capped_bounds inp (MilliValue q) Hp ltac:(lia)) as Hc.
  set (qty := Quantize res (t `max` _) _). assert (Hge : q_ge qty q = true); [|by rewrite Hge].
  rewrite q_ge_nano, Hq. apply Z.leb_le, Quantize_mono; lia.
Qed.

Lemma Decide_none_targets inp : DDirection (Decide inp) = DirectionNone → Targets (Decide inp) = ∅.
Proof.
  unfold Decide. destruct (negb _); [done|]. unfold conclude. by repeat case_match.
Qed.

Lemma Decide_shrink_targets inp : DDirection (Decide inp) = DirectionShrink → Targets (Decide inp) ≠ ∅.
Proof.
  intros Hd Hz. destruct (Decide_shrink_cases inp Hd) as (He & Hg & Ht & _). rewrite Ht in Hz.
  by rewrite Decide_eq, conclude_no_grow, Hz in Hd.
Qed.

(** The input after the decision was applied, resource by resource. *)
Lemma evaluate_applied inp : evaluate (applied inp) = evaluate inp.
Proof. done. Qed.

Lemma applied_hard inp res :
  Hard (applied inp) !! res =
    match Targets (Decide inp) !! res with Some q => Some q | None => Hard inp !! res end.
Proof.
  unfold applied. cbn [Hard]. rewrite lookup_union. destruct (Targets (Decide inp) !! res) as [q|].
  - by rewrite union_Some_l.
  - by rewrite (left_id_L None (∪)).
Qed.

Lemma applied_no_grow inp :
  (∀ res q, Targets (Decide inp) !! res = Some q → grow_of (evaluate inp res q) = None) →
  (∀ res h, Targets (Decide inp) !! res = None → Hard inp !! res = Some h → grow_of (evaluate inp res h) = None) →
  DDirection (Decide (applied inp)) ≠ DirectionGrow.
Proof.
  intros Ht Hn [_ Hg]%Decide_grow_cases. apply Hg, map_eq. intros res.
  rewrite lookup_empty, evaluated_lookup, applied_hard, evaluate_applied.
  destruct (Targets (Decide inp) !! res) as [q|] eqn:E; [by apply Ht|].
  destruct (Hard inp !! res) as [h|] eqn:Eh; [by apply Hn|done].
Qed.

(** The evaluation of a limit that was put to a target. *)
Lemma evaluate_measured inp res q u :
  Used inp !! res = Some u → overflowsMilliValue u = false →
  evaluate inp res q = OSkip ∨ overflowsMilliValue q = false ∧
  ∃ driver, evaluate inp res q =
    candidate inp res q (targetFor inp res (MilliValue u) (HeadroomFor (InPolicy inp) res)).1 driver.
Proof.
  intros Hu Ou. unfold evaluate. destruct (overflowsMilliValue q); [by left|].
  destruct (MilliValue q =? 0); [by left|]. rewrite Hu, Ou. right. split; [done|].
  destruct (targetFor _ _ _ _) as [t driver]. by exists driver.
Qed.

Lemma grown_keeps inp res q :
  policy_ok (InPolicy inp) → targets_in_range inp → wants_grow inp res q →
  shrink_of (evaluate inp res q) = None ∧ grow_of (evaluate inp res q) = None.
Proof.
  intros Hp Hr (h & u & _ & Hu & _ & Ou & _ & _ & -> & _). destruct (Hr res u Hu) as [Hur Ht].
  destruct (targetFor_bounds inp res (MilliValue u) Hp Hur) as (Hb & _). destruct Hur as [Hu0 _].
  set (t := (targetFor inp res (MilliValue u) (HeadroomFor (InPolicy inp) res)).1) in *.
  destruct (evaluate_measured inp res (Quantize res t (QFormat h)) u Hu Ou) as [->|(Oq & driver & ->)]; [done|].
  eapply at_target_keeps; [done|fold t; lia| |done|done]. fold t. by rewrite !Quantize_nano by lia.
Qed.

Lemma shrunk_no_grow inp res h q :
  policy_ok (InPolicy inp) → input_in_range inp → Hard inp !! res = Some h →
  shrink_of (evaluate inp res h) = Some q → grow_of (evaluate inp res q) = None.
Proof.
  intros Hp Hr Hh Hs. destruct (evaluate inp res h) as [| | |raw q' reason] eqn:Ev; try done. injection Hs as ->.
  destruct (evaluate_shrink _ _ _ _ _ _ Ev) as (u & Hu & Oh & Ou & _).
  destruct (shrink_target inp res h raw q reason Hp Hr Hh Ev) as (u' & Hu' & Hlt & Hur & _ & Ht & _).
  rewrite Hu in Hu'. injection Hu' as <-. destruct (Hr res h u Hh Hu) as [Hh53 _].
  destruct (targetFor_bounds inp res (MilliValue u) Hp Hur) as (Hb & _). destruct Hur as [Hu0 _].
  set (t := (targetFor inp res (MilliValue u) (HeadroomFor (InPolicy inp) res)).1) in *.
  destruct (evaluate_measured inp res q u Hu Ou) as [->|(Oq & driver & ->)]; [done|]. fold t.
  destruct (milli_value q Oq) as (Hm & Hq0 & Hqn). destruct (milli_value h Oh) as (Hmh & _ & _).
  unfold candidate. rewrite F64Mono.scale_up_not_lt; [by repeat case_match| | |split; apply Hp|apply Hp].
  - unfold nano_per_milli in *. lia.
  - rewrite Hm. rewrite Hmh in Hh53. unfold cdiv, nano_per_milli in *. lia.
Qed.

(** C12. No decision is reversed. A limit that was just raised is neither raised again
    nor lowered by the next decision, and a decision to shrink is not followed by
    one to grow, as long as the load stays what it was: no two pull requests
    undo each other. (For amounts within the exact range: 2^53 thousandths, 2^52
    for targets, headroom at most 1000.) *)
Theorem decision_not_reversed inp :
  policy_ok (InPolicy inp) → input_in_range inp → targets_in_range inp →
  DDirection (Decide inp) ≠ DirectionNone →
  DDirection (Decide (applied inp)) ≠ DirectionGrow ∧
  (DDirection (Decide inp) = DirectionGrow →
     ∀ res, is_Some (Targets (Decide inp) !! res) → Targets (Decide (applied inp)) !! res = None).
Proof.
  intros Hp Hr Ht Hd. assert (Hng : DDirection (Decide (applied inp)) ≠ DirectionGrow).
  { apply applied_no_grow.
    - intros res q Hq. destruct (DDirection (Decide inp)) eqn:E; [done| |].
      + destruct (Decide_grow_cases inp E) as [He Hg].
        rewrite (proj2 (Decide_grow_targets inp He Hg)), evaluated_grow in Hq. by apply grown_keeps.
      + destruct (Decide_shrink_cases inp E) as (_ & _ & Htg & _). rewrite Htg, evaluated_lookup in Hq.
        destruct (Hard inp !! res) as [h|] eqn:Eh; [|done]. by eapply shrunk_no_grow.
    - intros res h Hq Hh. destruct (DDirection (Decide inp)) eqn:E; [done| |].
      + destruct (Decide_grow_cases inp E) as [He Hg].
        rewrite (proj2 (Decide_grow_targets inp He Hg)), evaluated_lookup, Hh in Hq. exact Hq.
      + destruct (Decide_shrink_cases inp E) as (_ & Hg & _).
        apply (f_equal (λ m, m !! res)) in Hg. rewrite evaluated_lookup, lookup_empty, Hh in Hg. exact Hg. }
  split; [done|]. intros E res [q Hq]. destruct (DDirection (Decide (applied inp))) eqn:E'; [|done|].
  - apply Decide_none_targets in E'. by rewrite E', lookup_empty.
  - destruct (Decide_shrink_cases _ E') as (_ & _ & -> & _). rewrite evaluated_lookup, applied_hard, Hq.
    rewrite evaluate_applied. destruct (Decide_grow_cases inp E) as [He Hg].
    rewrite (proj2 (Decide_grow_targets inp He Hg)), evaluated_grow in Hq. by apply grown_keeps.
Qed.

(** ** Shrinking ends *)

(** The limits of a quota, counted in units of their granularity: objects, Mi,
    thousandths. *)
Definition units (res : string) (q : Quantity) : Z := Z.max 0 (cdiv (nano q) (quantum res)).
Definition total_units (m : gmap string Quantity) : Z := map_fold (λ res q n, units res q + n) 0 m.

Lemma total_insert m res q :
  total_units (<[res := q]> m) = units res q + total_units (delete res m).
Proof.
  unfold total_units. rewrite <- insert_delete_eq, map_fold_insert_L; [done| |apply lookup_delete_eq].
  intros. lia.
Qed.

Lemma total_nonneg m : 0 <= total_units m.
Proof.
  induction m as [|res q m Hm IH] using map_ind; [done|]. rewrite total_insert, delete_id by done.
  unfold units. lia.
Qed.

Lemma total_replace m res h q :
  m !! res = Some h → total_units (<[res := q]> m) = total_units m - units res h + units res q.
Proof.
  intros Hm. rewrite total_insert. rewrite <- (insert_id m res h Hm) at 2. rewrite total_insert. lia.
Qed.

(** Lowering some limits lowers the total by at least their number. *)
Lemma total_lowered (t m : gmap string Quantity) :
  (∀ res q, t !! res = Some q → ∃ h, m !! res = Some h ∧ units res q < units res h) →
  total_units (t ∪ m) + Z.of_nat (size t) <= total_units m.
Proof.
  induction t as [|res q t Ht IH] using map_ind; intros Hlow.
  - rewrite (left_id_L ∅ (∪)), map_size_empty. lia.
  - destruct (Hlow res q (lookup_insert_eq t res q)) as (h & Hh & Hlt).
    assert ((t ∪ m) !! res = Some h) as Hu by by rewrite lookup_union_r.
    rewrite <- insert_union_l, (total_replace _ _ _ _ Hu), map_size_insert_None by done.
    assert (total_units (t ∪ m) + Z.of_nat (size t) <= total_units m); [|lia].
    apply IH. intros res' q' Hq'. apply Hlow. rewrite lookup_insert_ne; [done|]. by intros ->; rewrite Ht in Hq'.
Qed.

(** A shrink is decided and applied. Meanwhile anything else may change: the load,
    the window, the policy, the clock; only the limits are not raised. *)
Record shrink_step (inp inp' : Input) : Prop := {
  step_policy : policy_ok (InPolicy inp);
  step_range : input_in_range inp;
  step_shrinks : DDirection (Decide inp) = DirectionShrink;
  step_applied : Hard inp' = Targets (Decide inp) ∪ Hard inp
}.

Lemma shrink_step_applied inp :
  policy_ok (InPolicy inp) → input_in_range inp → DDirection (Decide inp) = DirectionShrink →
  shrink_step inp (applied inp).
Proof. done. Qed.

(** Each target is a whole number of units below the limit. *)
Lemma shrink_target_units inp res h q :
  policy_ok (InPolicy inp) → input_in_range inp → Hard inp !! res = Some h →
  shrink_of (evaluate inp res h) = Some q → units res q < units res h.
Proof.
  intros Hp Hr Hh Hs. destruct (evaluate inp res h) as [| | |raw q' reason] eqn:Ev; try done. injection Hs as ->.
  destruct (shrink_target inp res h raw q reason Hp Hr Hh Ev) as (u & Hu & Hlt & Hur & _ & Ht & _).
  destruct (evaluate_shrink _ _ _ _ _ _ Ev) as (u' & Hu' & Oh & _ & Hv). rewrite Hu in Hu'. injection Hu' as <-.
  cbv zeta in Hv. destruct Hv as (Hband & Hq & _). destruct (Hr res h u Hh Hu) as [Hh53 _].
  destruct (milli_value h Oh) as (_ & Hh0 & _).
  pose proof (capped_bounds inp (MilliValue h) Hp ltac:(lia)) as Hc.
  destruct (targetFor_bounds inp res (MilliValue u) Hp Hur) as (Hb & _). destruct Hur as [Hu0 _].
  set (t := (targetFor inp res (MilliValue u) (HeadroomFor (InPolicy inp) res)).1) in *.
  assert (Hth : t < MilliValue h) by (apply (below_band inp); [done|lia|lia|done]).
  apply (f_equal nano) in Hq. rewrite Quantize_nano in Hq by lia. pose proof (quantum_pos res) as HQ.
  set (c := cdiv (_ * nano_per_milli) (quantum res)) in *. unfold units.
  assert (Hcq : cdiv (nano q) (quantum res) = c) by (apply cdiv_spec; nia).
  pose proof (proj1 (cdiv_spec (nano h) (quantum res) _ HQ) eq_refl). rewrite Hcq.
  assert (c < cdiv (nano h) (quantum res)) by nia.
  assert (0 <= nano q) by (unfold nano_per_milli in *; nia). assert (0 <= c) by nia. lia.
Qed.

Lemma shrink_step_total inp inp' : shrink_step inp inp' → total_units (Hard inp') + 1 <= total_units (Hard inp).
Proof.
  intros [Hp Hr Hd ->]. destruct (Decide_shrink_cases inp Hd) as (_ & _ & Ht & _).
  assert (Hne : size (Targets (Decide inp)) ≠ 0%nat).
  { intros Hz%map_size_empty_inv. by apply (Decide_shrink_targets inp Hd). }
  assert (total_units (Targets (Decide inp) ∪ Hard inp) + Z.of_nat (size (Targets (Decide inp))) <=
    total_units (Hard inp)); [|lia].
  apply total_lowered. intros res q. rewrite Ht, evaluated_lookup. intros Hq.
  destruct (Hard inp !! res) as [h|] eqn:Hh; [|done]. exists h. split; [done|]. by apply (shrink_target_units inp).
Qed.

(** C13. Shrinking ends. However the load, the window, the policy and the time change
    meanwhile, a quota whose limits nobody raises is shrunk at most as often as
    its limits have units: there is no endless series of shrink pull requests. *)
Theorem shrinking_ends n inp inp' :
  nsteps shrink_step n inp inp' → 0 <= total_units (Hard inp') <= total_units (Hard inp) - Z.of_nat n.
Proof.
  induction 1 as [inp|n inp inp1 inp' Hs _ IH]; [pose proof (total_nonneg (Hard inp)); lia|].
  apply shrink_step_total in Hs. lia.
Qed.

End growth.

(** ** Examples *)

Section examples.
  #[local] Existing Instance nano_quantity.
  #[local] Existing Instance nano_quantity_laws.
  #[local] Existing Instance range_ascending.
  #[local] Existing Instance amd64.
  #[local] Existing Instance plain_quote.

(** A full quota of 10 cores, and a workload that waits for [d] thousandths. *)
Definition waiting (d : Z) (p : Policy) : Input := {|
  Now := next_day; Hard := {[ "cpu" := cores 10 ]}; Used := {[ "cpu" := cores 10 ]};
  Deficits := {[ "cpu" := d ]}; InWindow := empty_window; InPolicy := p;
  LastGrow := 0; LastShrink := 0 |}.

(** One thousandth of a core is enough. *)
Lemma waiting_shortage : shortage (waiting 1 DefaultPolicy) "cpu" 10001.
Proof.
  exists (cores 10), (cores 10).
  assert (Hu : usage_in_range (waiting 1 DefaultPolicy) "cpu" (MilliValue (cores 10))).
  { apply (usage_in_range_intro _ _ _ None (Some 1)); vm_compute; try reflexivity; try split; congruence. }
  split; [reflexivity|]. split; [reflexivity|].
  do 2 (split; [vm_compute; reflexivity|]). split; [vm_compute; discriminate|]. split; [exact Hu|].
  split; [vm_compute; reflexivity|]. split; [|vm_compute; reflexivity].
  exact (needs_pending (waiting 1 DefaultPolicy) "cpu" (cores 10) 1 eq_refl).
Qed.

Lemma shortage_grows_witness :
  shortage (waiting 1 DefaultPolicy) "cpu" 10001 ∧
  DDirection (Decide (waiting 1 DefaultPolicy)) = DirectionGrow ∧
  grants (waiting 1 DefaultPolicy) (Decide (waiting 1 DefaultPolicy)) "cpu" 10001.
Proof.
  assert (Ht : F64.le (Tolerance DefaultPolicy) (HeadroomFor DefaultPolicy "cpu") = true) by (vm_compute; reflexivity).
  split; [exact waiting_shortage|].
  exact (shortage_grows (waiting 1 DefaultPolicy) "cpu" 10001 DefaultPolicy_ok eq_refl Ht waiting_shortage).
Defined.

(** With less headroom than tolerance, a workload that waits for 0.4 cores waits
    for good: 10.4 cores with a headroom of a tenth are within 15 percent of the
    limit. *)
Definition low_headroom : Policy * list PolicyWarning :=
  ParsePolicy {[ "resizer.io/headroom" := "0.1" ]} DefaultPolicy.

Example shortage_ignored :
  low_headroom.2 = [] ∧ DDirection (Decide (waiting 400 low_headroom.1)) = DirectionNone ∧
  Targets (Decide (waiting 400 low_headroom.1)) = ∅.
Proof. vm_compute. auto. Qed.

(** A quota of 100 cores, all in use, with a complete window of one day. *)
Definition full_input (p : Policy) : Input := {|
  Now := next_day; Hard := {[ "cpu" := cores 100 ]}; Used := {[ "cpu" := cores 100 ]}; Deficits := ∅;
  InWindow := observe_all "u1" 1 empty_window sample_day; InPolicy := p; LastGrow := 0; LastShrink := 0 |}.

Definition headroom_of (text : string) : Policy * list PolicyWarning :=
  ParsePolicy {[ "resizer.io/headroom" := text; "resizer.io/window-days" := "1" ]} DefaultPolicy.

(** Outside the exact range a shrink is not safe. An infinite headroom, or one of
    10^20, is accepted without a warning; the target does not fit an int64, and on
    amd64 becomes the smallest one: a quota that is full is shrunk by a quarter. *)
Example infinite_headroom_shrinks :
  map (λ text,
    let '(p, ws) := headroom_of text in
    (ws, DDirection (Decide (full_input p)), MilliValue <$> Targets (Decide (full_input p)) !! "cpu")) ["Inf"; "1e20"] =
  [([], DirectionShrink, Some 75000); ([], DirectionShrink, Some 75000)].
Proof. vm_compute. reflexivity. Qed.

(** Nor is a growth enough: the target is the configured minimum of 110 cores,
    with 105 cores in use and 20 more asked for. *)
Example infinite_headroom_grows_short :
  let p := (ParsePolicy {[ "resizer.io/headroom" := "Inf"; "resizer.io/cpu-min" := "110" ]} DefaultPolicy).1 in
  let inp := {| Now := next_day; Hard := {[ "cpu" := cores 90 ]}; Used := {[ "cpu" := cores 105 ]};
    Deficits := {[ "cpu" := 20000 ]}; InWindow := empty_window; InPolicy := p; LastGrow := 0; LastShrink := 0 |} in
  DDirection (Decide inp) = DirectionGrow ∧
  MilliValue <$> Targets (Decide inp) !! "cpu" = Some 110000.
Proof. vm_compute. auto. Qed.

Lemma shrink_input_policy : policy_ok (InPolicy shrink_input).
Proof. apply set_window_days_ok; [apply DefaultPolicy_ok|lia|by vm_compute]. Qed.

Lemma shrink_input_targets : targets_in_range shrink_input.
Proof.
  intros res u Hu. cbn [shrink_input Used] in Hu. apply lookup_singleton_Some in Hu as [<- <-]. split.
  - by apply (shrink_input_in_range "cpu" (cores 100)).
  - vm_compute. congruence.
Qed.

Lemma decision_not_reversed_witness :
  DDirection (Decide shrink_input) = DirectionShrink ∧ DDirection (Decide (applied shrink_input)) ≠ DirectionGrow.
Proof.
  assert (Hd : DDirection (Decide shrink_input) = DirectionShrink) by (vm_compute; reflexivity).
  split; [exact Hd|].
  refine (proj1 (decision_not_reversed shrink_input shrink_input_policy shrink_input_in_range shrink_input_targets _)).
  rewrite Hd. discriminate.
Defined.

(** 100 cores are shrunk to 75, a quarter of 100000 thousandths. *)
Lemma shrinking_ends_witness :
  total_units (Hard (applied shrink_input)) = 75000 ∧
  total_units (Hard (applied shrink_input)) <= total_units (Hard shrink_input) - 1.
Proof.
  split; [vm_compute; reflexivity|].
  assert (Hd : DDirection (Decide shrink_input) = DirectionShrink) by (vm_compute; reflexivity).
  exact (proj2 (shrinking_ends 1 shrink_input (applied shrink_input) (nsteps_once _ _
    (shrink_step_applied _ shrink_input_policy shrink_input_in_range Hd)))).
Defined.

End examples.
