(* ===== verification/Calls.v ===== *)
(** * The calls of the controller

    What the controller, its observer and its lock ask of the outside: the API
    server, the Git provider (the interface of [internal/git]), the clock, the
    event recorder, the metrics registry, and the observer's map of cached
    windows, which several reconciliations share. The objects of the Kubernetes
    API are records with the fields that the code reads or writes. Log lines
    are left out. *)

From S2P Require Export Effects Provider Deficit Window.
From stdpp Require Export sorting base option gmap strings list fin_maps.

Open Scope Z_scope.

(** ** Kubernetes objects *)

(** [coordinationv1.Lease] in the controller's namespace. A nil map of
    annotations reads as an empty one. *)
Record Lease := {
  LeaseName : string;
  LeaseLabels : gmap string string;
  LeaseAnnotations : gmap string string;
  HolderIdentity : option string;
  AcquireTime : option Z;
  ResourceVersion : string
}.

(** [corev1.ObjectReference] and [corev1.Event]. *)
Record ObjectReference := {
  RefKind : string; RefNamespace : string; RefName : string; RefAPIVersion : string
}.
Record KubeEvent := {
  EvtNamespace : string; EvtType : string; EvtReason : string; EvtMessage : string;
  EvtLastTimestamp : Z; EvtInvolvedObject : ObjectReference
}.

(** [schema.ParseGroupVersion] is a function of a library: [None] is its error. *)
Class KubeSchema : Type := {
  GroupVersion : Type;
  ParseGroupVersion : string → option GroupVersion
}.

Section calls.
Context {KQ : KubeQuantity} {KS : KubeSchema}.

(** [corev1.ResourceQuota]. *)
Record ResourceQuota := {
  QuotaNamespace : string; QuotaName : string; QuotaUID : string;
  SpecHard : gmap string Quantity; StatusHard : gmap string Quantity;
  StatusUsed : gmap string Quantity
}.

(** The workload kinds of [appsv1]. *)
Record StatefulSet := {
  StsReplicas : option Z; StsStatusReplicas : Z; StsPodSpec : PodSpec;
  StsClaims : list PersistentVolumeClaim
}.
Record DaemonSet := { DsDesired : Z; DsCurrent : Z; DsPodSpec : PodSpec }.
Record ReplicaSet := { RsReplicas : option Z; RsStatusReplicas : Z; RsPodSpec : PodSpec }.

Inductive call : Type → Type :=
(* the clock *)
| TimeNow : call Z
(* leases in the controller's namespace *)
| GetLease (name : string) : call (go_result error Lease)
| CreateLease (lease : Lease) : call (option error)
| UpdateLease (lease : Lease) : call (option error)
| DeleteLease (lease : Lease) : call (option error)
| ListLeases (labels : gmap string string) : call (go_result error (list Lease))
(* other objects *)
| GetQuota (namespace name : string) : call (go_result error ResourceQuota)
| GetNamespace (name : string) : call (go_result error (gmap string string))
| ListEvents (namespace : string) : call (go_result error (list KubeEvent))
| GetStatefulSet (namespace name : string) : call (go_result error StatefulSet)
| GetDaemonSet (namespace name : string) : call (go_result error DaemonSet)
| GetReplicaSet (namespace name : string) : call (go_result error ReplicaSet)
| GetPod (namespace name : string) : call (option error)
| GetUnstructured (gv : GroupVersion) (kind namespace name : string) : call (option error)
(* the event recorder *)
| RecordEvent (quota : ResourceQuota) (type reason message : string) : call unit
(* the Git provider *)
| GetPRStatus (prID : Z) : call (go_result error (option PRStatus))
| MergePR (prID : Z) (method : string) : call (option error)
| CreatePR (quotaName namespace direction : string) (annotations : gmap string string)
    (newLimits : gmap string Quantity) : call (go_result error Z)
| UpdatePR (prID : Z) (quotaName namespace : string) (annotations : gmap string string)
    (newLimits : gmap string Quantity) : call (option error)
| FindOpenPR (namespace quotaName : string) : call (go_result error (Z * string))
| ClosePR (prID : Z) (comment : string) : call (option error)
(* the observer's map, under its mutex *)
| CacheRead (key : string) : call (option Window)
| CacheWrite (key : string) (window : Window) : call unit
| CacheDelete (key : string) : call unit
(* metrics: a series is a metric and its labels *)
| SetGauge (metric : string) (labels : list string) (value : F64.t) : call unit
| DeleteSeries (metric : string) (labels : list string) : call unit
| IncCounter (metric : string) (labels : list string) : call unit
(* a nil dereference *)
| Panic : call Empty_set.

End calls.
