(* ===== verification/LeaseState.v ===== *)
(** * internal/lock/state.go: the state and its lease

    The state of one quota and its encoding in the annotations and the holder
    of a lease. *)

From S2P Require Export Calls.
From stdpp Require Export sorting base option gmap strings list fin_maps.

Open Scope Z_scope.

(* go: internal/lock/lease.go 15-35 ControllerNamespace *)
Definition ControllerNamespace : string := "namespace-resizer-system".
(* go: internal/lock/lease.go 15-35 AnnotationLastModified *)
Definition AnnotationLastModified : string := "resizer.io/last-modified".
(* go: internal/lock/lease.go 15-35 AnnotationLastGrow *)
Definition AnnotationLastGrow : string := "resizer.io/last-grow".
(* go: internal/lock/lease.go 15-35 AnnotationLastShrink *)
Definition AnnotationLastShrink : string := "resizer.io/last-shrink".
(* go: internal/lock/lease.go 15-35 AnnotationPRDirection *)
Definition AnnotationPRDirection : string := "resizer.io/pr-direction".
(* go: internal/lock/lease.go 15-35 AnnotationWindow *)
Definition AnnotationWindow : string := "resizer.io/observation-window".
(* go: internal/lock/lease.go 15-35 labelManagedBy *)
Definition labelManagedBy : string := "app.kubernetes.io/managed-by".
(* go: internal/lock/lease.go 15-35 labelTargetNS *)
Definition labelTargetNS : string := "resizer.io/target-ns".
(* go: internal/lock/lease.go 15-35 labelQuota *)
Definition labelQuota : string := "resizer.io/quota".
(* go: internal/lock/lease.go 15-35 managedByValue *)
Definition managedByValue : string := "namespace-resizer".

(* go: internal/lock/state.go 14-30 State *)
Record State := {
  PRID : Z;
  PRDirection : string;
  LastModified : Z;
  LastGrow : Z;
  LastShrink : Z;
  StWindow : string
}.

(** [State{}]. *)
Definition zero_state : State :=
  {| PRID := 0; PRDirection := ""; LastModified := Time.zero; LastGrow := Time.zero;
     LastShrink := Time.zero; StWindow := "" |}.

(** [fmt.Sscanf(s, "pr-%d", &id)]: the literal, then an integer after optional
    spaces and a sign; what follows the digits is left unread. A newline ends
    the scan with an error, a number out of range too. *)
Fixpoint scan_digits (s : string) : string :=
  match s with
  | String c s => if Str.is_digit c then String c (scan_digits s) else ""
  | EmptyString => ""
  end.

Definition scan_sign (s : string) : bool * string :=
  match s with
  | String "-" s => (true, s)
  | String "+" s => (false, s)
  | _ => (false, s)
  end.

(** Spaces before the number; [None] is a newline. *)
Fixpoint skip_space (fuel : nat) (s : string) : option string :=
  match fuel with
  | O => Some s
  | S fuel =>
      if Str.HasPrefix s (Str.bytes [10]%N) then None
      else match Str.first_some (λ sp, Str.strip_prefix sp s) Str.spaces with
           | Some s => skip_space fuel s
           | None => Some s
           end
  end.

Definition scan_int (s : string) : option Z :=
  match skip_space (String.length s) s with
  | None => None
  | Some s =>
      let '(neg, s) := scan_sign s in
      match Str.digits (scan_digits s) with
      | Some v =>
          let v := if neg then - v else v in
          if decide (in_int64 v) then Some v else None
      | None => None
      end
  end.

(* go: internal/lock/state.go 87-87 stateFromLease *)
Definition Sscanf_pr (s : string) : option Z :=
  match Str.strip_prefix "pr-" s with Some s => scan_int s | None => None end.

(* go: internal/lock/state.go 112-121 parseStamp *)
Definition parseStamp (raw : string) : Z :=
  if String.eqb raw "" then Time.zero
  else match Time.ParseRFC3339 raw with Some stamp => stamp | None => Time.zero end.

(** [m[key]] of a map of strings. *)
Definition get_string (m : gmap string string) (key : string) : string := default "" (m !! key).

(* go: internal/lock/state.go 77-92 stateFromLease *)
Definition stateFromLease (lease : Lease) : State := {|
  PRID := match HolderIdentity lease with
          | Some identity => default 0 (Sscanf_pr identity)
          | None => 0
          end;
  PRDirection := get_string (LeaseAnnotations lease) AnnotationPRDirection;
  LastModified := parseStamp (get_string (LeaseAnnotations lease) AnnotationLastModified);
  LastGrow := parseStamp (get_string (LeaseAnnotations lease) AnnotationLastGrow);
  LastShrink := parseStamp (get_string (LeaseAnnotations lease) AnnotationLastShrink);
  StWindow := get_string (LeaseAnnotations lease) AnnotationWindow
|}.

(* go: internal/lock/state.go 123-129 setStamp *)
Definition setStamp (key : string) (value : Z) (annotations : gmap string string) : gmap string string :=
  if Time.IsZero value then delete key annotations
  else <[key := Time.FormatRFC3339 value]> annotations.

(* go: internal/lock/state.go 131-137 setString *)
Definition setString (key value : string) (annotations : gmap string string) : gmap string string :=
  if String.eqb value "" then delete key annotations else <[key := value]> annotations.

(* go: internal/lock/state.go 94-110 applyStateToLease *)
Definition applyStateToLease (state : State) (lease : Lease) : Lease := {|
  LeaseName := LeaseName lease;
  LeaseLabels := LeaseLabels lease;
  LeaseAnnotations :=
    setString AnnotationWindow (StWindow state)
      (setString AnnotationPRDirection (PRDirection state)
        (setStamp AnnotationLastShrink (LastShrink state)
          (setStamp AnnotationLastGrow (LastGrow state)
            (setStamp AnnotationLastModified (LastModified state) (LeaseAnnotations lease)))));
  HolderIdentity := if PRID state =? 0 then None else Some ("pr-" +:+ Str.Itoa (PRID state));
  AcquireTime := AcquireTime lease;
  ResourceVersion := ResourceVersion lease
|}.
