(* ===== verification/LeaseStateFacts.v ===== *)
(** * The state survives its lease

    Reading back what was written gives the same state, to the second, and
    writing touches nothing of the lease but the state's own fields. *)

From S2P Require Export LeaseState GoTimeFacts.
From stdpp Require Export sorting base option gmap strings list fin_maps.

Open Scope Z_scope.

Lemma scan_digits_all acc s v : Str.digits_acc acc s = Some v → scan_digits s = s.
Proof.
  revert acc. induction s as [|c s IH]; intros acc H; [done|]. simpl in *.
  destruct (Str.is_digit c); [|done]. f_equal. by eapply IH.
Qed.

Lemma digits_scan s v : Str.digits s = Some v → scan_digits s = s.
Proof. unfold Str.digits. destruct s; [done|]. apply scan_digits_all. Qed.

(** Text that starts with a printable character is not skipped. *)
Lemma skip_space_visible fuel c s :
  (33 <= Z.of_N (N_of_ascii c) < 128) → skip_space fuel (String c s) = Some (String c s).
Proof.
  intros Hc. destruct fuel as [|fuel]; [done|].
  destruct c as [[] [] [] [] [] [] [] []]; vm_compute in Hc; try (destruct Hc; congruence); reflexivity.
Qed.

Lemma digit_visible c : Str.is_digit c = true → 33 <= Z.of_N (N_of_ascii c) < 128.
Proof.
  destruct c as [[] [] [] [] [] [] [] []]; intros H; try discriminate H; vm_compute; split; congruence.
Qed.

Lemma scan_int_Itoa z : in_int64 z → scan_int (Str.Itoa z) = Some z.
Proof.
  intros Hz. unfold scan_int, Str.Itoa. destruct (Z.ltb_spec z 0).
  - cbn [String.append]. rewrite skip_space_visible by (vm_compute; split; congruence). cbn [scan_sign].
    pose proof (Str.digits_dec (- z) ltac:(lia)) as Hd.
    rewrite (digits_scan _ _ Hd), Hd, Z.opp_involutive. by rewrite decide_True.
  - pose proof (Str.digits_dec z ltac:(lia)) as Hd.
    destruct (Str.dec z) as [|c s] eqn:E; [done|].
    assert (Hc : Str.is_digit c = true) by (eapply Str.digits_acc_head, Hd).
    rewrite skip_space_visible by by apply digit_visible.
    assert (scan_sign (String c s) = (false, String c s)) as ->.
    { clear -Hc. destruct c as [[] [] [] [] [] [] [] []]; try discriminate Hc; done. }
    rewrite (digits_scan _ _ Hd), Hd. by rewrite decide_True.
Qed.

Lemma Sscanf_pr_Itoa z : in_int64 z → Sscanf_pr ("pr-" +:+ Str.Itoa z) = Some z.
Proof. intros Hz. unfold Sscanf_pr. cbn [Str.strip_prefix String.append]. by apply scan_int_Itoa. Qed.

(** Instants that the format can express. *)
Definition stamp_ok (t : Z) : Prop := 0 <= Time.day_of t < 3652059.

Definition to_second (t : Z) : Z := t - t mod Time.Second.

Lemma FormatRFC3339_nonempty t : Time.FormatRFC3339 t ≠ "".
Proof.
  unfold Time.FormatRFC3339. by destruct (Time.FormatDate t).
Qed.

Lemma parseStamp_format t : stamp_ok t → parseStamp (Time.FormatRFC3339 t) = to_second t.
Proof.
  intros Ht. unfold parseStamp. rewrite (proj2 (String.eqb_neq _ _)) by apply FormatRFC3339_nonempty.
  by rewrite TimeFacts.parse_format_rfc3339 by by apply TimeFacts.day_in_range_years.
Qed.

(** ** Writing annotations *)

Lemma get_setStamp key t m : stamp_ok t → parseStamp (get_string (setStamp key t m) key) = to_second t.
Proof.
  intros Ht. unfold setStamp, get_string, Time.IsZero. destruct (Z.eqb_spec t 0) as [->|].
  - by rewrite lookup_delete_eq.
  - rewrite lookup_insert_eq. by apply parseStamp_format.
Qed.

Lemma get_setString key v m : get_string (setString key v m) key = v.
Proof.
  unfold setString, get_string. destruct (String.eqb_spec v "") as [->|].
  - by rewrite lookup_delete_eq.
  - by rewrite lookup_insert_eq.
Qed.

Lemma setStamp_ne key k t m : k ≠ key → setStamp key t m !! k = m !! k.
Proof. intros Hk. unfold setStamp. destruct (Time.IsZero t); by simplify_map_eq. Qed.

Lemma setString_ne key k v m : k ≠ key → setString key v m !! k = m !! k.
Proof. intros Hk. unfold setString. destruct (String.eqb v ""); by simplify_map_eq. Qed.

(** Look up one annotation through the writes of the others. *)
Ltac peel_writes := repeat first [rewrite setString_ne by discriminate | rewrite setStamp_ne by discriminate].

Definition state_keys : list string :=
  [AnnotationLastModified; AnnotationLastGrow; AnnotationLastShrink; AnnotationPRDirection; AnnotationWindow].

Definition state_ok (s : State) : Prop :=
  in_int64 (PRID s) ∧ stamp_ok (LastModified s) ∧ stamp_ok (LastGrow s) ∧ stamp_ok (LastShrink s).

(** C35. A state written to a lease reads back the same, up to fractions of
    seconds, whatever the lease held before. *)
Theorem lease_state_roundtrip (s : State) (lease : Lease) :
  state_ok s →
  stateFromLease (applyStateToLease s lease) =
    {| PRID := PRID s; PRDirection := PRDirection s; LastModified := to_second (LastModified s);
       LastGrow := to_second (LastGrow s); LastShrink := to_second (LastShrink s);
       StWindow := StWindow s |}.
Proof.
  intros (Hid & Hm & Hg & Hs). unfold stateFromLease, applyStateToLease.
  cbn [HolderIdentity LeaseAnnotations].
  f_equal.
  - destruct (Z.eqb_spec (PRID s) 0) as [->|]; [done|]. by rewrite Sscanf_pr_Itoa.
  - unfold get_string. peel_writes. apply get_setString.
  - unfold get_string. peel_writes. by apply get_setStamp.
  - unfold get_string. peel_writes. by apply get_setStamp.
  - unfold get_string. peel_writes. by apply get_setStamp.
  - apply get_setString.
Qed.

(** Writing a state changes the holder and the five annotations of the state,
    and nothing else of the lease. *)
Theorem applyStateToLease_frame (s : State) (lease : Lease) :
  let lease' := applyStateToLease s lease in
  LeaseName lease' = LeaseName lease ∧ LeaseLabels lease' = LeaseLabels lease ∧
  AcquireTime lease' = AcquireTime lease ∧ ResourceVersion lease' = ResourceVersion lease ∧
  (∀ k, k ∉ state_keys → LeaseAnnotations lease' !! k = LeaseAnnotations lease !! k) ∧
  (HolderIdentity lease' = None ↔ PRID s = 0).
Proof.
  cbv zeta. repeat split; try done.
  - intros k Hk. unfold state_keys in Hk. rewrite !not_elem_of_cons in Hk.
    destruct Hk as (H1 & H2 & H3 & H4 & H5 & _). simpl.
    by rewrite !setString_ne, !setStamp_ne by done.
  - cbn [applyStateToLease HolderIdentity]. by destruct (Z.eqb_spec (PRID s) 0).
  - cbn [applyStateToLease HolderIdentity]. by intros ->.
Qed.

Definition some_state : State :=
  {| PRID := 42; PRDirection := "grow"; LastModified := Time.zero; LastGrow := 63889214400 * Time.Second;
     LastShrink := Time.zero; StWindow := "{}" |}.

Lemma lease_state_roundtrip_witness :
  state_ok some_state ∧ ∀ lease, stateFromLease (applyStateToLease some_state lease) = some_state.
Proof.
  assert (H : state_ok some_state).
  { repeat split; vm_compute; congruence. }
  split; [exact H|]. intros lease. rewrite (lease_state_roundtrip some_state lease H). reflexivity.
Defined.
