(* ===== verification/LeaseLocker.v ===== *)
(** * internal/lock: the lease locker and the garbage collector

    The operations on state leases, as programs over the calls of the API
    server. [retry.RetryOnConflict] is a library function: it runs an attempt
    again while it fails with a conflict, [retry_more] times at most, and
    returns what the last one returned. *)

From S2P Require Export LeaseState.
From stdpp Require Export sorting base option gmap strings list fin_maps.

Open Scope Z_scope.
Open Scope prog_scope.

Class RetryPolicy : Type := { retry_more : nat }.

Section locker.
Context {KQ : KubeQuantity} {KS : KubeSchema} {RP : RetryPolicy}.


Fixpoint retry (n : nat) (attempt : prog call (option error)) : prog call (option error) :=
  r ⇐ attempt;
  match n, r with
  | S n, Some e => if is_kind ErrConflict e then retry n attempt else Ret (Some e)
  | _, r => Ret r
  end.

Definition RetryOnConflict (attempt : prog call (option error)) : prog call (option error) :=
  retry retry_more attempt.

(* go: internal/lock/lease.go 37-44 managedLeaseLabels *)
Definition managedLeaseLabels (targetNS quotaName : string) : gmap string string :=
  {[ labelTargetNS := targetNS; labelQuota := quotaName; labelManagedBy := managedByValue ]}.

(* go: internal/lock/lease.go 54-57 getLeaseName *)
Definition getLeaseName (targetNS quotaName : string) : string :=
  "state-" +:+ targetNS +:+ "-" +:+ quotaName.

(** A lease before the API server has stored it. *)
(* go: internal/lock/lease.go 73-83 AcquireLock *)
Definition new_lease (targetNS quotaName : string) (holder : option string) (acquired : option Z) : Lease := {|
  LeaseName := getLeaseName targetNS quotaName;
  LeaseLabels := managedLeaseLabels targetNS quotaName;
  LeaseAnnotations := ∅;
  HolderIdentity := holder;
  AcquireTime := acquired;
  ResourceVersion := ""
|}.

(* go: internal/lock/lease.go 61-61 AcquireLock *)
Definition pr_identity (prID : Z) : string := "pr-" +:+ Str.Itoa prID.

(* go: internal/lock/lease.go 68-107 AcquireLock *)
Definition acquire_attempt (targetNS quotaName : string) (prID : Z) : prog call (option error) :=
  let leaseName := getLeaseName targetNS quotaName in
  let identity := pr_identity prID in
  r ⇐ call_ (GetLease leaseName);
  match r with
  | Err err =>
      if is_kind ErrNotFound err then
        now ⇐ call_ TimeNow;
        createErr ⇐ call_ (CreateLease (new_lease targetNS quotaName (Some identity) (Some now)));
        match createErr with
        | Some e =>
            if is_kind ErrAlreadyExists e
            then Ret (Some (mk_error ErrConflict (leaseName +:+ ": " +:+ error_text e)))
            else Ret (Some e)
        | None => Ret None
        end
      else Ret (Some err)
  | Ok lease =>
      match HolderIdentity lease with
      | Some holder =>
          if String.eqb holder identity then
            now ⇐ call_ TimeNow;
            call_ (UpdateLease {| LeaseName := LeaseName lease; LeaseLabels := LeaseLabels lease;
              LeaseAnnotations := LeaseAnnotations lease; HolderIdentity := Some identity;
              AcquireTime := Some now; ResourceVersion := ResourceVersion lease |})
          else Ret (Some (Errorf ("lease is already locked by " +:+ holder)))
      | None =>
          now ⇐ call_ TimeNow;
          call_ (UpdateLease {| LeaseName := LeaseName lease; LeaseLabels := LeaseLabels lease;
            LeaseAnnotations := LeaseAnnotations lease; HolderIdentity := Some identity;
            AcquireTime := Some now; ResourceVersion := ResourceVersion lease |})
      end
  end.

(* go: internal/lock/lease.go 59-108 AcquireLock *)
Definition AcquireLock (targetNS quotaName : string) (prID : Z) : prog call (option error) :=
  RetryOnConflict (acquire_attempt targetNS quotaName prID).

(* go: internal/lock/lease.go 110-132 ensureLeaseExists *)
Definition ensureLeaseExists (leaseName targetNS quotaName : string) : prog call (option error) :=
  r ⇐ call_ (GetLease leaseName);
  match r with
  | Ok _ => Ret None
  | Err err =>
      if is_kind ErrNotFound err then
        createErr ⇐ call_ (CreateLease {| LeaseName := leaseName;
          LeaseLabels := managedLeaseLabels targetNS quotaName; LeaseAnnotations := ∅;
          HolderIdentity := None; AcquireTime := None; ResourceVersion := "" |});
        match createErr with
        | Some e => if is_kind ErrAlreadyExists e then Ret None else Ret (Some e)
        | None => Ret None
        end
      else Ret (Some err)
  end.

(* go: internal/lock/state.go 32-46 GetState *)
Definition GetState (targetNS quotaName : string) : prog call (go_result error State) :=
  r ⇐ call_ (GetLease (getLeaseName targetNS quotaName));
  match r with
  | Err err => if is_kind ErrNotFound err then Ret (Ok zero_state) else Ret (Err err)
  | Ok lease => Ret (Ok (stateFromLease lease))
  end.

(** One attempt of [MutateState]; the callback may call the clock. *)
(* go: internal/lock/state.go 62-74 MutateState *)
Definition mutate_attempt (leaseName : string) (fn : State → prog call State) : prog call (option error) :=
  r ⇐ call_ (GetLease leaseName);
  match r with
  | Err err => Ret (Some err)
  | Ok lease =>
      state ⇐ fn (stateFromLease lease);
      call_ (UpdateLease (applyStateToLease state lease))
  end.

(* go: internal/lock/state.go 48-75 MutateState *)
Definition MutateState (targetNS quotaName : string) (fn : State → prog call State) : prog call (option error) :=
  let leaseName := getLeaseName targetNS quotaName in
  err ⇐ ensureLeaseExists leaseName targetNS quotaName;
  match err with
  | Some e => Ret (Some e)
  | None => RetryOnConflict (mutate_attempt leaseName fn)
  end.

(** The body of the collector's loop over the leases. Errors are logged. *)
(* go: internal/lock/gc.go 65-83 cleanup *)
Definition collect_lease (_ : unit) (lease : Lease) : prog call unit :=
  let targetNS := get_string (LeaseLabels lease) labelTargetNS in
  if String.eqb targetNS "" then Ret tt
  else
    r ⇐ call_ (GetNamespace targetNS);
    match r with
    | Err err =>
        if is_kind ErrNotFound err then _ ⇐ call_ (DeleteLease lease); Ret tt
        else Ret tt
    | Ok _ => Ret tt
    end.

(* go: internal/lock/gc.go 54-86 cleanup *)
Definition cleanup : prog call (option error) :=
  r ⇐ call_ (ListLeases {[ labelManagedBy := managedByValue ]});
  match r with
  | Err err => Ret (Some err)
  | Ok leases => _ ⇐ pfold collect_lease tt leases; Ret None
  end.

(** The collector runs once at the start and then on every tick until it is
    stopped; errors of a run are logged. [ticks] is how often it ticks. *)
(* go: internal/lock/gc.go 28-52 Start *)
Definition gc_start (ticks : nat) : prog call unit :=
  _ ⇐ cleanup; pfold (λ _ _, _ ⇐ cleanup; Ret tt) tt (seq 0 ticks).

End locker.
