(* ===== verification/LockerFacts.v ===== *)
(** * What a successful change of the state has written

    The proof rule for [MutateState] that its callers share: when it succeeds,
    the server has confirmed a lease with the callback's result applied to a
    state that was read. *)

From S2P Require Export LeaseLocker.
From stdpp Require Export sorting base option gmap strings list fin_maps.

Open Scope Z_scope.
Open Scope prog_scope.

Section locker.
Context {KQ : KubeQuantity} {KS : KubeSchema} {RP : RetryPolicy}.
Context (P : list (event call) → ∀ R, call R → Prop).
Context (Pget : ∀ past n, P past _ (GetLease n)) (Pcreate : ∀ past l, P past _ (CreateLease l)).
Context (Pupdate : ∀ past l, P past _ (UpdateLease l)).

(** The server confirmed the lease [name] with a state that [F] relates to the
    state that was read from it. *)
Definition written (name : string) (F : State → State → Prop) (past : list (event call)) : Prop :=
  ∃ l st', saw past (GetLease name) (Ok l) ∧ F (stateFromLease l) st' ∧
    saw past (UpdateLease (applyStateToLease st' l)) None.

Lemma written_mono name F past past' : past `prefix_of` past' → written name F past → written name F past'.
Proof.
  intros Hp (l & st' & Hl & HF & Hs). exists l, st'. split; [by eapply saw_mono|]. split; [done|by eapply saw_mono].
Qed.

Definition success_written (name : string) (F : State → State → Prop) (past past' : list (event call))
    (r : option error) : Prop :=
  past `prefix_of` past' ∧ (r = None → written name F past').

Lemma success_written_from name F past0 past past' r :
  past0 `prefix_of` past → success_written name F past past' r → success_written name F past0 past' r.
Proof. intros Hp [Hp' H]. split; [by etransitivity|done]. Qed.

(** The callback, as a program whose result is related to its argument. *)
Definition computes (fn : State → prog call State) (F : State → State → Prop) : Prop :=
  ∀ st past, guarded P (λ past' st', past `prefix_of` past' ∧ F st st') (fn st) past.

Lemma guarded_attempt_written fn F name past :
  computes fn F → guarded P (success_written name F past) (mutate_attempt name fn) past.
Proof.
  intros Hfn. unfold mutate_attempt. apply guarded_call; [apply Pget|].
  intros [l|e]; [|by split; [apply prefix_app_r|]]. apply guarded_bind.
  eapply guarded_weaken; [apply Hfn|]. intros past' st' _ [Hp HF]. split; [apply Pupdate|].
  intros r. split.
  - apply prefix_app_r. etransitivity; [|exact Hp]. by apply prefix_app_r.
  - intros ->. exists l, st'. split; [|split; [done|apply saw_last]].
    apply (saw_mono (past ++ [Event _ (GetLease name) (Ok l)])); [|apply saw_last].
    etransitivity; [exact Hp|]. by apply prefix_app_r.
Qed.

Lemma guarded_retry_written fn F name n past :
  computes fn F → guarded P (success_written name F past) (retry n (mutate_attempt name fn)) past.
Proof.
  intros Hfn. revert past. induction n as [|n IH]; intros past; cbn [retry]; apply guarded_bind;
    (eapply guarded_weaken; [by apply (guarded_attempt_written fn F)|]); intros past' r _ Hr.
  - by destruct r.
  - destruct r as [e|]; [|done]. destruct (is_kind ErrConflict e); [|done].
    eapply guarded_weaken; [apply IH|]. intros past'' r' _. apply success_written_from, Hr.
Qed.

Lemma guarded_MutateState_written ns q fn F past :
  computes fn F → guarded P (success_written (getLeaseName ns q) F past) (MutateState ns q fn) past.
Proof.
  intros Hfn. assert (Hgo : ∀ l, guarded P (success_written (getLeaseName ns q) F past)
    (RetryOnConflict (mutate_attempt (getLeaseName ns q) fn)) (past ++ l)).
  { intros l. eapply guarded_weaken; [by apply (guarded_retry_written fn F)|]. intros past' r _.
    apply success_written_from. by apply prefix_app_r. }
  unfold MutateState, ensureLeaseExists. apply guarded_bind. apply guarded_call; [apply Pget|].
  intros [l|e]; [apply Hgo|]. destruct (is_kind ErrNotFound e); [|by split; [apply prefix_app_r|]].
  apply guarded_call; [apply Pcreate|].
  intros [e'|]; [destruct (is_kind ErrAlreadyExists e')|]; rewrite <- app_assoc; [apply Hgo| |apply Hgo].
  split; [by apply prefix_app_r|done].
Qed.

(** A callback that is a function of the state. *)
Lemma guarded_MutateState_function ns q f past :
  guarded P (success_written (getLeaseName ns q) (λ st st', st' = f st) past) (MutateState ns q (λ st, Ret (f st))) past.
Proof. apply guarded_MutateState_written. by intros st past'. Qed.

End locker.
