(* ===== verification/Metrics.v ===== *)
(** * internal/controller/metrics.go

    What one evaluation publishes: a counter of decisions, two gauges per
    resource of the quota, and one gauge per gate of the shrink path. A series is
    the name of a metric with the values of its labels. *)

From S2P Require Export Decide Calls.
From stdpp Require Export sorting base option gmap strings list fin_maps.

Open Scope Z_scope.
Open Scope prog_scope.

Section metrics.
Context {KQ : KubeQuantity} {KS : KubeSchema} {GR : GoRange}.

(* go: internal/controller/metrics.go 22-41 quotaTarget *)
Definition quotaTarget : string := "resizer_quota_target".
(* go: internal/controller/metrics.go 22-41 quotaWasteRatio *)
Definition quotaWasteRatio : string := "resizer_quota_waste_ratio".
(* go: internal/controller/metrics.go 22-41 shrinkBlockedBy *)
Definition shrinkBlockedBy : string := "resizer_shrink_blocked_by".
(* go: internal/controller/metrics.go 22-41 decisionTotal *)
Definition decisionTotal : string := "resizer_decision_total".

(* go: internal/controller/metrics.go 43-50 allGates *)
Definition allGates : list Gate := [GateEnabled; GateWindow; GateRecentGrow; GateCooldown].

#[export] Instance gate_eq_dec : EqDecision Gate.
Proof. solve_decision. Defined.

(** One resource of the quota. A missing target reads as the zero quantity. *)
(* go: internal/controller/metrics.go 77-91 recordDecision *)
Definition record_resource (namespace quota : string) (d : Decide.Decision) (_ : unit)
    (kv : string * Quantity) : prog call unit :=
  let '(res, current) := kv in
  let labels := [namespace; quota; res] in
  let targetMilli := MilliValue (default ZeroQuantity (RawTargets d !! res)) in
  if negb (bool_decide (is_Some (RawTargets d !! res))) || (targetMilli =? 0) then
    call_ (DeleteSeries quotaTarget labels) ⨟ call_ (DeleteSeries quotaWasteRatio labels)
  else
    call_ (SetGauge quotaTarget labels (F64.of_Z targetMilli)) ⨟
    call_ (SetGauge quotaWasteRatio labels
      (F64.div (F64.of_Z (MilliValue current)) (F64.of_Z targetMilli))).

(* go: internal/controller/metrics.go 93-103 recordDecision *)
Definition record_gate (namespace quota : string) (d : Decide.Decision) (_ : unit) (gate : Gate) : prog call unit :=
  let value := if bool_decide (gate ∈ BlockedBy d) then F64.one else F64.zero in
  call_ (SetGauge shrinkBlockedBy [namespace; quota; gate_string gate] value).

(* go: internal/controller/metrics.go 57-104 recordDecision *)
Definition recordDecision (namespace quota : string) (hard : gmap string Quantity) (d : Decide.Decision)
    : prog call unit :=
  call_ (IncCounter decisionTotal [namespace; quota; direction_string (DDirection d)]) ⨟
  pfold (record_resource namespace quota d) tt (range 20 hard) ⨟
  pfold (record_gate namespace quota d) tt allGates.

End metrics.
