(* ===== verification/MetricsFacts.v ===== *)
(** * What one evaluation publishes

    The series in the process, as a map from a metric and its labels to a value,
    before and after [recordDecision]. *)

From S2P Require Export Metrics.
From stdpp Require Export sorting base option gmap strings list fin_maps.

Open Scope Z_scope.
Open Scope prog_scope.

Section metrics.
Context {KQ : KubeQuantity} {KS : KubeSchema} {GR : GoRange}.

(** What a series holds: the value of a gauge, or how often a counter was
    increased. *)
Inductive sample :=
| Gauge (v : F64.t)
| Count (n : N).

Abbreviation series := (gmap (string * list string) sample).

(** A counter starts at zero. *)
Definition counted (x : option sample) : N := match x with Some (Count n) => n | _ => 0%N end.

(** The metrics library. *)
Definition gauges (R : Type) (e : call R) (s : series) : option (R * series) :=
  match e in call R return option (R * series) with
  | SetGauge metric labels v => Some (tt, <[(metric, labels) := Gauge v]> s)
  | DeleteSeries metric labels => Some (tt, delete (metric, labels) s)
  | IncCounter metric labels =>
      Some (tt, <[(metric, labels) := Count (counted (s !! (metric, labels)) + 1)]> s)
  | _ => None
  end.

(** What a program that only publishes does to the series. *)
Definition publishes (p : prog call unit) (f : series → series) : Prop :=
  ∀ s, ∃ tr, run gauges p s = Some (tt, f s, tr).

Lemma publishes_bind p q f g : publishes p f → publishes q g → publishes (p ⨟ q) (λ s, g (f s)).
Proof.
  intros Hp Hq s. rewrite run_bind. destruct (Hp s) as [tr1 ->]. destruct (Hq (f s)) as [tr2 ->].
  by eexists.
Qed.

Lemma publishes_set metric labels v : publishes (call_ (SetGauge metric labels v)) (λ s, <[(metric, labels) := Gauge v]> s).
Proof. intros s. by eexists. Qed.

Lemma publishes_delete metric labels : publishes (call_ (DeleteSeries metric labels)) (λ s, delete (metric, labels) s).
Proof. intros s. by eexists. Qed.

Lemma publishes_pfold {A} (f : unit → A → prog call unit) (g : series → A → series) l :
  (∀ x, publishes (f tt x) (λ s, g s x)) → publishes (pfold f tt l) (λ s, foldl g s l).
Proof.
  intros Hf. induction l as [|x l IH]; [intros s; by eexists|].
  intros s. simpl. rewrite run_bind. destruct (Hf x s) as [tr1 ->]. destruct (IH (g s x)) as [tr2 ->]. by eexists.
Qed.

Section record.
Context (ns quota : string) (d : Decide.Decision).

Definition target_milli (res : string) : Z := MilliValue (default ZeroQuantity (RawTargets d !! res)).

(** The target is known and not zero. *)
Definition has_target (res : string) : bool :=
  bool_decide (is_Some (RawTargets d !! res)) && negb (target_milli res =? 0).

Definition target_series (res : string) : string * list string := (quotaTarget, [ns; quota; res]).
Definition waste_series (res : string) : string * list string := (quotaWasteRatio, [ns; quota; res]).
Definition gate_series (gate : Gate) : string * list string := (shrinkBlockedBy, [ns; quota; gate_string gate]).

Definition resource_step (s : series) (kv : string * Quantity) : series :=
  let '(res, current) := kv in
  if has_target res
  then <[waste_series res := Gauge (F64.div (F64.of_Z (MilliValue current)) (F64.of_Z (target_milli res)))]>
         (<[target_series res := Gauge (F64.of_Z (target_milli res))]> s)
  else delete (waste_series res) (delete (target_series res) s).

Lemma publishes_resource kv : publishes (record_resource ns quota d tt kv) (λ s, resource_step s kv).
Proof.
  destruct kv as [res current]. unfold record_resource, resource_step, has_target, target_milli.
  destruct (bool_decide _); cbn [negb orb andb]; [destruct (_ =? 0); cbn [negb]|].
  - apply (publishes_bind _ _ (delete _) (delete _)); apply publishes_delete.
  - apply (publishes_bind _ _ (insert _ _) (insert _ _)); apply publishes_set.
  - apply (publishes_bind _ _ (delete _) (delete _)); apply publishes_delete.
Qed.

Definition gate_value (gate : Gate) : F64.t := if bool_decide (gate ∈ BlockedBy d) then F64.one else F64.zero.

Definition gate_step (s : series) (gate : Gate) : series := <[gate_series gate := Gauge (gate_value gate)]> s.

Lemma publishes_gate gate : publishes (record_gate ns quota d tt gate) (λ s, gate_step s gate).
Proof. apply publishes_set. Qed.

Definition decision_series (dir : Direction) : string * list string :=
  (decisionTotal, [ns; quota; direction_string dir]).

Definition count_step (s : series) : series :=
  <[decision_series (DDirection d) := Count (counted (s !! decision_series (DDirection d)) + 1)]> s.

Definition published (hard : gmap string Quantity) (s : series) : series :=
  foldl gate_step (foldl resource_step (count_step s) (range 20 hard)) allGates.

Lemma publishes_decision hard : publishes (recordDecision ns quota hard d) (published hard).
Proof.
  unfold recordDecision.
  apply (publishes_bind _ _ count_step (λ s, foldl gate_step (foldl resource_step s (range 20 hard)) allGates));
    [intros s; by eexists|].
  apply (publishes_bind _ _ (λ s, foldl resource_step s (range 20 hard)) (λ s, foldl gate_step s allGates)).
  - apply publishes_pfold, publishes_resource.
  - apply publishes_pfold, publishes_gate.
Qed.

(** ** The series afterwards *)

Lemma resource_step_lookup s res current key :
  resource_step s (res, current) !! key =
    if decide (key = waste_series res) then
      if has_target res then Some (Gauge (F64.div (F64.of_Z (MilliValue current)) (F64.of_Z (target_milli res)))) else None
    else if decide (key = target_series res) then
      if has_target res then Some (Gauge (F64.of_Z (target_milli res))) else None
    else s !! key.
Proof.
  unfold resource_step. destruct (has_target res);
    destruct (decide (key = waste_series res)) as [->|H1]; try destruct (decide (key = target_series res)) as [->|H2];
    rewrite ?lookup_insert_eq, ?lookup_delete_eq, ?lookup_insert_ne, ?lookup_delete_ne by done;
    by rewrite ?lookup_insert_eq, ?lookup_delete_eq, ?lookup_insert_ne, ?lookup_delete_ne by done.
Qed.

(** A series that belongs to a resource of a list. *)
Definition resource_series (res : string) (key : string * list string) : Prop :=
  key = target_series res ∨ key = waste_series res.

Lemma resources_other l s key :
  (∀ res, res ∈ l.*1 → ¬ resource_series res key) → foldl resource_step s l !! key = s !! key.
Proof.
  revert s. induction l as [|[res current] l IH]; intros s H; [done|]. cbn [foldl].
  rewrite IH by (intros res' Hr; apply H; by right). rewrite resource_step_lookup.
  unfold resource_series in H. specialize (H res (list_elem_of_here _ _)).
  rewrite !decide_False by tauto. done.
Qed.

Lemma series_inj res res' key : resource_series res key → resource_series res' key → res = res'.
Proof. unfold resource_series, target_series, waste_series, quotaTarget, quotaWasteRatio. intuition congruence. Qed.

Lemma resources_own l s res current :
  NoDup l.*1 → (res, current) ∈ l → ∀ key, resource_series res key →
  foldl resource_step s l !! key = resource_step ∅ (res, current) !! key.
Proof.
  revert s. induction l as [|[res0 current0] l IH]; intros s Hnd Hin key Hk; [by apply elem_of_nil in Hin|].
  cbn [foldl fmap list_fmap fst] in *. apply NoDup_cons in Hnd as [Hni Hnd].
  apply elem_of_cons in Hin as [[= -> ->]|Hin]; [|by apply IH].
  rewrite resources_other.
  - rewrite !resource_step_lookup. by destruct Hk as [->| ->]; repeat case_decide.
  - intros res' Hr Hk'. by rewrite (series_inj _ _ _ Hk' Hk) in Hr.
Qed.

Lemma gates_lookup s key :
  foldl gate_step s allGates !! key =
    match list_find (λ g, key = gate_series g) allGates with
    | Some (_, g) => Some (Gauge (gate_value g))
    | None => s !! key
    end.
Proof.
  unfold allGates, gate_step. cbn [foldl list_find].
  repeat match goal with |- context [decide (key = gate_series ?g)] => destruct (decide (key = gate_series g)) as [->|] end;
    cbn [fmap option_fmap option_map prod_map fst snd]; by simplify_map_eq.
Qed.

Lemma gate_series_inj gate gate' : gate_series gate = gate_series gate' → gate = gate'.
Proof. unfold gate_series. intros H. injection H as H. by destruct gate, gate'. Qed.

Lemma all_gates gate : gate ∈ allGates.
Proof. unfold allGates. destruct gate; rewrite !elem_of_cons; tauto. Qed.

Lemma decision_not_resource dir res : ¬ resource_series res (decision_series dir).
Proof. by intros [?|?]. Qed.

Lemma decision_not_gate dir gate : decision_series dir ≠ gate_series gate.
Proof. done. Qed.

Lemma gate_series_not_resource gate res : ¬ resource_series res (gate_series gate).
Proof. by intros [?|?]. Qed.

Lemma resource_not_gate res key : resource_series res key → list_find (λ g, key = gate_series g) allGates = None.
Proof. intros Hk. apply list_find_None, Forall_forall. intros g _ ->. by apply (gate_series_not_resource g res). Qed.

End record.

(** What the series are afterwards. *)
Record published_series (ns quota : string) (d : Decide.Decision) (hard : gmap string Quantity) (s s' : series)
    : Prop := {
  pub_target res : is_Some (hard !! res) →
    s' !! target_series ns quota res =
      if has_target d res then Some (Gauge (F64.of_Z (target_milli d res))) else None;
  pub_waste res current : hard !! res = Some current →
    s' !! waste_series ns quota res =
      if has_target d res
      then Some (Gauge (F64.div (F64.of_Z (MilliValue current)) (F64.of_Z (target_milli d res)))) else None;
  pub_gate gate : s' !! gate_series ns quota gate = Some (Gauge (if bool_decide (gate ∈ BlockedBy d) then F64.one else F64.zero));
  pub_count : s' !! decision_series ns quota (DDirection d) =
    Some (Count (counted (s !! decision_series ns quota (DDirection d)) + 1));
  pub_other key :
    (∀ res, is_Some (hard !! res) → key ≠ target_series ns quota res ∧ key ≠ waste_series ns quota res) →
    (∀ gate, key ≠ gate_series ns quota gate) → key ≠ decision_series ns quota (DDirection d) →
    s' !! key = s !! key
}.

Lemma published_other ns quota d hard s key :
  (∀ res, is_Some (hard !! res) → ¬ resource_series ns quota res key) →
  (∀ gate, key ≠ gate_series ns quota gate) → published ns quota d hard s !! key = count_step ns quota d s !! key.
Proof.
  intros Hr Hg. unfold published. rewrite gates_lookup.
  assert (list_find (λ g, key = gate_series ns quota g) allGates = None) as ->.
  { apply list_find_None, Forall_forall. intros g _. apply Hg. }
  apply resources_other. intros res Hin. apply Hr.
  apply list_elem_of_fmap in Hin as ([k q] & -> & Hin). apply elem_of_range in Hin. by exists q.
Qed.

Lemma published_own ns quota d hard s res current key :
  hard !! res = Some current → resource_series ns quota res key →
  published ns quota d hard s !! key = resource_step ns quota d ∅ (res, current) !! key.
Proof.
  intros Hres Hk. unfold published. rewrite gates_lookup, (resource_not_gate ns quota res) by done.
  apply resources_own; [apply range_nodup|by apply elem_of_range|done].
Qed.

Lemma published_spec ns quota hard d s : published_series ns quota d hard s (published ns quota d hard s).
Proof.
  constructor.
  - intros res [current Hres]. rewrite (published_own _ _ _ _ _ res current) by (done || by left).
    by rewrite resource_step_lookup, decide_False, decide_True.
  - intros res current Hres. rewrite (published_own _ _ _ _ _ res current) by (done || by right).
    by rewrite resource_step_lookup, decide_True.
  - intros gate. unfold published. rewrite gates_lookup. destruct (list_find _ allGates) as [[i g]|] eqn:E.
    + apply list_find_Some in E as (_ & Heq & _). by rewrite (gate_series_inj _ _ _ _ Heq).
    + apply list_find_None in E. rewrite Forall_forall in E. by destruct (E gate (all_gates gate)).
  - rewrite published_other; [by apply lookup_insert_eq| |apply decision_not_gate].
    intros res _. apply decision_not_resource.
  - intros key Hr Hg Hc. rewrite published_other; [by apply lookup_insert_ne, not_eq_sym| |done].
    intros res Hres [->| ->]; by destruct (Hr res Hres).
Qed.


(** A resource that was dropped from the quota keeps its last value for good:
    the evaluation does not visit it. *)
Theorem dropped_resource_keeps_series ns quota hard d s res v :
  hard !! res = None → s !! target_series ns quota res = Some v →
  ∃ s' tr, run gauges (recordDecision ns quota hard d) s = Some (tt, s', tr) ∧
    s' !! target_series ns quota res = Some v.
Proof.
  intros Hres Hs. destruct (publishes_decision ns quota d hard s) as [tr Htr].
  exists (published ns quota d hard s), tr. split; [done|].
  rewrite (pub_other _ _ _ _ _ _ (published_spec ns quota hard d s)); [done| |done|done].
  intros res' [q Hq]. split; [|done]. intros [= <-]. by rewrite Hres in Hq.
Qed.

End metrics.
