(* ===== verification/Events.v ===== *)
(** * Event analysis: resourcequota_utils.go and collectDeficits

    Which quota an event is about, whether the object behind it still exists,
    and how much of each resource the blocked workloads miss. Replica counts are
    [int32]. *)

From S2P Require Export Calls.
From stdpp Require Export sorting base option gmap strings list fin_maps.

Open Scope Z_scope.
Open Scope prog_scope.

Definition two31 : Z := 2 ^ 31.
Definition wrap32 (z : Z) : Z := (z + two31) mod (2 * two31) - two31.

(** The largest value per resource and workload. *)
Abbreviation workload_map := (gmap string (gmap string Z)).

Section events.
Context {KQ : KubeQuantity} {KS : KubeSchema} {GR : GoRange}.

(* go: internal/controller/resourcequota_utils.go 36-43 reasonFailedCreate *)
Definition reasonFailedCreate : string := "FailedCreate".
(* go: internal/controller/resourcequota_utils.go 36-43 kindStatefulSet *)
Definition kindStatefulSet : string := "StatefulSet".
(* go: internal/controller/resourcequota_utils.go 36-43 kindDaemonSet *)
Definition kindDaemonSet : string := "DaemonSet".
(* go: internal/controller/resourcequota_utils.go 36-43 kindReplicaSet *)
Definition kindReplicaSet : string := "ReplicaSet".
(* go: internal/controller/resourcequota_utils.go 36-43 kindPod *)
Definition kindPod : string := "Pod".

(** The name after "exceeded quota: ", up to a comma. *)
(* go: internal/controller/resourcequota_utils.go 83-94 mapEventToQuota *)
Definition quota_in_message (message : string) : string :=
  match Str.Cut message "exceeded quota: " with
  | Some (_, rest) => match Str.Cut rest "," with Some (name, _) => name | None => rest end
  | None => ""
  end.

(** The requests for an object; [None] is an object that is not an event. *)
(* go: internal/controller/resourcequota_utils.go 45-109 mapEventToQuota *)
Definition mapEventToQuota (obj : option KubeEvent) : list (string * string) :=
  match obj with
  | None => []
  | Some evt =>
      if negb (String.eqb (EvtType evt) Core.EventTypeWarning) ||
         negb (String.eqb (EvtReason evt) reasonFailedCreate) then []
      else if negb (Str.Contains (EvtMessage evt) "exceeded quota") then []
      else
        let parts := Str.Split (EvtMessage evt) ": " in
        if (length parts <? 2)%nat then []
        else
          let quotaName :=
            if existsb (λ part, Str.Contains part "exceeded quota") parts
            then quota_in_message (EvtMessage evt) else "" in
          if String.eqb quotaName "" then [] else [(EvtNamespace evt, quotaName)]
  end.

(** The closure [applySmartCalculation]: the deficits it leaves behind. *)
(* go: internal/controller/resourcequota_utils.go 120-146 calculateWorkloadDeficit *)
Definition applySmartCalculation (deficits : gmap string Z) (podSpec : PodSpec)
    (pvcTemplates : list PersistentVolumeClaim) (missing : Z) : gmap string Z :=
  if missing <=? 0 then deficits
  else
    let reqs := PodRequests podSpec in
    let reqs :=
      if (0 <? length pvcTemplates)%nat then
        foldl (λ reqs kv, add_to reqs kv.1 kv.2) reqs (range 21 (PVCRequests pvcTemplates))
      else reqs in
    foldl (λ newDeficits kv, <[kv.1 := wrap64 (kv.2 * missing)]> newDeficits) ∅ (range 22 reqs).

(* go: internal/controller/resourcequota_utils.go 111-212 calculateWorkloadDeficit *)
Definition calculateWorkloadDeficit (evt : KubeEvent) (failedRes : string) (failedQty : Quantity)
    : prog call (string * gmap string Z) :=
  let ref := EvtInvolvedObject evt in
  let key := WorkloadKey (RefName ref) in
  let deficits : gmap string Z := {[ failedRes := MilliValue failedQty ]} in
  let smart podSpec pvcTemplates desired current :=
    if current <? desired
    then applySmartCalculation deficits podSpec pvcTemplates (wrap32 (desired - current))
    else deficits in
  if String.eqb (RefKind ref) kindStatefulSet then
    r ⇐ call_ (GetStatefulSet (RefNamespace ref) (RefName ref));
    match r with
    | Ok sts =>
        match StsReplicas sts with
        | Some desired => Ret (key, smart (StsPodSpec sts) (StsClaims sts) desired (StsStatusReplicas sts))
        | None => Ret (key, deficits)
        end
    | Err _ => Ret (key, deficits)
    end
  else if String.eqb (RefKind ref) kindDaemonSet then
    r ⇐ call_ (GetDaemonSet (RefNamespace ref) (RefName ref));
    match r with
    | Ok ds => Ret (key, smart (DsPodSpec ds) [] (DsDesired ds) (DsCurrent ds))
    | Err _ => Ret (key, deficits)
    end
  else if String.eqb (RefKind ref) kindReplicaSet then
    r ⇐ call_ (GetReplicaSet (RefNamespace ref) (RefName ref));
    match r with
    | Ok rs =>
        match RsReplicas rs with
        | Some desired => Ret (key, smart (RsPodSpec rs) [] desired (RsStatusReplicas rs))
        | None => Ret (key, deficits)
        end
    | Err _ => Ret (key, deficits)
    end
  else if String.eqb (RefKind ref) kindPod then
    (* the owners of a pod are only logged *)
    _ ⇐ call_ (GetPod (RefNamespace ref) (RefName ref)); Ret (key, deficits)
  else Ret (key, deficits).

(* go: internal/controller/resourcequota_utils.go 214-232 isObjectAlive *)
Definition isObjectAlive (ref : ObjectReference) (namespace : string) : prog call bool :=
  match ParseGroupVersion (RefAPIVersion ref) with
  | None => Ret false
  | Some gv =>
      err ⇐ call_ (GetUnstructured gv (RefKind ref) namespace (RefName ref));
      Ret (match err with None => true | Some _ => false end)
  end.

(* go: internal/controller/resourcequota_controller.go 529-536 collectDeficits *)
Definition merge_workload (key : string) (perWorkload : workload_map) (kv : string * Z) : workload_map :=
  let '(rName, value) := kv in
  <[rName := raise_to (default ∅ (perWorkload !! rName)) (key, value)]> perWorkload.

(** The tests of one event that need no call. *)
(* go: internal/controller/resourcequota_controller.go 505-517 collectDeficits *)
Definition relevant_event (quotaName : string) (cutoff since : Z) (evt : KubeEvent) : bool :=
  negb (Time.Before (EvtLastTimestamp evt) cutoff) &&
  negb (negb (Time.IsZero since) && Time.Before (EvtLastTimestamp evt) since) &&
  String.eqb (EvtType evt) Core.EventTypeWarning && String.eqb (EvtReason evt) reasonFailedCreate &&
  Str.Contains (EvtMessage evt) "exceeded quota" && Str.Contains (EvtMessage evt) quotaName.

(* go: internal/controller/resourcequota_controller.go 504-537 collectDeficits *)
Definition collect_event (quota : ResourceQuota) (cutoff since : Z) (perWorkload : workload_map)
    (evt : KubeEvent) : prog call workload_map :=
  if negb (relevant_event (QuotaName quota) cutoff since evt) then Ret perWorkload
  else
    match ParseEventMessage (EvtMessage evt) with
    | None => Ret perWorkload
    | Some (resName, reqQty) =>
        alive ⇐ isObjectAlive (EvtInvolvedObject evt) (QuotaNamespace quota);
        if negb alive then Ret perWorkload
        else
          r ⇐ calculateWorkloadDeficit evt resName reqQty;
          Ret (foldl (merge_workload r.1) perWorkload (range 23 r.2))
    end.

(* go: internal/controller/resourcequota_controller.go 565-572 resolveQuotaKey *)
Definition key_candidates : gmap string string := list_to_map
  [(Core.ResourceCPU, Core.ResourceRequestsCPU);
   (Core.ResourceMemory, Core.ResourceRequestsMemory);
   (Core.ResourceStorage, Core.ResourceRequestsStorage);
   (Core.ResourceRequestsCPU, Core.ResourceCPU);
   (Core.ResourceRequestsMemory, Core.ResourceMemory);
   (Core.ResourceRequestsStorage, Core.ResourceStorage)].

(* go: internal/controller/resourcequota_controller.go 555-579 resolveQuotaKey *)
Definition resolveQuotaKey (quota : ResourceQuota) (res : string) : option string :=
  if bool_decide (is_Some (StatusHard quota !! res)) then Some res
  else match key_candidates !! res with
       | Some alt => if bool_decide (is_Some (StatusHard quota !! alt)) then Some alt else None
       | None => None
       end.

(** One resource of the result: the sum over its workloads. *)
(* go: internal/controller/resourcequota_controller.go 540-550 collectDeficits *)
Definition sum_workloads (quota : ResourceQuota) (deficits : gmap string Z)
    (kv : string * gmap string Z) : gmap string Z :=
  let '(resName, workloads) := kv in
  let total := foldl (λ total kv, wrap64 (total + kv.2)) 0 (range 24 workloads) in
  match resolveQuotaKey quota resName with
  | None => deficits
  | Some quotaKey => add_to deficits quotaKey total
  end.

Definition total_deficits (quota : ResourceQuota) (perWorkload : workload_map) : gmap string Z :=
  foldl (sum_workloads quota) ∅ (range 25 perWorkload).

(* go: internal/controller/resourcequota_controller.go 482-553 collectDeficits *)
Definition collectDeficits (quota : ResourceQuota) (since : Z) : prog call (go_result error (gmap string Z)) :=
  r ⇐ call_ (ListEvents (QuotaNamespace quota));
  match r with
  | Err err => Ret (Err err)
  | Ok items =>
      now ⇐ call_ TimeNow;
      perWorkload ⇐ pfold (collect_event quota (Time.Add now (-1 * Time.Hour)) since) ∅ items;
      Ret (Ok (total_deficits quota perWorkload))
  end.

End events.
