(* ===== verification/EventsFacts.v ===== *)
(** * What the event scan adds up

    The deficit of a quota key is a sum over resources and workloads of the
    largest value that any event of the workload gives: repeated events, their
    order and the order in which Go visits maps make no difference. *)

From S2P Require Export Events.
From stdpp Require Export sorting base option gmap strings list fin_maps.

Open Scope Z_scope.
Open Scope prog_scope.

(** ** Sums *)

Definition sumZ (l : list Z) : Z := foldr Z.add 0 l.

Lemma sumZ_perm l1 l2 : l1 ≡ₚ l2 → sumZ l1 = sumZ l2.
Proof. induction 1; simpl; lia. Qed.

Lemma sumZ_app l1 l2 : sumZ (l1 ++ l2) = sumZ l1 + sumZ l2.
Proof. induction l1; simpl; lia. Qed.

Lemma wrap64_add_l a b : wrap64 (wrap64 a + b) = wrap64 (a + b).
Proof.
  unfold wrap64. f_equal. replace (((a + two63) mod two64 - two63) + b + two63) with ((a + two63) mod two64 + b) by lia.
  rewrite Zplus_mod_idemp_l. f_equal. lia.
Qed.

Lemma wrap64_add_r a b : wrap64 (a + wrap64 b) = wrap64 (a + b).
Proof. by rewrite Z.add_comm, wrap64_add_l, Z.add_comm. Qed.

Lemma foldl_wrap (l : list (string * Z)) acc :
  foldl (λ total kv, wrap64 (total + kv.2)) (wrap64 acc) l = wrap64 (acc + sumZ l.*2).
Proof.
  revert acc. induction l as [|kv l IH]; intros acc; cbn [foldl fmap list_fmap]; [by rewrite Z.add_0_r|].
  rewrite wrap64_add_l, IH. f_equal. unfold sumZ. simpl. lia.
Qed.

(** What one event adds: a workload, a resource and a value. *)
Abbreviation contribution := (string * string * Z)%type.

Section events.
Context {KQ : KubeQuantity} {KS : KubeSchema} {GR : GoRange}.

(** ** The largest value per workload *)

Definition record (m : workload_map) (c : contribution) : workload_map :=
  merge_workload c.1.1 m (c.1.2, c.2).

(** The largest of the values for a workload and a resource, at least zero. *)
Definition values_of (cs : list contribution) (workload res : string) : list Z :=
  omap (λ c, if decide (c.1 = (workload, res)) then Some c.2 else None) cs.

Definition peak_value (cs : list contribution) (workload res : string) : Z :=
  foldr Z.max 0 (values_of cs workload res).

Definition mentioned (cs : list contribution) (res : string) : Prop := ∃ c, c ∈ cs ∧ c.1.2 = res.

Lemma peak_value_snoc cs c workload res :
  peak_value (cs ++ [c]) workload res =
    if decide (c.1 = (workload, res)) then Z.max (peak_value cs workload res) c.2 else peak_value cs workload res.
Proof.
  unfold peak_value, values_of at 1. rewrite omap_app, foldr_app. simpl.
  destruct (decide _) as [Heq|Heq]; [|done]. simpl. fold (values_of cs workload res).
  induction (values_of cs workload res) as [|x l IH]; simpl; lia.
Qed.

Lemma peak_value_nonneg cs workload res : 0 <= peak_value cs workload res.
Proof. unfold peak_value. induction (values_of cs workload res); simpl; lia. Qed.

(** The map of the scan, read at a resource and a workload. *)
Definition recorded (cs : list contribution) (m : workload_map) : Prop :=
  ∀ res,
    match m !! res with
    | None => ¬ mentioned cs res
    | Some ws => mentioned cs res ∧
        ∀ workload, ws !! workload =
          if decide (0 < peak_value cs workload res) then Some (peak_value cs workload res) else None
    end.

Lemma mentioned_snoc cs c res : mentioned (cs ++ [c]) res ↔ mentioned cs res ∨ c.1.2 = res.
Proof.
  unfold mentioned. split.
  - intros (c' & [Hc| ->%list_elem_of_singleton]%elem_of_app & <-); [left; by exists c'|by right].
  - intros [(c' & Hc & <-)| <-]; [exists c'|exists c]; (split; [|done]); apply elem_of_app; [by left|right; by left].
Qed.

Lemma peak_value_unmentioned cs workload res : ¬ mentioned cs res → peak_value cs workload res = 0.
Proof.
  induction cs as [|c cs IH] using rev_ind; intros Hm; [done|]. rewrite mentioned_snoc in Hm.
  rewrite peak_value_snoc. rewrite decide_False; [apply IH; tauto|]. intros Heq. apply Hm. right. by rewrite Heq.
Qed.

(** One workload's entry after [raise_to]. *)
Lemma raise_to_lookup (ws : gmap string Z) key value k :
  raise_to ws (key, value) !! k =
    if decide (k = key) then if default 0 (ws !! key) <? value then Some value else ws !! key else ws !! k.
Proof.
  unfold raise_to. cbn [fst snd]. destruct (Z.ltb_spec (default 0 (ws !! key)) value), (decide (k = key)) as [->|];
    by simplify_map_eq.
Qed.

Lemma record_recorded cs m c : recorded cs m → recorded (cs ++ [c]) (record m c).
Proof.
  intros Hm res. destruct c as [[key rName] value]. unfold record, merge_workload. cbn [fst snd].
  specialize (Hm res). destruct (decide (rName = res)) as [->|Hne].
  - rewrite lookup_insert_eq. split; [apply mentioned_snoc; by right|]. intros workload.
    rewrite raise_to_lookup, peak_value_snoc. cbn [fst snd].
    assert (Hold : ∀ w, default ∅ (m !! res) !! w =
      if decide (0 < peak_value cs w res) then Some (peak_value cs w res) else None).
    { intros w. destruct (m !! res) as [ws|]; [apply Hm|]. simpl. rewrite lookup_empty.
      by rewrite peak_value_unmentioned. }
    rewrite !Hold. pose proof (peak_value_nonneg cs key res) as Hk. pose proof (peak_value_nonneg cs workload res).
    destruct (decide (workload = key)) as [->|Hw].
    + rewrite (decide_True (P := (key, res) = (key, res))) by done. destruct (decide (0 < peak_value cs key res)); simpl;
        destruct (Z.ltb_spec (peak_value cs key res) value); destruct (Z.ltb_spec 0 value); try lia;
        rewrite ?decide_True, ?decide_False by lia; f_equal; lia.
    + rewrite (decide_False (P := (key, res) = (workload, res))) by congruence. done.
  - rewrite lookup_insert_ne by done. destruct (m !! res) as [ws|].
    + destruct Hm as [Hm1 Hm2]. split; [apply mentioned_snoc; by left|]. intros workload.
      rewrite Hm2, peak_value_snoc. cbn [fst snd]. by rewrite (decide_False (P := (key, rName) = (workload, res))) by congruence.
    + rewrite mentioned_snoc. simpl. tauto.
Qed.

Lemma foldl_recorded cs : recorded cs (foldl record ∅ cs).
Proof.
  induction cs as [|c cs IH] using rev_ind.
  - intros res. cbn [foldl]. rewrite lookup_empty. by intros (c & Hc%elem_of_nil & _).
  - rewrite foldl_app. by apply record_recorded.
Qed.

(** ** The total of a quota key *)

(** The sum over the workloads of one resource, without wrapping. *)
Definition workload_sum (ws : gmap string Z) : Z := sumZ (map_to_list ws).*2.

Definition resolves (quota : ResourceQuota) (key : string) (kv : string * gmap string Z) : Prop :=
  resolveQuotaKey quota kv.1 = Some key.

#[export] Instance resolves_dec quota key kv : Decision (resolves quota key kv).
Proof. unfold resolves. apply _. Defined.

(** The resources of the scan that count for a key. *)
Definition counted (quota : ResourceQuota) (m : workload_map) (key : string) : list (string * gmap string Z) :=
  filter (resolves quota key) (map_to_list m).

Lemma workload_total ws : foldl (λ total kv, wrap64 (total + kv.2)) 0 (range 24 ws) = wrap64 (workload_sum ws).
Proof.
  change 0 with (wrap64 0) at 1. rewrite foldl_wrap. unfold workload_sum. simpl. f_equal.
  apply sumZ_perm. by rewrite range_perm.
Qed.

Lemma sum_workloads_lookup quota acc kv key :
  sum_workloads quota acc kv !! key =
    if decide (resolves quota key kv) then Some (wrap64 (default 0 (acc !! key) + wrap64 (workload_sum kv.2)))
    else acc !! key.
Proof.
  destruct kv as [res ws]. unfold sum_workloads. rewrite workload_total.
  destruct (decide _) as [Hk|Hk]; unfold resolves in Hk; cbn [fst snd] in *.
  - rewrite Hk. unfold add_to. by rewrite lookup_insert_eq.
  - destruct (resolveQuotaKey quota res) as [k|]; [|done]. unfold add_to. rewrite lookup_insert_ne; [done|congruence].
Qed.

Lemma foldl_sum_workloads quota l acc key :
  foldl (sum_workloads quota) acc l !! key =
    match filter (resolves quota key) l with
    | [] => acc !! key
    | l' => Some (wrap64 (default 0 (acc !! key) + sumZ ((λ kv, workload_sum kv.2) <$> l')))
    end.
Proof.
  revert acc. induction l as [|kv l IH]; intros acc; [done|]. cbn [foldl].
  rewrite IH, sum_workloads_lookup, filter_cons. destruct (decide (resolves quota key kv)) as [Hr|Hr]; [|done].
  destruct (filter (resolves quota key) l) as [|kv' l']; cbn [from_option id fmap list_fmap sumZ foldr]; f_equal.
  - rewrite wrap64_add_r. f_equal. lia.
  - rewrite wrap64_add_r, wrap64_add_l. f_equal. lia.
Qed.

(** The result for a key: the wrapped sum of what counts for it. *)
Definition total_for (quota : ResourceQuota) (m : workload_map) (key : string) : option Z :=
  match counted quota m key with
  | [] => None
  | l => Some (wrap64 (sumZ ((λ kv, workload_sum kv.2) <$> l)))
  end.

Lemma total_deficits_lookup quota m key : total_deficits quota m !! key = total_for quota m key.
Proof.
  unfold total_deficits, total_for, counted. rewrite foldl_sum_workloads, lookup_empty. simpl default.
  assert (Hp : filter (resolves quota key) (range 25 m) ≡ₚ filter (resolves quota key) (map_to_list m)).
  { by rewrite range_perm. }
  destruct (filter _ (map_to_list m)) as [|kv l] eqn:E2.
  - apply Permutation_nil_r in Hp. by rewrite Hp.
  - destruct (filter _ (range 25 m)) as [|kv' l'] eqn:E1; [by apply Permutation_nil_l in Hp|].
    do 2 f_equal. rewrite Z.add_0_l. apply sumZ_perm. by rewrite Hp.
Qed.

(** ** The scan as a whole *)

(** What one event contributes. *)
Definition event_contributions (quota : ResourceQuota) (cutoff since : Z) (evt : KubeEvent)
    : prog call (list contribution) :=
  if negb (relevant_event (QuotaName quota) cutoff since evt) then Ret []
  else
    match ParseEventMessage (EvtMessage evt) with
    | None => Ret []
    | Some (resName, reqQty) =>
        alive ⇐ isObjectAlive (EvtInvolvedObject evt) (QuotaNamespace quota);
        if negb alive then Ret []
        else
          r ⇐ calculateWorkloadDeficit evt resName reqQty;
          Ret ((λ kv, (r.1, kv.1, kv.2)) <$> range 23 r.2)
    end.

Lemma foldl_merge key (l : list (string * Z)) (m : workload_map) :
  foldl (merge_workload key) m l = foldl record m ((λ kv, (key, kv.1, kv.2)) <$> l).
Proof. revert m. induction l as [|[k v] l IH]; intros m; [done|]. cbn [foldl fmap list_fmap]. by rewrite IH. Qed.

Lemma eval_collect_event (ans : ∀ R, call R → option R) quota cutoff since m evt :
  eval ans (collect_event quota cutoff since m evt) =
    foldl record m <$> eval ans (event_contributions quota cutoff since evt).
Proof.
  unfold collect_event, event_contributions. destruct (negb _); [done|].
  destruct (ParseEventMessage _) as [[res qty]|]; [|done]. rewrite !eval_bind.
  destruct (eval ans (isObjectAlive _ _)) as [alive|]; [|done]. destruct (negb alive); [done|].
  rewrite !eval_bind. destruct (eval ans (calculateWorkloadDeficit _ _ _)) as [r|]; [|done].
  simpl. by rewrite foldl_merge.
Qed.

Lemma foldl_concat (css : list (list contribution)) (m : workload_map) :
  foldl (λ m cs, foldl record m cs) m css = foldl record m (concat css).
Proof. revert m. induction css as [|cs css IH]; intros m; [done|]. simpl. by rewrite foldl_app, IH. Qed.

(** What a scan gets out of a list of events. *)
Definition all_contributions (ans : ∀ R, call R → option R) (quota : ResourceQuota) (since now : Z)
    (items : list KubeEvent) : option (list (list contribution)) :=
  mapM (λ evt, eval ans (event_contributions quota (Time.Add now (-1 * Time.Hour)) since evt)) items.

Lemma eval_collectDeficits (ans : ∀ R, call R → option R) quota since items now :
  ans _ (ListEvents (QuotaNamespace quota)) = Some (Ok items) → ans _ TimeNow = Some now →
  eval ans (collectDeficits quota since) =
    (λ css, Ok (total_deficits quota (foldl record ∅ (concat css)))) <$> all_contributions ans quota since now items.
Proof.
  intros Hi Hn. unfold collectDeficits, call_. simpl. rewrite Hi. simpl. rewrite Hn, eval_bind.
  rewrite (eval_pfold ans _ (event_contributions quota (Time.Add now (-1 * Time.Hour)) since)
    (λ m cs, foldl record m cs)) by (intros; apply eval_collect_event).
  unfold all_contributions. destruct (mapM _ items) as [css|]; [|done]. simpl. by rewrite foldl_concat.
Qed.

(** C28. The scan adds up, for every quota key, the resources that resolve to it and
    their workloads, and takes for each workload the largest value that any of
    its events gives: what one workload lacks is counted once, however often it
    was retried. The sum wraps around as 64-bit integers do. *)
Theorem collectDeficits_counts_once (ans : ∀ R, call R → option R) quota since items now css :
  ans _ (ListEvents (QuotaNamespace quota)) = Some (Ok items) → ans _ TimeNow = Some now →
  all_contributions ans quota since now items = Some css →
  ∃ m d, recorded (concat css) m ∧ eval ans (collectDeficits quota since) = Some (Ok d) ∧
    ∀ key, d !! key = total_for quota m key.
Proof.
  intros Hi Hn Hc. exists (foldl record ∅ (concat css)). eexists. split; [apply foldl_recorded|].
  rewrite (eval_collectDeficits _ _ _ _ _ Hi Hn), Hc. split; [done|]. apply total_deficits_lookup.
Qed.

(** ** The list of events as a set *)

Lemma max_le (l l' : list Z) : (∀ x, x ∈ l → x ∈ l') → foldr Z.max 0 l <= foldr Z.max 0 l'.
Proof.
  assert (Hle : ∀ (k : list Z) x, x ∈ k → x <= foldr Z.max 0 k).
  { induction k as [|y k IH]; intros x Hx; [by apply elem_of_nil in Hx|]. simpl.
    apply elem_of_cons in Hx as [->|Hx]; [lia|]. specialize (IH x Hx). lia. }
  assert (Hnn : ∀ k : list Z, 0 <= foldr Z.max 0 k) by (induction k; simpl; lia).
  induction l as [|x l IH]; intros H; simpl; [apply Hnn|].
  specialize (Hle l' x (H x (list_elem_of_here _ _))). assert (foldr Z.max 0 l <= foldr Z.max 0 l'); [|lia].
  apply IH. intros y Hy. apply H. by right.
Qed.

Lemma peak_value_le cs cs' workload res :
  (∀ c, c ∈ cs → c ∈ cs') → peak_value cs workload res <= peak_value cs' workload res.
Proof.
  intros H. apply max_le. intros x. unfold values_of. rewrite !list_elem_of_omap.
  intros (c & Hc & Hx). exists c. split; [by apply H|done].
Qed.

Lemma recorded_le cs cs' m m' :
  recorded cs m → recorded cs' m' → (∀ c, c ∈ cs ↔ c ∈ cs') → m = m'.
Proof.
  intros Hm Hm' H. apply map_eq. intros res. specialize (Hm res). specialize (Hm' res).
  assert (Hmen : mentioned cs res ↔ mentioned cs' res).
  { unfold mentioned. by split; intros (c & Hc & He); exists c; (split; [apply H|]). }
  assert (Hpk : ∀ w, peak_value cs w res = peak_value cs' w res).
  { intros w. apply Z.le_antisymm; apply peak_value_le; intros c; apply H. }
  destruct (m !! res) as [ws|], (m' !! res) as [ws'|]; try tauto. f_equal. apply map_eq. intros w.
  destruct Hm as [_ Hm], Hm' as [_ Hm']. by rewrite Hm, Hm', Hpk.
Qed.

(** The answers of [ans], but for the list of events. *)
Definition with_events (items : list KubeEvent) (ans : ∀ R, call R → option R) (R : Type) (e : call R) : option R :=
  match e in call R return option R → option R with
  | ListEvents _ => λ _, Some (Ok items)
  | _ => λ r, r
  end (ans R e).

Definition no_events (R : Type) (e : call R) : Prop := match e with ListEvents _ => False | _ => True end.

Lemma eval_agree {A} (ok : ∀ R, call R → Prop) (ans1 ans2 : ∀ R, call R → option R) (p : prog call A) :
  quiet ok p → (∀ R e, ok R e → ans1 R e = ans2 R e) → eval ans1 p = eval ans2 p.
Proof.
  intros Hq Ha. induction p as [a|R e k IH]; [done|]. destruct Hq as [He Hk]. simpl.
  rewrite (Ha R e He). destruct (ans2 R e) as [r|]; [|done]. by apply IH.
Qed.

Lemma quiet_event_contributions quota cutoff since evt :
  quiet no_events (event_contributions quota cutoff since evt).
Proof.
  unfold event_contributions. destruct (negb _); [done|]. destruct (ParseEventMessage _) as [[res qty]|]; [|done].
  apply quiet_bind.
  - unfold isObjectAlive. by destruct (ParseGroupVersion _).
  - intros alive. destruct (negb alive); [done|]. apply quiet_bind; [|done]. unfold calculateWorkloadDeficit.
    repeat match goal with |- context [if String.eqb ?a ?b then _ else _] => destruct (String.eqb a b) end;
      simpl; try done; (split; [done|]; intros [x|]; try done; by repeat case_match).
Qed.

Lemma mapM_set {A B} (f : A → option B) l1 l2 ys1 :
  (∀ x, x ∈ l1 ↔ x ∈ l2) → mapM f l1 = Some ys1 → ∃ ys2, mapM f l2 = Some ys2 ∧ ∀ y, y ∈ ys1 ↔ y ∈ ys2.
Proof.
  intros Hl H. assert (H2 : Forall (λ x, is_Some (f x)) l2).
  { apply Forall_forall. intros x Hx. apply Hl in Hx. apply mapM_Some in H.
    apply list_elem_of_lookup in Hx as [i Hi]. destruct (Forall2_lookup_l _ _ _ _ _ H Hi) as (y & _ & Hy).
    by exists y. }
  apply mapM_is_Some in H2 as [ys2 Hys2]. exists ys2. split; [done|].
  assert (Hin : ∀ l ys, mapM f l = Some ys → ∀ y, y ∈ ys ↔ ∃ x, x ∈ l ∧ f x = Some y).
  { intros l ys Hm y. apply mapM_Some in Hm. split.
    - intros [i Hi]%list_elem_of_lookup. destruct (Forall2_lookup_r _ _ _ _ _ Hm Hi) as (x & Hx & Hf).
      exists x. split; [by eapply list_elem_of_lookup_2|done].
    - intros (x & [i Hi]%list_elem_of_lookup & Hf).
      destruct (Forall2_lookup_l _ _ _ _ _ Hm Hi) as (y' & Hy & Hf'). rewrite Hf in Hf'. injection Hf' as ->.
      by eapply list_elem_of_lookup_2. }
  intros y. rewrite (Hin _ _ H), (Hin _ _ Hys2). split; intros (x & Hx & Hf); exists x; (split; [by apply Hl|done]).
Qed.

(** C29. Only the set of events matters: their order and how often an event is listed
    do not change the deficits. *)
Theorem collectDeficits_event_set (ans : ∀ R, call R → option R) quota since items1 items2 :
  (∀ evt, evt ∈ items1 ↔ evt ∈ items2) →
  eval (with_events items1 ans) (collectDeficits quota since) =
  eval (with_events items2 ans) (collectDeficits quota since).
Proof.
  intros Hset. destruct (ans Z TimeNow) as [now|] eqn:Hn.
  2: { unfold collectDeficits, call_. simpl. by rewrite Hn. }
  rewrite !(eval_collectDeficits _ _ _ _ now) by done.
  assert (Heq : ∀ items, all_contributions (with_events items ans) quota since now items =
    all_contributions ans quota since now items).
  { intros items. apply mapM_ext. intros evt. eapply eval_agree; [apply quiet_event_contributions|].
    by intros R []. }
  rewrite !Heq. destruct (all_contributions ans quota since now items1) as [css1|] eqn:E1.
  - destruct (mapM_set _ _ _ _ Hset E1) as (css2 & E2 & Hcs). unfold all_contributions. rewrite E2. simpl.
    do 3 f_equal. eapply recorded_le; [apply foldl_recorded|apply foldl_recorded|].
    intros c. rewrite !list_elem_of_In, !in_concat. setoid_rewrite <- list_elem_of_In. by setoid_rewrite Hcs.
  - destruct (all_contributions ans quota since now items2) as [css2|] eqn:E2; [|done].
    destruct (mapM_set _ _ _ _ (λ x, iff_sym (Hset x)) E2) as (css1 & E & _).
    unfold all_contributions in E1. by rewrite E in E1.
Qed.

End events.

(** ** Examples *)

Module EventsDemo.

#[local] Existing Instances nano_quantity range_ascending.
Definition schema : KubeSchema := {| GroupVersion := string; ParseGroupVersion s := Some s |}.
#[local] Existing Instance schema.

Definition cpus (n : Z) : gmap string Quantity := {[ "requests.cpu" := NewQuantity n DecimalSI ]}.

Definition compute : ResourceQuota := {|
  QuotaNamespace := "team"; QuotaName := "compute"; QuotaUID := "u1";
  SpecHard := cpus 8; StatusHard := cpus 8; StatusUsed := cpus 1
|}.

Definition noon : Z := 63889214400 * Time.Second.

(** A pod of [web] does not fit the quota [quota]. *)
Definition rejected (quota pod : string) : KubeEvent := {|
  EvtNamespace := "team"; EvtType := "Warning"; EvtReason := "FailedCreate";
  EvtMessage := "Error creating: pods " +:+ Str.quoted pod +:+ " is forbidden: exceeded quota: " +:+ quota +:+
    ", requested: requests.cpu=2, used: requests.cpu=8, limited: requests.cpu=8";
  EvtLastTimestamp := noon - Time.Minute;
  EvtInvolvedObject := {| RefKind := "Job"; RefNamespace := "team"; RefName := pod; RefAPIVersion := "batch/v1" |}
|}.

(** Every object exists; it is noon. *)
Definition world (items : list KubeEvent) (R : Type) (e : call R) : option R :=
  match e in call R return option R with
  | TimeNow => Some noon
  | ListEvents _ => Some (Ok items)
  | GetUnstructured _ _ _ _ => Some None
  | _ => None
  end.

(** Two pods of one workload, one of them twice, and a pod of another. *)
Definition events : list KubeEvent :=
  [rejected "compute" "web-1"; rejected "compute" "web-2"; rejected "compute" "web-1"; rejected "compute" "db-1"].

Definition contributions : list (list contribution) :=
  [[("web", "requests.cpu", 2000)]; [("web", "requests.cpu", 2000)];
   [("web", "requests.cpu", 2000)]; [("db", "requests.cpu", 2000)]].

Lemma collectDeficits_counts_once_witness :
  world events _ (ListEvents "team") = Some (Ok events) ∧
  ∃ m d, recorded (concat contributions) m ∧
    eval (world events) (collectDeficits compute Time.zero) = Some (Ok d) ∧
    ∀ key, d !! key = total_for compute m key.
Proof.
  assert (Hl : world events _ (ListEvents "team") = Some (Ok events)) by reflexivity.
  assert (Hc : all_contributions (world events) compute Time.zero noon events = Some contributions)
    by (vm_compute; reflexivity).
  split; [exact Hl|].
  exact (collectDeficits_counts_once (world events) compute Time.zero events noon contributions Hl eq_refl Hc).
Defined.

Lemma collectDeficits_event_set_witness :
  (∀ evt, evt ∈ [rejected "compute" "web-1"; rejected "compute" "web-1"] ↔ evt ∈ [rejected "compute" "web-1"]) ∧
  eval (with_events [rejected "compute" "web-1"; rejected "compute" "web-1"] (world []))
    (collectDeficits compute Time.zero) =
  eval (with_events [rejected "compute" "web-1"] (world [])) (collectDeficits compute Time.zero).
Proof.
  assert (H : ∀ evt, evt ∈ [rejected "compute" "web-1"; rejected "compute" "web-1"] ↔
    evt ∈ [rejected "compute" "web-1"]).
  { intros evt. rewrite !elem_of_cons. tauto. }
  split; [exact H|]. exact (collectDeficits_event_set (world []) compute Time.zero _ _ H).
Defined.

(** The scan looks for the quota's name anywhere in the message, so an event that
    names another quota of the namespace counts as a deficit of this one. *)
Theorem other_quota_counted :
  mapEventToQuota (Some (rejected "compute-big" "web-1")) = [("team", "compute-big")] ∧
  eval (world [rejected "compute-big" "web-1"]) (collectDeficits compute Time.zero) =
    Some (Ok {[ "requests.cpu" := 2000 ]}).
Proof. split; vm_compute; reflexivity. Qed.

End EventsDemo.
