(* ===== verification/EventMessage.v ===== *)
(** * Reading the message of an event

    The quota admission plugin of Kubernetes rejects an object with a message of
    the form "<prefix>exceeded quota: <quota>, requested: <resource>=<value>,
    used: ..., limited: ...". Both parsers of such messages, the one that finds
    the quota to reconcile and the one that finds the deficit, read it back. *)

From S2P Require Export Events.
From stdpp Require Export sorting base option gmap strings list fin_maps.

Open Scope Z_scope.

(** ** Strings without a character *)

Fixpoint no_char (c : ascii) (s : string) : bool :=
  match s with
  | EmptyString => true
  | String a s => negb (Ascii.eqb a c) && no_char c s
  end.

Lemma no_char_app c s t : no_char c (s +:+ t) = no_char c s && no_char c t.
Proof. induction s as [|a s IH]; [done|]. simpl. by rewrite IH, andb_assoc. Qed.

Lemma Cut_char c b a : no_char c b = true → Str.Cut (b +:+ String c a) (String c "") = Some (b, a).
Proof.
  induction b as [|x b IH]; intros Hb; simpl in *.
  - by rewrite Ascii.eqb_refl.
  - apply andb_true_iff in Hb as [Hx Hb]. apply negb_true_iff in Hx.
    rewrite Ascii.eqb_sym, Hx. by rewrite IH.
Qed.

Lemma Cut_char_none c s : no_char c s = true → Str.Cut s (String c "") = None.
Proof.
  induction s as [|x s IH]; intros Hs; [done|]. simpl in *. apply andb_true_iff in Hs as [Hx Hs].
  apply negb_true_iff in Hx. rewrite Ascii.eqb_sym, Hx. by rewrite IH.
Qed.

(** Cutting at a marker does not depend on what follows the marker. *)
Lemma strip_prefix_app p s t r : Str.strip_prefix p s = Some r → Str.strip_prefix p (s +:+ t) = Some (r +:+ t).
Proof. intros [= ->]%Str.strip_prefix_Some. apply Str.strip_prefix_Some. by rewrite Str.app_assoc. Qed.

Lemma strip_prefix_long p s t :
  (String.length p <= String.length s)%nat → Str.strip_prefix p s = None → Str.strip_prefix p (s +:+ t) = None.
Proof.
  revert s. induction p as [|a p IH]; intros s Hl Hp; [done|]. destruct s as [|b s]; [simpl in Hl; lia|].
  simpl in *. destruct (Ascii.eqb a b); [|done]. apply IH; [lia|done].
Qed.

Lemma Cut_marker p sep r :
  sep ≠ "" → Str.Cut (p +:+ sep) sep = Some (p, "") → Str.Cut (p +:+ sep +:+ r) sep = Some (p, r).
Proof.
  intros Hsep. induction p as [|c p IH]; intros H.
  - simpl in *. assert (Hs : Str.strip_prefix sep (sep +:+ r) = Some r) by by apply Str.strip_prefix_Some.
    destruct sep as [|a sep]; [done|]. cbn [String.append Str.Cut] in *. by rewrite Hs.
  - cbn [String.append Str.Cut] in *. destruct (Str.strip_prefix sep (String c (p +:+ sep))) eqn:E; [done|].
    destruct (Str.Cut (p +:+ sep) sep) as [[b a]|]; [|done]. injection H as -> ->.
    apply (strip_prefix_long _ _ r) in E.
    + cbn [String.append] in E. rewrite Str.app_assoc in E. by rewrite E, IH.
    + cbn [String.length]. rewrite Str.length_app. lia.
Qed.

(** ** Trimming *)

Fixpoint last_char (s : string) : option ascii :=
  match s with
  | EmptyString => None
  | String c EmptyString => Some c
  | String _ s => last_char s
  end.

Lemma last_char_app s t : t ≠ "" → last_char (s +:+ t) = last_char t.
Proof.
  intros Ht. induction s as [|c s IH]; [done|]. cbn [String.append last_char].
  destruct (s +:+ t) eqn:E; [|done]. by destruct s, t.
Qed.

Definition printable (c : ascii) : bool := let n := N_of_ascii c in ((33 <=? n) && (n <=? 126))%N.

(** No space ends in a printable character, and none starts with one. *)
Lemma spaces_last : Forall (λ w, w ≠ "" ∧ ∃ c, last_char w = Some c ∧ printable c = false) Str.spaces.
Proof.
  assert (H : forallb (λ w, match last_char w with Some c => negb (printable c) | None => false end) Str.spaces = true)
    by (vm_compute; reflexivity).
  apply Forall_forall. intros w Hw. rewrite forallb_forall in H. specialize (H w (proj1 (list_elem_of_In _ _) Hw)).
  destruct (last_char w) as [c|] eqn:E; [|done]. split; [by intros ->|]. exists c. by apply negb_true_iff in H.
Qed.

Lemma first_some_none {A B} (f : A → option B) l : (∀ x, x ∈ l → f x = None) → Str.first_some f l = None.
Proof.
  induction l as [|x l IH]; intros Hf; [done|]. simpl. rewrite Hf by by left. apply IH. intros y Hy. apply Hf. by right.
Qed.

Lemma trim_right_printable fuel s c : last_char s = Some c → printable c = true → Str.trim_right_fuel fuel s = s.
Proof.
  intros Hs Hc. destruct fuel as [|fuel]; [done|]. cbn [Str.trim_right_fuel].
  rewrite first_some_none; [done|]. intros w Hw. destruct (Str.strip_suffix s w) as [r|] eqn:E; [|done].
  apply Str.strip_suffix_Some in E. subst s.
  destruct (proj1 (Forall_forall _ _) spaces_last w Hw) as [Hne (c' & Hl & Hp)].
  rewrite last_char_app in Hs by done. congruence.
Qed.

(** ** Tokens: the names and the values of a message *)

Definition token_char (c : ascii) : bool :=
  printable c && negb (Ascii.eqb c ",") && negb (Ascii.eqb c "=").

Fixpoint token (s : string) : bool :=
  match s with
  | EmptyString => true
  | String c s => token_char c && token s
  end.

Lemma token_no_char s c : token s = true → token_char c = false → no_char c s = true.
Proof.
  induction s as [|a s IH]; intros Hs Hc; [done|]. simpl in *. apply andb_true_iff in Hs as [Ha Hs].
  rewrite IH by done. destruct (Ascii.eqb_spec a c) as [->|]; [congruence|done].
Qed.

Lemma token_last s : token s = true → s ≠ "" → ∃ c, last_char s = Some c ∧ printable c = true.
Proof.
  induction s as [|a s IH]; [done|]. intros Hs _. simpl in Hs. apply andb_true_iff in Hs as [Ha Hs].
  destruct s as [|b s]; [|by apply IH]. exists a. split; [done|]. unfold token_char in Ha. by bool_to_prop.
Qed.

(** ** The message *)

Definition marker : string := "exceeded quota: ".

Definition message (prefix quota name value rest : string) : string :=
  prefix +:+ marker +:+ quota +:+ ", requested: " +:+ name +:+ "=" +:+ value +:+ rest.

(** What comes before the marker: a text such as "pods web-0 is forbidden: ". *)
Record prefix_ok (prefix quota : string) : Prop := {
  prefix_marker : Str.Cut (prefix +:+ marker) marker = Some (prefix, "");
  prefix_comma : no_char "," prefix = true;
  prefix_requested : Str.HasPrefix (Str.TrimSpace (prefix +:+ marker +:+ quota)) "requested: " = false
}.

(** What follows the first resource: nothing, another one, or what is used. *)
Definition rest_ok (rest : string) : Prop := rest = "" ∨ ∃ t, rest = String "," t.

Section message.
Context {KQ : KubeQuantity} {KS : KubeSchema} {GR : GoRange}.

Lemma Split_char fuel c b a : no_char c b = true → Str.split_fuel (S fuel) (b +:+ String c a) (String c "") = b :: Str.split_fuel fuel a (String c "").
Proof. intros Hb. cbn [Str.split_fuel]. by rewrite Cut_char. Qed.

Lemma Split_char_none fuel c s : no_char c s = true → Str.split_fuel fuel s (String c "") = [s].
Proof. intros Hs. destruct fuel; [done|]. cbn [Str.split_fuel]. by rewrite Cut_char_none. Qed.

(** The part with the request. *)
Lemma parse_requested name value :
  token name = true → token value = true → value ≠ "" →
  parse_part (" requested: " +:+ name +:+ "=" +:+ value) = (λ q, (name, q)) <$> ParseQuantity value.
Proof.
  intros Hn Hv Hne. unfold parse_part.
  assert (Ht : Str.TrimSpace (" requested: " +:+ name +:+ "=" +:+ value) = "requested: " +:+ name +:+ "=" +:+ value).
  { destruct (token_last value Hv Hne) as (c & Hl & Hp). unfold Str.TrimSpace.
    assert (Str.trim_left_fuel (String.length (" requested: " +:+ name +:+ "=" +:+ value))
      (" requested: " +:+ name +:+ "=" +:+ value) = "requested: " +:+ name +:+ "=" +:+ value) as -> by reflexivity.
    eapply trim_right_printable; [|exact Hp].
    assert (Hne' : name +:+ "=" +:+ value ≠ "") by by destruct name.
    rewrite (last_char_app "requested: ") by done. rewrite (last_char_app name) by done.
    by rewrite (last_char_app "=" value Hne). }
  rewrite Ht, Str.HasPrefix_app, Str.TrimPrefix_app.
  assert (Hs : Str.Split (name +:+ "=" +:+ value) "=" = [name; value]).
  { unfold Str.Split. rewrite Str.length_app. replace (String.length name + String.length ("=" +:+ value))%nat
      with (S (String.length name + String.length value)) by (simpl; lia).
    cbn [String.append]. rewrite Split_char by by apply token_no_char.
    by rewrite Split_char_none by by apply token_no_char. }
  rewrite Hs. by destruct (ParseQuantity value).
Qed.

Lemma ParseEventMessage_message prefix quota name value rest q :
  prefix_ok prefix quota → token quota = true → token name = true → token value = true → value ≠ "" →
  rest_ok rest → ParseQuantity value = Some q →
  ParseEventMessage (message prefix quota name value rest) = Some (name, q).
Proof.
  intros [Hm Hc Hr] Hquota Hn Hv Hne Hrest Hq. unfold ParseEventMessage, Str.Split.
  set (msg := message prefix quota name value rest).
  assert (Hmsg : msg = (prefix +:+ marker +:+ quota) +:+ String "," (" requested: " +:+ name +:+ "=" +:+ value +:+ rest)).
  { unfold msg, message. by rewrite !Str.app_assoc. }
  assert (Hlen : ∃ n, String.length msg = S (S n)).
  { rewrite Hmsg, Str.length_app. cbn [String.length String.append]. eexists.
    rewrite Nat.add_comm. cbn [Nat.add]. reflexivity. }
  destruct Hlen as [n ->]. rewrite Hmsg, Split_char.
  2: { rewrite !no_char_app, Hc. simpl. by apply token_no_char. }
  cbn [Str.first_some]. unfold parse_part at 1. rewrite Hr.
  assert (Hp : parse_part (" requested: " +:+ name +:+ "=" +:+ value) = Some (name, q)).
  { by rewrite parse_requested, Hq. }
  assert (Hno : no_char "," (" requested: " +:+ name +:+ "=" +:+ value) = true).
  { rewrite !no_char_app, (token_no_char name), (token_no_char value) by done. done. }
  destruct Hrest as [->|[t ->]].
  - rewrite Str.app_nil_r, Split_char_none by done. cbn [Str.first_some]. by rewrite Hp.
  - replace (" requested: " +:+ name +:+ "=" +:+ value +:+ String "," t)
      with ((" requested: " +:+ name +:+ "=" +:+ value) +:+ String "," t) by by rewrite !Str.app_assoc.
    rewrite Split_char by done. cbn [Str.first_some]. by rewrite Hp.
Qed.

Lemma quota_in_message_message prefix quota name value rest :
  prefix_ok prefix quota → token quota = true → quota_in_message (message prefix quota name value rest) = quota.
Proof.
  intros [Hm _ _] Hq. unfold quota_in_message, message.
  fold marker. rewrite Cut_marker by done.
  change (", requested: " +:+ name +:+ "=" +:+ value +:+ rest)
    with (String "," (" requested: " +:+ name +:+ "=" +:+ value +:+ rest)).
  rewrite Cut_char; [done|]. by apply token_no_char.
Qed.

(** ** The parts between colons *)

Lemma before_colon t y b r :
  no_char ":" t = true → t +:+ y = b +:+ String ":" r → ∃ y', b = t +:+ y'.
Proof.
  revert b. induction t as [|c t IH]; intros b Ht H; [by exists b|]. simpl in Ht. apply andb_true_iff in Ht as [Hc Ht].
  destruct b as [|c' b]; simpl in H; injection H as -> H; [done|]. destruct (IH b Ht H) as [y' ->]. by exists y'.
Qed.

(** A text without a colon that does not start with a space is not torn apart. *)
Lemma not_torn c t x y b a :
  no_char ":" (String c t) = true → c ≠ " "%char → x +:+ String c t +:+ y = b +:+ ": " +:+ a →
  Str.Contains b (String c t) = true ∨ Str.Contains a (String c t) = true.
Proof.
  intros Ht Hc. revert x. induction b as [|d b IH]; intros x H.
  - right. simpl in Ht. apply andb_true_iff in Ht as [Hc' _].
    destruct x as [|x1 [|x2 x]]; simpl in H; simplify_eq; try done. apply Str.Contains_spec. by exists x, y.
  - destruct x as [|x1 x].
    + left. destruct (before_colon (String c t) y (String d b) (String " " a) Ht H) as [y' ->].
      apply Str.Contains_spec. by exists "", y'.
    + simpl in H. injection H as _ H. destruct (IH x H) as [Hb|Ha]; [left|by right].
      apply Str.Contains_spec in Hb as (p & q & ->). apply Str.Contains_spec. by exists (String d p), q.
Qed.

Lemma split_keeps fuel s c t :
  no_char ":" (String c t) = true → c ≠ " "%char → Str.Contains s (String c t) = true →
  existsb (λ part, Str.Contains part (String c t)) (Str.split_fuel fuel s ": ") = true.
Proof.
  intros Ht Hc. revert s. induction fuel as [|fuel IH]; intros s Hs; cbn [Str.split_fuel]; [simpl; by rewrite Hs|].
  destruct (Str.Cut s ": ") as [[b a]|] eqn:E; [|simpl; by rewrite Hs]. apply Str.Cut_Some in E.
  apply Str.Contains_spec in Hs as (x & y & ->). cbn [existsb].
  destruct (not_torn c t x y b a Ht Hc E) as [-> | Ha]; [done|]. rewrite (IH a Ha). apply orb_true_r.
Qed.

Lemma split_two fuel b a sep : (2 <= length (Str.split_fuel (S fuel) (b +:+ sep +:+ a) sep))%nat.
Proof.
  cbn [Str.split_fuel]. destruct (Str.Cut_exists b sep a) as [[p q] ->].
  assert (H : ∀ f s, (1 <= length (Str.split_fuel f s sep))%nat).
  { intros f s. destruct f; simpl; [lia|]. destruct (Str.Cut s sep) as [[]|]; simpl; lia. }
  simpl. specialize (H fuel q). lia.
Qed.

Lemma mapEventToQuota_message evt prefix quota name value rest :
  prefix_ok prefix quota → token quota = true → quota ≠ "" →
  EvtType evt = Core.EventTypeWarning → EvtReason evt = reasonFailedCreate →
  EvtMessage evt = message prefix quota name value rest →
  mapEventToQuota (Some evt) = [(EvtNamespace evt, quota)].
Proof.
  intros Hp Hq Hne Hty Hre Hmsg. unfold mapEventToQuota. rewrite Hty, Hre, Hmsg. rewrite !String.eqb_refl. cbn [negb orb].
  set (msg := message prefix quota name value rest).
  assert (Hm : msg = prefix +:+ "exceeded quota" +:+ ": " +:+ quota +:+ ", requested: " +:+ name +:+ "=" +:+ value +:+ rest) by done.
  assert (Hcon : Str.Contains msg "exceeded quota" = true).
  { apply Str.Contains_spec. rewrite Hm. by eexists _, _. }
  assert (Hlen : ∃ n, String.length msg = S n).
  { rewrite Hm, Str.length_app. exists (String.length prefix + pred (String.length ("exceeded quota" +:+ ": " +:+ quota +:+ ", requested: " +:+ name +:+ "=" +:+ value +:+ rest)))%nat.
    cbn [String.length String.append]. lia. }
  destruct Hlen as [n Hlen]. rewrite Hcon. cbn [negb]. unfold Str.Split.
  rewrite split_keeps by done. rewrite Hlen.
  assert (Htwo : (2 <= length (Str.split_fuel (S n) msg ": "))%nat).
  { rewrite Hm. replace (prefix +:+ "exceeded quota" +:+ ": " +:+ quota +:+ ", requested: " +:+ name +:+ "=" +:+ value +:+ rest)
      with ((prefix +:+ "exceeded quota") +:+ ": " +:+ quota +:+ ", requested: " +:+ name +:+ "=" +:+ value +:+ rest)
      by by rewrite !Str.app_assoc. apply split_two. }
  destruct (Nat.ltb_spec (length (Str.split_fuel (S n) msg ": ")) 2); [lia|].
  unfold msg. rewrite quota_in_message_message by done. by destruct (String.eqb_spec quota "").
Qed.

(** C30. Whatever prefix and details Kubernetes gives its message, the event is traced
    to the quota that it names, and counts for the resource and the quantity that
    it asks for first. *)
Theorem event_message_understood evt prefix quota name value rest q :
  EvtMessage evt = message prefix quota name value rest →
  EvtType evt = Core.EventTypeWarning → EvtReason evt = reasonFailedCreate →
  prefix_ok prefix quota → rest_ok rest →
  token quota = true → quota ≠ "" → token name = true → token value = true → ParseQuantity value = Some q → value ≠ "" →
  mapEventToQuota (Some evt) = [(EvtNamespace evt, quota)] ∧
  ParseEventMessage (EvtMessage evt) = Some (name, q).
Proof.
  intros Hmsg Hty Hre Hp Hr Hquota Hne Hn Hv Hq Hvne. split; [by eapply mapEventToQuota_message|].
  rewrite Hmsg. by apply ParseEventMessage_message.
Qed.

(** Of several resources in one message only the first one is counted. *)
Theorem later_resources_ignored prefix quota name value name' value' rest q :
  prefix_ok prefix quota → token quota = true → token name = true → token value = true → value ≠ "" →
  ParseQuantity value = Some q →
  ParseEventMessage (message prefix quota name value ("," +:+ name' +:+ "=" +:+ value' +:+ rest)) = Some (name, q).
Proof. intros. apply ParseEventMessage_message; try done. right. by eexists. Qed.

End message.

(** ** A message of Kubernetes *)

Module EventMessageDemo.

#[local] Existing Instance nano_quantity.

Definition failed : KubeEvent := {|
  EvtNamespace := "team"; EvtType := Core.EventTypeWarning; EvtReason := reasonFailedCreate;
  EvtMessage := message "create Pod web-0 in StatefulSet web failed error: pods web-0 is forbidden: "
    "compute" "requests.cpu" "500m" ", used: requests.cpu=4, limited: requests.cpu=4";
  EvtLastTimestamp := 0;
  EvtInvolvedObject := {| RefKind := kindStatefulSet; RefNamespace := "team"; RefName := "web"; RefAPIVersion := "apps/v1" |}
|}.

Lemma event_message_understood_witness :
  mapEventToQuota (Some failed) = [("team", "compute")] ∧
  ∃ q, ParseQuantity "500m" = Some q ∧ ParseEventMessage (EvtMessage failed) = Some ("requests.cpu", q).
Proof.
  destruct (ParseQuantity "500m") as [q|] eqn:Eq; [|by vm_compute in Eq].
  destruct (event_message_understood failed _ "compute" "requests.cpu" "500m" _ q eq_refl eq_refl eq_refl) as [Hm Hp];
    try reflexivity; try discriminate; try exact Eq.
  - constructor; vm_compute; reflexivity.
  - right. eexists. reflexivity.
  - split; [exact Hm|]. exists q. split; [reflexivity|exact Hp].
Defined.

End EventMessageDemo.
