(* ===== verification/LogOnly.v ===== *)
(** * internal/git/log_provider.go: the stateless provider

    [LogOnlyProvider] answers without any state. Log lines are left out;
    [roll] is the number that [rand.Intn(1000)] gives. *)

From S2P Require Export Provider.
From stdpp Require Export sorting base option gmap strings list fin_maps.

Open Scope Z_scope.

Section log_only.
Context {KQ : KubeQuantity}.

(* go: internal/git/log_provider.go 21-32 GetPRStatus *)
Definition GetPRStatus (prID : Z) : go_result error (option PRStatus) :=
  Ok (Some {| IsOpen := true; IsMerged := false; Mergeable := true;
              MergeableState := MergeableStateClean; ChecksState := ChecksStateSuccess;
              ChecksTotalCount := 0; CreatedAt := Time.zero |}).

(* go: internal/git/log_provider.go 34-46 CreatePR *)
Definition CreatePR (roll : Z) (quotaName namespace direction : string)
    (annotations : gmap string string) (newLimits : gmap string Quantity) : go_result error Z :=
  Ok (roll + 1000).

(* go: internal/git/log_provider.go 48-52 UpdatePR *)
Definition UpdatePR (prID : Z) (quotaName namespace : string) (annotations : gmap string string)
    (newLimits : gmap string Quantity) : option error := None.

(* go: internal/git/log_provider.go 54-65 MergePR *)
Definition MergePR (prID : Z) (method : string) : option error := None.

(* go: internal/git/log_provider.go 67-73 FindOpenPR *)
Definition FindOpenPR (namespace quotaName : string) : go_result error (Z * string) := Ok (0, "").

(* go: internal/git/log_provider.go 75-79 ClosePR *)
Definition ClosePR (prID : Z) (comment : string) : option error := None.

End log_only.
