(* ===== verification/StatefulLog.v ===== *)
(** * internal/git/log_provider.go: the stateful provider

    [StatefulLogProvider] keeps the pull requests it made up in a map, under a
    lock: every operation is one step on the map. [None] as the new state is a
    nil dereference. [roll] is the number that [rand.Intn(1000)] gives. *)

From S2P Require Export Provider.
From stdpp Require Export sorting base option gmap strings list fin_maps.

Open Scope Z_scope.

(** The order of [for id, details := range p.prs], which Go leaves open. *)
Class GoRangeZ : Type := {
  range_z : forall {V : Type}, gmap Z V → list (Z * V);
  range_z_perm : forall {V : Type} (m : gmap Z V), range_z m ≡ₚ map_to_list m
}.

Definition range_z_plain : GoRangeZ.
Proof. refine {| range_z V m := map_to_list m |}. intros. apply Permutation_refl. Defined.

Section stateful_log.
Context {KQ : KubeQuantity} {GZ : GoRangeZ}.

(** The status is a pointer, which could be nil. *)
(* go: internal/git/log_provider.go 81-88 PRDetails *)
Record PRDetails := {
  Namespace : string;
  QuotaName : string;
  Direction : string;
  NewLimits : gmap string Quantity;
  Status : option PRStatus
}.

(* go: internal/git/log_provider.go 90-93 StatefulLogProvider *)
Definition StatefulLogProvider : Type := gmap Z PRDetails.

Local Abbreviation prs_map := (gmap Z PRDetails).

(* go: internal/git/log_provider.go 95-99 NewStatefulLogProvider *)
Definition NewStatefulLogProvider : prs_map := ∅.

Definition open_clean : PRStatus :=
  {| IsOpen := true; IsMerged := false; Mergeable := true; MergeableState := MergeableStateClean;
     ChecksState := ""; ChecksTotalCount := 0; CreatedAt := Time.zero |}.

(* go: internal/git/log_provider.go 101-124 GetPRStatus *)
Definition GetPRStatus (prs : prs_map) (prID : Z) : go_result error (option PRStatus) :=
  match prs !! prID with
  | Some details => Ok (Status details)
  | None => Ok (Some open_clean)
  end.

(* go: internal/git/log_provider.go 126-152 CreatePR *)
Definition CreatePR (prs : prs_map) (roll : Z) (quotaName namespace direction : string)
    (annotations : gmap string string) (newLimits : gmap string Quantity)
    : prs_map * go_result error Z :=
  let id := roll + 1000 in
  (<[id := {| Namespace := namespace; QuotaName := quotaName; Direction := direction;
              NewLimits := newLimits; Status := Some open_clean |}]> prs, Ok id).

(* go: internal/git/log_provider.go 154-158 UpdatePR *)
Definition UpdatePR (prs : prs_map) (prID : Z) (quotaName namespace : string)
    (annotations : gmap string string) (newLimits : gmap string Quantity) : option error := None.

(** The test of the loop in [FindOpenPR]. *)
(* go: internal/git/log_provider.go 171-172 FindOpenPR *)
Definition is_open_for (namespace quotaName : string) (details : PRDetails) : bool :=
  String.eqb (Namespace details) namespace && String.eqb (QuotaName details) quotaName &&
  match Status details with Some status => IsOpen status | None => false end.

(* go: internal/git/log_provider.go 160-177 FindOpenPR *)
Definition FindOpenPR (prs : prs_map) (namespace quotaName : string) : go_result error (Z * string) :=
  match list_find (λ kv, is_open_for namespace quotaName kv.2 = true) (range_z prs) with
  | Some (_, (id, details)) => Ok (id, Direction details)
  | None => Ok (0, "")
  end.

(** [details.Status.f = v]. *)
Definition update_status (prs : prs_map) (prID : Z) (f : PRStatus → PRStatus) : option prs_map :=
  match prs !! prID with
  | None => Some prs
  | Some d =>
      match Status d with
      | None => None
      | Some status =>
          Some (<[prID := {| Namespace := Namespace d; QuotaName := QuotaName d;
                             Direction := Direction d; NewLimits := NewLimits d;
                             Status := Some (f status) |}]> prs)
      end
  end.

(* go: internal/git/log_provider.go 179-205 MergePR *)
Definition MergePR (prs : prs_map) (prID : Z) (method : string) : option (prs_map * option error) :=
  (λ prs, (prs, None)) <$> update_status prs prID (λ s,
    {| IsOpen := false; IsMerged := true; Mergeable := Mergeable s; MergeableState := MergeableState s;
       ChecksState := ChecksState s; ChecksTotalCount := ChecksTotalCount s; CreatedAt := CreatedAt s |}).

(* go: internal/git/log_provider.go 207-226 ClosePR *)
Definition ClosePR (prs : prs_map) (prID : Z) (comment : string) : option (prs_map * option error) :=
  (λ prs, (prs, None)) <$> update_status prs prID (λ s,
    {| IsOpen := false; IsMerged := IsMerged s; Mergeable := Mergeable s; MergeableState := MergeableState s;
       ChecksState := ChecksState s; ChecksTotalCount := ChecksTotalCount s; CreatedAt := CreatedAt s |}).

(** ** Runs of the provider *)

Inductive provider_step : prs_map → prs_map → Prop :=
| step_create prs roll q ns d ann lim :
    0 <= roll < 1000 → provider_step prs (CreatePR prs roll q ns d ann lim).1
| step_merge prs id m prs' e : MergePR prs id m = Some (prs', e) → provider_step prs prs'
| step_close prs id c prs' e : ClosePR prs id c = Some (prs', e) → provider_step prs prs'.

Definition reachable : prs_map → Prop := rtc provider_step NewStatefulLogProvider.

(** Every stored pull request has a status and a number between 1000 and 1999. *)
Definition prs_ok (prs : prs_map) : Prop :=
  map_Forall (λ id d, is_Some (Status d) ∧ 1000 <= id < 2000) prs.

End stateful_log.
