(* ===== verification/StatefulLogFacts.v ===== *)
(** * The stateful provider keeps its promises

    Every state that the provider can reach is well formed, so that no operation
    dereferences a nil status, and [FindOpenPR] answers as the interface
    promises. *)

From S2P Require Export StatefulLog.
From stdpp Require Export sorting base option gmap strings list fin_maps.

Open Scope Z_scope.

Section facts.
Context {KQ : KubeQuantity} {GZ : GoRangeZ}.

Local Abbreviation prs_map := (gmap Z PRDetails).

Lemma update_status_ok prs id f prs' :
  prs_ok prs → update_status prs id f = Some prs' → prs_ok prs'.
Proof.
  intros Hok. unfold update_status. destruct (prs !! id) as [d|] eqn:E; [|by intros [= <-]].
  destruct (Status d) as [s|]; [|done]. intros [= <-].
  apply map_Forall_insert_2; [|done]. split; [by eexists|]. by apply (Hok id d).
Qed.

Lemma update_status_total prs id f : prs_ok prs → is_Some (update_status prs id f).
Proof.
  intros Hok. unfold update_status. destruct (prs !! id) as [d|] eqn:E; [|by eexists].
  destruct (Hok id d E) as [[s ->] _]. by eexists.
Qed.

Lemma step_ok prs prs' : prs_ok prs → provider_step prs prs' → prs_ok prs'.
Proof.
  intros Hok Hs. destruct Hs as [prs roll q ns d ann lim Hr|prs id m prs' e H|prs id c prs' e H].
  - apply map_Forall_insert_2; [|done]. split; [by eexists|]. simpl. lia.
  - unfold MergePR in H. apply fmap_Some in H as (p & Hp & [= -> ->]). by eapply update_status_ok.
  - unfold ClosePR in H. apply fmap_Some in H as (p & Hp & [= -> ->]). by eapply update_status_ok.
Qed.

Lemma reachable_ok prs : reachable prs → prs_ok prs.
Proof.
  intros H. unfold reachable in H. assert (H0 : prs_ok NewStatefulLogProvider) by (apply map_Forall_empty).
  revert H0. induction H as [prs|prs prs1 prs2 Hs _ IH]; [done|]. intros H0. by apply IH, (step_ok prs).
Qed.

(** In every state the provider reaches, the status it reports is not nil, and
    neither merging nor closing any number fails on a nil status. *)
Theorem provider_never_panics prs id m c :
  reachable prs →
  (∃ status, GetPRStatus prs id = Ok (Some status)) ∧ is_Some (MergePR prs id m) ∧ is_Some (ClosePR prs id c).
Proof.
  intros Hr. pose proof (reachable_ok _ Hr) as Hok. split_and!.
  - unfold GetPRStatus. destruct (prs !! id) as [d|] eqn:E; [|by eexists].
    destruct (Hok id d E) as [[s ->] _]. by exists s.
  - unfold MergePR. apply fmap_is_Some. by apply update_status_total.
  - unfold ClosePR. apply fmap_is_Some. by apply update_status_total.
Qed.

(** An open pull request of the quota. *)
Definition open_pr (prs : prs_map) (ns q : string) (id : Z) (d : string) : Prop :=
  ∃ details, prs !! id = Some details ∧ is_open_for ns q details = true ∧ Direction details = d.

Lemma FindOpenPR_spec prs ns q :
  match FindOpenPR prs ns q with
  | Ok (id, d) => open_pr prs ns q id d ∨ (id = 0 ∧ d = "" ∧ ∀ id' d', ¬ open_pr prs ns q id' d')
  | Err _ => False
  end.
Proof.
  unfold FindOpenPR. destruct (list_find _ (range_z prs)) as [[i [id details]]|] eqn:E.
  - left. apply list_find_Some in E as (Hi & Ho & _). exists details. split; [|by split].
    apply elem_of_map_to_list. rewrite <- range_z_perm. by eapply list_elem_of_lookup_2.
  - right. split; [done|]. split; [done|]. intros id' d' (details & Hd & Ho & _).
    apply list_find_None in E. rewrite Forall_forall in E.
    apply (E (id', details)); [|done]. rewrite range_z_perm. by apply elem_of_map_to_list.
Qed.

(** [FindOpenPR] answers with a stored open pull request of the namespace and
    quota and its direction, whatever order the map is visited in, and with zero
    only when there is none; zero is never the number of a stored one. A merged
    or closed pull request is not found again. *)
Theorem FindOpenPR_sound_complete prs ns q :
  reachable prs →
  ∃ id d, FindOpenPR prs ns q = Ok (id, d) ∧
    (id ≠ 0 → open_pr prs ns q id d) ∧ (id = 0 → ∀ id' d', ¬ open_pr prs ns q id' d') ∧
    (∀ m e prs', MergePR prs id m = Some (prs', e) → ∀ d', ¬ open_pr prs' ns q id d') ∧
    (∀ c e prs', ClosePR prs id c = Some (prs', e) → ∀ d', ¬ open_pr prs' ns q id d').
Proof.
  intros Hr. pose proof (reachable_ok _ Hr) as Hok. pose proof (FindOpenPR_spec prs ns q) as Hf.
  destruct (FindOpenPR prs ns q) as [[id d]|e]; [|done]. exists id, d. split; [done|].
  assert (Hclosed : ∀ f prs', (∀ s, IsOpen (f s) = false) → update_status prs id f = Some prs' →
    ∀ d', ¬ open_pr prs' ns q id d').
  { intros f prs' Hfo Hu d' (details & Hd & Ho & _). unfold update_status in Hu.
    destruct (prs !! id) as [d0|] eqn:E; [|injection Hu as <-; congruence].
    destruct (Status d0) as [s|]; [|done]. injection Hu as <-. rewrite lookup_insert_eq in Hd.
    injection Hd as <-. unfold is_open_for in Ho. simpl in Ho. by rewrite Hfo, andb_false_r in Ho. }
  split_and!.
  - intros Hne. by destruct Hf as [|[Hz _]].
  - intros ->. destruct Hf as [(details & Hd & _)|[_ [_ H]]]; [|done]. destruct (Hok _ _ Hd) as [_ ?]. lia.
  - intros m e prs' H. unfold MergePR in H. apply fmap_Some in H as (p & Hp & [= -> ->]).
    by eapply Hclosed; [|exact Hp].
  - intros c e prs' H. unfold ClosePR in H. apply fmap_Some in H as (p & Hp & [= -> ->]).
    by eapply Hclosed; [|exact Hp].
Qed.

End facts.

(** ** A state *)

Definition two_proposals : gmap Z (@PRDetails nano_quantity) :=
  (@CreatePR nano_quantity (@CreatePR nano_quantity ∅ 5 "compute" "team" dirGrow ∅ ∅).1
    6 "compute" "other" dirShrink ∅ ∅).1.

Lemma two_proposals_reachable : @reachable nano_quantity two_proposals.
Proof.
  eapply rtc_l; [apply (step_create _ 5 "compute" "team" dirGrow ∅ ∅); lia|].
  eapply rtc_l; [apply (step_create _ 6 "compute" "other" dirShrink ∅ ∅); lia|]. apply rtc_refl.
Qed.

Lemma provider_never_panics_witness :
  ∃ status, @GetPRStatus nano_quantity two_proposals 1006 = Ok (Some status).
Proof. apply (provider_never_panics two_proposals 1006 "squash" "" two_proposals_reachable). Defined.

Lemma FindOpenPR_sound_complete_witness :
  ∃ id d, @FindOpenPR nano_quantity range_z_plain two_proposals "other" "compute" = Ok (id, d) ∧
    (id ≠ 0 → @open_pr nano_quantity two_proposals "other" "compute" id d).
Proof.
  destruct (@FindOpenPR_sound_complete nano_quantity range_z_plain two_proposals "other" "compute"
    two_proposals_reachable) as (id & d & Hf & Ho & _). exists id, d. split; [exact Hf|exact Ho].
Defined.

(** The number of a pull request is drawn from a thousand, and one that is in use
    is drawn like any other. The pull request that had it is gone. *)
Example number_reused :
  let prs := (@CreatePR nano_quantity ∅ 5 "compute" "team" dirShrink ∅ ∅).1 in
  let prs' := (@CreatePR nano_quantity prs 5 "compute" "other" dirGrow ∅ ∅).1 in
  (@CreatePR nano_quantity prs 5 "compute" "other" dirGrow ∅ ∅).2 = Ok 1005 ∧
  @FindOpenPR nano_quantity range_z_plain prs "team" "compute" = Ok (1005, dirShrink) ∧
  @FindOpenPR nano_quantity range_z_plain prs' "team" "compute" = Ok (0, "") ∧
  @GetPRStatus nano_quantity prs' 1005 = Ok (Some open_clean).
Proof. vm_compute. auto. Qed.
