(* ===== verification/GitHubApi.v ===== *)
(** * What internal/git/github.go asks of its libraries

    The GitHub client (go-github) is a type of calls: each method the program
    uses is one constructor, with the fields of the answer that the program
    reads. The YAML library gives a reader and a writer of document trees, and
    [text/template] a function of the two values that the path template can
    use. The accessors of go-github ([GetRef], [GetNumber], ...) give the zero
    value for a missing field, so such fields are plain values here. *)

From S2P Require Export Effects Provider.
From stdpp Require Export sorting base option gmap strings list fin_maps.

Open Scope Z_scope.

(** An error of the API, and whether it is a response with status 404. *)
Record gh_error := { gh_not_found : bool; gh_text : string }.

Definition from_gh (e : gh_error) : error := Errorf (gh_text e).

(** [github.PullRequest]. *)
Record PullRequest := {
  PrNumber : Z;
  PrHead : option (string * option string); (* the branch and the commit *)
  PrLabels : list string;
  PrState : string;
  PrMerged : bool;
  PrMergeable : bool;
  PrMergeableState : string;
  PrCreatedAt : Z
}.

(** [github.RepositoryContent]; the last field is what [GetContent] gives. *)
Record RepositoryContent := {
  RcType : string;
  RcName : string;
  RcPath : string;
  RcSHA : option string;
  RcContent : go_result error string
}.

Inductive ghcall : Type → Type :=
| GhNow : ghcall Z
| RepoDefaultBranch : ghcall (go_result gh_error string)
| GetRefSHA (ref : string) : ghcall (go_result gh_error string)
| CreateRef (ref sha : string) : ghcall (option gh_error)
(* a file, or the entries of a directory *)
| GetContents (path ref : string) :
    ghcall (go_result gh_error (option RepositoryContent * list RepositoryContent))
| UpdateFile (path message content : string) (sha : option string) (branch : string) :
    ghcall (option gh_error)
| PullCreate (title head base body : string) : ghcall (go_result gh_error Z)
| PullGet (number : Z) : ghcall (go_result gh_error PullRequest)
| PullMerge (number : Z) (message method : string) : ghcall (option gh_error)
| PullEditBody (number : Z) (body : string) : ghcall (option gh_error)
| PullEditState (number : Z) (state : string) : ghcall (option gh_error)
(* one page of the open pull requests, and the number of the next page *)
| PullListOpen (page : Z) : ghcall (go_result gh_error (list PullRequest * Z))
| CombinedStatus (sha : string) : ghcall (go_result gh_error (string * option Z))
| AddLabels (number : Z) (labels : list string) : ghcall (option gh_error)
| CreateComment (number : Z) (body : string) : ghcall (option gh_error)
(* the pause before a retry; an error when the context is cancelled first *)
| Backoff : ghcall (option error)
(* a nil dereference, and a loop that has not ended within the fuel *)
| GhPanic : ghcall Empty_set
| OutOfFuel : ghcall Empty_set.

(** ** gopkg.in/yaml.v3 *)

Inductive yaml_kind := DocumentNode | SequenceNode | MappingNode | ScalarNode | AliasNode.

#[export] Instance yaml_kind_eq_dec : EqDecision yaml_kind.
Proof. solve_decision. Defined.

(** A library of YAML documents: nodes carry further fields (tag, anchor,
    comments, position), a style, and the reader and the writer. [None] is an
    error of the reader or of the writer. *)
Class YamlTypes : Type := {
  yaml_extra : Type;
  no_extra : yaml_extra;
  yaml_style : Type;
  no_style : yaml_style;
  DoubleQuotedStyle : yaml_style
}.

Inductive node `{YamlTypes} :=
| Node (kind : yaml_kind) (style : yaml_style) (value : string) (content : list node)
    (extra : yaml_extra).

Class Yaml : Type := {
  yaml_types :: YamlTypes;
  yaml_decode_all : string → option (list node);
  yaml_encode_all : list node → option string
}.
