(* ===== verification/GitHubYaml.v ===== *)
(** * internal/git/github.go: the change to the quota file

    [applyChangesToYaml] parses all documents of a file, sets the limits of
    every ResourceQuota among them, and writes the documents back. The code
    changes nodes in place; nodes of a parsed document form a tree, so that is
    a function from tree to tree here. *)

From S2P Require Export GitHubApi.
From stdpp Require Export sorting base option gmap strings list fin_maps.

Open Scope Z_scope.

Section yaml.
Context {KQ : KubeQuantity} {GR : GoRange} {YL : Yaml}.

Definition node_kind (n : node) : yaml_kind := match n with Node k _ _ _ _ => k end.
Definition node_value (n : node) : string := match n with Node _ _ v _ _ => v end.
Definition node_content (n : node) : list node := match n with Node _ _ _ c _ => c end.

(* go: internal/git/github.go 662-676 matchesResourceKey *)
Definition matchesResourceKey (key res : string) : bool :=
  if String.eqb key res then true
  else if String.eqb res Core.ResourceRequestsCPU then
    String.eqb key "cpu" || String.eqb key "requests.cpu"
  else if String.eqb res Core.ResourceRequestsMemory then
    String.eqb key "memory" || String.eqb key "requests.memory"
  else if String.eqb res Core.ResourceRequestsStorage then
    String.eqb key "storage" || String.eqb key "requests.storage"
  else false.

(** Keys and values of a mapping alternate. The value after the first key
    [key]; a key without a value is out of range in the code, and the parser
    yields none. *)
(* go: internal/git/github.go 597-601 applyChangesToYaml *)
Fixpoint find_pair (key : string) (l : list node) : option node :=
  match l with
  | k :: v :: l => if String.eqb (node_value k) key then Some v else find_pair key l
  | _ => None
  end.

Fixpoint update_pair (key : string) (f : node → node) (l : list node) : list node :=
  match l with
  | k :: v :: l =>
      if String.eqb (node_value k) key then k :: f v :: l else k :: v :: update_pair key f l
  | l => l
  end.

(* go: internal/git/github.go 590-604 findValueNode *)
Fixpoint findValueNode (n : node) (key : string) : option node :=
  match n with
  | Node DocumentNode _ _ (c :: _) _ => findValueNode c key
  | Node MappingNode _ _ content _ => find_pair key content
  | _ => None
  end.

(** The tree after a change to the node that [findValueNode] finds. *)
Fixpoint updateValueNode (n : node) (key : string) (f : node → node) : node :=
  match n with
  | Node DocumentNode s v (c :: cs) x => Node DocumentNode s v (updateValueNode c key f :: cs) x
  | Node MappingNode s v content x => Node MappingNode s v (update_pair key f content) x
  | n => n
  end.

(** A scalar with a new double-quoted value. *)
Definition set_value (value : string) (n : node) : node :=
  match n with Node k _ _ c x => Node k DoubleQuotedStyle value c x end.

(** Set the value of every key that stands for the resource, and tell whether
    there was one. *)
(* go: internal/git/github.go 620-631 applyChangesToYaml *)
Fixpoint set_matching (res value : string) (l : list node) : list node * bool :=
  match l with
  | k :: v :: l =>
      let '(l', found) := set_matching res value l in
      if matchesResourceKey (node_value k) res then (k :: set_value value v :: l', true)
      else (k :: v :: l', found)
  | l => (l, false)
  end.

(* go: internal/git/github.go 619-646 applyChangesToYaml *)
Definition set_limit (content : list node) (kv : string * Quantity) : list node :=
  let '(res, qty) := kv in
  let '(content, found) := set_matching res (QString qty) content in
  if found then content
  else content ++ [Node ScalarNode no_style res [] no_extra;
                   Node ScalarNode DoubleQuotedStyle (QString qty) [] no_extra].

(** The limits of the mapping below "hard". *)
(* go: internal/git/github.go 616-647 applyChangesToYaml *)
Definition set_hard (site : nat) (limits : gmap string Quantity) (n : node) : node :=
  match n with
  | Node MappingNode s v content x =>
      Node MappingNode s v (foldl set_limit content (range site limits)) x
  | n => n
  end.

(* go: internal/git/github.go 607-611 applyChangesToYaml *)
Definition is_quota (n : node) : bool :=
  match findValueNode n "kind" with
  | Some kind => String.eqb (node_value kind) "ResourceQuota"
  | None => false
  end.

(** One document. [site] numbers the visit of the limits: every document visits
    them in an order of its own. *)
(* go: internal/git/github.go 606-649 applyChangesToYaml *)
Definition apply_to_document (limits : gmap string Quantity) (site : nat) (n : node) : node :=
  if is_quota n then updateValueNode n "spec" (λ spec, updateValueNode spec "hard" (set_hard site limits))
  else n.

(* go: internal/git/github.go 573-660 applyChangesToYaml *)
Definition applyChangesToYaml (content : string) (limits : gmap string Quantity) : string :=
  match yaml_decode_all content with
  | None => content
  | Some nodes =>
      match yaml_encode_all (imap (λ i n, apply_to_document limits (100 + i)%nat n) nodes) with
      | None => content
      | Some text => text
      end
  end.

End yaml.
