(* ===== verification/GitHub.v ===== *)
(** * internal/git/github.go: the provider on GitHub

    The operations of [GitHubProvider] as programs over the calls of
    [GitHubApi.v]. A provider is its cluster name and its parsed path template,
    a function of the cluster and the namespace. Log lines are left out. *)

From S2P Require Export GitHubYaml.
From stdpp Require Export sorting base option gmap strings list fin_maps.

Open Scope Z_scope.
Open Scope prog_scope.

Section github.
Context {KQ : KubeQuantity} {GR : GoRange} {YL : Yaml}.

(** A provider; the API client, the owner and the repository are fixed. *)
(* go: internal/git/github.go 72-78 GitHubProvider *)
Record GitHubProvider := {
  clusterName : string;
  pathTemplate : string → string → go_result error string
}.

(* go: internal/git/github.go 117-137 resolvePath *)
Definition resolvePath (g : GitHubProvider) (namespace : string) (annotations : gmap string string)
    : go_result error string :=
  match annotations !! "resizer.io/git-path" with
  | Some val => Ok val
  | None => pathTemplate g (clusterName g) namespace
  end.

(* go: internal/git/github.go 139-170 GetPRStatus *)
Definition GetPRStatus (prID : Z) : prog ghcall (go_result error (option PRStatus)) :=
  let status pr checksState checksTotalCount :=
    Ret (Ok (Some {| IsOpen := String.eqb (PrState pr) "open"; IsMerged := PrMerged pr;
      Mergeable := PrMergeable pr; MergeableState := PrMergeableState pr;
      ChecksState := checksState; ChecksTotalCount := checksTotalCount;
      CreatedAt := PrCreatedAt pr |})) in
  r ⇐ call_ (PullGet prID);
  match r with
  | Err err => Ret (Err (from_gh err))
  | Ok pr =>
      match PrHead pr with
      | Some (_, Some sha) =>
          r ⇐ call_ (CombinedStatus sha);
          match r with
          | Err err =>
              Ret (Err (wrap_error ("failed to get combined status for PR " +:+ Str.Itoa prID +:+ ": ")
                (from_gh err)))
          | Ok (state, total) => status pr state (default 0 total)
          end
      | _ => status pr "" 0
      end
  end.

(* go: internal/git/github.go 172-180 MergePR *)
Definition MergePR (prID : Z) (method : string) : prog ghcall (option error) :=
  let method := if String.eqb method "" then "squash" else method in
  r ⇐ call_ (PullMerge prID "Auto-merge by Namespace Resizer" method);
  Ret (option_map from_gh r).

Definition nl : string := Str.bytes [10]%N.

(* go: internal/git/github.go 560-571 generatePRBody *)
Definition generatePRBody (ns quota : string) (limits : gmap string Quantity) : string :=
  "### Quota Resize Recommendation for `" +:+ quota +:+ "` in `" +:+ ns +:+ "`" +:+ nl +:+ nl +:+
  "The Namespace Resizer Controller detected a need to increase the following limits:" +:+ nl +:+ nl +:+
  "| Resource | New Limit |" +:+ nl +:+
  "| :--- | :--- |" +:+ nl +:+
  String.concat "" ((λ kv, "| " +:+ kv.1 +:+ " | " +:+ QString kv.2 +:+ " |" +:+ nl) <$> range 26 limits) +:+
  nl +:+ nl +:+ "*Generated automatically by Namespace Resizer*".

(** The test of a file's name and content. *)
(* go: internal/git/github.go 548-552 findQuotaFile *)
Definition is_quota_file (quotaName content : string) : bool :=
  Str.Contains content "kind: ResourceQuota" && Str.Contains content ("name: " +:+ quotaName).

(* go: internal/git/github.go 530-535 findQuotaFile *)
Definition is_yaml_file (file : RepositoryContent) : bool :=
  String.eqb (RcType file) "file" &&
  (Str.HasSuffix (RcName file) ".yaml" || Str.HasSuffix (RcName file) ".yml").

(* go: internal/git/github.go 529-553 findQuotaFile *)
Fixpoint find_in_files (ref quotaName : string) (files : list RepositoryContent)
    : prog ghcall (option (string * RepositoryContent)) :=
  match files with
  | [] => Ret None
  | file :: files =>
      if negb (is_yaml_file file) then find_in_files ref quotaName files
      else
        r ⇐ call_ (GetContents (RcPath file) ref);
        match r with
        | Err _ => find_in_files ref quotaName files
        | Ok (None, _) => _ ⇐ call_ GhPanic; Ret None
        | Ok (Some fc, _) =>
            match RcContent fc with
            | Err _ => find_in_files ref quotaName files
            | Ok content =>
                if is_quota_file quotaName content then Ret (Some (RcPath file, fc))
                else find_in_files ref quotaName files
            end
        end
  end.

(* go: internal/git/github.go 517-556 findQuotaFile *)
Definition findQuotaFile (basePath ref quotaName : string)
    : prog ghcall (go_result error (string * RepositoryContent)) :=
  r ⇐ call_ (GetContents basePath ref);
  match r with
  | Err err =>
      if gh_not_found err then Ret (Err (mk_error ErrFileNotFound ("file not found: " +:+ gh_text err)))
      else Ret (Err (from_gh err))
  | Ok (_, dirContent) =>
      found ⇐ find_in_files ref quotaName dirContent;
      match found with
      | Some f => Ret (Ok f)
      | None => Ret (Err (mk_error ErrFileNotFound
          ("file not found: quota " +:+ quotaName +:+ " not found in " +:+ basePath)))
      end
  end.

(* go: internal/git/github.go 304-307 unlabelledShrinkComment *)
Definition unlabelledShrinkComment : string :=
  "Closing this pull request: its direction label could not be attached, and an unlabelled shrink " +:+
  "proposal would later be mistaken for a growth proposal. A replacement will be opened on the next " +:+
  "reconcile.".

(* go: internal/git/github.go 309-311 labelAttempts *)
Definition labelAttempts : nat := 3.

(** The attempts that are left, the last one first in the count. *)
(* go: internal/git/github.go 318-333 addLabels *)
Fixpoint label_loop (attempts : nat) (prNumber : Z) (labels : list string) : prog ghcall (option error) :=
  match attempts with
  | O => Ret None (* not reached: there is at least one attempt *)
  | S attempts =>
      r ⇐ call_ (AddLabels prNumber labels);
      match r with
      | None => Ret None
      | Some err =>
          match attempts with
          | O => Ret (Some (wrap_error ("failed to label PR " +:+ Str.Itoa prNumber +:+ " after " +:+
                   Str.Itoa (Z.of_nat labelAttempts) +:+ " attempts: ") (from_gh err)))
          | S _ =>
              cancelled ⇐ call_ Backoff;
              match cancelled with
              | Some e => Ret (Some (wrap_error ("labelling PR " +:+ Str.Itoa prNumber +:+ " cancelled: ") e))
              | None => label_loop attempts prNumber labels
              end
          end
      end
  end.

(* go: internal/git/github.go 316-334 addLabels *)
Definition addLabels (prNumber : Z) (labels : list string) : prog ghcall (option error) :=
  label_loop labelAttempts prNumber labels.

(* go: internal/git/github.go 499-515 ClosePR *)
Definition ClosePR (prID : Z) (comment : string) : prog ghcall (option error) :=
  r ⇐ call_ (CreateComment prID comment);
  match r with
  | Some err =>
      Ret (Some (wrap_error ("failed to comment on PR " +:+ Str.Itoa prID +:+ ": ") (from_gh err)))
  | None =>
      r ⇐ call_ (PullEditState prID "closed");
      match r with
      | Some err => Ret (Some (wrap_error ("failed to close PR " +:+ Str.Itoa prID +:+ ": ") (from_gh err)))
      | None => Ret None
      end
  end.

(* go: internal/git/github.go 211-211 CreatePR *)
Definition branch_name (direction namespace quotaName : string) (unix : Z) : string :=
  "resize/" +:+ direction +:+ "/" +:+ namespace +:+ "/" +:+ quotaName +:+ "/" +:+ Str.Itoa unix.

(** Seconds since 1970 of an instant. *)
Definition unix_of (t : Z) : Z := t / Time.Second - 62135596800.

(* go: internal/git/github.go 254-257 CreatePR *)
Definition pr_title (direction namespace quotaName : string) : string :=
  (if String.eqb direction dirShrink then "Shrink Quota " else "Resize Quota ") +:+
  quotaName +:+ " in " +:+ namespace.

(* go: internal/git/github.go 271-276 CreatePR *)
Definition pr_labels (direction namespace : string) : list string :=
  [labelManaged; "resizer/ns:" +:+ namespace; labelDirectionPrefix +:+ direction].

(** The last step: label the pull request, or take a shrink back. *)
(* go: internal/git/github.go 271-302 CreatePR *)
Definition label_new_pr (number : Z) (direction namespace : string) : prog ghcall (go_result error Z) :=
  r ⇐ addLabels number (pr_labels direction namespace);
  match r with
  | None => Ret (Ok number)
  | Some err =>
      if negb (String.eqb direction dirShrink) then Ret (Ok number)
      else
        closeErr ⇐ ClosePR number unlabelledShrinkComment;
        match closeErr with
        | Some e => Ret (Err (mk_error (error_is err)
            ("failed to label shrink PR " +:+ Str.Itoa number +:+ " (" +:+ error_text err +:+
             ") and failed to close it again: " +:+ error_text e)))
        | None => Ret (Err (wrap_error
            ("failed to label shrink PR " +:+ Str.Itoa number +:+ ", closed it again: ") err))
        end
  end.

(** Committing the changed file on the branch and opening the pull request. *)
(* go: internal/git/github.go 237-269 CreatePR *)
Definition commit_and_open (branchName base targetFile content : string) (sha : option string)
    (quotaName namespace direction : string) (newLimits : gmap string Quantity)
    : prog ghcall (go_result error Z) :=
  let newContent := applyChangesToYaml content newLimits in
  r ⇐ call_ (UpdateFile targetFile ("chore(" +:+ namespace +:+ "): resize quota " +:+ quotaName)
    newContent sha branchName);
  match r with
  | Some err => Ret (Err (wrap_error "failed to commit file: " (from_gh err)))
  | None =>
      r ⇐ call_ (PullCreate (pr_title direction namespace quotaName) branchName base
        (generatePRBody namespace quotaName newLimits));
      match r with
      | Err err => Ret (Err (wrap_error "failed to create PR: " (from_gh err)))
      | Ok number => label_new_pr number direction namespace
      end
  end.

(* go: internal/git/github.go 182-302 CreatePR *)
Definition CreatePR (g : GitHubProvider) (quotaName namespace direction : string)
    (annotations : gmap string string) (newLimits : gmap string Quantity)
    : prog ghcall (go_result error Z) :=
  r ⇐ call_ RepoDefaultBranch;
  match r with
  | Err err => Ret (Err (wrap_error "failed to get repo: " (from_gh err)))
  | Ok base =>
  r ⇐ call_ (GetRefSHA ("refs/heads/" +:+ base));
  match r with
  | Err err => Ret (Err (wrap_error "failed to get base ref: " (from_gh err)))
  | Ok sha =>
  now ⇐ call_ GhNow;
  let branchName := branch_name direction namespace quotaName (unix_of now) in
  r ⇐ call_ (CreateRef ("refs/heads/" +:+ branchName) sha);
  match r with
  | Some err => Ret (Err (wrap_error "failed to create branch: " (from_gh err)))
  | None =>
  match resolvePath g namespace annotations with
  | Err err => Ret (Err (wrap_error "failed to resolve path: " err))
  | Ok basePath =>
  r ⇐ findQuotaFile basePath branchName quotaName;
  match r with
  | Err err => Ret (Err (wrap_error ("failed to find quota file in " +:+ basePath +:+ ": ") err))
  | Ok (targetFile, fileContent) =>
  match RcContent fileContent with
  | Err err => Ret (Err err)
  | Ok content =>
      commit_and_open branchName base targetFile content (RcSHA fileContent)
        quotaName namespace direction newLimits
  end end end end end end.

(* go: internal/git/github.go 336-394 UpdatePR *)
Definition UpdatePR (g : GitHubProvider) (prID : Z) (quotaName namespace : string)
    (annotations : gmap string string) (newLimits : gmap string Quantity) : prog ghcall (option error) :=
  r ⇐ call_ (PullGet prID);
  match r with
  | Err err => Ret (Some (from_gh err))
  | Ok pr =>
  let branchName := match PrHead pr with Some (ref, _) => ref | None => "" end in
  match resolvePath g namespace annotations with
  | Err err => Ret (Some err)
  | Ok basePath =>
  r ⇐ findQuotaFile basePath branchName quotaName;
  match r with
  | Err err => Ret (Some err)
  | Ok (targetFile, fileContent) =>
  match RcContent fileContent with
  | Err err => Ret (Some err)
  | Ok content =>
  let newContent := applyChangesToYaml content newLimits in
  if String.eqb newContent content then Ret None
  else
    r ⇐ call_ (UpdateFile targetFile ("chore(" +:+ namespace +:+ "): update quota resize " +:+ quotaName)
      newContent (RcSHA fileContent) branchName);
    match r with
    | Some err => Ret (Some (wrap_error "failed to update file: " (from_gh err)))
    | None =>
        r ⇐ call_ (PullEditBody prID (generatePRBody namespace quotaName newLimits));
        match r with
        | Some err => Ret (Some (wrap_error "failed to update PR body: " (from_gh err)))
        | None => Ret None
        end
    end
  end end end end.

(* go: internal/git/github.go 469-497 directionFromLabels *)
Fixpoint directionFromLabels (labels : list string) : string :=
  match labels with
  | [] => dirGrow
  | name :: labels =>
      if negb (Str.HasPrefix name labelDirectionPrefix) then directionFromLabels labels
      else if negb (String.eqb (Str.TrimPrefix name labelDirectionPrefix) dirGrow) then dirShrink
      else directionFromLabels labels
  end.

(* go: internal/git/github.go 425-427 FindOpenPR *)
Definition growPrefix (namespace quotaName : string) : string :=
  "resize/" +:+ dirGrow +:+ "/" +:+ namespace +:+ "/" +:+ quotaName +:+ "/".
(* go: internal/git/github.go 425-427 FindOpenPR *)
Definition shrinkPrefix (namespace quotaName : string) : string :=
  "resize/" +:+ dirShrink +:+ "/" +:+ namespace +:+ "/" +:+ quotaName +:+ "/".
(* go: internal/git/github.go 425-427 FindOpenPR *)
Definition legacyPrefix (namespace quotaName : string) : string :=
  "resize/" +:+ namespace +:+ "-" +:+ quotaName +:+ "-".

(** One pull request of a page: a result, or the legacy candidate so far. *)
(* go: internal/git/github.go 441-457 FindOpenPR *)
Definition inspect_pr (namespace quotaName : string) (legacy : Z * string) (pr : PullRequest)
    : (Z * string) + (Z * string) :=
  match PrHead pr with
  | None => inr legacy
  | Some (ref, _) =>
      if Str.HasPrefix ref (growPrefix namespace quotaName) then inl (PrNumber pr, dirGrow)
      else if Str.HasPrefix ref (shrinkPrefix namespace quotaName) then inl (PrNumber pr, dirShrink)
      else if Str.HasPrefix ref (legacyPrefix namespace quotaName) then
        if legacy.1 =? 0 then inr (PrNumber pr, directionFromLabels (PrLabels pr)) else inr legacy
      else inr legacy
  end.

Fixpoint inspect_prs (namespace quotaName : string) (legacy : Z * string) (prs : list PullRequest)
    : (Z * string) + (Z * string) :=
  match prs with
  | [] => inr legacy
  | pr :: prs =>
      match inspect_pr namespace quotaName legacy pr with
      | inl found => inl found
      | inr legacy => inspect_prs namespace quotaName legacy prs
      end
  end.

(** The loop over the pages. *)
(* go: internal/git/github.go 433-467 FindOpenPR *)
Fixpoint find_loop (fuel : nat) (namespace quotaName : string) (page : Z) (legacy : Z * string)
    : prog ghcall (go_result error (Z * string)) :=
  match fuel with
  | O => _ ⇐ call_ OutOfFuel; Ret (Ok (0, ""))
  | S fuel =>
      r ⇐ call_ (PullListOpen page);
      match r with
      | Err err => Ret (Err (wrap_error "failed to list pull requests: " (from_gh err)))
      | Ok (prs, nextPage) =>
          match inspect_prs namespace quotaName legacy prs with
          | inl found => Ret (Ok found)
          | inr legacy =>
              if nextPage =? 0 then
                Ret (Ok (if negb (legacy.1 =? 0) then legacy else (0, "")))
              else find_loop fuel namespace quotaName nextPage legacy
          end
      end
  end.

(* go: internal/git/github.go 396-467 FindOpenPR *)
Definition FindOpenPR (fuel : nat) (namespace quotaName : string)
    : prog ghcall (go_result error (Z * string)) :=
  find_loop fuel namespace quotaName 0 (0, "").

End github.
