(* ===== verification/GoJson.v ===== *)
(** * Go's package encoding/json

    The part of [encoding/json] (with [unicode/utf8]) that the program relies
    on: reading a text into a tree of values by the grammar of the package's
    scanner, with its limit on nesting, and writing a tree without white space
    as [json.Marshal] does, with its escapes: for HTML, for the line separators
    U+2028 and U+2029, and for bytes that are not UTF-8. *)

From S2P Require Export GoStrings.
From stdpp Require Export sorting base option gmap strings list fin_maps.

Open Scope Z_scope.

Module Json.

Inductive value :=
| JNull
| JBool (b : bool)
| JNum (literal : string)
| JStr (s : string)
| JArr (l : list value)
| JObj (l : list (string * value)).

(** ** UTF-8 *)

Definition code (c : ascii) : Z := Z.of_N (N_of_ascii c).
Definition chr (z : Z) : ascii := Str.byte (Z.to_N z).

Definition between (lo hi : Z) (c : ascii) : bool := (lo <=? code c) && (code c <=? hi).
Definition continuation : ascii → bool := between 128 191.

(** The length of the UTF-8 sequence that [s] starts with; 0 if it starts with
    none. *)
Definition utf8_len (s : string) : nat :=
  match s with
  | EmptyString => 0%nat
  | String a s1 =>
      if code a <? 128 then 1%nat
      else match s1 with
      | EmptyString => 0%nat
      | String b s2 =>
          if between 194 223 a then if continuation b then 2%nat else 0%nat
          else
            let second :=
              if code a =? 224 then between 160 191 b
              else if code a =? 237 then between 128 159 b
              else if code a =? 240 then between 144 191 b
              else if code a =? 244 then between 128 143 b
              else continuation b in
            match s2 with
            | EmptyString => 0%nat
            | String c s3 =>
                if negb (second && continuation c) then 0%nat
                else if between 224 239 a then 3%nat
                else match s3 with
                     | String d _ => if between 240 244 a && continuation d then 4%nat else 0%nat
                     | EmptyString => 0%nat
                     end
            end
      end
  end.

(** [utf8.AppendRune]: the encoding of a code point. *)
Definition encode_rune (r : Z) : string :=
  if r <? 128 then String (chr r) ""
  else if r <? 2048 then String (chr (192 + r / 64)) (String (chr (128 + r mod 64)) "")
  else if r <? 65536 then
    String (chr (224 + r / 4096)) (String (chr (128 + r / 64 mod 64)) (String (chr (128 + r mod 64)) ""))
  else
    String (chr (240 + r / 262144)) (String (chr (128 + r / 4096 mod 64))
      (String (chr (128 + r / 64 mod 64)) (String (chr (128 + r mod 64)) ""))).

Definition replacement : Z := 65533.

(** The first [n] bytes and the rest. *)
Fixpoint split_at (n : nat) (s : string) : string * string :=
  match n, s with
  | S n, String c s => let '(a, b) := split_at n s in (String c a, b)
  | _, s => ("", s)
  end.

(** ** Reading *)

Fixpoint skip_space (s : string) : string :=
  match s with
  | String c s' =>
      if (code c =? 32) || (code c =? 9) || (code c =? 10) || (code c =? 13) then skip_space s' else s
  | EmptyString => s
  end.

Definition hex_value (c : ascii) : option Z :=
  if between 48 57 c then Some (code c - 48)
  else if between 97 102 c then Some (code c - 87)
  else if between 65 70 c then Some (code c - 55)
  else None.

(** Four hexadecimal digits. *)
Definition hex4 (s : string) : option (Z * string) :=
  match s with
  | String a (String b (String c (String d s))) =>
      match hex_value a, hex_value b, hex_value c, hex_value d with
      | Some a, Some b, Some c, Some d => Some (((a * 16 + b) * 16 + c) * 16 + d, s)
      | _, _, _, _ => None
      end
  | _ => None
  end.

Definition is_surrogate (r : Z) : bool := (55296 <=? r) && (r <? 57344).

(** The second half of a surrogate pair, as [utf16.DecodeRune] combines it. *)
Definition low_half (r : Z) (s : string) : option (Z * string) :=
  match Str.strip_prefix "\u" s with
  | Some s =>
      match hex4 s with
      | Some (r2, s) =>
          if (r <? 56320) && (56320 <=? r2) && (r2 <? 57344)
          then Some ((r - 55296) * 1024 + (r2 - 56320) + 65536, s) else None
      | None => None
      end
  | None => None
  end.

(** The code point of an escape after "\u". *)
Definition unicode_escape (s : string) : option (string * string) :=
  match hex4 s with
  | None => None
  | Some (r, s) =>
      if is_surrogate r then
        match low_half r s with
        | Some (r, s) => Some (encode_rune r, s)
        | None => Some (encode_rune replacement, s)
        end
      else Some (encode_rune r, s)
  end.

Definition simple_escape (c : ascii) : option ascii :=
  match code c with
  | 34 | 92 | 47 => Some c
  | 98 => Some (chr 8)
  | 102 => Some (chr 12)
  | 110 => Some (chr 10)
  | 114 => Some (chr 13)
  | 116 => Some (chr 9)
  | _ => None
  end.

(** The text of a string after its opening quote, and what follows it. *)
Fixpoint string_body (fuel : nat) (s : string) : option (string * string) :=
  match fuel with
  | O => None
  | S fuel =>
      match s with
      | EmptyString => None
      | String c s1 =>
          if code c =? 34 then Some ("", s1)
          else if code c =? 92 then
            match s1 with
            | EmptyString => None
            | String e s2 =>
                let escaped :=
                  if code e =? 117 then unicode_escape s2
                  else match simple_escape e with Some a => Some (String a "", s2) | None => None end in
                match escaped with
                | None => None
                | Some (t, rest) =>
                    match string_body fuel rest with
                    | Some (t', rest) => Some (t +:+ t', rest)
                    | None => None
                    end
                end
            end
          else if code c <? 32 then None
          else
            let '(t, rest) :=
              match utf8_len s with
              | O => (encode_rune replacement, s1)
              | n => split_at n s
              end in
            match string_body fuel rest with
            | Some (t', rest) => Some (t +:+ t', rest)
            | None => None
            end
      end
  end.

Definition read_string (s : string) : option (string * string) := string_body (String.length s) s.

(** Digits at the start of [s]. *)
Fixpoint take_digits (s : string) : string * string :=
  match s with
  | String c s' => if Str.is_digit c then let '(a, b) := take_digits s' in (String c a, b) else ("", s)
  | EmptyString => ("", "")
  end.

(** At least one digit. *)
Definition some_digits (s : string) : option (string * string) :=
  match take_digits s with (EmptyString, _) => None | r => Some r end.

(** An optional part: it is absent when [s] does not start with it. *)
Definition read_fraction (s : string) : option (string * string) :=
  match s with
  | String "." s1 => match some_digits s1 with Some (d, r) => Some ("." +:+ d, r) | None => None end
  | _ => Some ("", s)
  end.

Definition read_exponent (s : string) : option (string * string) :=
  match s with
  | String c s1 =>
      if (code c =? 101) || (code c =? 69) then
        let '(sign, s2) := match s1 with
                           | String "+" s2 => ("+", s2)
                           | String "-" s2 => ("-", s2)
                           | _ => ("", s1)
                           end in
        match some_digits s2 with Some (d, r) => Some (String c (sign +:+ d), r) | None => None end
      else Some ("", s)
  | EmptyString => Some ("", s)
  end.

(** A number: no leading zeros. *)
Definition read_number (s : string) : option (string * string) :=
  let '(sign, s) := match s with String "-" s => ("-", s) | _ => ("", s) end in
  let integer := match s with
                 | String "0" s1 => Some ("0", s1)
                 | _ => some_digits s
                 end in
  match integer with
  | None => None
  | Some (i, s) =>
      match read_fraction s with
      | None => None
      | Some (f, s) =>
          match read_exponent s with
          | None => None
          | Some (e, s) => Some (sign +:+ i +:+ f +:+ e, s)
          end
      end
  end.

Definition maxNestingDepth : Z := 10000.

(** A value, the rest of an array after a value is due, and the rest of an
    object after a member is due. *)
Fixpoint read_value (fuel : nat) (depth : Z) (s : string) : option (value * string) :=
  match fuel with
  | O => None
  | S fuel =>
      match skip_space s with
      | EmptyString => None
      | String c s1 =>
          if code c =? 123 then
            if maxNestingDepth <=? depth then None
            else match skip_space s1 with
                 | String "}" s2 => Some (JObj [], s2)
                 | s2 =>
                     match read_members fuel (depth + 1) s2 with
                     | Some (l, s3) => Some (JObj l, s3)
                     | None => None
                     end
                 end
          else if code c =? 91 then
            if maxNestingDepth <=? depth then None
            else match skip_space s1 with
                 | String "]" s2 => Some (JArr [], s2)
                 | s2 =>
                     match read_elements fuel (depth + 1) s2 with
                     | Some (l, s3) => Some (JArr l, s3)
                     | None => None
                     end
                 end
          else if code c =? 34 then
            match read_string s1 with Some (t, s2) => Some (JStr t, s2) | None => None end
          else
            match Str.strip_prefix "null" (String c s1) with Some s2 => Some (JNull, s2) | None =>
            match Str.strip_prefix "true" (String c s1) with Some s2 => Some (JBool true, s2) | None =>
            match Str.strip_prefix "false" (String c s1) with Some s2 => Some (JBool false, s2) | None =>
            match read_number (String c s1) with Some (t, s2) => Some (JNum t, s2) | None => None end
            end end end
      end
  end
with read_elements (fuel : nat) (depth : Z) (s : string) : option (list value * string) :=
  match fuel with
  | O => None
  | S fuel =>
      match read_value fuel depth s with
      | None => None
      | Some (v, s1) =>
          match skip_space s1 with
          | String "]" s2 => Some ([v], s2)
          | String "," s2 =>
              match read_elements fuel depth s2 with
              | Some (l, s3) => Some (v :: l, s3)
              | None => None
              end
          | _ => None
          end
      end
  end
with read_members (fuel : nat) (depth : Z) (s : string) : option (list (string * value) * string) :=
  match fuel with
  | O => None
  | S fuel =>
      match skip_space s with
      | String q s0 =>
          if negb (code q =? 34) then None else
          match read_string s0 with
          | None => None
          | Some (key, s1) =>
              match skip_space s1 with
              | String ":" s2 =>
                  match read_value fuel depth s2 with
                  | None => None
                  | Some (v, s3) =>
                      match skip_space s3 with
                      | String "}" s4 => Some ([(key, v)], s4)
                      | String "," s4 =>
                          match read_members fuel depth s4 with
                          | Some (l, s5) => Some ((key, v) :: l, s5)
                          | None => None
                          end
                      | _ => None
                      end
                  end
              | _ => None
              end
          end
      | EmptyString => None
      end
  end.

(** A whole text. Every two levels of the recursion take a character. *)
Definition parse (s : string) : option value :=
  match read_value (2 * String.length s + 2)%nat 0 s with
  | Some (v, rest) => match skip_space rest with EmptyString => Some v | _ => None end
  | None => None
  end.

(** ** Writing *)

Definition hex_digit (z : Z) : ascii := if z <? 10 then chr (48 + z) else chr (87 + z).

(** A byte below 128, escaped when [json.Marshal] escapes it. *)
Definition escape_ascii (c : ascii) : string :=
  let z := code c in
  if (z =? 34) || (z =? 92) then String "\" (String c "")
  else if z =? 8 then "\b" else if z =? 12 then "\f" else if z =? 10 then "\n"
  else if z =? 13 then "\r" else if z =? 9 then "\t"
  else if (z <? 32) || (z =? 60) || (z =? 62) || (z =? 38) then
    "\u00" +:+ String (hex_digit (z / 16)) (String (hex_digit (z mod 16)) "")
  else String c "".

Definition line_separator : string := Str.bytes [226; 128; 168]%N.
Definition paragraph_separator : string := Str.bytes [226; 128; 169]%N.

(** The first character of a string, written, and the rest. *)
Definition escape_first (c : ascii) (s : string) : string * string :=
  if code c <? 128 then (escape_ascii c, s)
  else match utf8_len (String c s) with
       | O => ("\ufffd", s)
       | n =>
           let '(t, rest) := split_at n (String c s) in
           (if String.eqb t line_separator then "\u2028"
            else if String.eqb t paragraph_separator then "\u2029" else t, rest)
       end.

Fixpoint escape_fuel (fuel : nat) (s : string) : string :=
  match fuel, s with
  | S fuel, String c s => let '(t, rest) := escape_first c s in t +:+ escape_fuel fuel rest
  | _, _ => ""
  end.

Definition escape (s : string) : string := escape_fuel (String.length s) s.

Definition quote : string := Str.bytes [34]%N.

Definition write_string (s : string) : string := quote +:+ escape s +:+ quote.

Fixpoint write (v : value) : string :=
  match v with
  | JNull => "null"
  | JBool b => if b then "true" else "false"
  | JNum t => t
  | JStr s => write_string s
  | JArr l => "[" +:+ Str.Join (write <$> l) "," +:+ "]"
  | JObj l => "{" +:+ Str.Join ((λ kv, write_string kv.1 +:+ ":" +:+ write kv.2) <$> l) "," +:+ "}"
  end.

End Json.
