(* ===== verification/JsonText.v ===== *)
(** * Reading back a written JSON string

    [escape] writes valid UTF-8 so that [string_body] reads the same text. *)

From S2P Require Export GoJson.
From stdpp Require Export sorting base option gmap strings list fin_maps.

Open Scope Z_scope.

Module JsonText.
Import Json.

(** ** Valid UTF-8 *)

Fixpoint valid_fuel (fuel : nat) (s : string) : bool :=
  match s, fuel with
  | EmptyString, _ => true
  | _, O => false
  | _, S fuel => match utf8_len s with O => false | n => valid_fuel fuel (split_at n s).2 end
  end.

(** [utf8.ValidString]. *)
Definition valid_utf8 (s : string) : bool := valid_fuel (String.length s) s.

Lemma split_at_app x t : split_at (String.length x) (x +:+ t) = (x, t).
Proof. induction x as [|c x IH]; simpl; [by destruct t|by rewrite IH]. Qed.

(** A text starts with a sequence of this length, whatever follows it. *)
Definition unit_text (x : string) : Prop :=
  x ≠ "" ∧ ∀ t, utf8_len (x +:+ t) = String.length x.

Ltac unit_of x :=
  exists x; eexists; split; [|split; [split|]]; [reflexivity|done| |reflexivity];
  intros t; simpl;
  repeat match goal with
         | H : _ = true |- _ => rewrite H; clear H
         | H : _ = false |- _ => rewrite H; clear H
         end; done.

Lemma utf8_len_unit s n :
  utf8_len s = S n → ∃ x y, s = x +:+ y ∧ unit_text x ∧ String.length x = S n.
Proof.
  destruct s as [|a [|b [|c [|d s]]]]; simpl; intros H; [done| | | |];
  repeat match type of H with
         | (if ?e then _ else _) = _ => let E := fresh "E" in destruct e eqn:E
         end; try done; injection H as <-;
  first [unit_of (String a "") | unit_of (String a (String b ""))
        | unit_of (String a (String b (String c "")))
        | unit_of (String a (String b (String c (String d ""))))].
Qed.

(** Valid UTF-8 is a sequence of units. *)
Inductive utf8 : string → Prop :=
| utf8_nil : utf8 ""
| utf8_unit x s : unit_text x → utf8 s → utf8 (x +:+ s).

Lemma valid_fuel_utf8 fuel s : valid_fuel fuel s = true → utf8 s.
Proof.
  revert s. induction fuel as [|fuel IH]; intros [|c s] H; try done; try constructor.
  cbn [valid_fuel] in H. destruct (utf8_len (String c s)) as [|n] eqn:E; [done|].
  destruct (utf8_len_unit _ _ E) as (x & y & Hxy & Hx & Hn). rewrite Hxy, <- Hn, split_at_app in H.
  rewrite Hxy. constructor; [done|]. by apply IH.
Qed.

Lemma valid_utf8_spec s : valid_utf8 s = true → utf8 s.
Proof. apply valid_fuel_utf8. Qed.

(** ** One unit, written and read *)

Definition prepend (x : string) (r : option (string * string)) : option (string * string) :=
  match r with Some (t, rest) => Some (x +:+ t, rest) | None => None end.

Lemma string_body_ascii n c t :
  (code c <? 128) = true → string_body (S n) (escape_ascii c +:+ t) = prepend (String c "") (string_body n t).
Proof.
  destruct c as [[] [] [] [] [] [] [] []]; intros H; try discriminate H; reflexivity.
Qed.

(** A unit of several bytes is written as it is, or as the escape of a line
    separator. *)
Lemma string_body_unit n x t :
  unit_text x → (∀ c y, x = String c y → (code c <? 128) = false) →
  string_body (S n) (x +:+ t) = prepend x (string_body n t).
Proof.
  intros [Hx Hlen] Hc. destruct x as [|c y]; [done|]. specialize (Hc c y eq_refl).
  cbn [string_body String.append].
  destruct (Z.eqb_spec (code c) 34); [lia|]. destruct (Z.eqb_spec (code c) 92); [lia|].
  destruct (Z.ltb_spec (code c) 32); [lia|].
  change (String c (y +:+ t)) with (String c y +:+ t). rewrite Hlen.
  cbn [String.length]. change (S (String.length y)) with (String.length (String c y)). by rewrite split_at_app.
Qed.

Lemma escape_first_unit c s x y :
  String c s = x +:+ y → unit_text x →
  ∃ e, escape_first c s = (e, y) ∧ e ≠ "" ∧ ∀ n t, string_body (S n) (e +:+ t) = prepend x (string_body n t).
Proof.
  intros Hs Hu. destruct Hu as [Hx Hlen]. unfold escape_first. destruct (code c <? 128) eqn:Ec.
  - destruct x as [|c' x]; [done|]. injection Hs as <- ->.
    pose proof (Hlen "") as H. simpl in H. rewrite Ec in H. injection H as H. destruct x; [|done].
    exists (escape_ascii c). split; [done|]. split; [|intros k t; by apply string_body_ascii].
    destruct c as [[] [] [] [] [] [] [] []]; discriminate.
  - rewrite Hs, Hlen. destruct x as [|c' x]; [done|]. injection Hs as <- ->.
    cbn [String.length]. change (S (String.length x)) with (String.length (String c x)). rewrite split_at_app.
    destruct (String.eqb_spec (String c x) line_separator) as [->|]; [by exists "\u2028"|].
    destruct (String.eqb_spec (String c x) paragraph_separator) as [->|]; [by exists "\u2029"|].
    exists (String c x). split; [done|]. split; [done|]. intros k t. apply string_body_unit; [done|].
    by intros ? ? [= <- <-].
Qed.

(** ** Strings *)

Lemma length_app_le (e s : string) n : e ≠ "" → (String.length (e +:+ s) ≤ S n)%nat → (String.length s ≤ n)%nat.
Proof. rewrite Str.length_app. destruct e; [done|]. simpl. lia. Qed.

Lemma string_body_escape s : utf8 s → ∀ fuel n rest,
  (String.length s ≤ fuel)%nat → (String.length (escape_fuel fuel s) ≤ n)%nat →
  string_body (S n) (escape_fuel fuel s +:+ quote +:+ rest) = Some (s, rest).
Proof.
  induction 1 as [|x s Hx Hs IH]; intros fuel n rest Hf Hn.
  - by destruct fuel.
  - destruct (x +:+ s) as [|c s'] eqn:E; [by destruct x; destruct Hx|].
    destruct fuel as [|fuel]; [simpl in Hf; lia|]. cbn [escape_fuel] in *.
    destruct (escape_first_unit c s' x s (eq_sym E) Hx) as (e & He & Hne & Hstep). rewrite He in *.
    rewrite Str.app_assoc, Hstep. destruct n as [|n].
    { rewrite Str.length_app in Hn. destruct e; [done|simpl in Hn; lia]. }
    rewrite IH.
    + simpl. by rewrite E.
    + rewrite <- E in Hf. destruct Hx as [Hx _]. by apply (length_app_le x).
    + by apply (length_app_le e).
Qed.

Lemma read_string_escape s rest :
  valid_utf8 s = true → read_string (escape s +:+ quote +:+ rest) = Some (s, rest).
Proof.
  intros Hs. unfold read_string.
  assert (String.length (escape s +:+ quote +:+ rest) = S (String.length (escape s) + String.length rest)) as ->.
  { rewrite !Str.length_app. change (String.length quote) with 1%nat. lia. }
  apply string_body_escape; [by apply valid_utf8_spec|done|unfold escape; lia].
Qed.

End JsonText.
