(* ===== verification/JsonValue.v ===== *)
(** * Reading back a written JSON value

    [parse (write v) = Some v] for a value whose numbers are decimal integers,
    whose strings are valid UTF-8 and which is not nested too deep. *)

From S2P Require Export JsonText.
From stdpp Require Export sorting base option gmap strings list fin_maps.

Open Scope Z_scope.

Module JsonValue.
Import Json JsonText.

(** ** Integers *)

(** What may follow a value. *)
Definition delim (rest : string) : Prop :=
  match rest with
  | EmptyString => True
  | String c _ => c = ","%char ∨ c = "]"%char ∨ c = "}"%char
  end.

Lemma dec_fuel_head fuel z :
  1 <= z < 2 ^ Z.of_nat fuel → ∃ d s, 1 <= d < 10 ∧ Str.dec_fuel fuel z = String (Str.digit d) s.
Proof.
  revert z. induction fuel as [|fuel IH]; intros z Hz; [simpl in Hz; lia|].
  rewrite Nat2Z.inj_succ, Z.pow_succ_r in Hz by lia. cbn [Str.dec_fuel].
  destruct (Z.ltb_spec z 10).
  - exists z, "". rewrite Z.mod_small by lia. split; [lia|done].
  - destruct (IH (z / 10)) as (d & s & Hd & ->); [lia|]. by eexists d, _.
Qed.

Lemma dec_head z : 1 <= z → ∃ d s, 1 <= d < 10 ∧ Str.dec z = String (Str.digit d) s.
Proof. intros Hz. apply dec_fuel_head. split; [done|]. apply Str.dec_fuel_enough. lia. Qed.

Ltac digit_cases d H :=
  assert (d = 1 ∨ d = 2 ∨ d = 3 ∨ d = 4 ∨ d = 5 ∨ d = 6 ∨ d = 7 ∨ d = 8 ∨ d = 9) as Hcases by lia;
  clear H; repeat destruct Hcases as [Hcases|Hcases]; subst d.

Lemma take_digits_app acc x rest v :
  Str.digits_acc acc x = Some v → delim rest → take_digits (x +:+ rest) = (x, rest).
Proof.
  revert acc. induction x as [|c x IH]; intros acc Hx Hr; simpl in *.
  - destruct rest as [|c rest]; [done|]. simpl. by repeat destruct Hr as [Hr|Hr]; subst.
  - destruct (Str.is_digit c); [|done]. by rewrite (IH _ Hx Hr).
Qed.

Lemma some_digits_dec z rest : 0 <= z → delim rest → some_digits (Str.dec z +:+ rest) = Some (Str.dec z, rest).
Proof.
  intros Hz Hr. pose proof (Str.digits_dec z Hz) as Hd. unfold Str.digits in Hd. unfold some_digits.
  destruct (Str.dec z) as [|c s] eqn:E; [done|]. by rewrite (take_digits_app 0 _ _ z Hd Hr).
Qed.

Lemma no_fraction rest : delim rest → read_fraction rest = Some ("", rest).
Proof. destruct rest as [|c rest]; [done|]. intros Hr. by repeat destruct Hr as [Hr|Hr]; subst. Qed.

Lemma no_exponent rest : delim rest → read_exponent rest = Some ("", rest).
Proof. destruct rest as [|c rest]; [done|]. intros Hr. by repeat destruct Hr as [Hr|Hr]; subst. Qed.

(** The integer part of a number. *)
Definition read_integer (s : string) : option (string * string) :=
  match s with String "0" s1 => Some ("0", s1) | _ => some_digits s end.

Lemma read_integer_dec z rest : 0 <= z → delim rest → read_integer (Str.dec z +:+ rest) = Some (Str.dec z, rest).
Proof.
  intros Hz Hr. destruct (decide (z = 0)) as [->|Hne]; [done|].
  rewrite <- (some_digits_dec z rest Hz Hr). destruct (dec_head z) as (d & s & Hd & ->); [lia|].
  by digit_cases d Hd.
Qed.

(** The rest of a number after its integer part. *)
Definition number_rest (sign : string) (integer : option (string * string)) : option (string * string) :=
  match integer with
  | None => None
  | Some (i, s) =>
      match read_fraction s with
      | None => None
      | Some (f, s) =>
          match read_exponent s with
          | None => None
          | Some (e, s) => Some (sign +:+ i +:+ f +:+ e, s)
          end
      end
  end.

Lemma number_rest_dec sign z rest :
  0 <= z → delim rest →
  number_rest sign (read_integer (Str.dec z +:+ rest)) = Some (sign +:+ Str.dec z, rest).
Proof.
  intros Hz Hr. rewrite read_integer_dec by done. simpl. rewrite no_fraction, no_exponent by done.
  simpl. by rewrite Str.app_nil_r.
Qed.

Lemma read_number_Itoa z rest : delim rest → read_number (Str.Itoa z +:+ rest) = Some (Str.Itoa z, rest).
Proof.
  intros Hr. unfold Str.Itoa. destruct (Z.ltb_spec z 0) as [Hz|Hz].
  - apply (number_rest_dec "-"); [lia|done].
  - rewrite <- (number_rest_dec "" z rest Hz Hr : _ = Some (Str.dec z, rest)).
    destruct (decide (z = 0)) as [->|]; [done|]. destruct (dec_head z) as (d & s & Hd & ->); [lia|].
    by digit_cases d Hd.
Qed.

(** ** Values *)

(** A value at nesting depth [d] whose text can be read back. *)
Inductive plain : Z → value → Prop :=
| plain_null d : plain d JNull
| plain_bool d b : plain d (JBool b)
| plain_num d z : plain d (JNum (Str.Itoa z))
| plain_str d s : valid_utf8 s = true → plain d (JStr s)
| plain_arr d l : d < maxNestingDepth → Forall (plain (d + 1)) l → plain d (JArr l)
| plain_obj d l :
    d < maxNestingDepth → Forall (λ kv, valid_utf8 kv.1 = true ∧ plain (d + 1) kv.2) l → plain d (JObj l).

(** How a value starts: not with white space or a closing bracket. *)
Definition value_start (c : ascii) : Prop :=
  skip_space (String c "") = String c "" ∧ c ≠ "]"%char ∧ c ≠ "}"%char.

Lemma value_start_skip c s : value_start c → skip_space (String c s) = String c s.
Proof. intros [H _]. simpl in *. by case_match. Qed.

(** An integer starts like a number, and no number is another kind of value. *)
Definition number_start (c : ascii) : Prop :=
  value_start c ∧ ∀ fuel d s, read_value (S fuel) d (String c s) =
    match read_number (String c s) with Some (t, s2) => Some (JNum t, s2) | None => None end.

Lemma Itoa_start z : ∃ c s, Str.Itoa z = String c s ∧ number_start c.
Proof.
  unfold Str.Itoa. destruct (Z.ltb_spec z 0); [by eexists _, _|].
  destruct (decide (z = 0)) as [->|]; [by eexists _, _|].
  destruct (dec_head z) as (d & s & Hd & ->); [lia|]. eexists _, s. split; [done|]. by digit_cases d Hd.
Qed.

Lemma write_start d v : plain d v → ∃ c s, write v = String c s ∧ value_start c.
Proof.
  destruct 1 as [|d []|d z| | |]; try (by eexists _, _).
  destruct (Itoa_start z) as (c & s & Hs & [Hc _]). by exists c, s.
Qed.

Lemma skip_space_write d v rest : plain d v → skip_space (write v +:+ rest) = write v +:+ rest.
Proof.
  intros Hv. destruct (write_start d v Hv) as (c & s & -> & Hc). simpl (String c s +:+ rest).
  by apply value_start_skip.
Qed.

Lemma read_value_number fuel d z rest :
  delim rest → read_value (S fuel) d (Str.Itoa z +:+ rest) = Some (JNum (Str.Itoa z), rest).
Proof.
  intros Hr. pose proof (read_number_Itoa z rest Hr) as Hn.
  destruct (Itoa_start z) as (c & s & Hs & _ & Hc). rewrite Hs in *. cbn [String.append] in *. by rewrite Hc, Hn.
Qed.
(** *** The pieces of the reader, one step at a time *)

Definition write_member (kv : string * value) : string := write_string kv.1 +:+ ":" +:+ write kv.2.

Lemma read_value_string fuel d s rest :
  valid_utf8 s = true → read_value (S fuel) d (write_string s +:+ rest) = Some (JStr s, rest).
Proof.
  intros Hs. unfold write_string. rewrite !Str.app_assoc.
  change (match read_string (escape s +:+ quote +:+ rest) with Some (t, s2) => Some (JStr t, s2) | None => None end
    = Some (JStr s, rest)).
  by rewrite read_string_escape.
Qed.

Lemma read_value_array fuel d s l rest c s' :
  d < maxNestingDepth → s = String c s' → value_start c →
  read_elements fuel (d + 1) s = Some (l, rest) →
  read_value (S fuel) d ("[" +:+ s) = Some (JArr l, rest).
Proof.
  intros Hd -> Hv Hr. pose proof Hv as (_ & Hne & _).
  change (read_value (S fuel) d ("[" +:+ String c s')) with
    (if maxNestingDepth <=? d then None
     else match skip_space (String c s') with
          | String "]" s2 => Some (JArr [], s2)
          | s2 => match read_elements fuel (d + 1) s2 with
                  | Some (l, s3) => Some (JArr l, s3)
                  | None => None
                  end
          end).
  rewrite (proj2 (Z.leb_gt _ _) Hd), value_start_skip by done. clear Hv.
  destruct c as [[] [] [] [] [] [] [] []]; first [by rewrite Hr|by destruct Hne].
Qed.

Lemma read_value_object fuel d s l rest :
  d < maxNestingDepth → read_members fuel (d + 1) (quote +:+ s) = Some (l, rest) →
  read_value (S fuel) d ("{" +:+ quote +:+ s) = Some (JObj l, rest).
Proof.
  intros Hd Hr.
  change (read_value (S fuel) d ("{" +:+ quote +:+ s)) with
    (if maxNestingDepth <=? d then None
     else match read_members fuel (d + 1) (quote +:+ s) with
          | Some (l, s3) => Some (JObj l, s3)
          | None => None
          end).
  by rewrite (proj2 (Z.leb_gt _ _) Hd), Hr.
Qed.

Lemma read_elements_last fuel d v text rest :
  read_value fuel d text = Some (v, "]" +:+ rest) → read_elements (S fuel) d text = Some ([v], rest).
Proof. intros H. cbn [read_elements]. by rewrite H. Qed.

Lemma read_elements_more fuel d v l text text' rest :
  read_value fuel d text = Some (v, "," +:+ text') → read_elements fuel d text' = Some (l, rest) →
  read_elements (S fuel) d text = Some (v :: l, rest).
Proof. intros H H'. cbn [read_elements]. rewrite H. simpl. by rewrite H'. Qed.

(** What the reader of members does after the key. *)
Definition after_key (fuel : nat) (d : Z) (k s : string) : option (list (string * value) * string) :=
  match read_value fuel d s with
  | None => None
  | Some (v, s3) =>
      match skip_space s3 with
      | String "}" s4 => Some ([(k, v)], s4)
      | String "," s4 =>
          match read_members fuel d s4 with
          | Some (l, s5) => Some ((k, v) :: l, s5)
          | None => None
          end
      | _ => None
      end
  end.

Lemma read_members_key fuel d k s :
  valid_utf8 k = true → read_members (S fuel) d (write_string k +:+ ":" +:+ s) = after_key fuel d k s.
Proof.
  intros Hk. unfold write_string. rewrite !Str.app_assoc.
  change (match read_string (escape k +:+ quote +:+ ":" +:+ s) with
          | None => None
          | Some (key, s1) =>
              match skip_space s1 with
              | String ":" s2 => after_key fuel d key s2
              | _ => None
              end
          end = after_key fuel d k s).
  by rewrite read_string_escape.
Qed.

Lemma read_members_last fuel d k v text rest :
  valid_utf8 k = true → read_value fuel d text = Some (v, "}" +:+ rest) →
  read_members (S fuel) d (write_string k +:+ ":" +:+ text) = Some ([(k, v)], rest).
Proof. intros Hk H. rewrite read_members_key by done. unfold after_key. by rewrite H. Qed.

Lemma read_members_more fuel d k v l text text' rest :
  valid_utf8 k = true → read_value fuel d text = Some (v, "," +:+ text') →
  read_members fuel d text' = Some (l, rest) →
  read_members (S fuel) d (write_string k +:+ ":" +:+ text) = Some ((k, v) :: l, rest).
Proof. intros Hk H H'. rewrite read_members_key by done. unfold after_key. rewrite H. simpl. by rewrite H'. Qed.

(** *** The round trip *)

Lemma Join_cons {A} (f : A → string) x y l :
  Str.Join (f <$> x :: y :: l) "," = f x +:+ "," +:+ Str.Join (f <$> y :: l) ",".
Proof. done. Qed.


Definition reads_values (fuel : nat) : Prop := ∀ d v rest,
  plain d v → delim rest → (2 * String.length (write v) < fuel)%nat →
  read_value fuel d (write v +:+ rest) = Some (v, rest).

Definition reads_elements (fuel : nat) : Prop := ∀ d v l rest,
  Forall (plain d) (v :: l) → (2 * String.length (Str.Join (write <$> v :: l) ",") + 1 < fuel)%nat →
  read_elements fuel d (Str.Join (write <$> v :: l) "," +:+ "]" +:+ rest) = Some (v :: l, rest).

Definition reads_members (fuel : nat) : Prop := ∀ d kv l rest,
  Forall (λ kv, valid_utf8 kv.1 = true ∧ plain d kv.2) (kv :: l) →
  (2 * String.length (Str.Join (write_member <$> kv :: l) ",") + 1 < fuel)%nat →
  read_members fuel d (Str.Join (write_member <$> kv :: l) "," +:+ "}" +:+ rest) = Some (kv :: l, rest).

Lemma reads_elements_step fuel : reads_values fuel → reads_elements fuel → reads_elements (S fuel).
Proof.
  intros Hv He d v l rest Hl Hf. inversion Hl as [|? ? Hv0 Hl']; subst.
  destruct l as [|v' l].
  - apply read_elements_last. apply Hv; [done|by right; left|simpl in Hf; lia].
  - rewrite Join_cons in *. rewrite !Str.length_app in Hf. cbn [String.length] in Hf.
    rewrite !Str.app_assoc. eapply read_elements_more.
    + apply Hv; [done|by left|lia].
    + apply He; [done|]. lia.
Qed.

Lemma length_member kv : (String.length (write kv.2) + 3 ≤ String.length (write_member kv))%nat.
Proof. unfold write_member, write_string. rewrite !Str.length_app. simpl. lia. Qed.

Lemma reads_members_step fuel : reads_values fuel → reads_members fuel → reads_members (S fuel).
Proof.
  intros Hv Hm d [k v] l rest Hl Hf. inversion Hl as [|? ? [Hk Hv0] Hl']; subst. simpl in Hk, Hv0.
  pose proof (length_member (k, v)) as Hlen. cbn [snd] in Hlen. destruct l as [|kv' l].
  - cbn [fmap list_fmap Str.Join] in *. unfold write_member in *. cbn [fst snd] in *.
    rewrite !Str.app_assoc. apply read_members_last; [done|]. apply Hv; [done|by right; right|lia].
  - rewrite Join_cons in *. rewrite !Str.length_app in Hf. cbn [String.length] in Hf.
    unfold write_member at 1. cbn [fst snd]. rewrite !Str.app_assoc. eapply read_members_more; [done| |].
    + apply Hv; [done|by left|lia].
    + apply Hm; [done|]. lia.
Qed.

Lemma Join_head (f : value → string) v l rest : ∃ t, Str.Join (f <$> v :: l) "," +:+ rest = f v +:+ t.
Proof.
  destruct l as [|v' l]; [by exists rest|]. cbn [fmap list_fmap Str.Join]. rewrite Str.app_assoc. by eexists.
Qed.

Lemma reads_values_step fuel :
  reads_elements fuel → reads_members fuel → reads_values (S fuel).
Proof.
  intros He Hm d v rest Hv Hr Hf. inversion Hv as [| | | |? l Hd Hl|? l Hd Hl]; subst.
  - done.
  - by destruct b.
  - by apply read_value_number.
  - by apply read_value_string.
  - destruct l as [|v l].
    { change ((if maxNestingDepth <=? d then None else Some (JArr [], rest)) = Some (JArr [], rest)).
      by rewrite (proj2 (Z.leb_gt _ _) Hd). }
    change (write (JArr (v :: l))) with
      ("[" +:+ Str.Join (write <$> v :: l) "," +:+ "]") in *.
    rewrite !Str.length_app in Hf. cbn [String.length] in Hf. rewrite !Str.app_assoc.
    destruct (write_start (d + 1) v) as (c & s & Hs & Hc); [by inversion Hl|].
    destruct (Join_head write v l ("]" +:+ rest)) as [t Ht].
    eapply (read_value_array _ _ _ _ _ c (s +:+ t)); [done|by rewrite Ht, Hs|done|].
    apply He; [done|]. lia.
  - destruct l as [|[k v] l].
    { change ((if maxNestingDepth <=? d then None else Some (JObj [], rest)) = Some (JObj [], rest)).
      by rewrite (proj2 (Z.leb_gt _ _) Hd). }
    change (write (JObj ((k, v) :: l))) with
      ("{" +:+ Str.Join (write_member <$> (k, v) :: l) "," +:+ "}") in *.
    rewrite !Str.length_app in Hf. cbn [String.length] in Hf. rewrite !Str.app_assoc.
    assert (∃ t, Str.Join (write_member <$> (k, v) :: l) "," +:+ "}" +:+ rest = quote +:+ t) as [t Ht].
    { destruct l; cbn [fmap list_fmap Str.Join]; unfold write_member at 1, write_string;
        rewrite !Str.app_assoc; by eexists. }
    rewrite Ht. apply read_value_object; [done|]. rewrite <- Ht. apply Hm; [done|]. lia.
Qed.

Lemma reads fuel : reads_values fuel ∧ reads_elements fuel ∧ reads_members fuel.
Proof.
  induction fuel as [|fuel (Hv & He & Hm)].
  - repeat split; intros ? *; lia.
  - split; [by apply reads_values_step|]. split; [by apply reads_elements_step|by apply reads_members_step].
Qed.

(** What [json.Marshal] writes, [json.Unmarshal] reads. *)
Lemma parse_write v : plain 0 v → parse (write v) = Some v.
Proof.
  intros Hv. unfold parse. destruct (reads (2 * String.length (write v) + 2)) as [Hr _].
  specialize (Hr 0 v "" Hv I). rewrite Str.app_nil_r in Hr. rewrite Hr by lia. done.
Qed.

End JsonValue.
