(* ===== verification/WindowCodec.v ===== *)
(** * The window as text: DecodeWindow and EncodeWindow

    What [json.Unmarshal] and [json.Marshal] do with the fields of a window.
    Unmarshalling merges into the value it is given: [null] leaves a string or
    a number as it is, and a repeated key is decoded over the earlier one, for
    a list over the elements its memory holds from before. A text of the wrong
    shape is an error, as is a number that does not fit. *)

From S2P Require Export Window GoJson.
From stdpp Require Export sorting base option gmap strings list fin_maps.

Open Scope Z_scope.

Section codec.
Context {KQ : KubeQuantity} {GR : GoRange}.

Definition decode_string (old : string) (v : Json.value) : option string :=
  match v with
  | Json.JStr s => Some s
  | Json.JNull => Some old
  | _ => None
  end.

Definition decode_int (old : Z) (v : Json.value) : option Z :=
  match v with
  | Json.JNum t => Str.Atoi t
  | Json.JNull => Some old
  | _ => None
  end.

(** A fold that stops at the first error. *)
Fixpoint try_fold {A B} (f : A → B → option A) (a : A) (l : list B) : option A :=
  match l with
  | [] => Some a
  | x :: l => match f a x with Some a => try_fold f a l | None => None end
  end.

(** One member of a map of strings. *)
Definition peak_field (m : gmap string string) (kv : string * Json.value) : option (gmap string string) :=
  match decode_string "" kv.2 with
  | Some s => Some (<[kv.1 := s]> m)
  | None => None
  end.

Definition decode_peaks (old : option (gmap string string)) (v : Json.value)
    : option (option (gmap string string)) :=
  match v with
  | Json.JNull => Some None
  | Json.JObj l =>
      match try_fold peak_field (default ∅ old) l with
      | Some m => Some (Some m)
      | None => None
      end
  | _ => None
  end.

Definition zero_bucket : DayBucket :=
  {| Date := ""; Window.N := 0; First := ""; Last := ""; MaxGap := ""; Peaks := None |}.

(** One member of a bucket: keys are compared without regard to case, and an
    unknown key is skipped. *)
Definition bucket_field (b : DayBucket) (kv : string * Json.value) : option DayBucket :=
  let '(key, v) := kv in
  if Str.EqualFold key "d" then
    (λ s, {| Date := s; Window.N := Window.N b; First := First b; Last := Last b; MaxGap := MaxGap b; Peaks := Peaks b |})
      <$> decode_string (Date b) v
  else if Str.EqualFold key "n" then
    (λ n, {| Date := Date b; Window.N := n; First := First b; Last := Last b; MaxGap := MaxGap b; Peaks := Peaks b |})
      <$> decode_int (Window.N b) v
  else if Str.EqualFold key "first" then
    (λ s, {| Date := Date b; Window.N := Window.N b; First := s; Last := Last b; MaxGap := MaxGap b; Peaks := Peaks b |})
      <$> decode_string (First b) v
  else if Str.EqualFold key "last" then
    (λ s, {| Date := Date b; Window.N := Window.N b; First := First b; Last := s; MaxGap := MaxGap b; Peaks := Peaks b |})
      <$> decode_string (Last b) v
  else if Str.EqualFold key "maxgap" then
    (λ s, {| Date := Date b; Window.N := Window.N b; First := First b; Last := Last b; MaxGap := s; Peaks := Peaks b |})
      <$> decode_string (MaxGap b) v
  else if Str.EqualFold key "p" then
    (λ m, {| Date := Date b; Window.N := Window.N b; First := First b; Last := Last b; MaxGap := MaxGap b; Peaks := m |})
      <$> decode_peaks (Peaks b) v
  else Some b.

Definition decode_bucket (old : DayBucket) (v : Json.value) : option DayBucket :=
  match v with
  | Json.JObj l => try_fold bucket_field old l
  | Json.JNull => Some old
  | _ => None
  end.

(** The elements of an array, each over the element that the memory of the slice
    holds at its index. *)
Fixpoint decode_buckets (memory : list DayBucket) (l : list Json.value) : option (list DayBucket) :=
  match l with
  | [] => Some []
  | v :: l =>
      match decode_bucket (default zero_bucket (head memory)) v with
      | None => None
      | Some b =>
          match decode_buckets (tail memory) l with
          | None => None
          | Some bs => Some (b :: bs)
          end
      end
  end.

(** A slice under construction: its elements, and those left in its memory
    behind them. *)
Definition slice : Type := list DayBucket * list DayBucket.

Definition decode_days (old : slice) (v : Json.value) : option slice :=
  match v with
  | Json.JNull | Json.JArr [] => Some ([], [])
  | Json.JArr l =>
      let memory := old.1 ++ old.2 in
      match decode_buckets memory l with
      | Some bs => Some (bs, drop (length l) memory)
      | None => None
      end
  | _ => None
  end.

Definition window_field (acc : Window * slice) (kv : string * Json.value) : option (Window * slice) :=
  let '(w, days) := acc in
  let '(key, v) := kv in
  if Str.EqualFold key "v" then
    (λ n, ({| Version := n; UID := UID w; LastSampleAt := LastSampleAt w; LastWriteAt := LastWriteAt w; Days := Days w |}, days))
      <$> decode_int (Version w) v
  else if Str.EqualFold key "uid" then
    (λ s, ({| Version := Version w; UID := s; LastSampleAt := LastSampleAt w; LastWriteAt := LastWriteAt w; Days := Days w |}, days))
      <$> decode_string (UID w) v
  else if Str.EqualFold key "ls" then
    (λ s, ({| Version := Version w; UID := UID w; LastSampleAt := s; LastWriteAt := LastWriteAt w; Days := Days w |}, days))
      <$> decode_string (LastSampleAt w) v
  else if Str.EqualFold key "lw" then
    (λ s, ({| Version := Version w; UID := UID w; LastSampleAt := LastSampleAt w; LastWriteAt := s; Days := Days w |}, days))
      <$> decode_string (LastWriteAt w) v
  else if Str.EqualFold key "days" then
    (λ d, ({| Version := Version w; UID := UID w; LastSampleAt := LastSampleAt w; LastWriteAt := LastWriteAt w; Days := d.1 |}, d))
      <$> decode_days days v
  else Some acc.

Definition zero_window : Window :=
  {| Version := 0; UID := ""; LastSampleAt := ""; LastWriteAt := ""; Days := [] |}.

(** [json.Unmarshal(raw, &w)] for the zero window. *)
Definition unmarshal_window (raw : string) : option Window :=
  match Json.parse raw with
  | Some (Json.JObj l) => fst <$> try_fold window_field (zero_window, ([], [])) l
  | Some Json.JNull => Some zero_window
  | _ => None
  end.

(* go: internal/sizing/window.go 51-77 DecodeWindow *)
Definition DecodeWindow (raw : string) : Window :=
  if String.eqb raw "" then empty_window
  else match unmarshal_window raw with
       | None => empty_window
       | Some w =>
           if negb (Version w =? WindowVersion) then empty_window
           else if hasDuplicateDates (Days w) then empty_window
           else w
       end.

(** ** Writing *)

Definition peaks_json (m : option (gmap string string)) : Json.value :=
  match m with
  | None => Json.JNull
  | Some m => Json.JObj ((λ k, (k, Json.JStr (default "" (m !! k)))) <$> Str.sort (map_to_list m).*1)
  end.

Definition bucket_json (b : DayBucket) : Json.value :=
  Json.JObj [("d", Json.JStr (Date b)); ("n", Json.JNum (Str.Itoa (Window.N b)));
    ("first", Json.JStr (First b)); ("last", Json.JStr (Last b)); ("maxGap", Json.JStr (MaxGap b));
    ("p", peaks_json (Peaks b))].

(** A nil slice is written as [null]. *)
Definition window_json (days_nil : bool) (w : Window) : Json.value :=
  Json.JObj [("v", Json.JNum (Str.Itoa (Version w))); ("uid", Json.JStr (UID w));
    ("ls", Json.JStr (LastSampleAt w)); ("lw", Json.JStr (LastWriteAt w));
    ("days", if days_nil && (length (Days w) =? 0)%nat then Json.JNull
             else Json.JArr (bucket_json <$> Days w))].

(** [days_nil] tells whether an empty list of days is nil; marshalling these
    types does not fail. *)
(* go: internal/sizing/window.go 92-100 EncodeWindow *)
Definition EncodeWindow (days_nil : bool) (w : Window) : go_result string string :=
  Ok (Json.write (window_json days_nil
    {| Version := WindowVersion; UID := UID w; LastSampleAt := LastSampleAt w;
       LastWriteAt := LastWriteAt w; Days := Days w |})).

End codec.
