(* ===== verification/WindowRoundtrip.v ===== *)
(** * A window survives its text

    [DecodeWindow] reads what [EncodeWindow] wrote. *)

From S2P Require Export WindowCodec JsonValue.
From stdpp Require Export sorting base option gmap strings list fin_maps.

Open Scope Z_scope.

Section roundtrip.
Context {KQ : KubeQuantity} {GR : GoRange}.

Definition text_ok (s : string) : Prop := JsonText.valid_utf8 s = true.

Definition peaks_ok (m : gmap string string) : Prop := map_Forall (λ k v, text_ok k ∧ text_ok v) m.

Definition bucket_ok (b : DayBucket) : Prop :=
  text_ok (Date b) ∧ in_int64 (Window.N b) ∧ text_ok (First b) ∧ text_ok (Last b) ∧ text_ok (MaxGap b) ∧
  from_option peaks_ok True (Peaks b).

(** Windows that their text determines: every date once, and texts in UTF-8. *)
Definition encodable (w : Window) : Prop :=
  text_ok (UID w) ∧ text_ok (LastSampleAt w) ∧ text_ok (LastWriteAt w) ∧
  Forall bucket_ok (Days w) ∧ hasDuplicateDates (Days w) = false.

(** ** Peaks *)

Definition peak_member (m : gmap string string) (k : string) : string * Json.value :=
  (k, Json.JStr (default "" (m !! k))).

Lemma peaks_json_Some m : peaks_json (Some m) = Json.JObj (peak_member m <$> Str.sort (map_to_list m).*1).
Proof. done. Qed.

Lemma decode_peaks_members (m : gmap string string) (ks : list string) (acc : gmap string string) :
  ∃ m' : gmap string string, try_fold peak_field acc (peak_member m <$> ks) = Some m' ∧
    ∀ k, m' !! k = if decide (k ∈ ks) then Some (default "" (m !! k)) else acc !! k.
Proof.
  revert acc. induction ks as [|k0 ks IH]; intros acc; [by exists acc|].
  destruct (IH (<[k0 := default "" (m !! k0)]> acc)) as (m' & Hf & Hm'). exists m'. split; [exact Hf|].
  intros k. rewrite Hm'. destruct (decide (k ∈ ks)) as [Hin|Hin].
  - by rewrite decide_True by by right.
  - destruct (decide (k = k0)) as [->|Hne].
    + rewrite decide_True by by left. by rewrite lookup_insert_eq.
    + rewrite decide_False by by rewrite not_elem_of_cons. by rewrite lookup_insert_ne.
Qed.

Lemma peak_keys m k : k ∈ Str.sort (map_to_list (m : gmap string string)).*1 ↔ is_Some (m !! k).
Proof.
  rewrite (elem_of_Permutation_proper _ _ _ (Str.sort_perm _)), list_elem_of_fmap. split.
  - intros ([k' v] & -> & Hin). apply elem_of_map_to_list in Hin. by exists v.
  - intros [v Hv]. exists (k, v). split; [done|]. by apply elem_of_map_to_list.
Qed.

Lemma decode_peaks_json m : decode_peaks None (peaks_json m) = Some m.
Proof.
  destruct m as [m|]; [|done]. rewrite peaks_json_Some. cbn [decode_peaks default].
  destruct (decode_peaks_members m (Str.sort (map_to_list m).*1) ∅) as (m' & -> & Hm').
  do 2 f_equal. apply map_eq. intros k. rewrite Hm'. case_decide as Hin.
  - apply peak_keys in Hin as [v Hv]. by rewrite Hv.
  - rewrite lookup_empty. destruct (m !! k) eqn:E; [|done]. destruct Hin. apply peak_keys. by rewrite E.
Qed.

(** ** Buckets and windows *)

Lemma decode_bucket_json b : in_int64 (Window.N b) → decode_bucket zero_bucket (bucket_json b) = Some b.
Proof.
  intros Hn. pose proof (Str.Atoi_Itoa _ Hn) as Ha. pose proof (decode_peaks_json (Peaks b)) as Hp.
  destruct b as [date n first last gap peaks]. cbn [Window.N Peaks] in *.
  lazy -[Str.Itoa Str.Atoi decode_peaks peaks_json]. rewrite Ha. lazy -[decode_peaks peaks_json].
  match goal with |- context [decode_peaks ?x ?y] => change (decode_peaks x y) with (decode_peaks None (peaks_json peaks)) end.
  by rewrite Hp.
Qed.

Lemma decode_buckets_json bs :
  Forall (λ b, in_int64 (Window.N b)) bs → decode_buckets [] (bucket_json <$> bs) = Some bs.
Proof.
  induction 1 as [|b bs Hb _ IH]; [done|]. cbn [fmap list_fmap decode_buckets head tail default].
  rewrite decode_bucket_json by done. by rewrite IH.
Qed.

Lemma decode_days_json days_nil (days : list DayBucket) :
  Forall (λ b, in_int64 (Window.N b)) days →
  decode_days ([], []) (if days_nil && (length days =? 0)%nat then Json.JNull else Json.JArr (bucket_json <$> days))
  = Some (days, []).
Proof.
  intros Hd. destruct days as [|b days]; [by destruct days_nil|]. rewrite andb_false_r.
  cbn [decode_days fmap list_fmap app fst snd]. rewrite (decode_buckets_json (b :: days) Hd : decode_buckets [] (bucket_json b :: (bucket_json <$> days)) = _).
  by rewrite drop_nil.
Qed.

Lemma decode_window_json days_nil w :
  in_int64 (Version w) → Forall (λ b, in_int64 (Window.N b)) (Days w) →
  ∃ l, window_json days_nil w = Json.JObj l ∧ fst <$> try_fold window_field (zero_window, ([], [])) l = Some w.
Proof.
  intros Hv Hd. eexists. split; [done|].
  pose proof (decode_days_json days_nil (Days w) Hd) as Hdays.
  revert Hdays. generalize (if days_nil && (length (Days w) =? 0)%nat then Json.JNull else Json.JArr (bucket_json <$> Days w)).
  intros days Hdays. pose proof (Str.Atoi_Itoa _ Hv) as Ha. destruct w as [v uid ls lw ds]. cbn [Version Days] in *.
  lazy -[Str.Itoa Str.Atoi decode_days]. rewrite Ha. lazy -[decode_days]. by rewrite Hdays.
Qed.

(** ** The text *)

Lemma peaks_plain d m : d < Json.maxNestingDepth → from_option peaks_ok True m → JsonValue.plain d (peaks_json m).
Proof.
  intros Hd Hm. destruct m as [m|]; [|constructor]. rewrite peaks_json_Some. constructor; [done|].
  apply Forall_fmap, Forall_forall. intros k Hk. apply peak_keys in Hk as [v Hv]. simpl. rewrite Hv.
  destruct (Hm k v Hv) as [Hk' Hv']. split; [done|]. by constructor.
Qed.

Lemma bucket_plain d b : d + 1 < Json.maxNestingDepth → bucket_ok b → JsonValue.plain d (bucket_json b).
Proof.
  intros Hd (H1 & _ & H2 & H3 & H4 & Hp). constructor; [lia|].
  repeat apply Forall_cons_2; try apply Forall_nil_2; (split; [done|]); simpl; try by constructor.
  by apply peaks_plain.
Qed.

Lemma window_plain days_nil w : encodable w → JsonValue.plain 0 (window_json days_nil w).
Proof.
  intros (H1 & H2 & H3 & Hd & _). constructor; [done|].
  repeat apply Forall_cons_2; try apply Forall_nil_2; (split; [done|]); simpl; try by constructor.
  destruct (days_nil && _); [constructor|]. constructor; [done|]. apply Forall_fmap.
  eapply Forall_impl; [exact Hd|]. intros b Hb. by apply bucket_plain.
Qed.

Definition as_current (w : Window) : Window :=
  {| Version := WindowVersion; UID := UID w; LastSampleAt := LastSampleAt w; LastWriteAt := LastWriteAt w; Days := Days w |}.

(** Reading what was written gives the window back, in the current version. *)
Lemma window_reads_back days_nil w :
  encodable w → ∃ raw, EncodeWindow days_nil w = Ok raw ∧ DecodeWindow raw = as_current w.
Proof.
  intros Hw. eexists. split; [done|].
  change (Build_Window _ _ _ _ _) with (as_current w).
  assert (Hok : encodable (as_current w)) by done.
  destruct (decode_window_json days_nil (as_current w)) as (l & Hl & Hd); [done| |].
  { destruct Hw as (_ & _ & _ & Hb & _). eapply Forall_impl; [exact Hb|]. by intros b (_ & Hn & _). }
  unfold DecodeWindow. destruct (String.eqb_spec (Json.write (window_json days_nil (as_current w))) "") as [He|_].
  { pose proof (JsonValue.parse_write _ (window_plain days_nil _ Hok)) as Hp. by rewrite He in Hp. }
  unfold unmarshal_window. rewrite JsonValue.parse_write by by apply window_plain.
  rewrite Hl, Hd. simpl. destruct Hw as (_ & _ & _ & _ & Hdup). by rewrite Hdup.
Qed.

End roundtrip.
