(* ===== verification/WindowPersist.v ===== *)
(** * Every observed window survives its lease

    What [Observe] writes into a window is ASCII, so a window that was built
    from samples can be encoded and read back, whatever was sampled. *)

From S2P Require Export WindowRoundtrip WindowFacts GoTimeFacts.
From stdpp Require Export sorting base option gmap strings list fin_maps.

Open Scope Z_scope.

(** ** ASCII *)

Fixpoint ascii_text (s : string) : Prop :=
  match s with
  | EmptyString => True
  | String c s => Json.code c < 128 ∧ ascii_text s
  end.

Lemma ascii_app s t : ascii_text s → ascii_text t → ascii_text (s +:+ t).
Proof. induction s as [|c s IH]; simpl; [done|]. intros [Hc Hs] Ht. split; [done|by apply IH]. Qed.

Lemma ascii_valid s : ascii_text s → text_ok s.
Proof.
  unfold text_ok, JsonText.valid_utf8. induction s as [|c s IH]; [done|]. intros [Hc Hs].
  cbn [String.length JsonText.valid_fuel Json.utf8_len]. rewrite (proj2 (Z.ltb_lt _ _) Hc).
  cbn [Json.split_at]. destruct s; apply IH; done.
Qed.

Lemma ascii_digit z : 0 <= z < 10 → Json.code (Str.digit z) < 128.
Proof.
  intros Hz. assert (z = 0 ∨ z = 1 ∨ z = 2 ∨ z = 3 ∨ z = 4 ∨ z = 5 ∨ z = 6 ∨ z = 7 ∨ z = 8 ∨ z = 9) as H by lia.
  clear Hz. repeat destruct H as [H|H]; subst; done.
Qed.

Lemma ascii_dec z : ascii_text (Str.dec z).
Proof.
  unfold Str.dec. generalize (S (Z.to_nat (Z.log2 z))) as fuel. intros fuel. revert z.
  induction fuel as [|fuel IH]; intros z; [done|]. cbn [Str.dec_fuel]. apply ascii_app.
  - by destruct (z <? 10).
  - split; [|done]. apply ascii_digit. lia.
Qed.

Lemma ascii_pad2 z : 0 <= z < 100 → ascii_text (Str.pad2 z).
Proof. intros Hz. repeat split; apply ascii_digit; lia. Qed.

Lemma ascii_pad4 z : 0 <= z < 10000 → ascii_text (Str.pad4 z).
Proof. intros Hz. apply ascii_app; apply ascii_pad2; lia. Qed.

Create HintDb ascii.
#[export] Hint Resolve ascii_dec : ascii.

(** Texts that are put together from numbers and ASCII constants. *)
Ltac ascii_parts :=
  repeat match goal with |- ascii_text (_ +:+ _) => apply ascii_app end; auto with ascii; try done.

Lemma ascii_FormatDate t : ascii_text (Time.FormatDate t).
Proof.
  unfold Time.FormatDate, Time.date_string. destruct (Time.civil (Time.day_of t)) as [[y m] d] eqn:E.
  apply TimeFacts.civil_spec in E as [[Hm Hd] _]. pose proof (TimeFacts.days_before_step (Time.is_leap y) m Hm).
  unfold Time.pad_year. ascii_parts; [|apply ascii_pad2; lia|apply ascii_pad2; lia].
  repeat case_match; ascii_parts; apply ascii_pad4; repeat case_match; lia.
Qed.

Lemma clock_bounds t : 0 <= Time.hour_of t < 24 ∧ 0 <= Time.minute_of t < 60 ∧ 0 <= Time.second_of t < 60.
Proof.
  unfold Time.hour_of, Time.minute_of, Time.second_of, Time.Day, Time.Hour, Time.Minute, Time.Second. lia.
Qed.

Lemma ascii_clock t :
  ascii_text (Str.pad2 (Time.hour_of t)) ∧ ascii_text (Str.pad2 (Time.minute_of t)) ∧
  ascii_text (Str.pad2 (Time.second_of t)).
Proof. destruct (clock_bounds t) as (Hh & Hm & Hs). repeat split_and; apply ascii_pad2; lia. Qed.

Lemma ascii_FormatClock t : ascii_text (Time.FormatClock t).
Proof. unfold Time.FormatClock. destruct (ascii_clock t) as (Hh & Hm & _). by ascii_parts. Qed.

Lemma ascii_FormatRFC3339 t : ascii_text (Time.FormatRFC3339 t).
Proof.
  unfold Time.FormatRFC3339. pose proof (ascii_FormatDate t) as Hd. destruct (ascii_clock t) as (Hh & Hm & Hs).
  by ascii_parts.
Qed.

Lemma ascii_DurationString d : ascii_text (Time.DurationString d).
Proof. unfold Time.DurationString, Time.seconds_string. repeat case_match; ascii_parts. Qed.

#[export] Hint Resolve ascii_FormatDate ascii_FormatClock ascii_FormatRFC3339 ascii_DurationString ascii_valid : ascii.

(** ** Distinct dates *)

Lemma has_duplicates_spec seen days :
  has_duplicates seen days = false ↔ NoDup (Date <$> days) ∧ ∀ b, b ∈ days → Date b ∉ seen.
Proof.
  revert seen. induction days as [|b days IH]; intros seen; cbn [has_duplicates].
  - split; [|done]. intros _. split; [constructor|]. intros b Hb. by apply elem_of_nil in Hb.
  - case_bool_decide as Hb.
    + split; [done|]. intros [_ H]. destruct (H b); [by left|done].
    + rewrite IH, fmap_cons, NoDup_cons, list_elem_of_fmap. split.
      * intros [Hnd Hs]. split; [split; [|done]|].
        -- intros (b' & He & Hin). apply (Hs b' Hin). rewrite <- He. by apply elem_of_union_l, elem_of_singleton.
        -- intros b' [->|Hin]%elem_of_cons; [done|]. intros H. apply (Hs b' Hin).
           by apply elem_of_union_r.
      * intros [[Hni Hnd] Hs]. split; [done|]. intros b' Hin [He|Hin']%elem_of_union.
        -- apply elem_of_singleton in He. apply Hni. by exists b'.
        -- by apply (Hs b'); [right|].
Qed.

Lemma hasDuplicateDates_spec days : hasDuplicateDates days = false ↔ NoDup (Date <$> days).
Proof.
  unfold hasDuplicateDates. rewrite has_duplicates_spec. split; [by intros []|]. intros H. split; [done|].
  intros b _. apply not_elem_of_empty.
Qed.

(** ** Observe keeps windows encodable *)

Section persist.
Context {KQ : KubeQuantity} {GR : GoRange}.

Definition sample_ok (used : gmap string Quantity) : Prop :=
  map_Forall (λ k q, text_ok k ∧ text_ok (QString q)) used.

Lemma reset_encodable w uid : encodable w → encodable (reset w uid).
Proof. intros Hw. unfold reset. by destruct (_ && _). Qed.

Lemma observe_peak_encodable acc k q :
  text_ok k → text_ok (QString q) → peaks_ok acc.1 → peaks_ok (observe_peak acc (k, q)).1.
Proof.
  intros Hk Hq Ha. destruct acc as [peaks changed]. rewrite observe_peak_eq. unfold raised.
  destruct (replaces (peaks !! k) q); [|done]. by apply map_Forall_insert_2.
Qed.

Lemma fold_encodable (l : list (string * Quantity)) acc :
  Forall (λ kv, text_ok kv.1 ∧ text_ok (QString kv.2)) l → peaks_ok acc.1 → peaks_ok (foldl observe_peak acc l).1.
Proof.
  intros Hl. revert acc. induction Hl as [|[k q] l [Hk Hq] _ IH]; intros acc Ha; [done|]. simpl.
  apply IH. by apply observe_peak_encodable.
Qed.

Lemma current_encodable w now uid wd : encodable w → bucket_ok (current w now uid wd).
Proof.
  intros Hw. unfold current. destruct (list_find _ _) as [[i b]|] eqn:E.
  - apply list_find_Some in E as (Hb & _ & _). apply list_elem_of_lookup_2 in Hb.
    apply list_elem_of_filter in Hb as [_ Hb].
    destruct (reset_encodable w uid Hw) as (_ & _ & _ & Hd & _). rewrite Forall_forall in Hd. by apply Hd.
  - unfold bucket_ok. simpl. split_and!; auto with ascii; try done.
Qed.

Lemma gap_encodable last now gap : text_ok gap → text_ok (observe_gap last now gap).
Proof. intros Hg. unfold observe_gap. repeat case_match; auto with ascii. Qed.

Lemma updated_encodable w now uid used wd :
  encodable w → sample_ok used → bucket_ok (updated w now uid used wd).
Proof.
  intros Hw Hu. destruct (current_encodable w now uid wd Hw) as (_ & _ & Hf & _ & Hg & Hp).
  unfold bucket_ok. cbn [updated Date Window.N First Last MaxGap Peaks from_option].
  split; [auto with ascii|]. split; [apply wrap64_range|]. split; [done|]. split; [auto with ascii|].
  split; [by apply gap_encodable|]. apply fold_encodable.
  - apply Forall_forall. intros [k q] Hkq. apply Hu. by apply elem_of_range in Hkq.
  - simpl. by destruct (Peaks _).
Qed.

(** A window stays encodable when a sample is folded in, whatever the sample. *)
Lemma Observe_encodable w now uid used wd :
  encodable w → text_ok uid → sample_ok used → encodable (Observe w now uid used wd).1.
Proof.
  intros Hw Hu Hs. pose proof Hw as (_ & _ & _ & _ & Hnd).
  pose proof (proj1 (hasDuplicateDates_spec _) Hnd) as Hok.
  pose proof (Observe_ok w now uid used wd Hok) as Hok'.
  destruct (reset_encodable w uid Hw) as (_ & _ & Hlw & Hd & _).
  pose proof (updated_encodable w now uid used wd Hw Hs) as Hup.
  assert (Hk : Forall bucket_ok (kept w now uid wd)).
  { apply Forall_forall. intros b [_ Hb]%list_elem_of_filter. rewrite Forall_forall in Hd. by apply Hd. }
  split; [|split; [|split; [|split]]].
  - by rewrite Observe_eq.
  - rewrite Observe_eq. apply ascii_valid, ascii_FormatRFC3339.
  - by rewrite Observe_eq.
  - rewrite Observe_eq. cbn [fst Days]. destruct (list_find _ _) as [[i b]|].
    + by apply Forall_insert.
    + apply Forall_app. split; [done|]. by apply Forall_singleton.
  - by apply hasDuplicateDates_spec.
Qed.

End persist.
