(* ===== verification/JsonRead.v ===== *)
(** * What the JSON reader produces

    Every string that [parse] returns is valid UTF-8, whatever bytes it was
    given: invalid sequences and lone surrogates become the replacement
    character. *)

From S2P Require Export JsonValue.
From stdpp Require Export sorting base option gmap strings list fin_maps.

Open Scope Z_scope.

Module JsonRead.
Import Json JsonText.

(** ** Code points *)

Lemma code_chr z : 0 <= z < 256 → code (chr z) = z.
Proof. intros Hz. unfold code, chr, Str.byte. rewrite N_ascii_embedding by lia. lia. Qed.

Definition scalar (r : Z) : Prop := 0 <= r < 55296 ∨ 57344 <= r < 1114112.

(** Evaluate the tests of a sequence whose bytes are known. *)
Ltac byte_tests :=
  repeat match goal with
         | |- context [?a <? ?b] => destruct (Z.ltb_spec a b); try lia
         | |- context [?a <=? ?b] => destruct (Z.leb_spec a b); try lia
         | |- context [?a =? ?b] => destruct (Z.eqb_spec a b); try lia
         end.

Lemma one_byte_unit a : 0 <= a < 128 → unit_text (String (chr a) "").
Proof. intros Ha. split; [done|]. intros t. cbn [String.append utf8_len]. rewrite code_chr by lia. by byte_tests. Qed.

Lemma two_bytes_unit a b : 194 <= a <= 223 → 128 <= b <= 191 → unit_text (String (chr a) (String (chr b) "")).
Proof.
  intros Ha Hb. split; [done|]. intros t. cbn [String.append utf8_len].
  unfold continuation, between. rewrite !code_chr by lia. by byte_tests.
Qed.

Lemma three_bytes_unit a b c :
  224 <= a <= 239 → 128 <= b <= 191 → 128 <= c <= 191 → (a = 224 → 160 <= b) → (a = 237 → b <= 159) →
  unit_text (String (chr a) (String (chr b) (String (chr c) ""))).
Proof.
  intros Ha Hb Hc H1 H2. split; [done|]. intros t. cbn [String.append utf8_len].
  unfold continuation, between. rewrite !code_chr by lia. by byte_tests.
Qed.

Lemma four_bytes_unit a b c d :
  240 <= a <= 244 → 128 <= b <= 191 → 128 <= c <= 191 → 128 <= d <= 191 →
  (a = 240 → 144 <= b) → (a = 244 → b <= 143) →
  unit_text (String (chr a) (String (chr b) (String (chr c) (String (chr d) "")))).
Proof.
  intros Ha Hb Hc Hd H1 H2. split; [done|]. intros t. cbn [String.append utf8_len].
  unfold continuation, between. rewrite !code_chr by lia. by byte_tests.
Qed.

Lemma encode_rune_unit r : scalar r → unit_text (encode_rune r).
Proof.
  unfold scalar. intros Hr. unfold encode_rune.
  destruct (Z.ltb_spec r 128); [|destruct (Z.ltb_spec r 2048); [|destruct (Z.ltb_spec r 65536)]].
  - apply one_byte_unit. lia.
  - apply two_bytes_unit; lia.
  - apply three_bytes_unit; lia.
  - apply four_bytes_unit; lia.
Qed.

Lemma ascii_unit c : code c < 128 → unit_text (String c "").
Proof. intros Hc. split; [done|]. intros t. cbn [String.append utf8_len]. by rewrite (proj2 (Z.ltb_lt _ _) Hc). Qed.

Lemma simple_escape_unit e c : simple_escape e = Some c → unit_text (String c "").
Proof.
  destruct e as [[] [] [] [] [] [] [] []]; intros H; try discriminate H; injection H as <-; by apply ascii_unit.
Qed.

Lemma hex_value_bounds c v : hex_value c = Some v → 0 <= v < 16.
Proof. unfold hex_value, between. intros H. repeat case_match; simplify_eq; bool_to_prop; lia. Qed.

Lemma hex4_bounds s r rest : hex4 s = Some (r, rest) → 0 <= r < 65536.
Proof.
  unfold hex4. intros H.
  destruct s as [|a [|b [|c [|d s]]]]; try done.
  destruct (hex_value a) eqn:Ea, (hex_value b) eqn:Eb, (hex_value c) eqn:Ec, (hex_value d) eqn:Ed; try done.
  injection H as <- _. apply hex_value_bounds in Ea, Eb, Ec, Ed. lia.
Qed.

Lemma low_half_scalar r s r' rest :
  0 <= r < 65536 → is_surrogate r = true → low_half r s = Some (r', rest) → scalar r'.
Proof.
  unfold low_half, is_surrogate, scalar. intros Hr Hs H.
  destruct (Str.strip_prefix "\u" s) as [s'|]; [|done]. destruct (hex4 s') as [[r2 s2]|] eqn:E; [|done].
  destruct ((r <? 56320) && (56320 <=? r2) && (r2 <? 57344)) eqn:Eb; [|done].
  injection H as <- _. bool_to_prop. lia.
Qed.

Lemma unicode_escape_unit s t rest : unicode_escape s = Some (t, rest) → unit_text t.
Proof.
  unfold unicode_escape. intros H. destruct (hex4 s) as [[r s']|] eqn:E; [|done].
  apply hex4_bounds in E. destruct (is_surrogate r) eqn:Es.
  - destruct (low_half r s') as [[r' s2]|] eqn:El; injection H as <- _; apply encode_rune_unit.
    + by eapply low_half_scalar.
    + unfold replacement. right. lia.
  - injection H as <- _. apply encode_rune_unit. unfold is_surrogate in Es. unfold scalar. bool_to_prop. lia.
Qed.

(** ** Strings *)

Lemma utf8_prepend t s r rest :
  unit_text t → (∀ t' rest', r = Some (t', rest') → utf8 t') → prepend t r = Some (s, rest) → utf8 s.
Proof.
  intros Ht Hr H. destruct r as [[t' rest']|]; [|done]. injection H as <- _. constructor; [done|].
  by eapply Hr.
Qed.

Lemma string_body_utf8 fuel s t rest : string_body fuel s = Some (t, rest) → utf8 t.
Proof.
  revert s t rest. induction fuel as [|fuel IH]; intros s t rest H; [done|]. cbn [string_body] in H.
  destruct s as [|c s1]; [done|]. destruct (code c =? 34); [injection H as <- _; constructor|].
  destruct (code c =? 92).
  - destruct s1 as [|e s2]; [done|]. cbv zeta in H.
    destruct (if code e =? 117 then unicode_escape s2
              else match simple_escape e with Some a => Some (String a "", s2) | None => None end)
      as [[u rest']|] eqn:E; [|done].
    eapply (utf8_prepend u); [|intros ? ?; apply IH|exact H].
    destruct (code e =? 117); [by eapply unicode_escape_unit|].
    destruct (simple_escape e) eqn:Ee; [|done]. injection E as <- _. by eapply simple_escape_unit.
  - destruct (code c <? 32); [done|]. destruct (utf8_len (String c s1)) as [|n] eqn:En.
    + eapply (utf8_prepend (encode_rune replacement)); [|intros ? ?; apply IH|exact H].
      apply encode_rune_unit. unfold replacement, scalar. lia.
    + destruct (utf8_len_unit _ _ En) as (x & y & Hxy & Hx & Hn). rewrite Hxy, <- Hn, split_at_app in H.
      by eapply (utf8_prepend x); [|intros ? ?; apply IH|exact H].
Qed.

Lemma utf8_valid s : utf8 s → valid_utf8 s = true.
Proof.
  unfold valid_utf8. intros H. assert (Hn : (String.length s ≤ String.length s)%nat) by done.
  revert Hn. generalize (String.length s) at 2 3 as n. revert s H.
  induction 1 as [|x s Hx Hs IH]; intros n Hn; [by destruct n|].
  destruct (x +:+ s) as [|c s'] eqn:E; [by destruct n|]. destruct n as [|n]; [simpl in Hn; lia|].
  cbn [valid_fuel]. pose proof Hx as [Hne Hlen]. specialize (Hlen s). rewrite E in Hlen. rewrite Hlen.
  destruct (String.length x) as [|m] eqn:Ex; [by destruct x|].
  rewrite <- E, <- Ex, split_at_app. apply IH. rewrite <- E, Str.length_app in Hn. simpl. lia.
Qed.

Lemma read_string_valid s t rest : read_string s = Some (t, rest) → valid_utf8 t = true.
Proof. intros H. apply utf8_valid. by eapply string_body_utf8. Qed.

(** ** Values *)

(** Every string of a value, also as a key, is valid UTF-8. *)
Inductive texts : value → Prop :=
| texts_null : texts JNull
| texts_bool b : texts (JBool b)
| texts_num t : texts (JNum t)
| texts_str s : valid_utf8 s = true → texts (JStr s)
| texts_arr l : Forall texts l → texts (JArr l)
| texts_obj l : Forall (λ kv, valid_utf8 kv.1 = true ∧ texts kv.2) l → texts (JObj l).

(** Take the reader's result apart along its tests. *)
Ltac read_cases H :=
  repeat match type of H with
         | match ?e with _ => _ end = Some _ => let E := fresh "E" in destruct e eqn:E; try discriminate H
         end.

Lemma read_texts fuel :
  (∀ d s v rest, read_value fuel d s = Some (v, rest) → texts v) ∧
  (∀ d s l rest, read_elements fuel d s = Some (l, rest) → Forall texts l) ∧
  (∀ d s l rest, read_members fuel d s = Some (l, rest) → Forall (λ kv, valid_utf8 kv.1 = true ∧ texts kv.2) l).
Proof.
  induction fuel as [|fuel (Hv & He & Hm)]; [done|]. split; [|split].
  - intros d s v rest H. cbn [read_value] in H. read_cases H; injection H as <- _; constructor; try (by constructor);
      first [by eapply Hm | by eapply He | by eapply read_string_valid].
  - intros d s l rest H. cbn [read_elements] in H. read_cases H; injection H as <- _;
      (constructor; [by eapply Hv|]); first [by constructor | by eapply He].
  - intros d s l rest H. cbn [read_members] in H. read_cases H; injection H as <- _;
      (constructor; [split; [by eapply read_string_valid|by eapply Hv]|]); first [by constructor | by eapply Hm].
Qed.

Lemma parse_texts s v : parse s = Some v → texts v.
Proof.
  unfold parse. intros H. destruct (read_value _ 0 s) as [[v' rest]|] eqn:E; [|done].
  destruct (skip_space rest); [|done]. injection H as <-. by eapply (proj1 (read_texts _)).
Qed.

End JsonRead.
