(* ===== verification/JsonFuel.v ===== *)
(** * The JSON reader always ends

    The recursion of the reader is bounded by fuel. Its fuel is enough for every
    text: a text is rejected because of what it says, never for want of fuel. *)

From S2P Require Export JsonRead.
From stdpp Require Export sorting base option gmap strings list fin_maps.

Open Scope Z_scope.

Module JsonFuel.
Import Json JsonText JsonRead.

Local Abbreviation len := String.length.

(** ** What is read is left out *)

Lemma skip_space_len s : (len (skip_space s) <= len s)%nat.
Proof. induction s as [|c s IH]; simpl; [done|]. case_match; simpl; lia. Qed.

Lemma strip_prefix_len p s r : Str.strip_prefix p s = Some r → len s = (len p + len r)%nat.
Proof.
  revert s. induction p as [|c p IH]; intros s H; simpl in H; [by injection H as ->|].
  destruct s as [|c' s]; [done|]. destruct (Ascii.eqb c c'); [|done]. simpl. f_equal. by apply IH.
Qed.

Lemma take_digits_len s a b : take_digits s = (a, b) → len s = (len a + len b)%nat.
Proof.
  revert a b. induction s as [|c s IH]; intros a b H; simpl in H; [by injection H as <- <-|].
  destruct (Str.is_digit c); [|by injection H as <- <-].
  destruct (take_digits s) as [a' b']. injection H as <- <-. simpl. f_equal. by apply IH.
Qed.

Lemma some_digits_len s a b : some_digits s = Some (a, b) → (len b < len s)%nat.
Proof.
  unfold some_digits. destruct (take_digits s) as [a' b'] eqn:E. destruct a' as [|c a']; [done|].
  intros [= <- <-]. apply take_digits_len in E. simpl in E. lia.
Qed.

Lemma read_fraction_len s a b : read_fraction s = Some (a, b) → (len b <= len s)%nat.
Proof.
  unfold read_fraction. intros H. read_cases H; simplify_eq; try done;
    match goal with E : some_digits _ = _ |- _ => apply some_digits_len in E end; simpl; lia.
Qed.

Lemma read_exponent_len s a b : read_exponent s = Some (a, b) → (len b <= len s)%nat.
Proof.
  destruct s as [|c s]; [by intros [= <- <-]|]. unfold read_exponent.
  destruct ((code c =? 101) || (code c =? 69)); [|by intros [= <- <-]].
  set (p := match s with String "+" _ => _ | _ => _ end).
  assert (Hp : (len p.2 <= len s)%nat) by (subst p; repeat case_match; simpl; lia).
  destruct p as [sign s2]. simpl in Hp. destruct (some_digits s2) as [[d r]|] eqn:E; [|done].
  intros [= <- <-]. apply some_digits_len in E. simpl. lia.
Qed.

Lemma read_number_len s a b : read_number s = Some (a, b) → (len b < len s)%nat.
Proof.
  unfold read_number. set (p := match s with String "-" _ => _ | _ => _ end).
  assert (Hp : (len p.2 <= len s)%nat) by (subst p; repeat case_match; simpl; lia).
  destruct p as [sign s']. simpl in Hp.
  set (i := match s' with String "0" _ => _ | _ => _ end).
  assert (Hi : ∀ x y, i = Some (x, y) → (len y < len s')%nat).
  { intros x y. subst i. intros H. repeat case_match; simplify_eq; simpl; try lia;
      by apply some_digits_len in H. }
  destruct i as [[x y]|]; [|done]. specialize (Hi x y eq_refl).
  destruct (read_fraction y) as [[f z]|] eqn:Ef; [|done]. apply read_fraction_len in Ef.
  destruct (read_exponent z) as [[e w]|] eqn:Ee; [|done]. apply read_exponent_len in Ee.
  intros [= <- <-]. lia.
Qed.

Lemma hex4_len s r rest : hex4 s = Some (r, rest) → len s = (4 + len rest)%nat.
Proof. unfold hex4. intros H. read_cases H. by simplify_eq. Qed.

Lemma low_half_len r s r' rest : low_half r s = Some (r', rest) → (len rest <= len s)%nat.
Proof.
  unfold low_half. intros H. read_cases H. simplify_eq.
  match goal with E : Str.strip_prefix _ _ = _ |- _ => apply strip_prefix_len in E end.
  match goal with E : hex4 _ = _ |- _ => apply hex4_len in E end. lia.
Qed.

Lemma unicode_escape_len s t rest : unicode_escape s = Some (t, rest) → (len rest <= len s)%nat.
Proof.
  unfold unicode_escape. destruct (hex4 s) as [[r s']|] eqn:E; [|done]. apply hex4_len in E.
  destruct (is_surrogate r); [|intros [= <- <-]; lia].
  destruct (low_half r s') as [[r' s2]|] eqn:El; intros [= <- <-]; [apply low_half_len in El|]; lia.
Qed.

Lemma split_at_len n s a b : split_at n s = (a, b) → (len b <= len s - n)%nat.
Proof.
  revert s a b. induction n as [|n IH]; intros s a b H; simpl in H.
  - injection H as <- <-. lia.
  - destruct s as [|c s]; [by injection H as <- <-|]. destruct (split_at n s) as [a' b'] eqn:E.
    injection H as <- <-. apply IH in E. simpl. lia.
Qed.

(** ** Strings *)

(** One step of [string_body]: the closing quote, or a piece of text and the
    rest of the body. *)
Definition body_step (c : ascii) (s1 : string) : option (string * string) :=
  if code c =? 92 then
    match s1 with
    | EmptyString => None
    | String e s2 =>
        if code e =? 117 then unicode_escape s2
        else match simple_escape e with Some a => Some (String a "", s2) | None => None end
    end
  else if code c <? 32 then None
  else Some (match utf8_len (String c s1) with
             | O => (encode_rune replacement, s1)
             | n => split_at n (String c s1)
             end).

Lemma string_body_step fuel c s1 :
  string_body (S fuel) (String c s1) =
    if code c =? 34 then Some ("", s1)
    else match body_step c s1 with
         | Some (t, rest) => prepend t (string_body fuel rest)
         | None => None
         end.
Proof.
  cbn [string_body]. unfold body_step. destruct (code c =? 34); [done|]. destruct (code c =? 92).
  - by destruct s1.
  - destruct (code c <? 32); [done|]. by destruct (utf8_len (String c s1)); [|destruct (split_at _ _)].
Qed.

Lemma body_step_len c s1 t rest : body_step c s1 = Some (t, rest) → (len rest <= len s1)%nat.
Proof.
  unfold body_step. intros H. destruct (code c =? 92).
  - destruct s1 as [|e s2]; [done|]. destruct (code e =? 117); [apply unicode_escape_len in H; simpl; lia|].
    destruct (simple_escape e); [|done]. injection H as <- <-. simpl. lia.
  - destruct (code c <? 32); [done|]. destruct (utf8_len (String c s1)) as [|n]; [by injection H as <- <-|].
    apply (f_equal (default ("", ""))) in H. cbn [default] in H. apply split_at_len in H. simpl in H. lia.
Qed.

Lemma string_body_len fuel s t rest : string_body fuel s = Some (t, rest) → (len rest < len s)%nat.
Proof.
  revert s t rest. induction fuel as [|fuel IH]; intros s t rest H; [done|]. destruct s as [|c s1]; [done|].
  rewrite string_body_step in H. destruct (code c =? 34); [injection H as <- <-; simpl; lia|].
  destruct (body_step c s1) as [[u r]|] eqn:E; [|done]. apply body_step_len in E.
  destruct (string_body fuel r) as [[t' r']|] eqn:Er; [|done]. injection H as <- <-. apply IH in Er. simpl. lia.
Qed.

(** More fuel than characters makes no difference. *)
Lemma string_body_fuel fuel fuel' s :
  (len s <= fuel)%nat → (len s <= fuel')%nat → string_body fuel s = string_body fuel' s.
Proof.
  revert fuel' s. induction fuel as [|fuel IH]; intros fuel' s H H'.
  - destruct s as [|c s]; [by destruct fuel'|simpl in H; lia].
  - destruct s as [|c s1]; [by destruct fuel'|]. destruct fuel' as [|fuel']; [simpl in H'; lia|].
    rewrite !string_body_step. destruct (code c =? 34); [done|].
    destruct (body_step c s1) as [[u r]|] eqn:E; [|done]. apply body_step_len in E. simpl in H, H'.
    by rewrite (IH fuel' r) by lia.
Qed.

Lemma read_string_len s t rest : read_string s = Some (t, rest) → (len rest < len s)%nat.
Proof. apply string_body_len. Qed.

(** ** Values *)

(** Lengths from the equations of the context. *)
Ltac lengths :=
  repeat match goal with
         | E : skip_space ?s = _ |- _ =>
             lazymatch goal with
             | _ : (len (skip_space s) <= len s)%nat |- _ => fail
             | _ => pose proof (skip_space_len s)
             end
         | E : read_string _ = Some _ |- _ => apply read_string_len in E
         | E : read_number _ = Some _ |- _ => apply read_number_len in E
         | E : Str.strip_prefix _ _ = Some _ |- _ => apply strip_prefix_len in E
         end;
  repeat match goal with E : skip_space ?s = _, H : (len (skip_space ?s) <= _)%nat |- _ => rewrite E in H end;
  simpl in *; lia.

(** A value takes at least one character. *)
Lemma read_len fuel :
  (∀ d s v rest, read_value fuel d s = Some (v, rest) → (len rest < len s)%nat) ∧
  (∀ d s l rest, read_elements fuel d s = Some (l, rest) → (len rest < len s)%nat) ∧
  (∀ d s l rest, read_members fuel d s = Some (l, rest) → (len rest < len s)%nat).
Proof.
  induction fuel as [|fuel (Hv & He & Hm)]; [done|]. split; [|split].
  - intros d s v rest H. cbn [read_value] in H. read_cases H; injection H as <- <-;
      repeat match goal with
             | E : read_members fuel _ _ = Some _ |- _ => apply Hm in E
             | E : read_elements fuel _ _ = Some _ |- _ => apply He in E
             end; lengths.
  - intros d s l rest H. cbn [read_elements] in H. read_cases H; injection H as <- <-;
      repeat match goal with
             | E : read_value fuel _ _ = Some _ |- _ => apply Hv in E
             | E : read_elements fuel _ _ = Some _ |- _ => apply He in E
             end; lengths.
  - intros d s l rest H. cbn [read_members] in H. read_cases H; injection H as <- <-;
      repeat match goal with
             | E : read_value fuel _ _ = Some _ |- _ => apply Hv in E
             | E : read_members fuel _ _ = Some _ |- _ => apply Hm in E
             end; lengths.
Qed.

(** What is read with some fuel is read with more. *)
Lemma read_mono fuel fuel' :
  (fuel <= fuel')%nat →
  (∀ d s r, read_value fuel d s = Some r → read_value fuel' d s = Some r) ∧
  (∀ d s r, read_elements fuel d s = Some r → read_elements fuel' d s = Some r) ∧
  (∀ d s r, read_members fuel d s = Some r → read_members fuel' d s = Some r).
Proof.
  revert fuel'. induction fuel as [|fuel IH]; intros fuel' Hf; [done|].
  destruct fuel' as [|fuel']; [lia|]. destruct (IH fuel') as (Hv & He & Hm); [lia|].
  split; [|split]; intros d s r H; cbn [read_value read_elements read_members] in H |- *;
  repeat match type of H with
         | match ?e with _ => _ end = Some _ => destruct e eqn:?; try discriminate H
         end;
  repeat first
    [ exact H
    | match goal with
      | E : read_value fuel _ _ = Some _ |- _ => apply Hv in E; rewrite E
      | E : read_elements fuel _ _ = Some _ |- _ => apply He in E; rewrite E
      | E : read_members fuel _ _ = Some _ |- _ => apply Hm in E; rewrite E
      | E : ?x = _ |- context [match ?x with _ => _ end] => rewrite E
      end ].
Qed.

Ltac read_lengths :=
  repeat match goal with
         | E : read_value ?f _ _ = Some _ |- _ => apply (proj1 (read_len f)) in E
         | E : read_elements ?f _ _ = Some _ |- _ => apply (proj1 (proj2 (read_len f))) in E
         | E : read_members ?f _ _ = Some _ |- _ => apply (proj2 (proj2 (read_len f))) in E
         end; lengths.

(** More fuel than the text needs makes no difference. *)
Lemma read_fuel fuel fuel' :
  (∀ d s, (2 * len s + 1 <= fuel)%nat → (2 * len s + 1 <= fuel')%nat →
     read_value fuel d s = read_value fuel' d s) ∧
  (∀ d s, (2 * len s + 2 <= fuel)%nat → (2 * len s + 2 <= fuel')%nat →
     read_elements fuel d s = read_elements fuel' d s) ∧
  (∀ d s, (2 * len s + 2 <= fuel)%nat → (2 * len s + 2 <= fuel')%nat →
     read_members fuel d s = read_members fuel' d s).
Proof.
  revert fuel'. induction fuel as [|fuel IH]; intros fuel'; [split; [|split]; intros; lia|].
  destruct fuel' as [|fuel']; [split; [|split]; intros; lia|]. destruct (IH fuel') as (Hv & He & Hm).
  split; [|split]; intros d s Hf Hf'; cbn [read_value read_elements read_members];
  repeat first
    [ reflexivity
    | match goal with
      | |- context [match ?e with _ => _ end] =>
          lazymatch e with
          | context [match _ with _ => _ end] => fail
          | read_value fuel ?d ?t => rewrite (Hv d t) by read_lengths; destruct (read_value fuel' d t) as [[? ?]|] eqn:?
          | read_elements fuel ?d ?t => rewrite (He d t) by read_lengths; destruct (read_elements fuel' d t) as [[]|] eqn:?
          | read_members fuel ?d ?t => rewrite (Hm d t) by read_lengths; destruct (read_members fuel' d t) as [[]|] eqn:?
          | _ => destruct e eqn:?
          end
      end ].
Qed.

(** The fuel of [parse] is enough: a text that any amount of fuel reads is read,
    and with the same value. *)
Theorem parse_complete s v :
  parse s = Some v ↔ ∃ fuel rest, read_value fuel 0 s = Some (v, rest) ∧ skip_space rest = "".
Proof.
  unfold parse. set (n := (2 * String.length s + 2)%nat). split.
  - intros H. destruct (read_value n 0 s) as [[v' rest]|] eqn:E; [|done].
    destruct (skip_space rest) eqn:Er; [|done]. injection H as <-. by exists n, rest.
  - intros (fuel & rest & H & Hr).
    assert (H' : read_value (max fuel n) 0 s = Some (v, rest)).
    { apply (proj1 (read_mono fuel (max fuel n) ltac:(lia))), H. }
    rewrite (proj1 (read_fuel (max fuel n) n)) in H' by lia. by rewrite H', Hr.
Qed.

(** Nor do the strings run out of fuel. *)
Theorem read_string_complete s t rest :
  read_string s = Some (t, rest) ↔ ∃ fuel, (len s <= fuel)%nat ∧ string_body fuel s = Some (t, rest).
Proof.
  unfold read_string. split; [intros H; by exists (len s)|]. intros (fuel & Hf & H).
  by rewrite (string_body_fuel (len s) fuel).
Qed.

End JsonFuel.
