(* ===== verification/WindowDecode.v ===== *)
(** * What DecodeWindow accepts

    Whatever an annotation holds, the decoded window has the current version,
    every date at most once, and texts that survive being written again. *)

From S2P Require Export WindowPersist JsonRead PolicyFacts.
From stdpp Require Export sorting base option gmap strings list fin_maps.

Open Scope Z_scope.

Section decode.
Context {KQ : KubeQuantity} {GR : GoRange}.

(** What a fold that may fail preserves. *)
Lemma try_fold_ind {A B} (P : A → Prop) (Q : B → Prop) (f : A → B → option A) l a a' :
  (∀ a x a', P a → Q x → f a x = Some a' → P a') → P a → Forall Q l → try_fold f a l = Some a' → P a'.
Proof.
  intros Hf Ha Hl. revert a Ha. induction Hl as [|x l Hx _ IH]; intros a Ha H; simpl in H.
  - by injection H as <-.
  - destruct (f a x) as [a1|] eqn:E; [|done]. by eapply IH; [eapply Hf|].
Qed.

Definition member_ok (kv : string * Json.value) : Prop := text_ok kv.1 ∧ JsonRead.texts kv.2.

Lemma texts_obj_inv l : JsonRead.texts (Json.JObj l) → Forall member_ok l.
Proof. by inversion 1. Qed.

Lemma decode_string_ok old v s : text_ok old → JsonRead.texts v → decode_string old v = Some s → text_ok s.
Proof. intros Ho Hv H. destruct v; simplify_eq/=; [done|by inversion Hv]. Qed.

Lemma decode_int_ok old v n : in_int64 old → decode_int old v = Some n → in_int64 n.
Proof. intros Ho H. destruct v; simplify_eq/=; [done|]. by eapply Atoi_range. Qed.

Lemma peak_field_ok m kv m' : peaks_ok m → member_ok kv → peak_field m kv = Some m' → peaks_ok m'.
Proof.
  intros Hm [Hk Hv] H. unfold peak_field in H. destruct (decode_string "" kv.2) as [s|] eqn:E; [|done].
  injection H as <-. apply map_Forall_insert_2; [|done]. split; [done|].
  by apply (decode_string_ok "" kv.2).
Qed.

Lemma decode_peaks_ok old v m :
  from_option peaks_ok True old → JsonRead.texts v → decode_peaks old v = Some m → from_option peaks_ok True m.
Proof.
  intros Ho Hv H. destruct v as [| | | | |l]; try done; simpl in H; [by injection H as <-|].
  destruct (try_fold _ _ l) as [m'|] eqn:E; [|done]. injection H as <-. simpl.
  eapply (try_fold_ind peaks_ok member_ok); [|  |by apply texts_obj_inv|exact E].
  - intros ???. apply peak_field_ok.
  - destruct old; [done|]. apply map_Forall_empty.
Qed.

Lemma zero_bucket_ok : bucket_ok zero_bucket.
Proof. unfold bucket_ok. simpl. by split_and!. Qed.

Lemma bucket_field_ok b kv b' : bucket_ok b → member_ok kv → bucket_field b kv = Some b' → bucket_ok b'.
Proof.
  intros (Hd & Hn & Hf & Hl & Hg & Hp) [_ Hv] H. destruct kv as [key v]. unfold bucket_field in H. simpl in Hv.
  repeat match type of H with (if ?b then _ else _) = _ => destruct b end;
    try (by injection H as <-);
    apply fmap_Some in H as (x & Hx & ->); unfold bucket_ok; simpl; (split; [|split; [|split; [|split; [|split]]]]); try done;
    first [by refine (decode_string_ok _ _ _ _ Hv Hx) | by refine (decode_int_ok _ _ _ _ Hx)
          | by refine (decode_peaks_ok _ _ _ _ Hv Hx)].
Qed.

Lemma decode_bucket_ok old v b : bucket_ok old → JsonRead.texts v → decode_bucket old v = Some b → bucket_ok b.
Proof.
  intros Ho Hv H. destruct v as [| | | | |l]; try done; simpl in H; [by injection H as <-|].
  eapply (try_fold_ind bucket_ok member_ok); [|exact Ho|by apply texts_obj_inv|exact H].
  intros ???. apply bucket_field_ok.
Qed.

Lemma decode_buckets_ok memory l bs :
  Forall bucket_ok memory → Forall JsonRead.texts l → decode_buckets memory l = Some bs → Forall bucket_ok bs.
Proof.
  intros Hm Hl. revert memory bs Hm. induction Hl as [|v l Hv _ IH]; intros memory bs Hm H; simpl in H.
  - by injection H as <-.
  - destruct (decode_bucket _ v) as [b|] eqn:Eb; [|done].
    destruct (decode_buckets (tail memory) l) as [bs'|] eqn:E; [|done]. injection H as <-. constructor.
    + eapply decode_bucket_ok; [|exact Hv|exact Eb]. destruct Hm; [apply zero_bucket_ok|done].
    + eapply IH; [|exact E]. by destruct Hm.
Qed.

Definition slice_ok (s : slice) : Prop := Forall bucket_ok s.1 ∧ Forall bucket_ok s.2.

Lemma decode_days_ok old v s : slice_ok old → JsonRead.texts v → decode_days old v = Some s → slice_ok s.
Proof.
  intros [H1 H2] Hv H. destruct v as [| | | |l|]; try done; simpl in H; [by injection H as <-|].
  destruct l as [|v l]; [by injection H as <-|].
  destruct (decode_buckets (old.1 ++ old.2) (v :: l)) as [bs|] eqn:E; [|done]. injection H as <-.
  assert (Hm : Forall bucket_ok (old.1 ++ old.2)) by by apply Forall_app.
  split; simpl; [|by apply Forall_drop].
  eapply decode_buckets_ok; [exact Hm| |exact E]. by inversion Hv.
Qed.

Definition fields_ok (acc : Window * slice) : Prop :=
  text_ok (UID acc.1) ∧ text_ok (LastSampleAt acc.1) ∧ text_ok (LastWriteAt acc.1) ∧
  Forall bucket_ok (Days acc.1) ∧ slice_ok acc.2.

Lemma window_field_ok acc kv acc' :
  fields_ok acc → member_ok kv → window_field acc kv = Some acc' → fields_ok acc'.
Proof.
  intros (Hu & Hs & Hw & Hd & Hm) [_ Hv] H. destruct acc as [w days], kv as [key v]. unfold window_field in H.
  simpl in Hu, Hs, Hw, Hd, Hm, Hv.
  repeat match type of H with (if ?b then _ else _) = _ => destruct b end;
    try (by injection H as <-);
    apply fmap_Some in H as (x & Hx & ->); unfold fields_ok; simpl; (split; [|split; [|split; [|split]]]); try done;
    first [by refine (decode_string_ok _ _ _ _ Hv Hx) | by destruct (decode_days_ok _ _ _ Hm Hv Hx)].
Qed.

Lemma unmarshal_window_ok raw w :
  unmarshal_window raw = Some w →
  text_ok (UID w) ∧ text_ok (LastSampleAt w) ∧ text_ok (LastWriteAt w) ∧ Forall bucket_ok (Days w).
Proof.
  unfold unmarshal_window. intros H. destruct (Json.parse raw) as [v|] eqn:E; [|done].
  apply JsonRead.parse_texts in E. destruct v as [| | | | |l]; try done; [by injection H as <-|].
  apply fmap_Some in H as (acc & Hacc & ->).
  destruct (try_fold_ind fields_ok member_ok window_field l (zero_window, ([], [])) acc) as (? & ? & ? & ? & _);
    try done; [intros ???; apply window_field_ok|by apply texts_obj_inv].
Qed.

(** Whatever text a lease carries, the window decoded from it has the current
    version and can be written. *)
Lemma DecodeWindow_wellformed raw : Version (DecodeWindow raw) = WindowVersion ∧ encodable (DecodeWindow raw).
Proof.
  assert (He : Version empty_window = WindowVersion ∧ encodable empty_window).
  { split; [done|]. repeat split; constructor. }
  unfold DecodeWindow. destruct (String.eqb raw ""); [done|].
  destruct (unmarshal_window raw) as [w|] eqn:E; [|done].
  destruct (Z.eqb_spec (Version w) WindowVersion); simpl; [|done].
  destruct (hasDuplicateDates (Days w)) eqn:Ed; [done|].
  destruct (unmarshal_window_ok _ _ E) as (? & ? & ? & ?). done.
Qed.

(** C27. Whatever bytes an annotation holds, [DecodeWindow] gives a window of the
    current version with distinct dates, counts that fit in 64 bits and texts in
    UTF-8; writing that window and reading it again gives the same window. *)
Theorem DecodeWindow_stable days_nil raw :
  Version (DecodeWindow raw) = WindowVersion ∧ NoDup (Date <$> Days (DecodeWindow raw)) ∧
  Forall bucket_ok (Days (DecodeWindow raw)) ∧
  ∃ raw', EncodeWindow days_nil (DecodeWindow raw) = Ok raw' ∧ DecodeWindow raw' = DecodeWindow raw.
Proof.
  destruct (DecodeWindow_wellformed raw) as [Hv He]. pose proof He as (_ & _ & _ & Hd & Hn).
  split; [done|]. split; [by apply hasDuplicateDates_spec|]. split; [done|].
  destruct (window_reads_back days_nil _ He) as (raw' & Hr & Hd'). exists raw'. split; [done|].
  rewrite Hd'. unfold as_current. rewrite <- Hv. by destruct (DecodeWindow raw).
Qed.

End decode.
