(* ===== verification/Observer.v ===== *)
(** * internal/controller/observation.go: the observer

    [Observe] folds one sample into the window of a quota, from the cache or
    from the lease, and writes the lease when the window changed or an hour has
    passed. The cache is shared: [CacheRead] and [CacheWrite] are its accesses.

    The window that a cache hit yields shares its days and their maps with the
    cached one, so what [Window.Observe] changes in place is visible in the
    cache at once, also when the write to the lease fails afterwards.
    [shared_view] is the cached window after the call. *)

From S2P Require Export WindowCodec LeaseLocker.
From stdpp Require Export sorting base option gmap strings list fin_maps.

Open Scope Z_scope.
Open Scope prog_scope.

Section observer.
Context {KQ : KubeQuantity} {KS : KubeSchema} {GR : GoRange} {RP : RetryPolicy}.

(* go: internal/controller/observation.go 14-17 observationHeartbeat *)
Definition observationHeartbeat : Z := Time.Hour.

Definition set_days (w : Window) (days : list DayBucket) : Window :=
  {| Version := Version w; UID := UID w; LastSampleAt := LastSampleAt w;
     LastWriteAt := LastWriteAt w; Days := days |}.

Definition set_peaks (b : DayBucket) (peaks : option (gmap string string)) : DayBucket :=
  {| Date := Date b; Window.N := Window.N b; First := First b; Last := Last b; MaxGap := MaxGap b; Peaks := peaks |}.

(** What the holder of [w] sees after [Observe] on a copy of it gave [w']. A
    reset leaves it alone. Without pruning both have the same array, of which
    the holder sees its own length. Pruning copies the buckets, and only the
    map of today's bucket is still shared. *)
(* go: internal/sizing/window.go 109-166 Observe *)
Definition shared_view (w w' : Window) (now : Z) (uid : string) (windowDays : Z) : Window :=
  if negb (String.eqb (UID w) "") && negb (String.eqb (UID w) uid) then w
  else if negb (prune w now windowDays).2 then set_days w (take (length (Days w)) (Days w'))
  else
    let today := Time.FormatDate now in
    match indexOf (Days w) today, indexOf (Days w') today with
    | Some i, Some j =>
        match Days w !! i, Days w' !! j with
        | Some b, Some b' =>
            match Peaks b with
            | Some _ =>
                if decide (in_window now windowDays b)
                then set_days w (<[i := set_peaks b (Peaks b')]> (Days w)) else w
            | None => w
            end
        | _, _ => w
        end
    | _, _ => w
    end.

(* go: internal/controller/observation.go 112-121 heartbeatElapsed *)
Definition heartbeatElapsed (window : Window) (now : Z) : bool :=
  if String.eqb (LastWriteAt window) "" then true
  else match Time.ParseRFC3339 (LastWriteAt window) with
       | None => true
       | Some last => observationHeartbeat <=? Time.Sub now last
       end.

(* go: internal/controller/observation.go 64-64 Observe *)
Definition cache_key (namespace name : string) : string := namespace +:+ "/" +:+ name.

(** The callback of [MutateState]. *)
(* go: internal/controller/observation.go 88-90 Observe *)
Definition set_window (encoded : string) (s : State) : State :=
  {| PRID := PRID s; PRDirection := PRDirection s; LastModified := LastModified s;
     LastGrow := LeaseState.LastGrow s; LastShrink := LeaseState.LastShrink s; StWindow := encoded |}.

(** The end of [Observe]: the window goes into the cache. *)
(* go: internal/controller/observation.go 96-101 Observe *)
Definition store_window (key : string) (window : Window) : prog call (go_result error Window) :=
  call_ (CacheWrite key window) ⨟ Ret (Ok window).

(* go: internal/controller/observation.go 79-101 Observe *)
Definition observe_window (quota : ResourceQuota) (windowDays : Z) (key : string) (cached : bool)
    (window : Window) : prog call (go_result error Window) :=
  now ⇐ call_ TimeNow;
  let '(window', changed) := Window.Observe window now (QuotaUID quota) (StatusUsed quota) windowDays in
  (if cached
   then call_ (CacheWrite key (shared_view window window' now (QuotaUID quota) windowDays))
   else Ret tt) ⨟
  if changed || heartbeatElapsed window' now then
    let window' := {| Version := Version window'; UID := UID window';
      LastSampleAt := LastSampleAt window'; LastWriteAt := Time.FormatRFC3339 now;
      Days := Days window' |} in
    match EncodeWindow true window' with
    | Err text => Ret (Err (Errorf text))
    | Ok encoded =>
        err ⇐ MutateState (QuotaNamespace quota) (QuotaName quota) (λ s, Ret (set_window encoded s));
        match err with
        | Some e => Ret (Err e)
        | None => store_window key window'
        end
    end
  else store_window key window'.

(* go: internal/controller/observation.go 54-102 Observe *)
Definition Observe (quota : ResourceQuota) (windowDays : Z) : prog call (go_result error Window) :=
  let key := cache_key (QuotaNamespace quota) (QuotaName quota) in
  hit ⇐ call_ (CacheRead key);
  match hit with
  | Some window => observe_window quota windowDays key true window
  | None =>
      r ⇐ GetState (QuotaNamespace quota) (QuotaName quota);
      match r with
      | Err e => Ret (Err e)
      | Ok state => observe_window quota windowDays key false (DecodeWindow (StWindow state))
      end
  end.

(* go: internal/controller/observation.go 104-110 Forget *)
Definition Forget (namespace name : string) : prog call unit :=
  call_ (CacheDelete (cache_key namespace name)).

End observer.
