(* ===== verification/ObserverFacts.v ===== *)
(** * The observer never loses a window

    The windows in the cache and on the leases are in the shape that survives
    being written and read, and an observation that succeeds has either written
    the lease or is less than an hour ahead of it. *)

From S2P Require Export Observer WindowDecode LeaseStateFacts LockerFacts.
From stdpp Require Export sorting base option gmap strings list fin_maps.

Open Scope Z_scope.
Open Scope prog_scope.

Section observer.
Context {KQ : KubeQuantity} {KS : KubeSchema} {GR : GoRange} {RP : RetryPolicy}.

(** A window in the current version that can be written and read back. *)
Definition persistent (w : Window) : Prop := Version w = WindowVersion ∧ encodable w.

Lemma as_current_persistent w : persistent w → as_current w = w.
Proof. intros [Hv _]. destruct w. unfold as_current. simpl in *. by subst. Qed.

Lemma Observe_version w now uid used wd : Version (Window.Observe w now uid used wd).1 = WindowVersion.
Proof. by rewrite Observe_eq. Qed.

Lemma Observe_persistent w now uid used wd :
  encodable w → text_ok uid → sample_ok used → persistent (Window.Observe w now uid used wd).1.
Proof. intros Hw Hu Hs. split; [apply Observe_version|by apply Observe_encodable]. Qed.

Definition stamped (now : Z) (w : Window) : Window :=
  {| Version := Version w; UID := UID w; LastSampleAt := LastSampleAt w;
     LastWriteAt := Time.FormatRFC3339 now; Days := Days w |}.

Lemma stamped_persistent now w : persistent w → persistent (stamped now w).
Proof.
  intros [Hv (H1 & H2 & _ & H4)]. split; [done|]. split; [done|]. split; [done|]. split; [|done].
  apply ascii_valid, ascii_FormatRFC3339.
Qed.

(** ** A window on a lease *)

Lemma StWindow_set st lease text :
  StWindow (stateFromLease (applyStateToLease (set_window text st) lease)) = text.
Proof. apply get_setString. Qed.

(** A window written to a lease is read from it unchanged, whatever else the
    state and the lease hold. *)
Lemma lease_keeps_window w st lease :
  persistent w →
  ∃ raw, EncodeWindow true w = Ok raw ∧
    DecodeWindow (StWindow (stateFromLease (applyStateToLease (set_window raw st) lease))) = w.
Proof.
  intros Hw. destruct (window_reads_back true w (proj2 Hw)) as (raw & Hr & Hd). exists raw. split; [done|].
  by rewrite StWindow_set, Hd, as_current_persistent.
Qed.

(** The windows of the program: read from a lease, or made from one by samples
    and by stamping the time of a write. *)
Inductive observed : Window → Prop :=
| observed_decoded raw : observed (DecodeWindow raw)
| observed_sample w now uid used wd :
    observed w → text_ok uid → sample_ok used → observed (Window.Observe w now uid used wd).1
| observed_stamped w now : observed w → observed (stamped now w).

Lemma observed_persistent w : observed w → persistent w.
Proof.
  induction 1 as [raw|w now uid used wd _ [_ IH] Hu Hs|w now _ IH].
  - apply DecodeWindow_wellformed.
  - by apply Observe_persistent.
  - by apply stamped_persistent.
Qed.

(** C26. However a window came about, it survives its lease: written next to any state
    on any lease, the observation history reads back exactly as it was. *)
Theorem observed_window_survives w st lease :
  observed w →
  ∃ raw, EncodeWindow true w = Ok raw ∧
    DecodeWindow (StWindow (stateFromLease (applyStateToLease (set_window raw st) lease))) = w.
Proof. intros Hw. by apply lease_keeps_window, observed_persistent. Qed.

(** ** The view that the cache shares *)

Lemma set_days_persistent w days :
  persistent w → Forall bucket_ok days → NoDup (Date <$> days) → persistent (set_days w days).
Proof.
  intros [Hv (H1 & H2 & H3 & _ & _)] Hd Hn. split; [done|].
  split; [done|]. split; [done|]. split; [done|]. split; [done|]. by apply hasDuplicateDates_spec.
Qed.

Lemma encodable_days w : encodable w → Forall bucket_ok (Days w) ∧ NoDup (Date <$> Days w).
Proof. intros (_ & _ & _ & Hd & Hn). split; [done|by apply hasDuplicateDates_spec]. Qed.

Lemma set_peaks_ok b b' : bucket_ok b → bucket_ok b' → bucket_ok (set_peaks b (Peaks b')).
Proof. intros (? & ? & ? & ? & ? & _) (_ & _ & _ & _ & _ & ?). repeat (split; [done|]). done. Qed.

Lemma dates_insert (days : list DayBucket) (i : nat) b b' : days !! i = Some b → Date b' = Date b → Date <$> <[i := b']> days = Date <$> days.
Proof.
  intros Hi Hd. rewrite list_fmap_insert, Hd. apply list_insert_id. by rewrite list_lookup_fmap, Hi.
Qed.

Lemma shared_view_persistent w w' now uid wd :
  persistent w → encodable w' → persistent (shared_view w w' now uid wd).
Proof.
  intros Hw Hw'. destruct (encodable_days w (proj2 Hw)) as [Hd Hn], (encodable_days w' Hw') as [Hd' Hn'].
  unfold shared_view. destruct (negb (String.eqb (UID w) "") && _); [done|].
  destruct (negb (prune w now wd).2).
  - apply set_days_persistent; [done|by apply Forall_take|].
    eapply sublist_NoDup; [exact Hn'|]. apply fmap_sublist, sublist_take.
  - destruct (indexOf (Days w) (Time.FormatDate now)) as [i|], (indexOf (Days w') (Time.FormatDate now)) as [j|]; try done.
    destruct (Days w !! i) as [b|] eqn:Ei, (Days w' !! j) as [b'|] eqn:Ej; try done.
    destruct (Peaks b) eqn:Ep; [|done]. destruct (decide _); [|done].
    apply set_days_persistent; [done| |].
    + apply Forall_insert; [done|]. apply set_peaks_ok.
      * rewrite Forall_lookup in Hd. by apply (Hd i).
      * rewrite Forall_lookup in Hd'. by apply (Hd' j).
    + by rewrite (dates_insert _ _ b).
Qed.

(** ** The observer's calls *)

Section run.
Context (quota : ResourceQuota) (wd : Z).

Local Abbreviation key := (cache_key (QuotaNamespace quota) (QuotaName quota)).
Local Abbreviation lease_name := (getLeaseName (QuotaNamespace quota) (QuotaName quota)).

(** What the cache gave is persistent. *)
Definition cache_read_ok (past : list (event call)) : Prop :=
  ∀ k w, saw past (CacheRead k) (Some w) → persistent w.

(** The window that the observation started from: the cached one, or the one on
    the lease. *)
Definition started (past : list (event call)) (w0 : Window) : Prop :=
  saw past (CacheRead key) (Some w0) ∨
  (saw past (CacheRead key) None ∧
   ((∃ lease, saw past (GetLease lease_name) (Ok lease) ∧ w0 = DecodeWindow (StWindow (stateFromLease lease))) ∨
    (∃ e, saw past (GetLease lease_name) (Err e) ∧ is_kind ErrNotFound e = true ∧ w0 = DecodeWindow ""))).

(** The server has confirmed the quota's lease with this very window, which
    carries the time at which that was about to be done. *)
Definition confirmed (past : list (event call)) (w : Window) : Prop :=
  ∃ now lease st, saw past TimeNow now ∧ LastWriteAt w = Time.FormatRFC3339 now ∧
    saw past (GetLease lease_name) (Ok lease) ∧ saw past (UpdateLease (applyStateToLease st lease)) None ∧
    DecodeWindow (StWindow (stateFromLease (applyStateToLease st lease))) = w.

(** The sample changed nothing that matters, and the write that the window already
    carried the time of is less than an hour ago. *)
Definition recent (past : list (event call)) (w : Window) : Prop :=
  ∃ w0 now last, started past w0 ∧ saw past TimeNow now ∧
    (w, false) = Window.Observe w0 now (QuotaUID quota) (StatusUsed quota) wd ∧
    LastWriteAt w = LastWriteAt w0 ∧ Time.ParseRFC3339 (LastWriteAt w0) = Some last ∧
    Time.Sub now last < Time.Hour.

Definition durable (past : list (event call)) (w : Window) : Prop := confirmed past w ∨ recent past w.

(** The time of the last write is the one that the observation started from, or
    that of a confirmed write of this window. *)
Definition stamp_ok (past : list (event call)) (w : Window) : Prop :=
  (∃ w0, started past w0 ∧ LastWriteAt w = LastWriteAt w0) ∨ confirmed past w.

Definition cache_guard (past : list (event call)) (R : Type) (e : call R) : Prop :=
  match e with
  | CacheWrite k w => k = key ∧ (cache_read_ok past → persistent w ∧ stamp_ok past w)
  | _ => True
  end.

Definition observed_ok (past : list (event call)) (r : go_result error Window) : Prop :=
  match r with
  | Err _ => True
  | Ok w => cache_read_ok past → persistent w ∧ saw past (CacheWrite key w) tt ∧ durable past w
  end.

Lemma started_mono past past' w : past `prefix_of` past' → started past w → started past' w.
Proof.
  intros Hp [H|(H & [(l & Hl & Hw)|(e & He & Hk & Hw)])]; [left; by eapply saw_mono| |];
    (right; split; [by eapply saw_mono|]).
  - left. exists l. split; [by eapply saw_mono|done].
  - right. exists e. split; [by eapply saw_mono|done].
Qed.

Lemma durable_mono past past' w : past `prefix_of` past' → durable past w → durable past' w.
Proof.
  intros Hp [(now & l & st & Hn & Ht & Hg & Hl & Hd)|(w0 & now & last & Hs & Hn & Hr)].
  - left. exists now, l, st. split_and!; try done; by eapply saw_mono.
  - right. exists w0, now, last. split; [by eapply started_mono|]. split; [by eapply saw_mono|done].
Qed.

Lemma durable_stamp past w : durable past w → stamp_ok past w.
Proof. intros [H|(w0 & now & last & Hs & _ & _ & Hl & _)]; [by right|]. left. by exists w0. Qed.

Lemma cache_read_ok_mono past past' : past `prefix_of` past' → cache_read_ok past' → cache_read_ok past.
Proof. intros Hp H k w Hs. apply (H k). by eapply saw_mono. Qed.

Lemma guarded_store past w :
  (cache_read_ok past → persistent w ∧ durable past w) →
  guarded cache_guard observed_ok (store_window key w) past.
Proof.
  intros Hw. unfold store_window. apply guarded_call.
  - split; [done|]. intros Hc. destruct (Hw Hc). split; [done|by apply durable_stamp].
  - intros []. intros Hc. destruct Hw as [Hw Hd]; [eapply cache_read_ok_mono; [|exact Hc]; by apply prefix_app_r|].
    split; [done|]. split; [apply saw_last|]. eapply durable_mono; [|exact Hd]. by apply prefix_app_r.
Qed.

Lemma shared_view_stamp w w' now uid : LastWriteAt (shared_view w w' now uid wd) = LastWriteAt w.
Proof.
  unfold shared_view. repeat match goal with |- context [match ?x with _ => _ end] => destruct x end; done.
Qed.

(** A window that a sample keeps the time of was not reset. *)
Lemma Observe_stamp w0 now uid used last :
  Time.ParseRFC3339 (LastWriteAt (Window.Observe w0 now uid used wd).1) = Some last →
  LastWriteAt (Window.Observe w0 now uid used wd).1 = LastWriteAt w0.
Proof.
  rewrite Observe_eq. cbn [fst LastWriteAt]. unfold reset. by destruct (_ && _).
Qed.

Context (Huid : text_ok (QuotaUID quota)) (Hused : sample_ok (StatusUsed quota)).

Lemma guarded_observe_window cached window past :
  (cache_read_ok past → persistent window) → started past window →
  guarded cache_guard observed_ok (observe_window quota wd key cached window) past.
Proof.
  intros Hw Hst0. unfold observe_window. apply guarded_call; [done|]. intros now.
  pose proof (Observe_stamp window now (QuotaUID quota) (StatusUsed quota)) as Hkeep.
  pose proof (Observe_persistent window now (QuotaUID quota) (StatusUsed quota) wd) as Hp.
  destruct (Window.Observe window now _ _ wd) as [w changed] eqn:Eo. simpl in Hp, Hkeep.
  set (past1 := past ++ [Event Z TimeNow now]).
  assert (Hw1 : cache_read_ok past1 → persistent w).
  { intros Hc. apply Hp; [|done|done]. apply Hw. eapply cache_read_ok_mono; [|exact Hc]. by apply prefix_app_r. }
  apply guarded_bind.
  assert (Hrest : ∀ past2, past1 `prefix_of` past2 → guarded cache_guard observed_ok
    (if changed || heartbeatElapsed w now then
       match EncodeWindow true (stamped now w) with
       | Ok encoded =>
           err ⇐ MutateState (QuotaNamespace quota) (QuotaName quota) (λ s, Ret (set_window encoded s));
           match err with None => store_window key (stamped now w) | Some e => Ret (Err e) end
       | Err text => Ret (Err (Errorf text))
       end
     else store_window key w) past2).
  { intros past2 Hp2. assert (Hw2 : cache_read_ok past2 → persistent w).
    { intros Hc. apply Hw1. by eapply cache_read_ok_mono. }
    destruct (changed || heartbeatElapsed w now) eqn:Eh.
    - destruct (EncodeWindow true (stamped now w)) as [encoded|text] eqn:Ee; [|done].
      apply guarded_bind. eapply guarded_weaken; [by apply guarded_MutateState_function|].
      intros past3 [e|] _ [Hp3 Hwr]; [done|]. apply guarded_store. intros Hc.
      assert (Hst : persistent (stamped now w)).
      { apply stamped_persistent, Hw2. by eapply cache_read_ok_mono. }
      split; [done|]. left. destruct (Hwr eq_refl) as (l & st' & Hg & -> & Hl). eexists now, l, _.
      split; [eapply saw_mono; [|apply saw_last]; by etransitivity|]. do 2 (split; [done|]). split; [exact Hl|].
      destruct (lease_keeps_window _ (stateFromLease l) l Hst) as (raw & Hr & Hd).
      rewrite Ee in Hr. by injection Hr as <-.
    - apply guarded_store. intros Hc. split; [by apply Hw2|]. right.
      apply orb_false_iff in Eh as [-> Eh]. unfold heartbeatElapsed in Eh.
      destruct (String.eqb _ ""); [done|]. destruct (Time.ParseRFC3339 (LastWriteAt w)) as [last|] eqn:El; [|done].
      exists window, now, last. split; [eapply started_mono; [exact Hp2|]; eapply started_mono; [|exact Hst0]; by apply prefix_app_r|].
      split; [eapply saw_mono; [exact Hp2|apply saw_last]|]. split; [done|].
      pose proof (Hkeep last eq_refl) as Hk. split; [done|]. rewrite <- Hk. split; [exact El|by apply Z.leb_gt]. }
  destruct cached; [|by apply Hrest]. apply guarded_call.
  - split; [done|]. intros Hc. split.
    + apply shared_view_persistent; [|by apply Hw1].
      apply Hw. eapply cache_read_ok_mono; [|exact Hc]. by apply prefix_app_r.
    + left. exists window. split; [|apply shared_view_stamp]. eapply started_mono; [|exact Hst0]. by apply prefix_app_r.
  - intros []. apply Hrest. by apply prefix_app_r.
Qed.

Lemma guarded_Observe_cache : guarded cache_guard observed_ok (Observer.Observe quota wd) [].
Proof.
  unfold Observer.Observe. apply guarded_call; [done|]. intros [w|].
  - apply guarded_observe_window; [intros Hc; apply (Hc key)|left]; apply saw_last.
  - apply guarded_bind. unfold GetState. apply guarded_call; [done|].
    assert (Hmiss : ∀ ev, saw ([Event _ (CacheRead key) None] ++ [ev]) (CacheRead key) None).
    { intros ev. apply elem_of_app. left. apply list_elem_of_here. }
    intros [lease|e]; [|destruct (is_kind ErrNotFound e) eqn:Ek; [|done]].
    + apply guarded_observe_window; [intros _; apply DecodeWindow_wellformed|].
      right. split; [apply Hmiss|]. left. exists lease. split; [apply saw_last|done].
    + apply (guarded_observe_window false (DecodeWindow "")); [intros _; apply DecodeWindow_wellformed|].
      right. split; [apply Hmiss|]. right. exists e. split; [apply saw_last|done].
Qed.

End run.


End observer.

(** ** Examples *)

Module ObserverDemo.

#[local] Existing Instances nano_quantity range_ascending.
Definition schema : KubeSchema := {| GroupVersion := string; ParseGroupVersion s := Some s |}.
Definition retries : RetryPolicy := {| retry_more := 4 |}.
#[local] Existing Instances schema retries.

Definition used (n : Z) : gmap string Quantity := {[ "requests.cpu" := NewQuantity n DecimalSI ]}.

Definition quota : ResourceQuota := {|
  QuotaNamespace := "team"; QuotaName := "compute"; QuotaUID := "u1";
  SpecHard := used 4; StatusHard := used 4; StatusUsed := used 3
|}.


Definition noon : Z := 63889214400 * Time.Second.

(** The window after a sample of two cores that was written at once. *)
Definition cached : Window := stamped noon (Window.Observe empty_window noon "u1" (used 2) 7).1.

(** When the write of a risen peak fails, the risen peak is in the cache all the
    same, so that the next sample sees no change and writes nothing until the
    heartbeat. *)
Theorem failed_write_is_forgotten :
  let later := noon + 5 * Time.Minute in
  let '(window, changed) := Window.Observe cached later "u1" (used 3) 7 in
  let kept := shared_view cached window later "u1" 7 in
  let next := later + 5 * Time.Minute in
  let '(window', changed') := Window.Observe kept next "u1" (used 3) 7 in
  changed = true ∧ changed' = false ∧ heartbeatElapsed window' next = false.
Proof. vm_compute. by split_and!. Qed.

Definition some_lease : Lease := {|
  LeaseName := "state-team-compute"; LeaseLabels := ∅; LeaseAnnotations := ∅; HolderIdentity := None;
  AcquireTime := None; ResourceVersion := ""
|}.

Lemma observed_window_survives_witness :
  observed cached ∧
  ∃ raw, EncodeWindow true cached = Ok raw ∧
    DecodeWindow (StWindow (stateFromLease (applyStateToLease (set_window raw zero_state) some_lease))) = cached.
Proof.
  assert (Hc : observed cached).
  { apply observed_stamped, observed_sample; [apply (observed_decoded "")|reflexivity|by apply map_Forall_singleton]. }
  split; [exact Hc|]. exact (observed_window_survives cached zero_state some_lease Hc).
Defined.

End ObserverDemo.
