(* ===== verification/Reconcile.v ===== *)
(** * internal/controller/resourcequota_controller.go: the reconciler

    [Reconcile] reads the quota and its namespace, lets the observer take a
    sample, decides, and then either looks after the open pull request that the
    lease records or opens a new one. A reconciler is the base policy and the
    flag for automatic merging; the client, the provider, the locker and the
    observer are the calls. Log lines are left out; the fetch of the namespace
    yields its annotations. *)

From S2P Require Export Config Metrics Events Observer.
From stdpp Require Export sorting base option gmap strings list fin_maps.

Open Scope Z_scope.
Open Scope prog_scope.

(** [ctrl.Result]. *)
Record Result := { Requeue : bool; RequeueAfter : Z }.

Definition done_result : Result := {| Requeue := false; RequeueAfter := 0 |}.
Definition requeue_now : Result := {| Requeue := true; RequeueAfter := 0 |}.
Definition requeue_after (d : Z) : Result := {| Requeue := false; RequeueAfter := d |}.

Section reconcile.
Context {KQ : KubeQuantity} {KS : KubeSchema} {GR : GoRange} {RP : RetryPolicy}.

(** ** Assignments of the callbacks of MutateState *)

Definition set_pr (id : Z) (direction : string) (s : State) : State :=
  {| PRID := id; PRDirection := direction; LastModified := LastModified s;
     LastGrow := LeaseState.LastGrow s; LastShrink := LeaseState.LastShrink s; StWindow := StWindow s |}.
Definition stamp_modified (t : Z) (s : State) : State :=
  {| PRID := PRID s; PRDirection := PRDirection s; LastModified := t;
     LastGrow := LeaseState.LastGrow s; LastShrink := LeaseState.LastShrink s; StWindow := StWindow s |}.
Definition stamp_grow (t : Z) (s : State) : State :=
  {| PRID := PRID s; PRDirection := PRDirection s; LastModified := LastModified s;
     LastGrow := t; LastShrink := LeaseState.LastShrink s; StWindow := StWindow s |}.
Definition stamp_shrink (t : Z) (s : State) : State :=
  {| PRID := PRID s; PRDirection := PRDirection s; LastModified := LastModified s;
     LastGrow := LeaseState.LastGrow s; LastShrink := t; StWindow := StWindow s |}.

(** The pull request was merged or closed. *)
(* go: internal/controller/resourcequota_controller.go 191-214 handleActivePR *)
Definition release_pr (status : PRStatus) (now : Z) (s : State) : State :=
  let wasShrink := String.eqb (PRDirection s) dirShrink in
  let s := set_pr 0 "" s in
  if negb (IsMerged status) then (if wasShrink then stamp_shrink now s else s)
  else
    let s := stamp_modified now s in
    if wasShrink then stamp_shrink now s else stamp_grow now s.

(** The shrink pull request was closed by the controller. *)
(* go: internal/controller/resourcequota_controller.go 235-239 handleActivePR *)
Definition expire_pr (now : Z) (s : State) : State := stamp_shrink now (set_pr 0 "" s).

(** The pull request was merged by the controller. *)
(* go: internal/controller/resourcequota_controller.go 282-287 handleActivePR *)
Definition merged_pr (now : Z) (s : State) : State := stamp_grow now (stamp_modified now (set_pr 0 "" s)).

(** A new pull request; the callback reads the clock. *)
(* go: internal/controller/resourcequota_controller.go 465-473 handleNewProposal *)
Definition record_pr (newPRID : Z) (d : Direction) (s : State) : prog call State :=
  let s := set_pr newPRID (direction_string d) s in
  now ⇐ call_ TimeNow;
  Ret (match d with DirectionShrink => stamp_shrink now s | _ => stamp_grow now s end).

(** ** The open pull request *)

(* go: internal/controller/resourcequota_controller.go 353-364 formatDays *)
Definition formatDays (d : Z) : string :=
  let days := Z.quot d (24 * Time.Hour) in
  if days =? 1 then "1 day" else Str.Itoa days +:+ " days".

Definition nl : string := Str.bytes [10]%N.

(** [None] is [false]: the pull request stays open. [time.Since] reads the clock
    only when the creation time is known. *)
(* go: internal/controller/resourcequota_controller.go 331-351 shrinkPRShouldClose *)
Definition shrinkPRShouldClose (policy : Policy) (status : PRStatus) (d : Decide.Decision)
    : prog call (option string) :=
  match DDirection d with
  | DirectionGrow =>
      Ret (Some ("Superseded: a shortage was detected and the quota has to grow instead." +:+ nl +:+ nl +:+
                 Reason d))
  | _ =>
      if Time.IsZero (CreatedAt status) then Ret None
      else
        now ⇐ call_ TimeNow;
        if ShrinkPRTTL policy <? Time.Sub now (CreatedAt status) then
          Ret (Some ("Closing automatically: this shrink proposal has been open for " +:+
            formatDays (ShrinkPRTTL policy) +:+ " without review. A fresh proposal will be opened once " +:+
            "the cooldown expires."))
        else Ret None
  end.

(* go: internal/controller/resourcequota_controller.go 255-258 handleActivePR *)
Definition should_auto_merge (EnableAutoMerge : bool) (annotations : gmap string string) (state : State)
    : bool :=
  match annotations !! AnnotationAutoMerge with
  | Some val => if String.eqb val "false" then false
                else EnableAutoMerge && negb (String.eqb (PRDirection state) dirShrink)
  | None => EnableAutoMerge && negb (String.eqb (PRDirection state) dirShrink)
  end.

(* go: internal/controller/resourcequota_controller.go 266-268 handleActivePR *)
Definition can_attempt_merge (status : PRStatus) : bool :=
  Mergeable status &&
  (String.eqb (MergeableState status) MergeableStateClean ||
   (String.eqb (MergeableState status) MergeableStateBlocked &&
    (String.eqb (ChecksState status) ChecksStateSuccess || (ChecksTotalCount status =? 0)))).

(** Rewriting the pull request when the decision is to grow. *)
(* go: internal/controller/resourcequota_controller.go 304-329 handleActivePR *)
Definition update_pr (ns quotaName : string) (annotations : gmap string string) (prID : Z)
    (d : Decide.Decision) : prog call (go_result error Result) :=
  match DDirection d with
  | DirectionGrow =>
      err ⇐ call_ (UpdatePR prID quotaName ns annotations (Targets d));
      match err with
      | Some e =>
          if is_kind ErrFileNotFound e then Ret (Ok (requeue_after (1 * Time.Minute))) else Ret (Err e)
      | None => Ret (Ok (requeue_after (5 * Time.Minute)))
      end
  | _ => Ret (Ok (requeue_after (5 * Time.Minute)))
  end.

(** Automatic merging; otherwise, or when the merge fails, [update_pr]. *)
(* go: internal/controller/resourcequota_controller.go 248-329 handleActivePR *)
Definition merge_or_update (EnableAutoMerge : bool) (ns quotaName : string)
    (annotations : gmap string string) (state : State) (status : PRStatus) (d : Decide.Decision)
    : prog call (go_result error Result) :=
  let prID := PRID state in
  if should_auto_merge EnableAutoMerge annotations state then
    if Str.lowers_to (MergeableState status) "unknown" then Ret (Ok (requeue_after (15 * Time.Second)))
    else if can_attempt_merge status then
      err ⇐ call_ (MergePR prID "squash");
      match err with
      | Some _ => update_pr ns quotaName annotations prID d
      | None =>
          now ⇐ call_ TimeNow;
          err ⇐ MutateState ns quotaName (λ s, Ret (merged_pr now s));
          match err with
          | Some e => Ret (Err e)
          | None => Ret (Ok requeue_now)
          end
      end
    else update_pr ns quotaName annotations prID d
  else update_pr ns quotaName annotations prID d.

(* go: internal/controller/resourcequota_controller.go 174-329 handleActivePR *)
Definition handleActivePR (EnableAutoMerge : bool) (ns quotaName : string)
    (annotations : gmap string string) (policy : Policy) (state : State) (d : Decide.Decision)
    : prog call (go_result error Result) :=
  let prID := PRID state in
  r ⇐ call_ (GetPRStatus prID);
  match r with
  | Err e => Ret (Err e)
  | Ok None => _ ⇐ call_ Panic; Ret (Ok done_result)
  | Ok (Some status) =>
      if negb (IsOpen status) then
        now ⇐ call_ TimeNow;
        err ⇐ MutateState ns quotaName (λ s, Ret (release_pr status now s));
        match err with
        | Some e => Ret (Err e)
        | None => Ret (Ok requeue_now)
        end
      else
        expire ⇐ (if String.eqb (PRDirection state) dirShrink
                  then shrinkPRShouldClose policy status d else Ret None);
        match expire with
        | Some reason =>
            err ⇐ call_ (ClosePR prID reason);
            match err with
            | Some e => Ret (Err e)
            | None =>
                now ⇐ call_ TimeNow;
                err ⇐ MutateState ns quotaName (λ s, Ret (expire_pr now s));
                match err with
                | Some e => Ret (Err e)
                | None => Ret (Ok requeue_now)
                end
            end
        | None => merge_or_update EnableAutoMerge ns quotaName annotations state status d
        end
  end.

(** ** A new proposal *)

(* go: internal/controller/resourcequota_controller.go 404-416 handleNewProposal *)
Definition is_noop (quota : ResourceQuota) (recommendations : gmap string Quantity) : bool :=
  forallb (λ kv, match SpecHard quota !! kv.1 with
                 | Some cur => q_eq cur kv.2
                 | None => false
                 end) (range 27 recommendations).

(** The event for one resource. A missing limit prints as the zero quantity. *)
(* go: internal/controller/resourcequota_controller.go 439-449 handleNewProposal *)
Definition recommend (quota : ResourceQuota) (d : Direction) (_ : unit) (kv : string * Quantity)
    : prog call unit :=
  let '(res, newLimit) := kv in
  let '(verb, eventType) := match d with
                            | DirectionShrink => ("Decrease", Core.EventTypeNormal)
                            | _ => ("Increase", Core.EventTypeWarning)
                            end in
  let currentLimit := default ZeroQuantity (StatusHard quota !! res) in
  call_ (RecordEvent quota eventType "QuotaResizeRecommended"
    ("Recommendation: " +:+ verb +:+ " " +:+ res +:+ " from " +:+ QString currentLimit +:+ " to " +:+
     QString newLimit)).

(** Steps 3: recommend, open the pull request and record it. *)
(* go: internal/controller/resourcequota_controller.go 436-480 handleNewProposal *)
Definition open_pr (ns : string) (quota : ResourceQuota) (annotations : gmap string string)
    (d : Decide.Decision) : prog call (go_result error Result) :=
  pfold (recommend quota (DDirection d)) tt (range 28 (Targets d)) ⨟
  r ⇐ call_ (CreatePR (QuotaName quota) ns (direction_string (DDirection d)) annotations (Targets d));
  match r with
  | Err e => if is_kind ErrFileNotFound e then Ret (Ok (requeue_after (1 * Time.Minute))) else Ret (Err e)
  | Ok newPRID =>
      err ⇐ MutateState ns (QuotaName quota) (record_pr newPRID (DDirection d));
      match err with
      | Some e => Ret (Err e)
      | None => Ret (Ok (requeue_after (5 * Time.Minute)))
      end
  end.

(** Step 2: how long a growth still has to wait; [None] is not at all. *)
(* go: internal/controller/resourcequota_controller.go 422-434 handleNewProposal *)
Definition grow_cooldown (policy : Policy) (state : State) (d : Decide.Decision) : prog call (option Z) :=
  match DDirection d with
  | DirectionGrow =>
      if Time.IsZero (LastModified state) then Ret None
      else
        now ⇐ call_ TimeNow;
        let elapsed := Time.Sub now (LastModified state) in
        if elapsed <? GrowCooldown policy then Ret (Some (wrap64 (GrowCooldown policy - elapsed)))
        else Ret None
  | _ => Ret None
  end.

(* go: internal/controller/resourcequota_controller.go 366-480 handleNewProposal *)
Definition handleNewProposal (ns : string) (quota : ResourceQuota) (annotations : gmap string string)
    (policy : Policy) (state : State) (d : Decide.Decision) : prog call (go_result error Result) :=
  r ⇐ call_ (FindOpenPR ns (QuotaName quota));
  match r with
  | Err e => Ret (Err e)
  | Ok (existingPRID, existingDirection) =>
      if negb (existingPRID =? 0) then
        err ⇐ MutateState ns (QuotaName quota) (λ s, Ret (set_pr existingPRID existingDirection s));
        match err with
        | Some e => Ret (Err e)
        | None => Ret (Ok requeue_now)
        end
      else if is_noop quota (Targets d) then Ret (Ok (requeue_after (10 * Time.Minute)))
      else
        wait ⇐ grow_cooldown policy state d;
        match wait with
        | Some remaining => Ret (Ok (requeue_after (wrap64 (remaining + 1 * Time.Second))))
        | None => open_pr ns quota annotations d
        end
  end.

(** ** Reconcile *)

Context {GQ : GoQuote} {GA : GoArch}.

(* go: internal/controller/resourcequota_controller.go 42-52 ResourceQuotaReconciler *)
Record ResourceQuotaReconciler := { BasePolicy : Policy; EnableAutoMerge : bool }.

(** Rejected annotations become events; deprecations are only logged. *)
(* go: internal/controller/resourcequota_controller.go 92-110 Reconcile *)
Definition report_warning (quota : ResourceQuota) (_ : unit) (warning : PolicyWarning) : prog call unit :=
  match Kind warning with
  | WarningRejected => call_ (RecordEvent quota Core.EventTypeWarning "PolicyAnnotationRejected" (Message warning))
  | WarningDeprecated => Ret tt
  end.

(** From the decision on. *)
(* go: internal/controller/resourcequota_controller.go 151-172 Reconcile *)
Definition act_on (r : ResourceQuotaReconciler) (ns : string) (quota : ResourceQuota)
    (annotations : gmap string string) (policy : Policy) (state : State) (deficitScanFailed : bool)
    (d : Decide.Decision) : prog call (go_result error Result) :=
  recordDecision ns (QuotaName quota) (StatusHard quota) d ⨟
  if negb (PRID state =? 0) then
    handleActivePR (EnableAutoMerge r) ns (QuotaName quota) annotations policy state d
  else
    match DDirection d with
    | DirectionNone => Ret (Ok (requeue_after (5 * Time.Minute)))
    | DirectionShrink =>
        if deficitScanFailed then Ret (Ok (requeue_after (5 * Time.Minute)))
        else handleNewProposal ns quota annotations policy state d
    | DirectionGrow => handleNewProposal ns quota annotations policy state d
    end.

(** From the observation on. A failed event scan counts as no deficits. *)
(* go: internal/controller/resourcequota_controller.go 116-172 Reconcile *)
Definition observe_and_act (r : ResourceQuotaReconciler) (ns : string) (quota : ResourceQuota)
    (annotations : gmap string string) (policy : Policy) : prog call (go_result error Result) :=
  w ⇐ Observer.Observe quota (WindowDays policy);
  match w with
  | Err e => Ret (Err e)
  | Ok window =>
  st ⇐ GetState ns (QuotaName quota);
  match st with
  | Err e => Ret (Err e)
  | Ok state =>
  scan ⇐ collectDeficits quota (LastModified state);
  now ⇐ call_ TimeNow;
  let deficits := match scan with Ok m => m | Err _ => ∅ end in
  let d := Decide {| Now := now; Hard := StatusHard quota; Used := StatusUsed quota;
    Deficits := deficits; InWindow := window; InPolicy := policy;
    Decide.LastGrow := LeaseState.LastGrow state; Decide.LastShrink := LeaseState.LastShrink state |} in
  act_on r ns quota annotations policy state (negb (is_ok scan)) d
  end end.

(* go: internal/controller/resourcequota_controller.go 63-172 Reconcile *)
Definition Reconcile (r : ResourceQuotaReconciler) (ns name : string) : prog call (go_result error Result) :=
  q ⇐ call_ (GetQuota ns name);
  match q with
  | Err e =>
      if is_kind ErrNotFound e then Forget ns name ⨟ Ret (Ok done_result) else Ret (Err e)
  | Ok quota =>
      n ⇐ call_ (GetNamespace ns);
      match n with
      | Err e => Ret (Err e)
      | Ok annotations =>
          let '(policy, warnings) := ParsePolicy annotations (BasePolicy r) in
          pfold (report_warning quota) tt warnings ⨟
          if negb (Enabled policy) then Ret (Ok done_result)
          else observe_and_act r ns quota annotations policy
      end
  end.

End reconcile.
