(* ===== verification/FakeGit.v ===== *)
(** * internal/controller/fake_git_provider.go

    The provider that the controller's tests put in place of GitHub: it counts
    calls and answers from its fields. Every method takes the provider and
    gives the provider after the call. *)

From S2P Require Export Provider.
From stdpp Require Export sorting base option gmap strings list fin_maps.

Open Scope Z_scope.

Section fake.
Context {KQ : KubeQuantity}.

(* go: internal/controller/fake_git_provider.go 11-39 FakeGitProvider *)
Record FakeGitProvider := {
  FPRStatus : option PRStatus;
  MergedPRID : Z;
  CreatePRID : Z;
  ExistingPR : Z;
  ExistingPRDirection : string;
  CreatePRCalls : Z;
  UpdatePRCalls : Z;
  FindOpenPRCalls : Z;
  ClosePRCalls : Z;
  LastLimits : gmap string Quantity;
  LastDirection : string;
  ClosedPRID : Z;
  ClosedComment : string
}.

(* go: internal/controller/fake_git_provider.go 41-43 GetPRStatus *)
Definition GetPRStatus (f : FakeGitProvider) (prID : Z) : FakeGitProvider * go_result error (option PRStatus) :=
  (f, Ok (FPRStatus f)).

(* go: internal/controller/fake_git_provider.go 45-58 CreatePR *)
Definition CreatePR (f : FakeGitProvider) (quotaName namespace direction : string)
    (annotations : gmap string string) (newLimits : gmap string Quantity)
    : FakeGitProvider * go_result error Z :=
  ({| FPRStatus := FPRStatus f; MergedPRID := MergedPRID f; CreatePRID := CreatePRID f;
      ExistingPR := ExistingPR f; ExistingPRDirection := ExistingPRDirection f;
      CreatePRCalls := wrap64 (CreatePRCalls f + 1); UpdatePRCalls := UpdatePRCalls f;
      FindOpenPRCalls := FindOpenPRCalls f; ClosePRCalls := ClosePRCalls f;
      LastLimits := newLimits; LastDirection := direction;
      ClosedPRID := ClosedPRID f; ClosedComment := ClosedComment f |},
   Ok (if CreatePRID f =? 0 then 1 else CreatePRID f)).

(* go: internal/controller/fake_git_provider.go 60-64 UpdatePR *)
Definition UpdatePR (f : FakeGitProvider) (prID : Z) (quotaName namespace : string)
    (annotations : gmap string string) (newLimits : gmap string Quantity)
    : FakeGitProvider * option error :=
  ({| FPRStatus := FPRStatus f; MergedPRID := MergedPRID f; CreatePRID := CreatePRID f;
      ExistingPR := ExistingPR f; ExistingPRDirection := ExistingPRDirection f;
      CreatePRCalls := CreatePRCalls f; UpdatePRCalls := wrap64 (UpdatePRCalls f + 1);
      FindOpenPRCalls := FindOpenPRCalls f; ClosePRCalls := ClosePRCalls f;
      LastLimits := newLimits; LastDirection := LastDirection f;
      ClosedPRID := ClosedPRID f; ClosedComment := ClosedComment f |}, None).

(* go: internal/controller/fake_git_provider.go 66-69 MergePR *)
Definition MergePR (f : FakeGitProvider) (prID : Z) (method : string) : FakeGitProvider * option error :=
  ({| FPRStatus := FPRStatus f; MergedPRID := prID; CreatePRID := CreatePRID f;
      ExistingPR := ExistingPR f; ExistingPRDirection := ExistingPRDirection f;
      CreatePRCalls := CreatePRCalls f; UpdatePRCalls := UpdatePRCalls f;
      FindOpenPRCalls := FindOpenPRCalls f; ClosePRCalls := ClosePRCalls f;
      LastLimits := LastLimits f; LastDirection := LastDirection f;
      ClosedPRID := ClosedPRID f; ClosedComment := ClosedComment f |}, None).

(* go: internal/controller/fake_git_provider.go 71-81 FindOpenPR *)
Definition FindOpenPR (f : FakeGitProvider) (namespace quotaName : string)
    : FakeGitProvider * go_result error (Z * string) :=
  let direction :=
    if negb (ExistingPR f =? 0) && String.eqb (ExistingPRDirection f) "" then dirGrow
    else ExistingPRDirection f in
  ({| FPRStatus := FPRStatus f; MergedPRID := MergedPRID f; CreatePRID := CreatePRID f;
      ExistingPR := ExistingPR f; ExistingPRDirection := ExistingPRDirection f;
      CreatePRCalls := CreatePRCalls f; UpdatePRCalls := UpdatePRCalls f;
      FindOpenPRCalls := wrap64 (FindOpenPRCalls f + 1); ClosePRCalls := ClosePRCalls f;
      LastLimits := LastLimits f; LastDirection := LastDirection f;
      ClosedPRID := ClosedPRID f; ClosedComment := ClosedComment f |},
   Ok (ExistingPR f, direction)).

(* go: internal/controller/fake_git_provider.go 83-88 ClosePR *)
Definition ClosePR (f : FakeGitProvider) (prID : Z) (comment : string) : FakeGitProvider * option error :=
  ({| FPRStatus := FPRStatus f; MergedPRID := MergedPRID f; CreatePRID := CreatePRID f;
      ExistingPR := ExistingPR f; ExistingPRDirection := ExistingPRDirection f;
      CreatePRCalls := CreatePRCalls f; UpdatePRCalls := UpdatePRCalls f;
      FindOpenPRCalls := FindOpenPRCalls f; ClosePRCalls := wrap64 (ClosePRCalls f + 1);
      LastLimits := LastLimits f; LastDirection := LastDirection f;
      ClosedPRID := prID; ClosedComment := comment |}, None).

End fake.
