(* ===== verification/Main.v ===== *)
(** * cmd/main.go: the configuration

    Which provider the process uses, whether it starts at all, and the base
    policy it hands to the reconciler, from the environment and the flags. The
    manager, its servers and the registration of the controller are calls of
    controller-runtime and are left out. [ParseTemplate] is the parser of
    [text/template] and [new_transport] the constructor of ghinstallation, as
    far as they can fail. *)

From S2P Require Export GitHub Policy.
From stdpp Require Export sorting base option gmap strings list fin_maps.

Open Scope Z_scope.

Section main.
Context {KQ : KubeQuantity} {GR : GoRange}.
Context (ParseTemplate : string → option (string → string → go_result error string)).
Context (new_transport : Z → Z → string → bool).

(** [os.Getenv]: an unset variable reads as the empty string. *)
Definition Getenv (env : gmap string string) (name : string) : string := default "" (env !! name).

(* go: cmd/main.go 56-56 trueStr *)
Definition trueStr : string := "true".

(** A boolean flag: its value on the command line, or the default. *)
(* go: cmd/main.go 94-99 main *)
Definition bool_flag (given : option bool) (env : gmap string string) (name : string) : bool :=
  default (String.eqb (Getenv env name) trueStr) given.

Inductive provider :=
| StatefulLogProvider
| GitHubApp (appID installID : Z) (owner repo : string) (g : GitHubProvider)
| GitHubToken (token owner repo : string) (g : GitHubProvider).

(* go: internal/git/github.go 80-95 NewGitHubProvider *)
Definition NewGitHubProvider (token owner repo cluster pathTmpl : string) : option provider :=
  match ParseTemplate pathTmpl with
  | None => None (* template.Must panics *)
  | Some tmpl => Some (GitHubToken token owner repo {| clusterName := cluster; pathTemplate := tmpl |})
  end.

(* go: internal/git/github.go 97-115 NewGitHubAppProvider *)
Definition NewGitHubAppProvider (appID installationID : Z) (privateKey owner repo cluster pathTmpl : string)
    : option provider :=
  if negb (new_transport appID installationID privateKey) then None
  else match ParseTemplate pathTmpl with
       | None => None
       | Some tmpl => Some (GitHubApp appID installationID owner repo {| clusterName := cluster; pathTemplate := tmpl |})
       end.

(** [strconv.ParseInt] of a variable that may be empty; [None] ends the process. *)
(* go: cmd/main.go 218-234 main *)
Definition parse_id (raw : string) : option Z :=
  if String.eqb raw "" then Some 0 else Str.Atoi raw.

(* go: cmd/main.go 209-211 main *)
Definition default_template : string := "managed-resources/{{ .Cluster }}/{{ .Namespace }}".

(** The provider; [None] ends the process. *)
(* go: cmd/main.go 203-270 main *)
Definition choose_provider (env : gmap string string) : option provider :=
  let githubToken := Getenv env "GITHUB_TOKEN" in
  let githubOwner := Getenv env "GITHUB_OWNER" in
  let githubRepo := Getenv env "GITHUB_REPO" in
  let clusterName := Getenv env "CLUSTER_NAME" in
  let gitPathTemplate := Getenv env "GIT_PATH_TEMPLATE" in
  let gitPathTemplate := if String.eqb gitPathTemplate "" then default_template else gitPathTemplate in
  let githubPrivateKey := Getenv env "GITHUB_PRIVATE_KEY" in
  let dryRun := String.eqb (Getenv env "DRY_RUN") trueStr in
  match parse_id (Getenv env "GITHUB_APP_ID") with
  | None => None
  | Some appID =>
  match parse_id (Getenv env "GITHUB_INSTALLATION_ID") with
  | None => None
  | Some installID =>
      let gitProvider :=
        if dryRun then Some StatefulLogProvider
        else if negb (appID =? 0) && negb (installID =? 0) && negb (String.eqb githubPrivateKey "") then
          NewGitHubAppProvider appID installID githubPrivateKey githubOwner githubRepo clusterName gitPathTemplate
        else if negb (String.eqb githubToken "") then
          NewGitHubProvider githubToken githubOwner githubRepo clusterName gitPathTemplate
        else None in
      match gitProvider with
      | None => None
      | Some p =>
          if (String.eqb githubOwner "" || String.eqb githubRepo "" || String.eqb clusterName "") && negb dryRun
          then None else Some p
      end
  end end.

(* go: cmd/main.go 274-275 main *)
Definition base_policy (enableShrink : bool) : Policy :=
  set_shrink_enabled enableShrink DefaultPolicy.

(** What the reconciler is built with. *)
(* go: cmd/main.go 272-297 main *)
Definition configure (env : gmap string string) (autoMergeFlag shrinkFlag : option bool)
    : option (provider * Policy * bool) :=
  match choose_provider env with
  | None => None
  | Some p =>
      Some (p, base_policy (bool_flag shrinkFlag env "ENABLE_SHRINK"),
            bool_flag autoMergeFlag env "ENABLE_AUTO_MERGE")
  end.

End main.

(** ** What a configured process may do

    A process that starts with a provider that writes knows where to write, and
    a dry run never gets one. *)

Section main.
Context {KQ : KubeQuantity} {GR : GoRange}.
Context (ParseTemplate : string → option (string → string → go_result error string)).
Context (new_transport : Z → Z → string → bool).

(** A provider that writes to the repository [owner]/[repo] for [cluster]. *)
Definition writes_to (p : provider) (owner repo cluster : string) : Prop :=
  match p with
  | StatefulLogProvider => False
  | GitHubApp appID installID o r g =>
      o = owner ∧ r = repo ∧ clusterName g = cluster ∧ appID ≠ 0 ∧ installID ≠ 0
  | GitHubToken token o r g => o = owner ∧ r = repo ∧ clusterName g = cluster ∧ token ≠ ""
  end.

(** If the process starts, it is a dry run with the provider that only logs, or
    it writes to the configured repository, with credentials, and none of owner,
    repository and cluster is empty. Shrinking and automatic merging are on only
    where a flag or, without the flag, its variable says so. *)
Theorem configure_safe env autoMergeFlag shrinkFlag p policy autoMerge :
  configure ParseTemplate new_transport env autoMergeFlag shrinkFlag = Some (p, policy, autoMerge) →
  (if String.eqb (Getenv env "DRY_RUN") trueStr then p = StatefulLogProvider
   else writes_to p (Getenv env "GITHUB_OWNER") (Getenv env "GITHUB_REPO") (Getenv env "CLUSTER_NAME") ∧
     Getenv env "GITHUB_OWNER" ≠ "" ∧ Getenv env "GITHUB_REPO" ≠ "" ∧ Getenv env "CLUSTER_NAME" ≠ "") ∧
  (ShrinkEnabled policy = true →
   shrinkFlag = Some true ∨ shrinkFlag = None ∧ Getenv env "ENABLE_SHRINK" = "true") ∧
  (autoMerge = true →
   autoMergeFlag = Some true ∨ autoMergeFlag = None ∧ Getenv env "ENABLE_AUTO_MERGE" = "true").
Proof.
  assert (Hflag : ∀ given name, bool_flag given env name = true →
    given = Some true ∨ given = None ∧ Getenv env name = "true").
  { intros [[]|] name H; [by left|done|]. right. split; [done|]. by apply String.eqb_eq in H. }
  unfold configure, choose_provider. intros H.
  destruct (parse_id (Getenv env "GITHUB_APP_ID")) as [appID|]; [|done].
  destruct (parse_id (Getenv env "GITHUB_INSTALLATION_ID")) as [installID|]; [|done].
  destruct (String.eqb (Getenv env "DRY_RUN") trueStr).
  { rewrite andb_false_r in H. injection H as <- <- <-. split; [done|]. split; by apply Hflag. }
  rewrite andb_true_r in H.
  set (owner := Getenv env "GITHUB_OWNER") in *. set (repo := Getenv env "GITHUB_REPO") in *.
  set (cluster := Getenv env "CLUSTER_NAME") in *.
  match type of H with
  | match (match ?q with _ => _ end) with _ => _ end = _ => destruct q as [p'|] eqn:Eq; [|done]
  end.
  destruct (String.eqb_spec owner ""), (String.eqb_spec repo ""), (String.eqb_spec cluster ""); simpl in H; try done.
  injection H as <- <- <-. split; [|split; by apply Hflag]. split; [|done].
  destruct (negb (appID =? 0) && negb (installID =? 0) && negb (String.eqb (Getenv env "GITHUB_PRIVATE_KEY") "")) eqn:Ea.
  - unfold NewGitHubAppProvider in Eq. destruct (negb (new_transport _ _ _)); [done|].
    destruct (ParseTemplate _); [|done]. injection Eq as <-. bool_to_prop. done.
  - destruct (String.eqb_spec (Getenv env "GITHUB_TOKEN") ""); [done|]. simpl in Eq.
    unfold NewGitHubProvider in Eq. destruct (ParseTemplate _); [|done]. by injection Eq as <-.
Qed.

End main.

Module MainDemo.

#[local] Existing Instances nano_quantity range_ascending.

Definition template (_ : string) : option (string → string → go_result error string) :=
  Some (λ cluster namespace, Ok ("managed-resources/" +:+ cluster +:+ "/" +:+ namespace)).

Definition env : gmap string string := {[
  "GITHUB_TOKEN" := "t"; "GITHUB_OWNER" := "acme"; "GITHUB_REPO" := "platform"; "CLUSTER_NAME" := "prod" ]}.

Definition prod : provider := GitHubToken "t" "acme" "platform"
  {| clusterName := "prod"; pathTemplate := λ cluster namespace, Ok ("managed-resources/" +:+ cluster +:+ "/" +:+ namespace) |}.

Lemma configure_safe_witness :
  configure template (λ _ _ _, true) env None (Some true) = Some (prod, base_policy true, false) ∧
  writes_to prod "acme" "platform" "prod".
Proof.
  assert (H : configure template (λ _ _ _, true) env None (Some true) = Some (prod, base_policy true, false))
    by reflexivity.
  split; [exact H|].
  exact (proj1 (proj1 (configure_safe template (λ _ _ _, true) env None (Some true) prod (base_policy true) false H))).
Defined.

End MainDemo.
