(* ===== verification/Startup.v ===== *)
(** * cmd/main.go: how the process starts

    [main] as a program over the calls of controller-runtime: the options of the
    manager and of its servers, from the flags, and the steps up to the start of
    the manager, each of which ends the process when it fails. The flags are
    given as package [flag] parses them; a Go struct with options is a record of
    the fields that [main] sets. *)

From S2P Require Export Main Effects.
From stdpp Require Export sorting base option gmap strings list fin_maps.

Open Scope Z_scope.
Open Scope prog_scope.

(** What the command line says; [None] is a flag that is not given. *)
Record GivenFlags := {
  given_metrics_bind_address : option string;
  given_health_probe_bind_address : option string;
  given_leader_elect : option bool;
  given_metrics_secure : option bool;
  given_webhook_cert_path : option string;
  given_webhook_cert_name : option string;
  given_webhook_cert_key : option string;
  given_metrics_cert_path : option string;
  given_metrics_cert_name : option string;
  given_metrics_cert_key : option string;
  given_enable_http2 : option bool;
  given_enable_auto_merge : option bool;
  given_enable_shrink : option bool
}.

(** The variables of the flags after [flag.Parse]. *)
(* go: cmd/main.go 66-74 main *)
Record Flags := {
  metricsAddr : string;
  metricsCertPath : string; metricsCertName : string; metricsCertKey : string;
  webhookCertPath : string; webhookCertName : string; webhookCertKey : string;
  enableLeaderElection : bool;
  probeAddr : string;
  secureMetrics : bool;
  enableHTTP2 : bool;
  enableAutoMerge : bool;
  enableShrink : bool
}.

(* go: cmd/main.go 76-104 main *)
Definition parse_flags (given : GivenFlags) (env : gmap string string) : Flags := {|
  metricsAddr := default "0" (given_metrics_bind_address given);
  probeAddr := default ":8081" (given_health_probe_bind_address given);
  enableLeaderElection := default false (given_leader_elect given);
  secureMetrics := default true (given_metrics_secure given);
  webhookCertPath := default "" (given_webhook_cert_path given);
  webhookCertName := default "tls.crt" (given_webhook_cert_name given);
  webhookCertKey := default "tls.key" (given_webhook_cert_key given);
  metricsCertPath := default "" (given_metrics_cert_path given);
  metricsCertName := default "tls.crt" (given_metrics_cert_name given);
  metricsCertKey := default "tls.key" (given_metrics_cert_key given);
  enableHTTP2 := default false (given_enable_http2 given);
  enableAutoMerge := bool_flag (given_enable_auto_merge given) env "ENABLE_AUTO_MERGE";
  enableShrink := bool_flag (given_enable_shrink given) env "ENABLE_SHRINK"
|}.

(** [tls.Config], as far as [main] changes it: the protocols that a server
    offers; an empty list leaves the choice, HTTP/2 included, to net/http. *)
Record TLSConfig := { NextProtos : list string }.

(* go: cmd/main.go 114-117 main *)
Definition disableHTTP2 (c : TLSConfig) : TLSConfig := {| NextProtos := ["http/1.1"] |}.

(* go: cmd/main.go 119-121 main *)
Definition tlsOpts (f : Flags) : list (TLSConfig → TLSConfig) :=
  if negb (enableHTTP2 f) then [disableHTTP2] else [].

(** [webhook.Options]. *)
Record WebhookOptions := {
  WhTLSOpts : list (TLSConfig → TLSConfig); WhCertDir : string; WhCertName : string; WhKeyName : string
}.

(* go: cmd/main.go 123-138 main *)
Definition webhookServerOptions (f : Flags) : WebhookOptions :=
  if (0 <? String.length (webhookCertPath f))%nat
  then {| WhTLSOpts := tlsOpts f; WhCertDir := webhookCertPath f; WhCertName := webhookCertName f;
          WhKeyName := webhookCertKey f |}
  else {| WhTLSOpts := tlsOpts f; WhCertDir := ""; WhCertName := ""; WhKeyName := "" |}.

(** [metricsserver.Options]; the filter authenticates and authorises requests. *)
Inductive Filter := WithAuthenticationAndAuthorization.
Record MetricsOptions := {
  BindAddress : string; SecureServing : bool; MxTLSOpts : list (TLSConfig → TLSConfig);
  FilterProvider : option Filter; MxCertDir : string; MxCertName : string; MxKeyName : string
}.

(* go: cmd/main.go 144-168 main *)
Definition metricsServerOptions (f : Flags) : MetricsOptions :=
  let own := (0 <? String.length (metricsCertPath f))%nat in {|
    BindAddress := metricsAddr f;
    SecureServing := secureMetrics f;
    MxTLSOpts := tlsOpts f;
    FilterProvider := if secureMetrics f then Some WithAuthenticationAndAuthorization else None;
    MxCertDir := if own then metricsCertPath f else "";
    MxCertName := if own then metricsCertName f else "";
    MxKeyName := if own then metricsCertKey f else ""
  |}.

(* go: internal/lock/lease.go 17-17 ControllerNamespace *)
Definition ControllerNamespace : string := "namespace-resizer-system".

(** [ctrl.Options]; the cache holds the leases of these namespaces only. *)
Record ManagerOptions := {
  Metrics : MetricsOptions; WebhookServer : WebhookOptions; HealthProbeBindAddress : string;
  LeaderElection : bool; LeaderElectionID : string; CachedLeases : list string
}.

(* go: cmd/main.go 170-197 main *)
Definition managerOptions (f : Flags) : ManagerOptions := {|
  Metrics := metricsServerOptions f;
  WebhookServer := webhookServerOptions f;
  HealthProbeBindAddress := probeAddr f;
  LeaderElection := enableLeaderElection f;
  LeaderElectionID := "be3fb48b.resizer.io";
  CachedLeases := [ControllerNamespace]
|}.

Section startup.
Context {KQ : KubeQuantity} {GR : GoRange}.
Context (ParseTemplate : string → option (string → string → go_result error string)).
Context (new_transport : Z → Z → string → bool).

(** The reconciler that [main] builds, with what controller-runtime is told about
    it: the kind it reconciles, its name, and the kind it watches besides. *)
(* go: internal/controller/resourcequota_controller.go 581-588 SetupWithManager *)
Record Controller := {
  GitProvider : provider; CtlPolicy : Policy; CtlAutoMerge : bool;
  For : string; Named : string; Watches : string
}.

(* go: cmd/main.go 286-297 main *)
Definition controller_of (p : provider) (f : Flags) : Controller := {|
  GitProvider := p; CtlPolicy := base_policy (enableShrink f); CtlAutoMerge := enableAutoMerge f;
  For := "ResourceQuota"; Named := "resourcequota"; Watches := "Event"
|}.

(** The calls of controller-runtime. *)
Inductive setup : Type → Type :=
| GetConfig : setup (option error)
| NewManager (options : ManagerOptions) : setup (option error)
| AddCollector (interval : Z) : setup (option error)
| SetupController (c : Controller) : setup (option error)
| AddHealthzCheck (name : string) : setup (option error)
| AddReadyzCheck (name : string) : setup (option error)
| StartManager : setup (option error).

(** How the process ends. *)
Inductive exit := Returned | Died.

(** A step that ends the process when it fails. *)
(* go: cmd/main.go 198-201 main *)
Definition or_die (e : setup (option error)) (rest : prog setup exit) : prog setup exit :=
  err ⇐ call_ e;
  match err with
  | Some _ => Ret Died
  | None => rest
  end.

(* go: cmd/main.go 64-317 main *)
Definition main (given : GivenFlags) (env : gmap string string) : prog setup exit :=
  let f := parse_flags given env in
  or_die GetConfig (
  or_die (NewManager (managerOptions f)) (
  match choose_provider ParseTemplate new_transport env with
  | None => Ret Died
  | Some gitProvider =>
      or_die (AddCollector (12 * Time.Hour)) (
      or_die (SetupController (controller_of gitProvider f)) (
      or_die (AddHealthzCheck "healthz") (
      or_die (AddReadyzCheck "readyz") (
      or_die StartManager (Ret Returned)))))
  end)).

End startup.

(** ** The process starts only as configured

    What must have happened before the manager is started, and what the servers
    of the process are told. *)

Section startup.
Context {KQ : KubeQuantity} {GR : GoRange}.
Context (ParseTemplate : string → option (string → string → go_result error string)).
Context (new_transport : Z → Z → string → bool).
Context (given : GivenFlags) (env : gmap string string).

Local Abbreviation history := (list (event setup)).
Local Abbreviation f := (parse_flags given env).

(** ** What the servers are told *)

(** The configuration of a server after its options were applied. *)
Definition applied_tls (opts : list (TLSConfig → TLSConfig)) (c : TLSConfig) : TLSConfig :=
  foldl (λ c opt, opt c) c opts.

(** Without the flag no server offers HTTP/2, metrics are served with
    authentication exactly when they are served securely, and the cache holds
    the leases of the controller's namespace only. *)
Definition options_safe (o : ManagerOptions) : Prop :=
  (given_enable_http2 given ≠ Some true → ∀ c,
     NextProtos (applied_tls (WhTLSOpts (WebhookServer o)) c) = ["http/1.1"] ∧
     NextProtos (applied_tls (MxTLSOpts (Metrics o)) c) = ["http/1.1"]) ∧
  (is_Some (FilterProvider (Metrics o)) ↔ SecureServing (Metrics o) = true) ∧
  (given_metrics_secure given ≠ Some false → SecureServing (Metrics o) = true) ∧
  CachedLeases o = [ControllerNamespace].

Lemma managerOptions_safe : options_safe (managerOptions f).
Proof.
  unfold options_safe, managerOptions, webhookServerOptions, metricsServerOptions, tlsOpts. simpl.
  split_and!; [|by destruct (given_metrics_secure given) as [[]|]; simpl; split; [|done|done| |done|]; try done; intros []|..].
  - intros Hh c. destruct (given_enable_http2 given) as [[]|]; try done; by destruct (0 <? _)%nat.
  - by destruct (given_metrics_secure given) as [[]|].
  - done.
Qed.

(** ** What the controller is built with *)

(** A provider that writes only where it was told to, and shrinking and automatic
    merging only where a flag, or else a variable, says so. *)
Definition controller_safe (c : Controller) : Prop :=
  (if String.eqb (Getenv env "DRY_RUN") trueStr then GitProvider c = StatefulLogProvider
   else writes_to (GitProvider c) (Getenv env "GITHUB_OWNER") (Getenv env "GITHUB_REPO") (Getenv env "CLUSTER_NAME") ∧
     Getenv env "GITHUB_OWNER" ≠ "" ∧ Getenv env "GITHUB_REPO" ≠ "" ∧ Getenv env "CLUSTER_NAME" ≠ "") ∧
  (ShrinkEnabled (CtlPolicy c) = true →
   given_enable_shrink given = Some true ∨ given_enable_shrink given = None ∧ Getenv env "ENABLE_SHRINK" = "true") ∧
  (CtlAutoMerge c = true →
   given_enable_auto_merge given = Some true ∨
   given_enable_auto_merge given = None ∧ Getenv env "ENABLE_AUTO_MERGE" = "true").

Lemma controller_of_safe p :
  choose_provider ParseTemplate new_transport env = Some p → controller_safe (controller_of p f).
Proof.
  intros Hp. apply (configure_safe ParseTemplate new_transport env (given_enable_auto_merge given)
    (given_enable_shrink given) p). unfold configure. by rewrite Hp.
Qed.

(** ** The order of the steps *)

(** The controller that was set up. *)
Definition set_up (past : history) (c : Controller) : Prop :=
  saw past (SetupController c) None ∧ controller_safe c.

Definition startup_ok (past : history) (R : Type) (e : setup R) : Prop :=
  match e with
  | GetConfig => past = []
  | NewManager o => saw past GetConfig None ∧ options_safe o
  | AddCollector interval => interval = 12 * Time.Hour ∧ ∃ o, saw past (NewManager o) None ∧ options_safe o
  | SetupController c => controller_safe c ∧ saw past (AddCollector (12 * Time.Hour)) None
  | AddHealthzCheck _ => ∃ c, set_up past c
  | AddReadyzCheck _ => saw past (AddHealthzCheck "healthz") None
  | StartManager =>
      (∃ o, saw past (NewManager o) None ∧ options_safe o) ∧ (∃ c, set_up past c) ∧
      saw past (AddCollector (12 * Time.Hour)) None ∧
      saw past (AddHealthzCheck "healthz") None ∧ saw past (AddReadyzCheck "readyz") None
  end.

Lemma saw_add past l {R} (e : setup R) r : saw past e r → saw (past ++ l) e r.
Proof. apply saw_mono. by apply prefix_app_r. Qed.

Ltac sees := repeat first [apply saw_last | apply saw_add].

Lemma guarded_or_die (Q : history → exit → Prop) e rest past :
  startup_ok past _ e → (∀ err, Q (past ++ [Event _ e (Some err)]) Died) →
  guarded startup_ok Q rest (past ++ [Event _ e None]) → guarded startup_ok Q (or_die e rest) past.
Proof. intros He HQ Hrest. unfold or_die. apply guarded_call; [done|]. intros [err|]; [apply HQ|done]. Qed.

Definition startup_end (past : history) (x : exit) : Prop :=
  match x with Returned => saw past StartManager None | Died => True end.

Lemma guarded_main : guarded startup_ok startup_end (main ParseTemplate new_transport given env) [].
Proof.
  unfold main. apply guarded_or_die; [done|done|]. apply guarded_or_die; [|done|].
  { split; [sees|apply managerOptions_safe]. }
  destruct (choose_provider _ _ env) as [p|] eqn:Ep; [|done].
  pose proof managerOptions_safe as Ho. pose proof (controller_of_safe p Ep) as Hc.
  apply guarded_or_die; [split; [done|]; eexists; split; [sees|done]|done|].
  apply guarded_or_die; [split; [done|sees]|done|].
  apply guarded_or_die; [eexists; split; [sees|done]|done|].
  apply guarded_or_die; [cbn [startup_ok]; sees|done|].
  apply guarded_or_die; [|done|cbn [guarded startup_end]; sees].
  split; [eexists; split; [sees|done]|]. split; [eexists; split; [sees|done]|]. by split_and!; sees.
Qed.

(** C36. The process takes its steps in order and stops at the first that fails. The
    manager is started only after the collector (every 12 hours), the controller
    and both health checks were registered; the controller then has a provider
    that writes nowhere but to the configured repository, and not at all in a dry
    run, and shrinks or merges only where a flag or a variable says so; no server
    offers HTTP/2 unless asked to, and metrics are authenticated when they are
    served securely, which is the default. *)
Theorem main_starts_as_configured :
  every_call startup_ok (main ParseTemplate new_transport given env).
Proof. eapply guarded_every_call, guarded_main. Qed.

(** [main] returns only after the manager ran and stopped without an error. *)
Theorem main_returns_after_run :
  every_outcome startup_end (main ParseTemplate new_transport given env).
Proof. eapply guarded_every_outcome, guarded_main. Qed.

End startup.
