(* ===== verification/ReconcileGuards.v ===== *)
(** * What a reconciliation may do, given what it has seen

    [call_ok] says of every call of [Reconcile] that changes something what the
    reconciliation must have seen before it. The lemmas prove it for the parts
    of [Reconcile], from the leaves up; [ReconcileTheorems.v] draws the
    consequences. *)

From S2P Require Export Reconcile.
From stdpp Require Export sorting base option gmap strings list fin_maps.

Open Scope Z_scope.
Open Scope prog_scope.

Section guards.
Context {KQ : KubeQuantity} {KS : KubeSchema} {GR : GoRange} {RP : RetryPolicy}.
Context {GQ : GoQuote} {GA : GoArch}.

(** The state that a read of the lease gave. *)
Definition state_read (past : list (event call)) (ns q : string) (st : State) : Prop :=
  (∃ lease, saw past (GetLease (getLeaseName ns q)) (Ok lease) ∧ st = stateFromLease lease) ∨
  (∃ e, saw past (GetLease (getLeaseName ns q)) (Err e) ∧ is_kind ErrNotFound e = true ∧ st = zero_state).

(** What a reconciliation works with. *)
Record view := {
  v_quota : ResourceQuota;
  v_annotations : gmap string string;
  v_state : State;
  v_scan_ok : bool;
  v_input : Input
}.

Definition v_policy (v : view) : Policy := InPolicy (v_input v).
Definition v_decision (v : view) : Decide.Decision := Decide (v_input v).

(** The view comes from what was read: the window is what the observer returned,
    and the deficits are what the event scan added up. *)
Record consistent (r : ResourceQuotaReconciler) (ns name : string) (past : list (event call)) (v : view)
    : Prop := {
  c_quota : saw past (GetQuota ns name) (Ok (v_quota v));
  c_annotations : saw past (GetNamespace ns) (Ok (v_annotations v));
  c_policy : v_policy v = (ParsePolicy (v_annotations v) (BasePolicy r)).1;
  c_enabled : Enabled (v_policy v) = true;
  c_state : state_read past ns (QuotaName (v_quota v)) (v_state v);
  c_hard : Hard (v_input v) = StatusHard (v_quota v);
  c_used : Used (v_input v) = StatusUsed (v_quota v);
  c_last_grow : Decide.LastGrow (v_input v) = LeaseState.LastGrow (v_state v);
  c_last_shrink : Decide.LastShrink (v_input v) = LeaseState.LastShrink (v_state v);
  c_now : saw past TimeNow (Now (v_input v));
  c_window : ran (Observer.Observe (v_quota v) (WindowDays (v_policy v))) (Ok (InWindow (v_input v))) past;
  c_scan : if v_scan_ok v
           then ran (collectDeficits (v_quota v) (LastModified (v_state v))) (Ok (Deficits (v_input v))) past
           else Deficits (v_input v) = ∅
}.

(** ** Leases

    What a lease held when it was last read, after which no call has touched any
    lease. *)

Definition lease_call {R} (e : call R) : bool :=
  match e with
  | GetLease _ | CreateLease _ | UpdateLease _ | DeleteLease _ | ListLeases _ => true
  | _ => false
  end.

Definition no_lease_call (ev : event call) : Prop := lease_call (ev_call ev) = false.

Definition last_read (past : list (event call)) (n : string) (lease : Lease) : Prop :=
  ∃ before later, past = before ++ Event _ (GetLease n) (Ok lease) :: later ∧ Forall no_lease_call later.

(** Why a reconciliation may write [st'] over [st]: a sampled window is stored and
    nothing else changes; the pull request that the reconciliation found on the
    lease was reported closed, closed or merged, and the record of a pull request
    is cleared; or it found none on the lease, and one was found at the provider
    or created. *)
Inductive transition (r : ResourceQuotaReconciler) (ns name : string) (past : list (event call)) (st : State)
    : State → Prop :=
| t_window encoded :
    transition r ns name past st
      {| PRID := PRID st; PRDirection := PRDirection st; LastModified := LastModified st;
         LastGrow := LeaseState.LastGrow st; LastShrink := LeaseState.LastShrink st; StWindow := encoded |}
| t_release v status now :
    consistent r ns name past v → PRID (v_state v) ≠ 0 →
    saw past (GetPRStatus (PRID (v_state v))) (Ok (Some status)) → IsOpen status = false → saw past TimeNow now →
    transition r ns name past st
      {| PRID := 0; PRDirection := "";
         LastModified := if IsMerged status then now else LastModified st;
         LastGrow := if IsMerged status && negb (String.eqb (PRDirection st) dirShrink)
                     then now else LeaseState.LastGrow st;
         LastShrink := if String.eqb (PRDirection st) dirShrink then now else LeaseState.LastShrink st;
         StWindow := StWindow st |}
| t_expire v reason now :
    consistent r ns name past v → PRID (v_state v) ≠ 0 →
    saw past (ClosePR (PRID (v_state v)) reason) None → saw past TimeNow now →
    transition r ns name past st
      {| PRID := 0; PRDirection := ""; LastModified := LastModified st;
         LastGrow := LeaseState.LastGrow st; LastShrink := now; StWindow := StWindow st |}
| t_merged v now :
    consistent r ns name past v → PRID (v_state v) ≠ 0 →
    saw past (MergePR (PRID (v_state v)) "squash") None → saw past TimeNow now →
    transition r ns name past st
      {| PRID := 0; PRDirection := ""; LastModified := now; LastGrow := now;
         LastShrink := LeaseState.LastShrink st; StWindow := StWindow st |}
| t_adopt v id direction :
    consistent r ns name past v → PRID (v_state v) = 0 →
    saw past (FindOpenPR ns (QuotaName (v_quota v))) (Ok (id, direction)) → id ≠ 0 →
    transition r ns name past st
      {| PRID := id; PRDirection := direction; LastModified := LastModified st;
         LastGrow := LeaseState.LastGrow st; LastShrink := LeaseState.LastShrink st; StWindow := StWindow st |}
| t_create v id d now :
    consistent r ns name past v → PRID (v_state v) = 0 → d = DDirection (v_decision v) → d ≠ DirectionNone →
    saw past (CreatePR (QuotaName (v_quota v)) ns (direction_string d) (v_annotations v)
                (Targets (v_decision v))) (Ok id) → saw past TimeNow now →
    transition r ns name past st
      {| PRID := id; PRDirection := direction_string d; LastModified := LastModified st;
         LastGrow := match d with DirectionShrink => LeaseState.LastGrow st | _ => now end;
         LastShrink := match d with DirectionShrink => now | _ => LeaseState.LastShrink st end;
         StWindow := StWindow st |}.

(** A write to a lease goes to the lease of the quota, over what the last read of
    it gave, with no call to any lease in between. *)
Definition write_ok (r : ResourceQuotaReconciler) (ns name : string) (past : list (event call)) (lease' : Lease)
    : Prop :=
  ∃ quota n lease st',
    saw past (GetQuota ns name) (Ok quota) ∧ (n = ns ∨ n = QuotaNamespace quota) ∧
    last_read past (getLeaseName n (QuotaName quota)) lease ∧
    transition r ns name past (stateFromLease lease) st' ∧ lease' = applyStateToLease st' lease.

(** What the provider says of a pull request that may be merged. *)
Definition ready (status : PRStatus) : Prop :=
  Mergeable status = true ∧
  (MergeableState status = "clean" ∨
   MergeableState status = "blocked" ∧ (ChecksState status = "success" ∨ ChecksTotalCount status = 0)).

Definition merge_ok (r : ResourceQuotaReconciler) (ns name : string) (past : list (event call)) (id : Z)
    (method : string) : Prop :=
  ∃ v status, consistent r ns name past v ∧ id = PRID (v_state v) ∧ id ≠ 0 ∧ method = "squash" ∧
    EnableAutoMerge r = true ∧ PRDirection (v_state v) ≠ dirShrink ∧
    v_annotations v !! AnnotationAutoMerge ≠ Some "false" ∧
    saw past (GetPRStatus id) (Ok (Some status)) ∧ IsOpen status = true ∧ ready status.

(** The cooldown of the last change is over. *)
Definition cooled (past : list (event call)) (v : view) : Prop :=
  LastModified (v_state v) = Time.zero ∨
  ∃ now, saw past TimeNow now ∧ GrowCooldown (v_policy v) <= Time.Sub now (LastModified (v_state v)).

Definition create_ok (r : ResourceQuotaReconciler) (ns name : string) (past : list (event call))
    (quotaName ns' direction : string) (annotations : gmap string string) (limits : gmap string Quantity)
    : Prop :=
  ∃ v d0, consistent r ns name past v ∧ quotaName = QuotaName (v_quota v) ∧ ns' = ns ∧
    annotations = v_annotations v ∧ PRID (v_state v) = 0 ∧
    saw past (FindOpenPR ns quotaName) (Ok (0, d0)) ∧
    direction = direction_string (DDirection (v_decision v)) ∧ limits = Targets (v_decision v) ∧
    is_noop (v_quota v) limits = false ∧
    match DDirection (v_decision v) with
    | DirectionNone => False
    | DirectionGrow => cooled past v
    | DirectionShrink => v_scan_ok v = true
    end.

Definition update_ok (r : ResourceQuotaReconciler) (ns name : string) (past : list (event call)) (id : Z)
    (quotaName ns' : string) (limits : gmap string Quantity) : Prop :=
  ∃ v status, consistent r ns name past v ∧ quotaName = QuotaName (v_quota v) ∧ ns' = ns ∧
    id = PRID (v_state v) ∧ id ≠ 0 ∧ saw past (GetPRStatus id) (Ok (Some status)) ∧ IsOpen status = true ∧
    DDirection (v_decision v) = DirectionGrow ∧ limits = Targets (v_decision v) ∧
    PRDirection (v_state v) ≠ dirShrink.

Definition close_ok (r : ResourceQuotaReconciler) (ns name : string) (past : list (event call)) (id : Z)
    : Prop :=
  ∃ v status, consistent r ns name past v ∧ id = PRID (v_state v) ∧ id ≠ 0 ∧
    PRDirection (v_state v) = dirShrink ∧
    saw past (GetPRStatus id) (Ok (Some status)) ∧ IsOpen status = true ∧
    (DDirection (v_decision v) = DirectionGrow ∨
     ∃ now, saw past TimeNow now ∧ CreatedAt status ≠ Time.zero ∧
       ShrinkPRTTL (v_policy v) < Time.Sub now (CreatedAt status)).

Definition call_ok (r : ResourceQuotaReconciler) (ns name : string) (past : list (event call))
    (R : Type) (e : call R) : Prop :=
  match e with
  | MergePR id method => merge_ok r ns name past id method
  | CreatePR q n d a l => create_ok r ns name past q n d a l
  | UpdatePR id q n a l => update_ok r ns name past id q n l
  | ClosePR id _ => close_ok r ns name past id
  | UpdateLease lease => write_ok r ns name past lease
  | DeleteLease _ => False
  | CreateLease lease => HolderIdentity lease = None ∧ LeaseAnnotations lease = ∅
  | _ => True
  end.

(** Calls without a guard. *)
Definition unguarded (R : Type) (e : call R) : Prop :=
  match e with
  | MergePR _ _ | CreatePR _ _ _ _ _ | UpdatePR _ _ _ _ _ | ClosePR _ _ | UpdateLease _
  | DeleteLease _ | CreateLease _ | Panic => False
  | _ => True
  end.

Lemma unguarded_ok r ns name past R (e : call R) : unguarded R e → call_ok r ns name past R e.
Proof. by destruct e. Qed.

(** ** How a reconciliation may end *)

(** It asks to be called again. *)
Definition scheduled (x : Result) : Prop := Requeue x = true ∨ 0 < RequeueAfter x.

(** It ends in an error, which is retried, or asks to be called again, unless
    the quota is gone, the namespace has opted out, or the wait that it computes
    overflows: the lease carries a time some 292 years ahead. *)
Definition outcome_ok (r : ResourceQuotaReconciler) (ns name : string) (past : list (event call))
    (res : go_result error Result) : Prop :=
  match res with
  | Err _ => True
  | Ok x =>
      scheduled x ∨
      (∃ e, saw past (GetQuota ns name) (Err e) ∧ is_kind ErrNotFound e = true) ∨
      (∃ annotations, saw past (GetNamespace ns) (Ok annotations) ∧
        Enabled (ParsePolicy annotations (BasePolicy r)).1 = false) ∨
      (∃ v now, consistent r ns name past v ∧ saw past TimeNow now ∧
        max_int64 < GrowCooldown (v_policy v) - Time.Sub now (LastModified (v_state v)) + Time.Second)
  end.

(** ** What was read stays read *)

Lemma state_read_mono past past' ns q st :
  past `prefix_of` past' → state_read past ns q st → state_read past' ns q st.
Proof.
  intros Hp [(lease & H & ->)|(e & H & Hk & ->)].
  - left. exists lease. split; [by eapply saw_mono|done].
  - right. exists e. split; [by eapply saw_mono|done].
Qed.

Lemma consistent_mono r ns name past past' v :
  past `prefix_of` past' → consistent r ns name past v → consistent r ns name past' v.
Proof.
  intros Hp []. constructor; try done; try by eapply saw_mono.
  - by eapply state_read_mono.
  - by eapply ran_mono.
  - destruct (v_scan_ok v); [|done]. by eapply ran_mono.
Qed.

Lemma saw_weaken past l {R} (e : call R) r : saw past e r → saw (past ++ l) e r.
Proof. apply saw_mono. by apply prefix_app_r. Qed.

Lemma consistent_weaken r ns name past l v :
  consistent r ns name past v → consistent r ns name (past ++ l) v.
Proof. apply consistent_mono. by apply prefix_app_r. Qed.

Lemma last_read_saw past n lease : last_read past n lease → saw past (GetLease n) (Ok lease).
Proof. intros (before & later & -> & _). apply elem_of_app. right. apply list_elem_of_here. Qed.

(** The history has grown, and no lease was touched. *)
Definition lease_quiet (past past' : list (event call)) : Prop :=
  ∃ later, past' = past ++ later ∧ Forall no_lease_call later.

Lemma lease_quiet_refl past : lease_quiet past past.
Proof. exists []. by rewrite app_nil_r. Qed.

Lemma lease_quiet_prefix past past' : lease_quiet past past' → past `prefix_of` past'.
Proof. intros (later & -> & _). by apply prefix_app_r. Qed.

Lemma last_read_quiet past past' n lease :
  lease_quiet past past' → last_read past n lease → last_read past' n lease.
Proof.
  intros (later' & -> & H') (before & later & -> & H). exists before, (later ++ later').
  rewrite <- app_assoc. split; [done|]. by apply Forall_app.
Qed.

Lemma last_read_here past n lease : last_read (past ++ [Event _ (GetLease n) (Ok lease)]) n lease.
Proof. by exists past, []. Qed.

(** The assignments of the code are the transitions. *)
Lemma release_pr_fields status now st :
  release_pr status now st =
  {| PRID := 0; PRDirection := "";
     LastModified := if IsMerged status then now else LastModified st;
     LastGrow := if IsMerged status && negb (String.eqb (PRDirection st) dirShrink)
                 then now else LeaseState.LastGrow st;
     LastShrink := if String.eqb (PRDirection st) dirShrink then now else LeaseState.LastShrink st;
     StWindow := StWindow st |}.
Proof. unfold release_pr. by destruct (IsMerged status), (String.eqb (PRDirection st) dirShrink). Qed.

Lemma can_attempt_merge_iff status : can_attempt_merge status = true ↔ ready status.
Proof.
  unfold can_attempt_merge, ready. rewrite !andb_true_iff, orb_true_iff, andb_true_iff, orb_true_iff, !String.eqb_eq, Z.eqb_eq.
  done.
Qed.

Lemma should_auto_merge_iff auto annotations st :
  should_auto_merge auto annotations st = true ↔
  auto = true ∧ PRDirection st ≠ dirShrink ∧ annotations !! AnnotationAutoMerge ≠ Some "false".
Proof.
  assert (Hd : auto && negb (String.eqb (PRDirection st) dirShrink) = true ↔ auto = true ∧ PRDirection st ≠ dirShrink).
  { by rewrite andb_true_iff, negb_true_iff, String.eqb_neq. }
  unfold should_auto_merge. destruct (annotations !! AnnotationAutoMerge) as [val|]; [|rewrite Hd; split; [intros [? ?]|intros (? & ? & _)]; by split_and?].
  destruct (String.eqb_spec val "false") as [->|Hne].
  - by split; [|intros (_ & _ & [])].
  - rewrite Hd. split; [intros [? ?]|intros (? & ? & _)]; split_and?; try done. congruence.
Qed.

Ltac sees :=
  first
    [ assumption
    | apply saw_last
    | apply saw_weaken; sees
    | apply consistent_weaken; sees
    | match goal with
      | H : _ `prefix_of` ?past |- saw ?past _ _ => apply (saw_mono _ _ _ _ H); sees
      | H : _ `prefix_of` ?past |- consistent _ _ _ ?past _ => apply (consistent_mono _ _ _ _ _ _ H); sees
      end ].

(** ** The locker *)

Section locker.
Context (r : ResourceQuotaReconciler) (ns name : string).

Local Abbreviation ok := (call_ok r ns name).

Lemma guarded_retry n (attempt : prog call (option error)) Q past :
  (∀ past', past `prefix_of` past' → guarded ok (λ _ _, True) attempt past') →
  (∀ past' a, past `prefix_of` past' → Q past' a) → guarded ok Q (retry n attempt) past.
Proof.
  revert past. induction n as [|n IH]; intros past Ha HQ; simpl; apply guarded_bind;
    (eapply guarded_weaken; [by apply Ha|]); intros past' res Hp _.
  - by destruct res; apply HQ.
  - destruct res as [e|]; [|by apply HQ]. destruct (is_kind ErrConflict e); [|by apply HQ].
    apply IH.
    + intros past'' Hp'. apply Ha. by etransitivity.
    + intros past'' a Hp'. apply HQ. by etransitivity.
Qed.

Lemma guarded_ensureLeaseExists leaseName n q Q past :
  (∀ past' a, past `prefix_of` past' → Q past' a) → guarded ok Q (ensureLeaseExists leaseName n q) past.
Proof.
  intros HQ. unfold ensureLeaseExists. apply guarded_call; [done|]. intros [lease|e].
  - apply HQ. by apply prefix_app_r.
  - destruct (is_kind ErrNotFound e).
    + apply guarded_call; [done|].
      intros [e'|]; [destruct (is_kind ErrAlreadyExists e')|]; apply HQ; by do 2 apply prefix_app_r.
    + apply HQ. by apply prefix_app_r.
Qed.

(** Changing the state of a lease is guarded when the callback is: the state it
    gives must be one that [transition] allows. *)
Lemma guarded_MutateState n q fn Q past quota :
  saw past (GetQuota ns name) (Ok quota) → q = QuotaName quota → (n = ns ∨ n = QuotaNamespace quota) →
  (∀ past' st, past `prefix_of` past' →
     guarded ok (λ past'' st', lease_quiet past' past'' ∧ transition r ns name past'' st st') (fn st) past') →
  (∀ past' a, past `prefix_of` past' → Q past' a) →
  guarded ok Q (MutateState n q fn) past.
Proof.
  intros Hquota -> Hn Hfn HQ. unfold MutateState. apply guarded_bind.
  apply guarded_ensureLeaseExists. intros past0 [e|] Hp0; [by apply HQ|].
  apply guarded_retry; [|intros; apply HQ; by etransitivity].
  intros past1 Hp1. unfold mutate_attempt. apply guarded_call; [done|]. intros [lease|e]; [|done].
  apply guarded_bind. eapply guarded_weaken.
  { apply Hfn. etransitivity; [done|]. etransitivity; [done|]. by apply prefix_app_r. }
  intros past2 st' _ [Hp2 Ht]. split; [|done]. exists quota, n, lease, st'.
  split; [|split; [done|split; [|done]]].
  - apply (saw_mono _ _ _ _ (lease_quiet_prefix _ _ Hp2)), saw_weaken, (saw_mono _ _ _ _ Hp1). sees.
  - apply (last_read_quiet _ _ _ _ Hp2), last_read_here.
Qed.

(** A callback that is a function of the state. *)
Lemma guarded_MutateState_ret n q f Q past quota :
  saw past (GetQuota ns name) (Ok quota) → q = QuotaName quota → (n = ns ∨ n = QuotaNamespace quota) →
  (∀ past' st, past `prefix_of` past' → transition r ns name past' st (f st)) →
  (∀ past' a, past `prefix_of` past' → Q past' a) →
  guarded ok Q (MutateState n q (λ st, Ret (f st))) past.
Proof.
  intros Hq1 Hq2 Hn Hf HQ. eapply guarded_MutateState; [exact Hq1|exact Hq2|exact Hn| |exact HQ].
  intros past' st Hp. split; [apply lease_quiet_refl|by apply Hf].
Qed.

Lemma guarded_GetState n q Q past :
  (∀ past' st, past `prefix_of` past' → state_read past' n q st → Q past' (Ok st)) →
  (∀ past' e, past `prefix_of` past' → Q past' (Err e)) →
  guarded ok Q (GetState n q) past.
Proof.
  intros Hok Herr. unfold GetState. apply guarded_call; [done|]. intros [lease|e].
  - apply Hok; [by apply prefix_app_r|]. left. exists lease. split; [sees|done].
  - destruct (is_kind ErrNotFound e) eqn:Ek.
    + apply Hok; [by apply prefix_app_r|]. right. exists e. split; [sees|done].
    + apply Herr. by apply prefix_app_r.
Qed.

(** ** The observer and the event scan *)

Lemma guarded_Observe quota windowDays Q past :
  saw past (GetQuota ns name) (Ok quota) →
  (∀ past' a, past `prefix_of` past' → Q past' a) →
  guarded ok Q (Observer.Observe quota windowDays) past.
Proof.
  intros Hquota HQ. unfold Observer.Observe.
  assert (Hw : ∀ key cached window past', past `prefix_of` past' →
    guarded ok Q (observe_window quota windowDays key cached window) past').
  { intros key cached window past' Hp. unfold observe_window. apply guarded_call; [done|]. intros now.
    destruct (Window.Observe window now (QuotaUID quota) (StatusUsed quota) windowDays) as [w changed].
    assert (Hstore : ∀ past'' w, past `prefix_of` past'' → guarded ok Q (store_window key w) past'').
    { intros past'' w' Hp'. apply guarded_call; [done|]. intros u. apply HQ. by apply prefix_app_r. }
    apply guarded_bind. apply (guarded_quiet _ _ unguarded).
    { by destruct cached. }
    { intros past0 R0 e0. apply unguarded_ok. }
    intros past2 _ Hp2.
    assert (Hpp : past `prefix_of` past2) by (etransitivity; [exact Hp|]; etransitivity; [|exact Hp2]; by apply prefix_app_r).
    destruct (changed || _); [|by apply Hstore]. apply guarded_bind.
    apply (guarded_MutateState_ret _ _ _ _ _ quota); [sees|done|by right|by constructor|].
    intros past3 [e|] Hp3; [apply HQ|apply Hstore]; by etransitivity. }
  apply guarded_call; [done|]. intros [window|]; [apply Hw; by apply prefix_app_r|].
  apply guarded_bind. apply guarded_GetState.
  - intros past' st Hp Hst. apply Hw. etransitivity; [|exact Hp]. by apply prefix_app_r.
  - intros past' e Hp. apply HQ. etransitivity; [|exact Hp]. by apply prefix_app_r.
Qed.

Lemma quiet_calculateWorkloadDeficit evt res qty : quiet unguarded (calculateWorkloadDeficit evt res qty).
Proof.
  unfold calculateWorkloadDeficit.
  repeat match goal with |- context [if String.eqb ?a ?b then _ else _] => destruct (String.eqb a b) end;
    simpl; try done; (split; [done|]; intros [x|]; try done; by repeat case_match).
Qed.

Lemma quiet_collect_event quota cutoff since m evt : quiet unguarded (collect_event quota cutoff since m evt).
Proof.
  unfold collect_event. destruct (negb _); [done|]. destruct (ParseEventMessage _) as [[res qty]|]; [|done].
  unfold isObjectAlive. apply quiet_bind.
  - destruct (ParseGroupVersion _); [|done]. by simpl.
  - intros alive. destruct (negb alive); [done|]. apply quiet_bind; [apply quiet_calculateWorkloadDeficit|done].
Qed.

Lemma guarded_collectDeficits quota since Q past :
  (∀ past' m, past `prefix_of` past' →
     (∃ items, saw past' (ListEvents (QuotaNamespace quota)) (Ok items)) → Q past' (Ok m)) →
  (∀ past' e, past `prefix_of` past' → Q past' (Err e)) →
  guarded ok Q (collectDeficits quota since) past.
Proof.
  intros Hok Herr. unfold collectDeficits. apply guarded_call; [done|]. intros [items|e].
  - apply guarded_call; [done|]. intros now. apply guarded_bind. apply (guarded_quiet _ _ unguarded).
    + apply quiet_pfold. intros. apply quiet_collect_event.
    + intros past0 R0 e0. apply unguarded_ok.
    + intros past' m Hp. apply Hok; [|exists items; sees].
      etransitivity; [|exact Hp]. by do 2 apply prefix_app_r.
  - apply Herr. by apply prefix_app_r.
Qed.

Lemma quiet_recordDecision quotaName hard d : quiet unguarded (recordDecision ns quotaName hard d).
Proof.
  unfold recordDecision. apply quiet_bind; [by split|]. intros u. apply quiet_bind.
  - apply quiet_pfold. intros [] [res q]. unfold record_resource. by destruct (_ || _).
  - intros []. apply quiet_pfold. by intros [] g.
Qed.

End locker.

(** ** The two handlers *)

Section handlers.
Context (r : ResourceQuotaReconciler) (ns name : string).

Local Abbreviation ok := (call_ok r ns name).
Local Abbreviation Q := (outcome_ok r ns name).

(** The end of every path that writes the lease. *)
Lemma guarded_write q fn res past quota :
  saw past (GetQuota ns name) (Ok quota) → q = QuotaName quota →
  (∀ past' st, past `prefix_of` past' →
     guarded ok (λ past'' st', lease_quiet past' past'' ∧ transition r ns name past'' st st') (fn st) past') →
  scheduled res → guarded ok Q (err ⇐ MutateState ns q fn;
                match err with Some e => Ret (Err e) | None => Ret (Ok res) end) past.
Proof.
  intros Hquota -> Hfn Hres. apply guarded_bind. apply (guarded_MutateState _ _ _ _ _ _ _ _ quota);
    [done|done|by left|done|]. intros past' [e|] _; [done|by left].
Qed.

Lemma guarded_write_ret q f res past quota :
  saw past (GetQuota ns name) (Ok quota) → q = QuotaName quota →
  (∀ past' st, past `prefix_of` past' → transition r ns name past' st (f st)) →
  scheduled res → guarded ok Q (err ⇐ MutateState ns q (λ st, Ret (f st));
                match err with Some e => Ret (Err e) | None => Ret (Ok res) end) past.
Proof.
  intros Hquota Hq Hf Hres. eapply guarded_write; [done|done| |done]. intros past' st Hp. split; [apply lease_quiet_refl|by apply Hf].
Qed.

Lemma guarded_update_pr v status past :
  consistent r ns name past v → PRID (v_state v) ≠ 0 →
  saw past (GetPRStatus (PRID (v_state v))) (Ok (Some status)) → IsOpen status = true →
  (DDirection (v_decision v) = DirectionGrow → PRDirection (v_state v) ≠ dirShrink) →
  guarded ok Q (update_pr ns (QuotaName (v_quota v)) (v_annotations v) (PRID (v_state v)) (v_decision v)) past.
Proof.
  intros Hv Hid Hst Hopen Hdir. unfold update_pr. destruct (DDirection (v_decision v)) eqn:Ed; try (by left; right).
  apply guarded_call.
  - exists v, status. split_and!; try done. by apply Hdir.
  - intros [e|]; [destruct (is_kind ErrFileNotFound e); [|done]|]; by left; right.
Qed.

Lemma guarded_merge_or_update v status past :
  consistent r ns name past v → PRID (v_state v) ≠ 0 →
  saw past (GetPRStatus (PRID (v_state v))) (Ok (Some status)) → IsOpen status = true →
  (DDirection (v_decision v) = DirectionGrow → PRDirection (v_state v) ≠ dirShrink) →
  guarded ok Q (merge_or_update (EnableAutoMerge r) ns (QuotaName (v_quota v)) (v_annotations v)
                  (v_state v) status (v_decision v)) past.
Proof.
  intros Hv Hid Hst Hopen Hdir. unfold merge_or_update.
  destruct (should_auto_merge _ _ _) eqn:Es; [|by eapply guarded_update_pr].
  destruct (Str.lowers_to _ _); [by left; right|].
  destruct (can_attempt_merge status) eqn:Em; [|by eapply guarded_update_pr].
  apply guarded_call.
  - exists v, status.
    apply should_auto_merge_iff in Es as (?&?&?). apply can_attempt_merge_iff in Em.
    by split_and!.
  - intros [e|]; [eapply guarded_update_pr; try done; sees|].
    apply guarded_call; [done|]. intros now.
    eapply guarded_write_ret; [do 2 apply saw_weaken; apply Hv|done| |by left].
    intros past' st Hp. refine (t_merged r ns name past' st v now _ _ _ _); [sees|done|sees|sees].
Qed.

Lemma guarded_shrinkPRShouldClose v status past Q' :
  consistent r ns name past v →
  (∀ past' reason, past `prefix_of` past' →
     (DDirection (v_decision v) = DirectionGrow ∨
      ∃ now, saw past' TimeNow now ∧ CreatedAt status ≠ Time.zero ∧
        ShrinkPRTTL (v_policy v) < Time.Sub now (CreatedAt status)) → Q' past' (Some reason)) →
  (∀ past', past `prefix_of` past' → DDirection (v_decision v) ≠ DirectionGrow → Q' past' None) →
  guarded ok Q' (shrinkPRShouldClose (v_policy v) status (v_decision v)) past.
Proof.
  intros Hv Hsome Hnone. unfold shrinkPRShouldClose.
  destruct (DDirection (v_decision v)) eqn:Ed.
  2: { apply Hsome; [done|by left]. }
  all: (unfold Time.IsZero; destruct (Z.eqb_spec (CreatedAt status) 0) as [|Hz]; [by apply Hnone|]).
  all: (apply guarded_call; [done|]; intros now;
        destruct (Z.ltb_spec (ShrinkPRTTL (v_policy v)) (Time.Sub now (CreatedAt status)));
        [apply Hsome; [by apply prefix_app_r|]; right; exists now; by split; [sees|]
        |apply Hnone; [by apply prefix_app_r|done]]).
Qed.

Lemma guarded_handleActivePR v past :
  consistent r ns name past v → PRID (v_state v) ≠ 0 →
  guarded ok Q (handleActivePR (EnableAutoMerge r) ns (QuotaName (v_quota v)) (v_annotations v)
                  (v_policy v) (v_state v) (v_decision v)) past.
Proof.
  intros Hv Hid. unfold handleActivePR. apply guarded_call; [done|].
  intros [[status|]|e]; [|by split; [|intros []]|done].
  destruct (IsOpen status) eqn:Ho; simpl negb; cbv iota.
  2: { apply guarded_call; [done|]. intros now.
       eapply guarded_write_ret; [do 2 apply saw_weaken; apply Hv|done| |by left].
       intros past' st Hp. rewrite release_pr_fields. apply (t_release _ _ _ _ _ v); [sees|done|sees|done|sees]. }
  apply guarded_bind.
  destruct (String.eqb_spec (PRDirection (v_state v)) dirShrink) as [Hs|Hs].
  - apply guarded_shrinkPRShouldClose; [sees| |].
    + intros past' reason Hp Hwhy. apply guarded_call.
      { exists v, status. split_and!; try done; sees. }
      intros [e|]; [done|]. apply guarded_call; [done|]. intros now.
      eapply guarded_write_ret; [do 2 apply saw_weaken; apply (saw_mono _ _ _ _ Hp), saw_weaken, Hv|done| |by left].
      intros past'' st Hp'. refine (t_expire r ns name past'' st v reason now _ _ _ _); [sees|done|sees|sees].
    + intros past' Hp Hd. apply guarded_merge_or_update; [sees|done|sees|done|done].
  - apply guarded_merge_or_update; [sees|done|sees|done|done].
Qed.

Lemma guarded_grow_cooldown v past Q' :
  (∀ past' w, past `prefix_of` past' →
     (0 < wrap64 (w + 1 * Time.Second) ∨
      ∃ now, saw past' TimeNow now ∧
        max_int64 < GrowCooldown (v_policy v) - Time.Sub now (LastModified (v_state v)) + Time.Second) →
     Q' past' (Some w)) →
  (∀ past', past `prefix_of` past' → (DDirection (v_decision v) = DirectionGrow → cooled past' v) → Q' past' None) →
  guarded ok Q' (grow_cooldown (v_policy v) (v_state v) (v_decision v)) past.
Proof.
  intros Hsome Hnone. unfold grow_cooldown. destruct (DDirection (v_decision v)) eqn:Ed; try by apply Hnone.
  unfold Time.IsZero. destruct (Z.eqb_spec (LastModified (v_state v)) 0) as [Hz|Hz].
  - apply Hnone; [done|]. intros _. by left.
  - apply guarded_call; [done|]. intros now.
    destruct (Z.ltb_spec (Time.Sub now (LastModified (v_state v))) (GrowCooldown (v_policy v))).
    + apply Hsome; [by apply prefix_app_r|].
      destruct (decide (max_int64 < GrowCooldown (v_policy v) - Time.Sub now (LastModified (v_state v)) + Time.Second)).
      * right. exists now. split; [sees|done].
      * left. unfold Time.Second in *. rewrite (wrap64_id (GrowCooldown _ - _)) by lia64. rewrite wrap64_id by lia64. lia.
    + apply Hnone; [by apply prefix_app_r|]. intros _. right. exists now. by split; [sees|].
Qed.

Lemma guarded_handleNewProposal v past :
  consistent r ns name past v → PRID (v_state v) = 0 → DDirection (v_decision v) ≠ DirectionNone →
  (DDirection (v_decision v) = DirectionShrink → v_scan_ok v = true) →
  guarded ok Q (handleNewProposal ns (v_quota v) (v_annotations v) (v_policy v) (v_state v)
                  (v_decision v)) past.
Proof.
  intros Hv Hid Hd Hscan. unfold handleNewProposal. apply guarded_call; [done|].
  intros [[id d0]|e]; [|done]. destruct (Z.eqb_spec id 0) as [->|Hne]; simpl negb; cbv iota.
  2: { eapply guarded_write_ret; [apply saw_weaken, Hv|done| |by left]. intros past' st Hp.
       apply (t_adopt _ _ _ _ _ v); [sees|done|sees|done]. }
  destruct (is_noop _ _) eqn:En; [by left; right|]. apply guarded_bind.
  apply guarded_grow_cooldown.
  { intros past1 w Hp1 [Hw|(now & Hn & Ho)]; [by left; right|].
    do 3 right. exists v, now. split; [sees|done]. } intros past1 Hp1 Hcool.
  unfold open_pr. apply guarded_bind. apply (guarded_quiet _ _ unguarded).
  { apply quiet_pfold. intros [] [res q]. unfold recommend. by destruct (DDirection (v_decision v)). }
  { intros past0 R0 e0. apply unguarded_ok. }
  intros past2 [] Hp2.
  assert (Hv2 : consistent r ns name past2 v) by sees. apply guarded_call.
  - exists v, d0. split_and!; try done; [sees|]. destruct (DDirection (v_decision v)); [done| |by apply Hscan].
    destruct (Hcool eq_refl) as [Hz|(now & Hn & Hle)]; [by left|]. right. exists now. by split; [sees|].
  - intros [id|e]; [|destruct (is_kind ErrFileNotFound e); [by left; right|done]].
    eapply guarded_write; [apply saw_weaken, Hv2|done| |by right]. intros past3 st Hp3. unfold record_pr.
    split; [done|]. intros now. split; [exists [Event _ TimeNow now]; split; [done|by apply Forall_singleton]|].
    assert (Ht := t_create r ns name (past3 ++ [Event _ TimeNow now]) st v id (DDirection (v_decision v)) now).
    by destruct (DDirection (v_decision v)); apply Ht; try done; sees.
Qed.

Lemma guarded_act_on v past :
  consistent r ns name past v →
  guarded ok Q (act_on r ns (v_quota v) (v_annotations v) (v_policy v) (v_state v) (negb (v_scan_ok v))
                  (v_decision v)) past.
Proof.
  intros Hv. unfold act_on. apply guarded_bind. apply (guarded_quiet _ _ unguarded).
  { apply quiet_recordDecision. }
  { intros past0 R0 e0. apply unguarded_ok. }
  intros past1 [] Hp1. destruct (Z.eqb_spec (PRID (v_state v)) 0) as [Hid|Hid]; simpl negb; cbv iota.
  - destruct (DDirection (v_decision v)) eqn:Ed; [by left; right| |].
    + apply guarded_handleNewProposal; [sees|done|by rewrite Ed|by rewrite Ed].
    + destruct (v_scan_ok v) eqn:Es; [|by left; right]. simpl.
      apply guarded_handleNewProposal; [sees|done|by rewrite Ed|done].
  - apply guarded_handleActivePR; [sees|done].
Qed.

(** ** The whole reconciliation

    What is true of the last part, for every view that the reads can give, is
    true of the whole. *)

Section whole.
Context (Q' : list (event call) → go_result error Result → Prop).
Context (Qerr : ∀ past e, Q' past (Err e)).
Context (Qact : ∀ v past, consistent r ns name past v →
  guarded ok Q' (act_on r ns (v_quota v) (v_annotations v) (v_policy v) (v_state v) (negb (v_scan_ok v))
                   (v_decision v)) past).

Lemma guarded_observe_and_act quota annotations policy past :
  saw past (GetQuota ns name) (Ok quota) → saw past (GetNamespace ns) (Ok annotations) →
  policy = (ParsePolicy annotations (BasePolicy r)).1 → Enabled policy = true →
  guarded ok Q' (observe_and_act r ns quota annotations policy) past.
Proof using Qerr Qact.
  intros Hq Ha Hpol He. unfold observe_and_act. apply guarded_bind_ran.
  apply guarded_Observe; [done|]. intros past1 [window|e] Hp1 Hobs; [|apply Qerr]. apply guarded_bind.
  apply guarded_GetState; [|intros; apply Qerr]. intros past2 st Hp2 Hst. apply guarded_bind_ran.
  assert (Hgo : ∀ past3 (scan : go_result error (gmap string Z)), past2 `prefix_of` past3 →
    ran (collectDeficits quota (LastModified st)) scan past3 →
    guarded ok Q' (now ⇐ call_ TimeNow;
      act_on r ns quota annotations policy st (negb (is_ok scan))
        (Decide {| Now := now; Hard := StatusHard quota; Used := StatusUsed quota;
           Deficits := match scan with Ok m => m | Err _ => ∅ end; InWindow := window; InPolicy := policy;
           Decide.LastGrow := LeaseState.LastGrow st; Decide.LastShrink := LeaseState.LastShrink st |})) past3).
  { intros past3 scan Hp3 Hscan. apply guarded_call; [done|]. intros now.
    set (inp := {| Now := now |}). pose (v := {| v_quota := quota; v_annotations := annotations; v_state := st;
      v_scan_ok := is_ok scan; v_input := inp |}). apply (Qact v). constructor; try done; try sees.
    - apply (state_read_mono past2); [|done]. by apply prefix_app_r.
    - apply (ran_mono _ _ past1); [|done]. etransitivity; [exact Hp2|]. by apply prefix_app_r.
    - simpl. destruct scan as [m|e]; [|done]. apply (ran_mono _ _ past3); [by apply prefix_app_r|done]. }
  apply guarded_collectDeficits.
  - intros past3 m Hp3 _ Hr. by apply (Hgo past3 (Ok m)).
  - intros past3 e Hp3 Hr. by apply (Hgo past3 (Err e)).
Qed.

Context (Qgone : ∀ past e, saw past (GetQuota ns name) (Err e) → is_kind ErrNotFound e = true → Q' past (Ok done_result)).
Context (Qout : ∀ past annotations, saw past (GetNamespace ns) (Ok annotations) →
  Enabled (ParsePolicy annotations (BasePolicy r)).1 = false → Q' past (Ok done_result)).

Lemma guarded_whole : guarded ok Q' (Reconcile r ns name) [].
Proof using All.
  unfold Reconcile. apply guarded_call; [done|]. intros [quota|e].
  2: { destruct (is_kind ErrNotFound e) eqn:Ek; [|apply Qerr]. apply guarded_call; [done|]. intros [].
       apply (Qgone _ e); [sees|done]. }
  apply guarded_call; [done|]. intros [annotations|e]; [|apply Qerr].
  destruct (ParsePolicy annotations (BasePolicy r)) as [policy warnings] eqn:Ep. apply guarded_bind.
  apply (guarded_quiet _ _ unguarded).
  { apply quiet_pfold. intros [] w. unfold report_warning. by destruct (Kind w). }
  { intros past0 R0 e0. apply unguarded_ok. }
  intros past1 [] Hp1. destruct (Enabled policy) eqn:He; simpl negb; cbv iota.
  2: { apply (Qout _ annotations); [sees|by rewrite Ep]. }
  apply guarded_observe_and_act; [sees|sees|by rewrite Ep|done].
Qed.
End whole.

Lemma guarded_Reconcile : guarded ok Q (Reconcile r ns name) [].
Proof.
  apply guarded_whole; [done|exact guarded_act_on| |].
  - intros past e He Hk. right; left. by exists e.
  - intros past annotations Ha He. right; right; left. by exists annotations.
Qed.

End handlers.

Lemma Reconcile_calls_ok r ns name : every_call (call_ok r ns name) (Reconcile r ns name).
Proof. eapply guarded_every_call, guarded_Reconcile. Qed.

End guards.
