(* ===== verification/ReconcileTheorems.v ===== *)
(** * What a reconciliation never does

    The guards of [ReconcileGuards.v], one kind of call at a time, for every
    execution of [Reconcile], finished or not. *)

From S2P Require Export ReconcileGuards.
From stdpp Require Export sorting base option gmap strings list fin_maps.

Open Scope Z_scope.
Open Scope prog_scope.

Section theorems.
Context {KQ : KubeQuantity} {KS : KubeSchema} {GR : GoRange} {RP : RetryPolicy}.
Context {GQ : GoQuote} {GA : GoArch}.

Ltac from_calls_ok :=
  eapply every_call_weaken; [|apply Reconcile_calls_ok]; intros past R []; done.

(** C16. A pull request is merged only when automatic merging is on, the lease says
    it is not a shrink, the namespace has not opted out, and the provider has
    reported it to this reconciliation as open, mergeable, and clean, or blocked
    with successful checks or none. *)
Theorem Reconcile_merge_guard r ns name :
  every_call (λ past R e, match e with
                          | MergePR id method => merge_ok r ns name past id method
                          | _ => True
                          end) (Reconcile r ns name).
Proof. from_calls_ok. Qed.

(** C17. A pull request is created only when the lease records none and the provider
    knows of no open one for the quota; it asks for what the decision on the
    quota's current values says, in its direction. A growth waits for the
    cooldown; a shrink is never opened after a failed event scan. *)
Theorem Reconcile_create_guard r ns name :
  every_call (λ past R e, match e with
                          | CreatePR q n d a l => create_ok r ns name past q n d a l
                          | _ => True
                          end) (Reconcile r ns name).
Proof. from_calls_ok. Qed.

(** An open pull request is rewritten only by a decision to grow, with its
    targets, and never when the lease says it is a shrink. *)
Theorem Reconcile_update_guard r ns name :
  every_call (λ past R e, match e with
                          | UpdatePR id q n a l => update_ok r ns name past id q n l
                          | _ => True
                          end) (Reconcile r ns name).
Proof. from_calls_ok. Qed.

(** C19. The controller closes only pull requests that the lease records as shrinks
    and the provider reports open, and only when the quota has to grow or the
    request is older than its time to live. *)
Theorem Reconcile_close_guard r ns name :
  every_call (λ past R e, match e with
                          | ClosePR id _ => close_ok r ns name past id
                          | _ => True
                          end) (Reconcile r ns name).
Proof. from_calls_ok. Qed.

(** C18. Every write to a lease changes what the last read of that lease gave, with no
    call to a lease in between, by one of six transitions. Storing a window
    leaves the pull request alone. The record of a pull request is cleared only
    when the pull request that the reconciliation found on the lease was reported
    closed, or was closed or merged by it, and one is entered only when the
    reconciliation found none there, and as the provider found or created it.
    (What the reconciliation found on the lease was read before it acted; a record
    that changed between that read and the last one is overwritten too.)
    Reconciling deletes no lease, and creates only empty ones. *)
Theorem Reconcile_lease_writes r ns name :
  every_call (λ past R e, match e with
                          | UpdateLease lease => write_ok r ns name past lease
                          | CreateLease lease => HolderIdentity lease = None ∧ LeaseAnnotations lease = ∅
                          | DeleteLease _ => False
                          | _ => True
                          end) (Reconcile r ns name).
Proof. from_calls_ok. Qed.

(** A finished reconciliation ends in an error, which controller-runtime
    retries, or asks to be called again; the exceptions are a quota that is gone,
    a namespace that has opted out, and a wait that overflows. So a quota that is
    managed is never dropped. *)
Theorem Reconcile_reschedules r ns name :
  every_outcome (outcome_ok r ns name) (Reconcile r ns name).
Proof. eapply guarded_every_outcome, guarded_Reconcile. Qed.

End theorems.
