(* ===== verification/ReconcileOutcomes.v ===== *)
(** * How every reconciliation ends

    The decision table of [Reconcile]: for each way a finished reconciliation
    can succeed, what it has done and when it asks to be called again. *)

From S2P Require Export ReconcileGuards LockerFacts.
From stdpp Require Export sorting base option gmap strings list fin_maps.

Open Scope Z_scope.
Open Scope prog_scope.

Section outcomes.
Context {KQ : KubeQuantity} {KS : KubeSchema} {GR : GoRange} {RP : RetryPolicy}.
Context {GQ : GoQuote} {GA : GoArch}.
Context (r : ResourceQuotaReconciler) (ns name : string).

(** The lease of the quota was written with [f] applied to the state read from it. *)
Definition applied (v : view) (f : State → State) (past : list (event call)) : Prop :=
  written (getLeaseName ns (QuotaName (v_quota v))) (λ st st', st' = f st) past.

(** The state after a new pull request. *)
Definition with_pr (id : Z) (d : Direction) (now : Z) (st : State) : State :=
  let st := set_pr id (direction_string d) st in
  match d with DirectionShrink => stamp_shrink now st | _ => stamp_grow now st end.

Definition minutes (n : Z) : Result := requeue_after (n * Time.Minute).

(** *** An open pull request *)

(** A shrink that has to go: the quota must grow, or its time is up. *)
Definition has_to_go (past : list (event call)) (v : view) (status : PRStatus) : Prop :=
  PRDirection (v_state v) = dirShrink ∧
  (DDirection (v_decision v) = DirectionGrow ∨
   ∃ now, saw past TimeNow now ∧ CreatedAt status ≠ Time.zero ∧
     ShrinkPRTTL (v_policy v) < Time.Sub now (CreatedAt status)).

(** Any other pull request; or a shrink that no growth supersedes, and whose age is
    unknown or within its time. *)
Definition may_stay (past : list (event call)) (v : view) (status : PRStatus) : Prop :=
  PRDirection (v_state v) ≠ dirShrink ∨
  (DDirection (v_decision v) ≠ DirectionGrow ∧
   (CreatedAt status = Time.zero ∨
    ∃ now, saw past TimeNow now ∧ Time.Sub now (CreatedAt status) <= ShrinkPRTTL (v_policy v))).

(** Merging it is the controller's business. *)
Definition merge_due (v : view) : Prop :=
  EnableAutoMerge r = true ∧ PRDirection (v_state v) ≠ dirShrink ∧
  v_annotations v !! AnnotationAutoMerge ≠ Some "false".

(** It was not the controller's business, or the request was not ready, or
    merging it failed. *)
Definition not_merged (past : list (event call)) (v : view) (status : PRStatus) : Prop :=
  ¬ merge_due v ∨
  (Str.lowers_to (MergeableState status) "unknown" = false ∧
   (¬ ready status ∨ ∃ e, saw past (MergePR (PRID (v_state v)) "squash") (Some e))).

(** What was done about a pull request that the provider reported open. *)
Inductive open_settled (past : list (event call)) (v : view) (status : PRStatus) : Result → Prop :=
| settled_expired reason now :
    has_to_go past v status → saw past (ClosePR (PRID (v_state v)) reason) None →
    applied v (expire_pr now) past → open_settled past v status requeue_now
| settled_merged now :
    merge_due v → ready status → saw past (MergePR (PRID (v_state v)) "squash") None →
    applied v (merged_pr now) past → open_settled past v status requeue_now
| settled_unknown :
    merge_due v → Str.lowers_to (MergeableState status) "unknown" = true →
    open_settled past v status (requeue_after (15 * Time.Second))
| settled_updated :
    may_stay past v status → not_merged past v status → DDirection (v_decision v) = DirectionGrow →
    saw past (UpdatePR (PRID (v_state v)) (QuotaName (v_quota v)) ns (v_annotations v) (Targets (v_decision v))) None →
    open_settled past v status (minutes 5)
| settled_update_no_file e :
    may_stay past v status → not_merged past v status → DDirection (v_decision v) = DirectionGrow →
    saw past (UpdatePR (PRID (v_state v)) (QuotaName (v_quota v)) ns (v_annotations v) (Targets (v_decision v))) (Some e) →
    is_kind ErrFileNotFound e = true → open_settled past v status (minutes 1)
| settled_left_open :
    may_stay past v status → not_merged past v status → DDirection (v_decision v) ≠ DirectionGrow →
    open_settled past v status (minutes 5).

(** What was done about the pull request of the state, and the result. *)
Inductive active_settled (past : list (event call)) (v : view) : Result → Prop :=
| settled_released status now :
    saw past (GetPRStatus (PRID (v_state v))) (Ok (Some status)) → IsOpen status = false →
    applied v (release_pr status now) past → active_settled past v requeue_now
| settled_open status x :
    saw past (GetPRStatus (PRID (v_state v))) (Ok (Some status)) → IsOpen status = true →
    open_settled past v status x → active_settled past v x.

(** *** No pull request *)

(** A change that is proposed: a growth, or a shrink after a scan that succeeded. *)
Definition may_propose (v : view) : Prop :=
  match DDirection (v_decision v) with
  | DirectionNone => False
  | DirectionGrow => True
  | DirectionShrink => v_scan_ok v = true
  end.

(** The provider knows of none. *)
Definition none_open (past : list (event call)) (v : view) : Prop :=
  ∃ d0, saw past (FindOpenPR ns (QuotaName (v_quota v))) (Ok (0, d0)).

(** Every limit of the decision is the one of the quota's specification. *)
Definition unchanged (v : view) : Prop :=
  ∀ res q, Targets (v_decision v) !! res = Some q →
    ∃ cur, SpecHard (v_quota v) !! res = Some cur ∧ q_eq cur q = true.

(** What was done without a pull request in the state. *)
Inductive idle_settled (past : list (event call)) (v : view) : Result → Prop :=
| settled_none :
    DDirection (v_decision v) = DirectionNone → idle_settled past v (minutes 5)
| settled_blind :
    DDirection (v_decision v) = DirectionShrink → v_scan_ok v = false → idle_settled past v (minutes 5)
| settled_adopted id direction :
    may_propose v → saw past (FindOpenPR ns (QuotaName (v_quota v))) (Ok (id, direction)) → id ≠ 0 →
    applied v (set_pr id direction) past → idle_settled past v requeue_now
| settled_noop :
    may_propose v → none_open past v → unchanged v → idle_settled past v (minutes 10)
| settled_waiting now :
    none_open past v → ¬ unchanged v →
    DDirection (v_decision v) = DirectionGrow → LastModified (v_state v) ≠ Time.zero → saw past TimeNow now →
    Time.Sub now (LastModified (v_state v)) < GrowCooldown (v_policy v) →
    idle_settled past v (requeue_after (wrap64
      (wrap64 (GrowCooldown (v_policy v) - Time.Sub now (LastModified (v_state v))) + 1 * Time.Second)))
| settled_created id now :
    may_propose v → none_open past v → ¬ unchanged v →
    saw past (CreatePR (QuotaName (v_quota v)) ns (direction_string (DDirection (v_decision v)))
      (v_annotations v) (Targets (v_decision v))) (Ok id) →
    applied v (with_pr id (DDirection (v_decision v)) now) past → idle_settled past v (minutes 5)
| settled_create_no_file e :
    may_propose v → none_open past v → ¬ unchanged v →
    saw past (CreatePR (QuotaName (v_quota v)) ns (direction_string (DDirection (v_decision v)))
      (v_annotations v) (Targets (v_decision v))) (Err e) →
    is_kind ErrFileNotFound e = true → idle_settled past v (minutes 1).

Definition settled (past : list (event call)) (res : go_result error Result) : Prop :=
  match res with
  | Err _ => True
  | Ok x =>
      (∃ e, saw past (GetQuota ns name) (Err e) ∧ is_kind ErrNotFound e = true ∧ x = done_result) ∨
      (∃ annotations, saw past (GetNamespace ns) (Ok annotations) ∧
        Enabled (ParsePolicy annotations (BasePolicy r)).1 = false ∧ x = done_result) ∨
      (∃ v, consistent r ns name past v ∧
        (if decide (PRID (v_state v) = 0) then idle_settled past v x else active_settled past v x))
  end.

(** ** The proof, from the leaves up *)

Definition any (past : list (event call)) (R : Type) (e : call R) : Prop := True.

Lemma settled_idle past v x :
  consistent r ns name past v → PRID (v_state v) = 0 → idle_settled past v x → settled past (Ok x).
Proof. intros Hv Hid Hx. right; right. exists v. split; [done|]. by rewrite decide_True. Qed.

Lemma settled_active past v x :
  consistent r ns name past v → PRID (v_state v) ≠ 0 → active_settled past v x → settled past (Ok x).
Proof. intros Hv Hid Hx. right; right. exists v. split; [done|]. by rewrite decide_False. Qed.

Lemma settled_while_open past v status x :
  consistent r ns name past v → PRID (v_state v) ≠ 0 →
  saw past (GetPRStatus (PRID (v_state v))) (Ok (Some status)) → IsOpen status = true →
  open_settled past v status x → settled past (Ok x).
Proof. intros Hv Hid Hs Ho Hx. apply (settled_active _ v); [done|done|]. by eapply settled_open. Qed.

Lemma may_stay_mono past past' v status :
  past `prefix_of` past' → may_stay past v status → may_stay past' v status.
Proof.
  intros Hp [H|(Hd & [H|(now & Hs & Ht)])]; [by left|by right; split; [|left]|].
  right. split; [done|]. right. exists now. split; [by eapply saw_mono|done].
Qed.

Lemma not_merged_mono past past' v status :
  past `prefix_of` past' → not_merged past v status → not_merged past' v status.
Proof.
  intros Hp [H|(Hl & [H|(e & H)])]; [by left|by right; split; [|left]|].
  right. split; [done|]. right. exists e. by eapply saw_mono.
Qed.

Lemma is_noop_iff v : is_noop (v_quota v) (Targets (v_decision v)) = true ↔ unchanged v.
Proof.
  unfold is_noop, unchanged. rewrite forallb_forall. split.
  - intros H res q Hq. specialize (H (res, q)). simpl in H. destruct (SpecHard (v_quota v) !! res) as [cur|].
    + exists cur. split; [done|]. by apply H, list_elem_of_In, elem_of_range.
    + exfalso. discriminate H. by apply list_elem_of_In, elem_of_range.
  - intros H [res q] Hq%list_elem_of_In%elem_of_range. destruct (H res q Hq) as (cur & Hc & He).
    simpl. by rewrite Hc.
Qed.

(** What was seen stays seen. *)
Ltac still :=
  first
    [ assumption
    | apply saw_last
    | apply saw_weaken; still
    | apply consistent_weaken; still
    | match goal with
      | H : _ `prefix_of` ?past |- saw ?past _ _ => apply (saw_mono _ _ _ _ H); still
      | H : _ `prefix_of` ?past |- consistent _ _ _ ?past _ => apply (consistent_mono _ _ _ _ _ _ H); still
      end ].

(** A write of the lease, and the result when it succeeds. *)
Lemma settles_write q fn F x past :
  computes any fn F →
  (∀ past', past `prefix_of` past' → written (getLeaseName ns q) F past' → settled past' (Ok x)) →
  guarded any settled (err ⇐ MutateState ns q fn; match err with Some e => Ret (Err e) | None => Ret (Ok x) end) past.
Proof.
  intros Hfn Hx. apply guarded_bind. eapply guarded_weaken; [by apply (guarded_MutateState_written any)|].
  intros past' [e|] _ [Hp Hw]; [done|]. by apply Hx, Hw.
Qed.

Lemma settles_function v f x past :
  (∀ past', past `prefix_of` past' → applied v f past' → settled past' (Ok x)) →
  guarded any settled
    (err ⇐ MutateState ns (QuotaName (v_quota v)) (λ st, Ret (f st)); match err with Some e => Ret (Err e) | None => Ret (Ok x) end) past.
Proof. intros Hx. eapply settles_write; [|exact Hx]. by intros st past'. Qed.

(** An open pull request that the provider has reported. *)
Section open.
Context (v : view) (status : PRStatus) (Hid : PRID (v_state v) ≠ 0) (Ho : IsOpen status = true).

Definition reported (past : list (event call)) : Prop :=
  consistent r ns name past v ∧ saw past (GetPRStatus (PRID (v_state v))) (Ok (Some status)).

Lemma reported_mono past past' : past `prefix_of` past' → reported past → reported past'.
Proof using. intros Hp [Hv Hs]. split; [by eapply consistent_mono|by eapply saw_mono]. Qed.

Lemma settled_reported past x : reported past → open_settled past v status x → settled past (Ok x).
Proof using Hid Ho. intros [Hv Hs] Hx. by apply (settled_while_open _ v status). Qed.

Lemma settles_update_pr past :
  reported past → may_stay past v status → not_merged past v status →
  guarded any settled
    (update_pr ns (QuotaName (v_quota v)) (v_annotations v) (PRID (v_state v)) (v_decision v)) past.
Proof using Hid Ho.
  intros Hr Hstay Hnot. unfold update_pr. destruct (DDirection (v_decision v)) eqn:Ed.
  1,3: apply settled_reported; [done|]; apply settled_left_open; [done|done|by rewrite Ed].
  apply guarded_call; [done|]. intros res.
  set (past' := past ++ _). assert (Hp : past `prefix_of` past') by by apply prefix_app_r.
  assert (Hr' := reported_mono _ _ Hp Hr). assert (Hstay' := may_stay_mono _ _ _ _ Hp Hstay).
  assert (Hnot' := not_merged_mono _ _ _ _ Hp Hnot). unfold past' in *.
  destruct res as [e|]; [destruct (is_kind ErrFileNotFound e) eqn:Ek; [|done]|]; (apply settled_reported; [done|]).
  - eapply settled_update_no_file; try done. still.
  - apply settled_updated; try done. still.
Qed.

Lemma settles_merge_or_update past :
  reported past → may_stay past v status →
  guarded any settled (merge_or_update (EnableAutoMerge r) ns (QuotaName (v_quota v)) (v_annotations v)
    (v_state v) status (v_decision v)) past.
Proof using Hid Ho.
  intros Hr Hstay. unfold merge_or_update. destruct (should_auto_merge _ _ _) eqn:Es.
  2: { apply settles_update_pr; [done|done|]. left. intros Hdue%should_auto_merge_iff. congruence. }
  apply should_auto_merge_iff in Es. destruct (Str.lowers_to _ _) eqn:El.
  { apply settled_reported; [done|]. by apply settled_unknown. }
  destruct (can_attempt_merge status) eqn:Em.
  2: { apply settles_update_pr; [done|done|]. right. split; [done|]. left. intros Hm%can_attempt_merge_iff. congruence. }
  apply can_attempt_merge_iff in Em. apply guarded_call; [done|]. intros [e|].
  - apply settles_update_pr.
    + eapply reported_mono; [|done]. by apply prefix_app_r.
    + eapply may_stay_mono; [|done]. by apply prefix_app_r.
    + right. split; [done|]. right. exists e. still.
  - apply guarded_call; [done|]. intros now. apply settles_function. intros past' Hp Hw. apply settled_reported.
    + eapply reported_mono; [|done]. etransitivity; [|done]. by do 2 apply prefix_app_r.
    + by eapply settled_merged; [| |still|].
Qed.

Lemma settles_shrinkPRShouldClose past (p : option string → prog call (go_result error Result)) :
  PRDirection (v_state v) = dirShrink →
  (∀ past' reason, past `prefix_of` past' → has_to_go past' v status → guarded any settled (p (Some reason)) past') →
  (∀ past', past `prefix_of` past' → may_stay past' v status → guarded any settled (p None) past') →
  guarded any settled (o ⇐ shrinkPRShouldClose (v_policy v) status (v_decision v); p o) past.
Proof using.
  intros Hs Hgo Hstay. unfold shrinkPRShouldClose. destruct (DDirection (v_decision v)) eqn:Ed.
  2: { apply Hgo; [done|]. split; [done|by left]. }
  all: unfold Time.IsZero; destruct (Z.eqb_spec (CreatedAt status) 0) as [Hz|Hz];
    [apply Hstay; [done|]; right; split; [by rewrite Ed|by left]|].
  all: apply guarded_bind, guarded_call; [done|]; intros now;
    destruct (Z.ltb_spec (ShrinkPRTTL (v_policy v)) (Time.Sub now (CreatedAt status)));
    [apply Hgo; [by apply prefix_app_r|]; split; [done|]; right; exists now; by split; [still|]
    |apply Hstay; [by apply prefix_app_r|]; right; split; [by rewrite Ed|]; right; exists now; by split; [still|]].
Qed.

End open.

Lemma settles_handleActivePR v past :
  consistent r ns name past v → PRID (v_state v) ≠ 0 →
  guarded any settled (handleActivePR (EnableAutoMerge r) ns (QuotaName (v_quota v)) (v_annotations v)
    (v_policy v) (v_state v) (v_decision v)) past.
Proof.
  intros Hv Hid. unfold handleActivePR. apply guarded_call; [done|].
  intros [[status|]|e]; [|by split; [|intros []]|done].
  destruct (IsOpen status) eqn:Ho; simpl negb; cbv iota.
  2: { apply guarded_call; [done|]. intros now. apply settles_function. intros past' Hp Hw.
       apply (settled_active _ v); [still|done|]. eapply settled_released; [still|done|done]. }
  assert (Hr : reported v status (past ++ [Event _ (GetPRStatus (PRID (v_state v))) (Ok (Some status))])).
  { split; still. }
  destruct (String.eqb_spec (PRDirection (v_state v)) dirShrink) as [Hs|Hs].
  2: { apply settles_merge_or_update; [done|done|done|by left]. }
  apply (settles_shrinkPRShouldClose v status); [done| |].
  - intros past' reason Hp Hgo. apply guarded_call; [done|]. intros [e|]; [done|]. apply guarded_call; [done|].
    intros now. apply settles_function. intros past'' Hp' Hw.
    assert (Hpp : past' `prefix_of` past'') by (etransitivity; [|done]; by do 2 apply prefix_app_r).
    apply (settled_reported v status); [done|done|by apply (reported_mono v status _ _ Hpp), (reported_mono v status _ _ Hp)|].
    eapply settled_expired; [|still|done]. destruct Hgo as [_ [Hg|(t & Ht & Hc)]]; (split; [done|]); [by left|].
    right. exists t. split; [by eapply saw_mono|done].
  - intros past' Hp Hst. by apply settles_merge_or_update; [| |eapply reported_mono|].
Qed.

Lemma none_open_mono past past' v : past `prefix_of` past' → none_open past v → none_open past' v.
Proof. intros Hp (d0 & Hf). exists d0. by eapply saw_mono. Qed.

Lemma settles_open_pr v past :
  consistent r ns name past v → PRID (v_state v) = 0 → may_propose v → none_open past v → ¬ unchanged v →
  guarded any settled (open_pr ns (v_quota v) (v_annotations v) (v_decision v)) past.
Proof.
  intros Hv Hid Hm Hnone Hch. unfold open_pr. apply guarded_bind. apply (guarded_quiet _ _ (λ _ _, True)).
  { apply quiet_pfold. intros [] [res q]. unfold recommend. by destruct (DDirection (v_decision v)). }
  { done. }
  intros past1 [] Hp1. apply guarded_call; [done|]. intros [id|e].
  - apply (settles_write _ _ (λ st st', ∃ now, st' = with_pr id (DDirection (v_decision v)) now st)).
    + intros st past2. unfold record_pr. split; [done|]. intros now. split; [by apply prefix_app_r|by exists now].
    + intros past2 Hp2 (l & st' & Hl & (now & ->) & Hw). apply (settled_idle _ v); [still|done|].
      apply (settled_created _ _ id now); [done| |done|still|].
      * eapply none_open_mono; [|done]. etransitivity; [done|]. etransitivity; [|done]. by apply prefix_app_r.
      * by exists l, (with_pr id (DDirection (v_decision v)) now (stateFromLease l)).
  - destruct (is_kind ErrFileNotFound e) eqn:Ek; [|done]. apply (settled_idle _ v); [still|done|].
    eapply settled_create_no_file; [done| |done|still|done].
    eapply none_open_mono; [|done]. etransitivity; [done|]. by apply prefix_app_r.
Qed.

Lemma settles_handleNewProposal v past :
  consistent r ns name past v → PRID (v_state v) = 0 → may_propose v →
  guarded any settled (handleNewProposal ns (v_quota v) (v_annotations v) (v_policy v) (v_state v)
    (v_decision v)) past.
Proof.
  intros Hv Hid Hm. unfold handleNewProposal. apply guarded_call; [done|].
  intros [[id d0]|e]; [|done]. destruct (Z.eqb_spec id 0) as [->|Hne]; simpl negb; cbv iota.
  2: { apply settles_function. intros past' Hp Hw. apply (settled_idle _ v); [still|done|].
       eapply settled_adopted; [done|still|done|done]. }
  assert (Hnone : none_open (past ++ [Event _ (FindOpenPR ns (QuotaName (v_quota v))) (Ok (0, d0))]) v).
  { exists d0. still. }
  destruct (is_noop _ _) eqn:En.
  { apply (settled_idle _ v); [still|done|]. by apply settled_noop, is_noop_iff. }
  assert (Hch : ¬ unchanged v) by (intros Hu%is_noop_iff; congruence).
  unfold grow_cooldown. destruct (DDirection (v_decision v)) eqn:Ed; try (apply settles_open_pr; [still|done..]).
  destruct (Time.IsZero _) eqn:Ez; [apply settles_open_pr; [still|done..]|].
  apply guarded_bind. apply guarded_call; [done|]. intros now.
  match goal with |- context [?p ++ [Event Z TimeNow now]] =>
    eapply (none_open_mono p (p ++ [Event Z TimeNow now])) in Hnone; [|by apply prefix_app_r] end.
  destruct (Z.ltb_spec (Time.Sub now (LastModified (v_state v))) (GrowCooldown (v_policy v))).
  - apply (settled_idle _ v); [still|done|]. apply settled_waiting; [done|done|done| |still|done].
    unfold Time.IsZero in Ez. by apply Z.eqb_neq.
  - apply settles_open_pr; [still|done..].
Qed.

Lemma settles_act_on v past :
  consistent r ns name past v →
  guarded any settled (act_on r ns (v_quota v) (v_annotations v) (v_policy v) (v_state v) (negb (v_scan_ok v))
    (v_decision v)) past.
Proof.
  intros Hv. unfold act_on. apply guarded_bind. apply (guarded_quiet _ _ unguarded).
  { apply quiet_recordDecision. }
  { done. }
  intros past1 [] Hp1. destruct (Z.eqb_spec (PRID (v_state v)) 0) as [Hid|Hid]; simpl negb; cbv iota.
  - destruct (DDirection (v_decision v)) eqn:Ed.
    + apply (settled_idle _ v); [still|done|by apply settled_none].
    + apply settles_handleNewProposal; [still|done|]. unfold may_propose. by rewrite Ed.
    + destruct (v_scan_ok v) eqn:Es; [apply settles_handleNewProposal; [still|done|]; unfold may_propose; by rewrite Ed|].
      apply (settled_idle _ v); [still|done|by apply settled_blind].
  - apply settles_handleActivePR; [still|done].
Qed.

End outcomes.

Section theorem.
Context {KQ : KubeQuantity} {KS : KubeSchema} {GR : GoRange} {RP : RetryPolicy}.
Context {GQ : GoQuote} {GA : GoArch}.

Lemma Reconcile_settles (r : ResourceQuotaReconciler) (ns name : string) :
  every_outcome (settled r ns name) (Reconcile r ns name).
Proof.
  apply (guarded_every_outcome (call_ok r ns name)). apply guarded_whole.
  - done.
  - intros v past Hv. eapply guarded_strengthen; [|eapply guarded_weaken; [apply guarded_both|]].
    + by intros past' R e [H _].
    + by apply guarded_act_on.
    + by apply settles_act_on.
    + by intros past' a _ [_ H].
  - intros past e He Hk. left. by exists e.
  - intros past annotations Ha He. right; left. by exists annotations.
Qed.


End theorem.
