(* ===== verification/LockGC.v ===== *)
(** * The garbage collector deletes only orphans

    What a run of the collector may do: it deletes a lease only when it listed
    the lease as managed and the API server reported the lease's target namespace
    as not found, and it writes nothing else. *)

From S2P Require Export LeaseLocker.
From stdpp Require Export sorting base option gmap strings list fin_maps.

Open Scope Z_scope.
Open Scope prog_scope.

Section gc.
Context {KQ : KubeQuantity} {KS : KubeSchema}.

(** The lease was listed, and its namespace was then reported missing. *)
Definition orphan_seen (past : list (event call)) (lease : Lease) : Prop :=
  ∃ leases e,
    saw past (ListLeases {[ labelManagedBy := managedByValue ]}) (Ok leases) ∧ lease ∈ leases ∧
    get_string (LeaseLabels lease) labelTargetNS ≠ "" ∧
    saw past (GetNamespace (get_string (LeaseLabels lease) labelTargetNS)) (Err e) ∧
    is_kind ErrNotFound e = true.

(** The collector lists leases, looks up namespaces, and deletes orphans. *)
Definition gc_call_ok (past : list (event call)) (R : Type) (e : call R) : Prop :=
  match e with
  | DeleteLease lease => orphan_seen past lease
  | ListLeases _ | GetNamespace _ => True
  | _ => False
  end.

Lemma guarded_collect_lease lease leases past :
  saw past (ListLeases {[ labelManagedBy := managedByValue ]}) (Ok leases) → lease ∈ leases →
  guarded gc_call_ok (λ past' _, past `prefix_of` past') (collect_lease tt lease) past.
Proof.
  intros Hl Hin. unfold collect_lease.
  destruct (String.eqb_spec (get_string (LeaseLabels lease) labelTargetNS) "") as [|Hne]; [by simpl|].
  apply guarded_call; [done|]. intros [ann|e]; [by apply prefix_app_r|].
  destruct (is_kind ErrNotFound e) eqn:Ek; [|by apply prefix_app_r]. apply guarded_call.
  - exists leases, e. split_and!; try done; [by apply (saw_mono past); [apply prefix_app_r|]|apply saw_last].
  - intros err. by do 2 apply prefix_app_r.
Qed.

Lemma guarded_cleanup past :
  guarded gc_call_ok (λ past' _, past `prefix_of` past') cleanup past.
Proof.
  unfold cleanup. apply guarded_call; [done|]. intros [leases|e]; [|by apply prefix_app_r].
  set (past1 := past ++ [_]). apply guarded_bind.
  apply (guarded_weaken _ (λ past' _, past1 `prefix_of` past')).
  - apply guarded_pfold; [|done]. intros lease [] past' Hin Hp _.
    eapply guarded_weaken; [apply (guarded_collect_lease lease leases)|].
    + apply (saw_mono past1); [done|]. apply saw_last.
    + done.
    + intros past'' [] _ Hp'. by etransitivity.
  - intros past' [] _ Hp. simpl. etransitivity; [|exact Hp]. by apply prefix_app_r.
Qed.

Lemma guarded_gc_start ticks : guarded gc_call_ok (λ _ _, True) (gc_start ticks) [].
Proof.
  unfold gc_start. apply guarded_bind. eapply guarded_weaken; [apply guarded_cleanup|].
  intros past' _ _ _. apply guarded_pfold; [|done]. intros x [] past'' _ _ _. apply guarded_bind.
  eapply guarded_weaken; [apply guarded_cleanup|done].
Qed.

(** C33. In every run of the collector, however often it ticks, a lease is deleted
    only after it was listed as managed by the resizer and its target namespace
    was reported not found; a failed lookup deletes nothing. The collector
    changes nothing else. *)
Theorem gc_deletes_only_orphans ticks : every_call gc_call_ok (gc_start ticks).
Proof. eapply guarded_every_call, guarded_gc_start. Qed.

End gc.
