(* ===== verification/System.v ===== *)
(** * The controller as a whole: a shrink is never merged by it

    Any number of reconciliations, of any quotas and after any restarts, and
    runs of the garbage collector, interleaved. What is assumed of the outside is
    [env_law]: a lease read back was once written, and the provider reports a
    pull request in the direction it was created with, under a number of its
    own. Leases may be stale, writes may be lost or applied in spite of an
    error, names of leases may collide. *)

From S2P Require Export ReconcileGuards LockGC LeaseStateFacts.
From stdpp Require Export sorting base option gmap strings list fin_maps.

Open Scope Z_scope.
Open Scope prog_scope.

Section system.
Context {KQ : KubeQuantity} {KS : KubeSchema} {GR : GoRange} {RP : RetryPolicy}.
Context {GQ : GoQuote} {GA : GoArch}.

Local Abbreviation history := (list (event call)).

(** The pull request [id] was created, or found, as one of direction [d]. *)
Definition created_as (w : history) (id : Z) (d : string) : Prop :=
  ∃ q ns ann lim, saw w (CreatePR q ns d ann lim) (Ok id).
Definition found_as (w : history) (id : Z) (d : string) : Prop :=
  ∃ ns q, saw w (FindOpenPR ns q) (Ok (id, d)).

(** A lease with this holder and these annotations was sent to the server. *)
Definition was_written (w : history) (lease : Lease) : Prop :=
  ∃ l r, (saw w (UpdateLease l) r ∨ saw w (CreateLease l) r) ∧
    HolderIdentity lease = HolderIdentity l ∧ LeaseAnnotations lease = LeaseAnnotations l.

Definition env_law (w : history) (R : Type) (e : call R) : R → Prop :=
  match e in call R return R → Prop with
  | GetLease n => λ res, match res with Ok lease => was_written w lease | Err _ => True end
  | FindOpenPR ns q => λ res,
      match res with
      | Ok (id, d) => in_int64 id ∧ ∀ d', created_as w id d' → d = d'
      | Err _ => True
      end
  | CreatePR q ns d ann lim => λ res,
      match res with
      | Ok id => in_int64 id ∧ (∀ d', ¬ created_as w id d') ∧ (∀ d', ¬ found_as w id d')
      | Err _ => True
      end
  | _ => λ _, True
  end.

(** The programs of the controller. *)
Inductive controller : prog call unit → Prop :=
| run_reconcile r ns name : controller (_ ⇐ Reconcile r ns name; Ret tt)
| run_gc ticks : controller (gc_start ticks).

Definition controller_call (past : history) (R : Type) (e : call R) : Prop :=
  (∃ r ns name, call_ok r ns name past R e) ∨ gc_call_ok past R e.

Lemma controller_guarded p : controller p → guarded controller_call (λ _ _, True) p [].
Proof.
  intros [r ns name|ticks].
  - apply guarded_bind. apply (guarded_strengthen (call_ok r ns name)).
    + intros past R e Hc. left. by exists r, ns, name.
    + eapply guarded_weaken; [apply guarded_Reconcile|done].
  - apply (guarded_strengthen gc_call_ok); [|apply guarded_gc_start]. intros past R e Hc. by right.
Qed.

(** ** What leases record *)

(** The pull request and the direction of a state come from the provider. *)
Definition legit (w : history) (st : State) : Prop :=
  PRID st = 0 ∨
  in_int64 (PRID st) ∧ (found_as w (PRID st) (PRDirection st) ∨ created_as w (PRID st) (PRDirection st)).

Definition legit_lease (w : history) (lease : Lease) : Prop := legit w (stateFromLease lease).

Lemma legit_mono w w' st : w ⊆ w' → legit w st → legit w' st.
Proof.
  intros Hw [H|[Hi H]]; [by left|]. right. split; [done|].
  destruct H as [(ns & q & H)|(q & ns & ann & lim & H)].
  - left. exists ns, q. by apply Hw.
  - right. exists q, ns, ann, lim. by apply Hw.
Qed.

Lemma legit_written w lease l :
  HolderIdentity lease = HolderIdentity l → LeaseAnnotations lease = LeaseAnnotations l →
  legit_lease w l → legit_lease w lease.
Proof. intros Hh Ha. unfold legit_lease, stateFromLease. by rewrite Hh, Ha. Qed.

(** Writing a legitimate state gives a legitimate lease. *)
Lemma legit_apply w st lease : legit w st → legit_lease w (applyStateToLease st lease).
Proof.
  unfold legit_lease, legit. unfold stateFromLease, applyStateToLease. cbn [HolderIdentity LeaseAnnotations PRID PRDirection].
  intros [Hz|[Hi H]].
  - left. by rewrite Hz.
  - destruct (Z.eqb_spec (PRID st) 0) as [Hz|Hz]; [by left|].
    rewrite Sscanf_pr_Itoa by done. simpl. right. split; [done|].
    unfold get_string at 1 2. rewrite setString_ne by discriminate.
    change (default "" (setString AnnotationPRDirection (PRDirection st) ?m !! AnnotationPRDirection))
      with (get_string (setString AnnotationPRDirection (PRDirection st) m) AnnotationPRDirection).
    by rewrite !get_setString.
Qed.

(** ** Runs of the controller *)

Section run.
Context (ps : list (prog call unit)) (w : history) (Hrun : pool_run env_law controller ps w).

Lemma event_at i ev : w !! i = Some ev → call_in_pool env_law controller_call (take i w) ev.
Proof using Hrun.
  intros Hi. destruct (pool_guarded _ _ controller_call ps w controller_guarded Hrun) as [_ H].
  apply (H _ _ (drop (S i) w)). symmetry. by apply take_drop_middle.
Qed.

Lemma saw_at n {R} (e : call R) res :
  saw (take n w) e res → ∃ j, (j < n)%nat ∧ w !! j = Some (Event _ e res).
Proof using.
  intros [j Hj]%list_elem_of_lookup. exists j. rewrite lookup_take_Some in Hj. by destruct Hj.
Qed.

Lemma saw_of n j {R} (e : call R) res :
  w !! j = Some (Event _ e res) → (j < n)%nat → saw (take n w) e res.
Proof using.
  intros Hj Hn. apply list_elem_of_lookup. exists j. by rewrite lookup_take_Some.
Qed.

Lemma take_subseteq i j : (i <= j)%nat → take i w ⊆ take j w.
Proof using.
  intros Hij x [k Hk]%list_elem_of_lookup. apply lookup_take_Some in Hk as [Hk Hlt].
  apply list_elem_of_lookup. exists k. apply lookup_take_Some. split; [done|lia].
Qed.

Lemma scanned_int64 identity id : Sscanf_pr identity = Some id → in_int64 id.
Proof using.
  unfold Sscanf_pr. destruct (Str.strip_prefix _ _); [|done]. unfold scan_int.
  destruct (LeaseState.skip_space _ _); [|done]. destruct (scan_sign _) as [neg s'].
  destruct (Str.digits _); [|done]. case_decide; [by intros [= <-]|done].
Qed.

(** A transition from a legitimate state, on what a reconciliation has seen, gives
    a legitimate state. *)
Lemma legit_transition i r ns name past st st' :
  past ⊆ take i w → transition r ns name past st st' → legit (take i w) st → legit (take i w) st'.
Proof using Hrun.
  intros Hsub Ht Hst.
  assert (Hlaw : ∀ R (e : call R) res, saw past e res →
    ∃ j, (j < i)%nat ∧ w !! j = Some (Event _ e res) ∧ env_law (take j w) R e res).
  { intros R e res Hs. apply Hsub in Hs. destruct (saw_at _ _ _ Hs) as (j & Hj & He).
    exists j. split; [done|]. split; [done|]. apply (event_at _ _ He). }
  destruct Ht as [enc|v status now _ _ _ _ _|v reason now _ _ _ _|v now _ _ _ _|v id d _ _ Hf Hne|v id d now _ _ _ Hd Hc _];
    [done|by left|by left|by left|right|right].
  - destruct (Hlaw _ _ _ Hf) as (j & Hj & He & Hl). split; [apply Hl|].
    left. exists ns, (QuotaName (v_quota v)). by eapply saw_of.
  - destruct (Hlaw _ _ _ Hc) as (j & Hj & He & [Hi _]). split; [done|]. right.
    exists (QuotaName (v_quota v)), ns, (v_annotations v), (Targets (v_decision v)). by eapply saw_of.
Qed.

Lemma written_legit i l res :
  w !! i = Some (Event _ (UpdateLease l) res) ∨ w !! i = Some (Event _ (CreateLease l) res) →
  legit_lease (take i w) l.
Proof using Hrun.
  revert l res. induction (lt_wf i) as [i _ IH]. intros l res [Hi|Hi].
  - destruct (event_at _ _ Hi) as [(past & Hsub & [(r & ns & name & Hok)|[]]) _]. simpl in Hok.
    destruct Hok as (quota & n & lease & st' & _ & _ & Hread%last_read_saw & Ht & ->).
    apply legit_apply. eapply legit_transition; [done|done|].
    destruct (saw_at _ _ _ (Hsub _ Hread)) as (j & Hj & He).
    destruct (event_at _ _ He) as [_ Hl]. simpl in Hl. destruct Hl as (l0 & res0 & Hw & Hh & Ha).
    eapply legit_mono; [apply (take_subseteq j); lia|]. apply (legit_written _ _ l0); [done|done|].
    destruct Hw as [Hw|Hw]; destruct (saw_at _ _ _ Hw) as (k & Hk & Hek);
      (eapply legit_mono; [apply (take_subseteq k); lia|]); eapply IH; eauto; lia.
  - destruct (event_at _ _ Hi) as [(past & Hsub & [(r & ns & name & Hok)|[]]) _]. simpl in Hok.
    left. unfold stateFromLease. by rewrite (proj1 Hok).
Qed.

(** So is whatever is read. *)
Lemma read_legit i ns q st past :
  past ⊆ take i w → state_read past ns q st → legit (take i w) st.
Proof using Hrun.
  intros Hsub [(lease & Hread & ->)|(e & _ & _ & ->)]; [|by left].
  destruct (saw_at _ _ _ (Hsub _ Hread)) as (j & Hj & He).
  destruct (event_at _ _ He) as [_ Hl]. simpl in Hl. destruct Hl as (l0 & res0 & Hw & Hh & Ha).
  eapply legit_mono; [apply (take_subseteq j); lia|]. apply (legit_written _ _ l0); [done|done|].
  destruct Hw as [Hw|Hw]; destruct (saw_at _ _ _ Hw) as (k & Hk & Hek);
    (eapply legit_mono; [apply (take_subseteq k); lia|]); eapply written_legit; eauto.
Qed.

(** ** Directions do not change *)

Definition created_direction (ev : event call) : option string :=
  match ev_call ev with CreatePR _ _ d _ _ => Some d | _ => None end.

Lemma created_once i id d d' : created_as (take i w) id d → created_as (take i w) id d' → d = d'.
Proof using Hrun.
  intros (q & ns & ann & lim & H) (q' & ns' & ann' & lim' & H').
  destruct (saw_at _ _ _ H) as (j & Hj & He). destruct (saw_at _ _ _ H') as (j' & Hj' & He').
  destruct (lt_eq_lt_dec j j') as [[Hlt|<-]|Hlt].
  - destruct (event_at _ _ He') as [_ (_ & Hno & _)]. destruct (Hno d).
    exists q, ns, ann, lim. by eapply saw_of.
  - rewrite He in He'. apply (f_equal (option_map created_direction)) in He'. by injection He'.
  - destruct (event_at _ _ He) as [_ (_ & Hno & _)]. destruct (Hno d').
    exists q', ns', ann', lim'. by eapply saw_of.
Qed.

Lemma found_as_created i id d d' : found_as (take i w) id d → created_as (take i w) id d' → d = d'.
Proof using Hrun.
  intros (ns & q & H) (q' & ns' & ann' & lim' & H').
  destruct (saw_at _ _ _ H) as (j & Hj & He). destruct (saw_at _ _ _ H') as (j' & Hj' & He').
  destruct (lt_eq_lt_dec j j') as [[Hlt|<-]|Hlt].
  - destruct (event_at _ _ He') as [_ (_ & _ & Hno)]. destruct (Hno d). exists ns, q. by eapply saw_of.
  - rewrite He in He'. apply (f_equal (option_map created_direction)) in He'. discriminate.
  - destruct (event_at _ _ He) as [_ [_ Hd]]. apply Hd. exists q', ns', ann', lim'. by eapply saw_of.
Qed.

End run.

(** C1. In every interleaved run of reconciliations and of the garbage collector,
    with restarts at any point, the controller never merges a pull request that
    it created as a shrink: not from stale leases, lost or ambiguous writes, or
    after adopting it again. *)
Theorem shrink_never_merged ps w i id method res :
  pool_run env_law controller ps w →
  w !! i = Some (Event _ (MergePR id method) res) → ¬ created_as (take i w) id dirShrink.
Proof.
  intros Hrun Hi Hc. destruct (event_at ps w Hrun i _ Hi) as [(past & Hsub & [(r & ns & name & Hok)|[]]) _].
  destruct Hok as (v & status & Hv & Hid & Hne & _ & _ & Hdir & _).
  destruct (read_legit ps w Hrun i _ _ _ past Hsub (c_state _ _ _ _ _ Hv)) as [Hz|[_ Hl]]; [congruence|].
  apply Hdir. rewrite <- Hid in Hl. destruct Hl as [Hf|Hc'].
  - by eapply found_as_created.
  - by eapply created_once.
Qed.

End system.
