(* ===== verification/Demo.v ===== *)
(** * A concrete cluster

    An executable stand-in for the API server, the Git provider and the clock,
    with one quota that is fully used. The examples that show that the
    hypotheses of a theorem can hold run the controller against it. *)

From S2P Require Export System.
From stdpp Require Export sorting base option gmap strings list fin_maps.

Open Scope Z_scope.
Open Scope prog_scope.

Module Demo.

#[export] Existing Instances nano_quantity range_ascending plain_quote amd64.

Definition schema : KubeSchema := {| GroupVersion := string; ParseGroupVersion s := Some s |}.
Definition retries : RetryPolicy := {| retry_more := 4 |}.
#[export] Existing Instances schema retries.

(** 27 July 2025, 12:00 UTC. *)
Definition noon : Z := 63889214400 * Time.Second.

Definition cpu (n : Z) : gmap string Quantity := {[ "requests.cpu" := NewQuantity n DecimalSI ]}.

Definition full_quota : ResourceQuota := {|
  QuotaNamespace := "team"; QuotaName := "compute"; QuotaUID := "u1";
  SpecHard := cpu 4; StatusHard := cpu 4; StatusUsed := cpu 4
|}.

Definition not_found : error := mk_error ErrNotFound "not found".

(** The stand-in's state: the lease, the cached window, the time, and the pull
    request that is open. *)
Record world := {
  w_lease : option Lease; w_cache : option Window; w_time : Z; w_pr : option (Z * string)
}.

Definition start : world := {| w_lease := None; w_cache := None; w_time := noon; w_pr := None |}.

Definition set_lease (l : Lease) (w : world) : world :=
  {| w_lease := Some l; w_cache := w_cache w; w_time := w_time w; w_pr := w_pr w |}.

Definition ready : PRStatus := {|
  IsOpen := true; IsMerged := false; Mergeable := true; MergeableState := MergeableStateClean;
  ChecksState := ChecksStateSuccess; ChecksTotalCount := 1; CreatedAt := noon
|}.

Definition serve (R : Type) (e : call R) (w : world) : option (R * world) :=
  match e in call R return option (R * world) with
  | TimeNow => Some (w_time w,
      {| w_lease := w_lease w; w_cache := w_cache w; w_time := w_time w + Time.Second; w_pr := w_pr w |})
  | GetLease _ => Some (match w_lease w with Some l => Ok l | None => Err not_found end, w)
  | CreateLease l => Some (None, set_lease l w)
  | UpdateLease l => Some (None, set_lease l w)
  | DeleteLease _ => Some (None, w)
  | ListLeases _ => Some (Ok [], w)
  | GetQuota _ _ => Some (Ok full_quota, w)
  | GetNamespace _ => Some (Ok ∅, w)
  | ListEvents _ => Some (Ok [], w)
  | GetStatefulSet _ _ => Some (Err not_found, w)
  | GetDaemonSet _ _ => Some (Err not_found, w)
  | GetReplicaSet _ _ => Some (Err not_found, w)
  | GetPod _ _ => Some (Some not_found, w)
  | GetUnstructured _ _ _ _ => Some (Some not_found, w)
  | RecordEvent _ _ _ _ => Some (tt, w)
  | GetPRStatus _ => Some (Ok (Some ready), w)
  | MergePR _ _ => Some (None, w)
  | CreatePR _ _ d _ _ => Some (Ok 7,
      {| w_lease := w_lease w; w_cache := w_cache w; w_time := w_time w; w_pr := Some (7, d) |})
  | UpdatePR _ _ _ _ _ => Some (None, w)
  | FindOpenPR _ _ => Some (Ok (default (0, "") (w_pr w)), w)
  | ClosePR _ _ => Some (None, w)
  | CacheRead _ => Some (w_cache w, w)
  | CacheWrite _ v => Some (tt,
      {| w_lease := w_lease w; w_cache := Some v; w_time := w_time w; w_pr := w_pr w |})
  | CacheDelete _ => Some (tt, w)
  | SetGauge _ _ _ => Some (tt, w)
  | DeleteSeries _ _ => Some (tt, w)
  | IncCounter _ _ => Some (tt, w)
  | Panic => None
  end.

Definition reconciler : ResourceQuotaReconciler :=
  {| BasePolicy := DefaultPolicy; EnableAutoMerge := true |}.

(** Two reconciliations: the first opens a pull request, the second merges it. *)
Definition twice : prog call (go_result error Result * go_result error Result) :=
  a ⇐ Reconcile reconciler "team" "compute";
  b ⇐ Reconcile reconciler "team" "compute";
  Ret (a, b).

Definition twice_run := run serve twice start.

Example twice_results :
  (λ x, x.1.1) <$> twice_run = Some (Ok (requeue_after (5 * Time.Minute)), Ok requeue_now).
Proof. vm_compute. reflexivity. Qed.

End Demo.

(** ** A run in which a pull request is merged

    The concrete cluster obeys the law of [System.v]: its run is a run of the
    controller, with a merge in it. *)

Module SystemWitness.
Import Demo.

Local Abbreviation history := (list (event call)).

(** ** The law, as a test *)

Definition created (ev : event call) : option (Z * string) :=
  match ev with
  | Event R e r =>
      match e in call R return R → option (Z * string) with
      | CreatePR _ _ d _ _ => λ res, match res with Ok id => Some (id, d) | Err _ => None end
      | _ => λ _, None
      end r
  end.

Definition found (ev : event call) : option (Z * string) :=
  match ev with
  | Event R e r =>
      match e in call R return R → option (Z * string) with
      | FindOpenPR _ _ => λ res, match res with Ok (id, d) => Some (id, d) | Err _ => None end
      | _ => λ _, None
      end r
  end.

Definition same_record (a b : Lease) : bool :=
  bool_decide (HolderIdentity a = HolderIdentity b ∧ LeaseAnnotations a = LeaseAnnotations b).

Definition env_check (w : history) (ev : event call) : bool :=
  match ev with
  | Event R e r =>
      match e in call R return R → bool with
      | GetLease _ => λ res,
          match res with
          | Ok lease => existsb (λ ev', match ev_call ev' with
                                        | UpdateLease l | CreateLease l => same_record lease l
                                        | _ => false
                                        end) w
          | Err _ => true
          end
      | FindOpenPR _ _ => λ res,
          match res with
          | Ok (id, d) => bool_decide (in_int64 id) &&
              forallb (λ ev', match created ev' with
                              | Some (id', d') => negb (id =? id') || String.eqb d d'
                              | None => true
                              end) w
          | Err _ => true
          end
      | CreatePR _ _ _ _ _ => λ res,
          match res with
          | Ok id => bool_decide (in_int64 id) &&
              forallb (λ ev', match created ev' with Some (id', _) => negb (id =? id') | None => true end) w &&
              forallb (λ ev', match found ev' with Some (id', _) => negb (id =? id') | None => true end) w
          | Err _ => true
          end
      | _ => λ _, true
      end r
  end.

Lemma created_as_event w id d : created_as w id d → ∃ ev, In ev w ∧ created ev = Some (id, d).
Proof. intros (q & ns & ann & lim & H). eexists. split; [apply list_elem_of_In, H|done]. Qed.

Lemma found_as_event w id d : found_as w id d → ∃ ev, In ev w ∧ found ev = Some (id, d).
Proof. intros (ns & q & H). eexists. split; [apply list_elem_of_In, H|done]. Qed.

Lemma env_check_sound w ev : env_check w ev = true → env_law w _ (ev_call ev) (ev_resp ev).
Proof.
  destruct ev as [R e r]. destruct e; simpl; try done.
  - destruct r as [lease|]; [|done]. intros H. apply existsb_exists in H as ([R' e' r'] & Hin%list_elem_of_In & Hs).
    destruct e'; try done; apply bool_decide_eq_true in Hs as [Hh Ha].
    + exists lease0, r'. split; [by right|done].
    + exists lease0, r'. split; [by left|done].
  - destruct r as [id|]; [|done]. intros [[Hi%bool_decide_eq_true Hc]%andb_true_iff Hf]%andb_true_iff.
    rewrite forallb_forall in Hc, Hf. split; [done|]. split.
    + intros d (ev & Hin & He)%created_as_event. apply Hc in Hin. rewrite He, Z.eqb_refl in Hin. done.
    + intros d (ev & Hin & He)%found_as_event. apply Hf in Hin. rewrite He, Z.eqb_refl in Hin. done.
  - destruct r as [[id d]|]; [|done]. intros [Hi%bool_decide_eq_true Hc]%andb_true_iff.
    rewrite forallb_forall in Hc. split; [done|].
    intros d' (ev & Hin & He)%created_as_event. apply Hc in Hin. rewrite He, Z.eqb_refl in Hin.
    by apply String.eqb_eq.
Qed.

Fixpoint checked (check : history → event call → bool) (w tr : history) : bool :=
  match tr with
  | [] => true
  | ev :: tr => check w ev && checked check (w ++ [ev]) tr
  end.

Lemma checked_sound check (law : history → ∀ R, call R → R → Prop) w tr :
  (∀ w ev, check w ev = true → law w _ (ev_call ev) (ev_resp ev)) → checked check w tr = true →
  ∀ i ev, tr !! i = Some ev → law (w ++ take i tr) _ (ev_call ev) (ev_resp ev).
Proof.
  intros Hc. revert w. induction tr as [|ev tr IH]; intros w H i ev' Hi; [done|].
  simpl in H. apply andb_true_iff in H as [He Ht]. destruct i as [|i].
  - injection Hi as <-. simpl. rewrite app_nil_r. by apply Hc.
  - simpl. rewrite cons_middle, app_assoc. by apply IH.
Qed.

(** ** The run *)

(** The events of a run, and the world after it. *)
Definition trace_of (p : prog call unit) (w : world) : history :=
  match run serve p w with Some (_, _, tr) => tr | None => [] end.
Definition world_after (p : prog call unit) (w : world) : world :=
  match run serve p w with Some (_, w, _) => w | None => w end.
Definition finishes (p : prog call unit) (w : world) : bool :=
  match run serve p w with Some _ => true | None => false end.

Lemma trace_of_steps p w : finishes p w = true → steps p (trace_of p w) (Ret tt).
Proof.
  unfold finishes, trace_of. destruct (run serve p w) as [[[[] w'] tr]|] eqn:E; [|done].
  intros _. eapply run_steps, E.
Qed.

(** Two reconciliations, one after the other, in one pool. *)
Definition pass : prog call unit := (_ ⇐ Reconcile reconciler "team" "compute"; Ret tt)%prog.
Definition first_trace : history := trace_of pass start.
Definition second_trace : history := trace_of pass (world_after pass start).
Definition demo_trace : history := first_trace ++ second_trace.

Lemma first_steps : steps pass first_trace (Ret tt).
Proof. apply trace_of_steps. vm_compute. reflexivity. Qed.

Lemma second_steps : steps pass second_trace (Ret tt).
Proof. apply trace_of_steps. vm_compute. reflexivity. Qed.

Lemma demo_checked : checked env_check [] demo_trace = true.
Proof. vm_compute. reflexivity. Qed.

Lemma demo_law i ev : demo_trace !! i = Some ev → env_law (take i demo_trace) _ (ev_call ev) (ev_resp ev).
Proof. apply (checked_sound env_check env_law [] demo_trace env_check_sound demo_checked). Qed.

Lemma demo_pool : pool_run env_law controller [Ret tt; Ret tt] demo_trace.
Proof.
  exact (pool_two env_law controller pass pass (Ret tt) (Ret tt) first_trace second_trace
    (run_reconcile _ _ _) (run_reconcile _ _ _) first_steps second_steps demo_law).
Qed.

(** There is a merge in it. *)
Definition is_merge (id : Z) (ev : event call) : bool :=
  match ev_call ev with MergePR id' m => (id' =? id) && String.eqb m "squash" | _ => false end.

Lemma is_merge_event id ev :
  is_merge id ev = true → ∃ res, ev = Event (option error) (MergePR id "squash") res.
Proof.
  destruct ev as [R e res]. destruct e; try done. unfold is_merge. simpl.
  intros [->%Z.eqb_eq ->%String.eqb_eq]%andb_true_iff. by exists res.
Qed.

Lemma demo_merge :
  ∃ i res, demo_trace !! i = Some (Event (option error) (MergePR 7 "squash") res).
Proof.
  assert (existsb (is_merge 7) demo_trace = true) as H by (vm_compute; reflexivity).
  apply existsb_exists in H as (ev & Hin%list_elem_of_In & Hm).
  apply list_elem_of_lookup in Hin as [i Hi]. destruct (is_merge_event _ _ Hm) as [res ->]. by exists i, res.
Qed.

Lemma shrink_never_merged_witness :
  ∃ i res, demo_trace !! i = Some (Event (option error) (MergePR 7 "squash") res) ∧
    ¬ created_as (take i demo_trace) 7 dirShrink.
Proof.
  destruct demo_merge as (i & res & Hres). exists i, res. split; [exact Hres|].
  exact (shrink_never_merged _ _ _ _ _ _ demo_pool Hres).
Defined.

End SystemWitness.
