(* ===== verification/GitHubFind.v ===== *)
(** * Finding the pull request of a quota

    The branch that [CreatePR] makes is recognised by [FindOpenPR] for the same
    namespace and quota, with its direction, and for no other; and the loop of
    [FindOpenPR] over the pages finds what a search of the whole list finds. *)

From S2P Require Export GitHub.
From stdpp Require Export sorting base option gmap strings list fin_maps.

Open Scope Z_scope.
Open Scope prog_scope.

Fixpoint no_slash (s : string) : bool :=
  match s with
  | String c s => negb (Ascii.eqb c "/") && no_slash s
  | EmptyString => true
  end.

(** Text before the first slash is unique. *)
Lemma slash_split s t s' t' :
  no_slash s = true → no_slash s' = true → s +:+ "/" +:+ t = s' +:+ "/" +:+ t' → s = s' ∧ t = t'.
Proof.
  revert s'. induction s as [|c s IH]; intros [|c' s'] Hs Hs' Heq; simpl in *; simplify_eq; try done.
  apply andb_true_iff in Hs as [_ Hs], Hs' as [_ Hs']. destruct (IH s') as [-> ->]; done.
Qed.

Lemma str_app_inj_l s t u : s +:+ t = s +:+ u → t = u.
Proof. induction s as [|c s IH]; simpl; [done|]. intros [= H]. by apply IH. Qed.

Lemma no_slash_app s t : no_slash (s +:+ t) = no_slash s && no_slash t.
Proof. induction s as [|c s IH]; simpl; [done|]. by rewrite IH, andb_assoc. Qed.

Lemma HasPrefix_parts a s t s' t' :
  no_slash s = true → no_slash s' = true →
  Str.HasPrefix (a +:+ s +:+ "/" +:+ t) (a +:+ s' +:+ "/" +:+ t') =
  bool_decide (s = s') && Str.HasPrefix t t'.
Proof.
  intros Hs Hs'. apply eq_true_iff_eq. rewrite andb_true_iff, bool_decide_eq_true, !Str.HasPrefix_spec. split.
  - intros [r Hr]. rewrite !Str.app_assoc in Hr. apply str_app_inj_l in Hr.
    destruct (slash_split _ _ _ _ Hs Hs' Hr) as [-> ->]. split; [done|]. by exists r.
  - intros [-> [r ->]]. exists r. by rewrite !Str.app_assoc.
Qed.

Lemma HasPrefix_segment s t s' t' :
  no_slash s = true → no_slash s' = true →
  Str.HasPrefix (s +:+ "/" +:+ t) (s' +:+ "/" +:+ t') = bool_decide (s = s') && Str.HasPrefix t t'.
Proof. apply (HasPrefix_parts ""). Qed.

Lemma Contains_dash s t : Str.Contains (s +:+ "-" +:+ t) "-" = true.
Proof.
  unfold Str.Contains. induction s as [|c s IH]; [done|]. cbn [String.append Str.Cut].
  destruct (Str.strip_prefix "-" _); [done|]. by destruct (Str.Cut _ _) as [[]|].
Qed.

(** What a prefix without a slash leaves out. *)
Lemma HasPrefix_no_slash s p t :
  no_slash p = true → Str.HasPrefix (s +:+ "/" +:+ t) p = Str.HasPrefix s p.
Proof.
  revert s. induction p as [|c p IH]; intros s Hp.
  - by destruct s.
  - simpl in Hp. apply andb_true_iff in Hp as [Hc Hp]. apply negb_true_iff in Hc.
    destruct s as [|c' s]; unfold Str.HasPrefix; simpl.
    + by rewrite Hc.
    + destruct (Ascii.eqb c c'); [|done]. by apply IH.
Qed.

Section find.
Context {KQ : KubeQuantity} {GR : GoRange} {YL : Yaml}.

(** Names of namespaces and quotas. *)
Definition names_ok (ns q : string) : Prop := no_slash ns = true ∧ no_slash q = true.

Lemma HasPrefix_branch dir d ns q unix ns' q' :
  no_slash dir = true → no_slash d = true → names_ok ns q → names_ok ns' q' →
  Str.HasPrefix (branch_name d ns q unix) ("resize/" +:+ dir +:+ "/" +:+ ns' +:+ "/" +:+ q' +:+ "/") =
  bool_decide (d = dir) && (bool_decide (ns = ns') && bool_decide (q = q')).
Proof.
  intros Hdir Hd [Hns Hq] [Hns' Hq']. unfold branch_name.
  rewrite HasPrefix_parts by done. f_equal.
  rewrite HasPrefix_segment by done. f_equal.
  change (q' +:+ "/") with (q' +:+ "/" +:+ "").
  rewrite HasPrefix_segment by done. by rewrite andb_comm.
Qed.

Lemma legacy_not_branch d ns q unix ns' q' :
  no_slash d = true → Str.Contains d "-" = false → names_ok ns' q' →
  Str.HasPrefix (branch_name d ns q unix) (legacyPrefix ns' q') = false.
Proof.
  intros Hd Hdash [Hns' Hq']. unfold branch_name, legacyPrefix.
  apply not_true_iff_false. intros H.
  apply Str.HasPrefix_spec in H as [r Hr]. rewrite !Str.app_assoc in Hr. apply str_app_inj_l in Hr.
  assert (Hp : Str.HasPrefix (d +:+ "/" +:+ ns +:+ "/" +:+ q +:+ "/" +:+ Str.Itoa unix) (ns' +:+ "-" +:+ q' +:+ "-") = true).
  { apply Str.HasPrefix_spec. exists r. by rewrite Hr, !Str.app_assoc. }
  rewrite HasPrefix_no_slash in Hp.
  2: { by rewrite !no_slash_app, Hns', Hq'. }
  apply Str.HasPrefix_spec in Hp as [r' ->].
  assert (Hc : Str.Contains ((ns' +:+ "-" +:+ q' +:+ "-") +:+ r') "-" = true); [|congruence].
  rewrite !Str.app_assoc. apply Contains_dash.
Qed.

(** The branch that [CreatePR] makes for a quota is taken by [FindOpenPR] as a
    pull request of that quota, in its direction, and is passed over for every
    other namespace and quota, whatever dashes their names have. *)
Theorem branch_identifies_quota d ns q unix ns' q' pr sha legacy :
  d = dirGrow ∨ d = dirShrink → names_ok ns q → names_ok ns' q' →
  PrHead pr = Some (branch_name d ns q unix, sha) →
  inspect_pr ns' q' legacy pr =
    if bool_decide (ns = ns' ∧ q = q') then inl (PrNumber pr, d) else inr legacy.
Proof.
  intros Hd Hn Hn' Hpr. unfold inspect_pr. rewrite Hpr.
  assert (no_slash d = true ∧ Str.Contains d "-" = false) as [Hs Hdash] by by destruct Hd as [-> | ->].
  unfold growPrefix, shrinkPrefix. rewrite !HasPrefix_branch by done. rewrite legacy_not_branch by done.
  rewrite bool_decide_and. destruct Hd as [-> | ->]; by destruct (bool_decide (ns = ns')), (bool_decide (q = q')).
Qed.

(** ** The search, page by page and in the whole list *)

(** A pull request on a branch of the current shape, and on one of the old. *)
Definition new_shape (ns q : string) (pr : PullRequest) : option (Z * string) :=
  match PrHead pr with
  | Some (ref, _) =>
      if Str.HasPrefix ref (growPrefix ns q) then Some (PrNumber pr, dirGrow)
      else if Str.HasPrefix ref (shrinkPrefix ns q) then Some (PrNumber pr, dirShrink) else None
  | None => None
  end.

Definition legacy_shape (ns q : string) (pr : PullRequest) : option (Z * string) :=
  match PrHead pr with
  | Some (ref, _) =>
      if Str.HasPrefix ref (legacyPrefix ns q) && negb (PrNumber pr =? 0)
      then Some (PrNumber pr, directionFromLabels (PrLabels pr)) else None
  | None => None
  end.

(** The first pull request of the current shape; only when there is none, the
    first of the old shape. *)
Definition find_spec (ns q : string) (prs : list PullRequest) : Z * string :=
  match Str.first_some (new_shape ns q) prs with
  | Some r => r
  | None => default (0, "") (Str.first_some (legacy_shape ns q) prs)
  end.

(** A legacy candidate counts when its number is not zero. *)
Definition candidate (legacy : Z * string) : option (Z * string) :=
  if legacy.1 =? 0 then None else Some legacy.

Definition or_else {A} (a b : option A) : option A := match a with Some x => Some x | None => b end.

Lemma first_some_app {A B} (f : A → option B) l1 l2 :
  Str.first_some f (l1 ++ l2) = or_else (Str.first_some f l1) (Str.first_some f l2).
Proof. induction l1 as [|x l1 IH]; simpl; [done|]. by destruct (f x). Qed.

Lemma inspect_prs_spec ns q legacy prs :
  match Str.first_some (new_shape ns q) prs with
  | Some f => inspect_prs ns q legacy prs = inl f
  | None => ∃ legacy', inspect_prs ns q legacy prs = inr legacy' ∧
      candidate legacy' = or_else (candidate legacy) (Str.first_some (legacy_shape ns q) prs)
  end.
Proof.
  revert legacy. induction prs as [|pr prs IH]; intros legacy; simpl.
  - exists legacy. split; [done|]. by destruct (candidate legacy).
  - unfold inspect_pr, new_shape at 1. destruct (PrHead pr) as [[ref sha]|] eqn:Eh.
    + destruct (Str.HasPrefix ref (growPrefix ns q)); [done|].
      destruct (Str.HasPrefix ref (shrinkPrefix ns q)); [done|].
      unfold legacy_shape at 1. rewrite Eh.
      destruct (Str.HasPrefix ref (legacyPrefix ns q)); [|by apply IH]. simpl.
      destruct (Z.eqb_spec legacy.1 0) as [Hz|Hz].
      * specialize (IH (PrNumber pr, directionFromLabels (PrLabels pr))).
        destruct (Str.first_some (new_shape ns q) prs); [done|]. destruct IH as (l' & -> & Hc).
        exists l'. split; [done|]. rewrite Hc. unfold candidate. rewrite (proj2 (Z.eqb_eq _ _) Hz).
        simpl. by destruct (PrNumber pr =? 0).
      * specialize (IH legacy). destruct (Str.first_some (new_shape ns q) prs); [done|].
        destruct IH as (l' & -> & Hc). exists l'. split; [done|]. rewrite Hc. unfold candidate.
        by rewrite (proj2 (Z.eqb_neq _ _) Hz).
    + unfold legacy_shape at 1. rewrite Eh. by apply IH.
Qed.

(** A server that lists these pages. Page 0 is page 1. *)
Definition page_index (page : Z) : nat := if page =? 0 then 0%nat else Z.to_nat (page - 1).

Definition serve_pages (pages : list (list PullRequest)) (R : Type) (e : ghcall R) (s : unit)
    : option (R * unit) :=
  match e in ghcall R return option (R * unit) with
  | PullListOpen page =>
      match pages !! page_index page with
      | Some prs =>
          Some (Ok (prs, if (S (page_index page) <? length pages)%nat
                         then Z.of_nat (page_index page) + 2 else 0), s)
      | None => None
      end
  | _ => None
  end.

Lemma find_loop_spec ns q pages page rest fuel legacy :
  drop (page_index page) pages = rest → rest ≠ [] → (length rest <= fuel)%nat →
  ∃ tr, run (serve_pages pages) (find_loop fuel ns q page legacy) tt =
    Some (Ok (match Str.first_some (new_shape ns q) (concat rest) with
              | Some r => r
              | None => default (0, "") (or_else (candidate legacy)
                          (Str.first_some (legacy_shape ns q) (concat rest)))
              end), tt, tr).
Proof.
  revert page fuel legacy. induction rest as [|prs rest IH]; intros page fuel legacy Hd Hne Hf; [done|].
  destruct fuel as [|fuel]; [simpl in Hf; lia|].
  assert (Hp : pages !! page_index page = Some prs).
  { rewrite <- (Nat.add_0_r (page_index page)), <- lookup_drop, Hd. done. }
  assert (Hrest : drop (S (page_index page)) pages = rest).
  { rewrite <- Nat.add_1_r, <- drop_drop, Hd. done. }
  cbn [find_loop call_ pbind run serve_pages]. rewrite Hp.
  cbn [concat]. rewrite !first_some_app. pose proof (inspect_prs_spec ns q legacy prs) as Hi.
  destruct (Str.first_some (new_shape ns q) prs) as [f|].
  { rewrite Hi. by eexists. }
  destruct Hi as (legacy' & -> & Hc).
  destruct (Nat.ltb_spec (S (page_index page)) (length pages)) as [Hlt|Hge].
  - destruct (Z.eqb_spec (Z.of_nat (page_index page) + 2) 0); [lia|].
    assert (Hpi : page_index (Z.of_nat (page_index page) + 2) = S (page_index page)).
    { generalize (page_index page). intros i. unfold page_index.
      rewrite (proj2 (Z.eqb_neq (Z.of_nat i + 2) 0)) by lia. lia. }
    destruct (IH (Z.of_nat (page_index page) + 2) fuel legacy') as [tr ->].
    + by rewrite Hpi.
    + intros ->. apply (f_equal length) in Hrest. rewrite length_drop in Hrest. simpl in Hrest. lia.
    + simpl in Hf. lia.
    + eexists. rewrite Hc. cbn [or_else]. by destruct (candidate legacy), (Str.first_some (legacy_shape ns q) prs).
  - assert (rest = []) as ->. { rewrite <- Hrest. apply drop_ge. lia. }
    assert ((if negb (legacy'.1 =? 0) then legacy' else (0, "")) = default (0, "") (candidate legacy')) as Hl.
    { unfold candidate. by destruct (legacy'.1 =? 0). }
    cbn. rewrite Hl, Hc. eexists.
    by destruct (candidate legacy), (Str.first_some (legacy_shape ns q) prs).
Qed.

(** C20. With fuel for every page, [FindOpenPR] ends, and answers what a search of
    the whole list of open pull requests answers: the first one on a branch of
    the quota's current shape, wherever it is listed; without one, the first of
    the old shape; without any, zero. *)
Theorem FindOpenPR_searches_all ns q pages fuel :
  pages ≠ [] → (length pages <= fuel)%nat →
  ∃ tr, run (serve_pages pages) (FindOpenPR fuel ns q) tt = Some (Ok (find_spec ns q (concat pages)), tt, tr).
Proof. intros Hne Hf. apply (find_loop_spec ns q pages 0 pages fuel (0, "")); done. Qed.

(** ** Directions of old pull requests *)

(** Labels give the direction grow only if every direction label says so; one
    label with another direction makes it a shrink, whatever the order. *)
Theorem directionFromLabels_safe labels :
  directionFromLabels labels =
    if bool_decide (Exists (λ l, Str.HasPrefix l labelDirectionPrefix = true ∧
                                 l ≠ labelDirectionPrefix +:+ dirGrow) labels)
    then dirShrink else dirGrow.
Proof.
  induction labels as [|l labels IH]; [done|]. cbn [directionFromLabels].
  rewrite (bool_decide_ext _ _ (Exists_cons _ _ _)), bool_decide_or.
  destruct (Str.HasPrefix l labelDirectionPrefix) eqn:Hp; cbn [negb].
  - destruct (proj1 (Str.HasPrefix_spec _ _) Hp) as [t ->]. rewrite Str.TrimPrefix_app.
    destruct (String.eqb_spec t dirGrow) as [->|Hne]; cbn [negb].
    + rewrite IH. rewrite (bool_decide_false (_ ∧ _)) by naive_solver. done.
    + rewrite (bool_decide_true (_ ∧ _)); [done|]. split; [done|].
      intros Heq. by apply str_app_inj_l in Heq.
  - rewrite IH, (bool_decide_false (_ ∧ _)) by naive_solver. done.
Qed.

End find.

Definition demo_pr (n : Z) (branch : string) : PullRequest := {|
  PrNumber := n; PrHead := Some (branch, Some "abc"); PrLabels := []; PrState := "open";
  PrMerged := false; PrMergeable := true; PrMergeableState := MergeableStateClean; PrCreatedAt := 0
|}.

Lemma branch_identifies_quota_witness :
  inspect_pr "team-a" "compute" (0, "") (demo_pr 4 (branch_name dirShrink "team-a" "compute" 1753617600)) =
    inl (4, dirShrink) ∧
  inspect_pr "team" "a-compute" (0, "") (demo_pr 4 (branch_name dirShrink "team-a" "compute" 1753617600)) =
    inr (0, "").
Proof.
  split.
  - exact (branch_identifies_quota dirShrink "team-a" "compute" 1753617600 "team-a" "compute"
      (demo_pr 4 _) (Some "abc") (0, "") (or_intror eq_refl) (conj eq_refl eq_refl) (conj eq_refl eq_refl) eq_refl).
  - exact (branch_identifies_quota dirShrink "team-a" "compute" 1753617600 "team" "a-compute"
      (demo_pr 4 _) (Some "abc") (0, "") (or_intror eq_refl) (conj eq_refl eq_refl) (conj eq_refl eq_refl) eq_refl).
Defined.

(** An old pull request on the first page does not hide a current one on the
    second. *)
Definition demo_pages : list (list PullRequest) :=
  [[demo_pr 3 "resize/team-a-compute-1"]; [demo_pr 4 (branch_name dirShrink "team" "a-compute" 1753617600)]].

Lemma FindOpenPR_searches_all_witness :
  ∃ tr, run (serve_pages demo_pages) (FindOpenPR 2 "team" "a-compute") tt = Some (Ok (4, dirShrink), tt, tr).
Proof.
  apply (FindOpenPR_searches_all "team" "a-compute" demo_pages 2); [discriminate|simpl; lia].
Defined.
