(* ===== verification/GitHubWrites.v ===== *)
(** * What the GitHub provider writes, and where

    Guards for the calls of [CreatePR], [UpdatePR] and [ClosePR], and what their
    results mean. *)

From S2P Require Export GitHubFind.
From stdpp Require Export sorting base option gmap strings list fin_maps.

Open Scope Z_scope.
Open Scope prog_scope.

Section writes.
Context {KQ : KubeQuantity} {GR : GoRange} {YL : Yaml}.

Local Abbreviation history := (list (event ghcall)).

(** The branch was made for this proposal, just now. *)
Definition on_new_branch (past : history) (d ns q branch : string) : Prop :=
  ∃ now sha, saw past GhNow now ∧ branch = branch_name d ns q (unix_of now) ∧
    saw past (CreateRef ("refs/heads/" +:+ branch) sha) None.

(** The content is that of the quota's file, on the branch that is written,
    with the limits applied. *)
Definition changed_file (past : history) (q path content : string) (sha : option string) (branch : string)
    (limits : gmap string Quantity) : Prop :=
  ∃ fc entries old,
    saw past (GetContents path branch) (Ok (Some fc, entries)) ∧ RcContent fc = Ok old ∧
    is_quota_file q old = true ∧ sha = RcSHA fc ∧ content = applyChangesToYaml old limits.

(** This call opened the pull request. *)
Definition opened (past : history) (n : Z) : Prop :=
  ∃ title head base body, saw past (PullCreate title head base body) (Ok n).

(** Labelling it was tried and never succeeded. *)
Definition labelling_failed (d ns : string) (past : history) (n : Z) : Prop :=
  (∃ e, saw past (AddLabels n (pr_labels d ns)) (Some e)) ∧ ∀ labels, ¬ saw past (AddLabels n labels) None.

(** Closing it was tried: the explanation could not be posted, or it was and the
    pull request was told to close. *)
Definition closing_tried (past : history) (n : Z) : Prop :=
  (∃ e, saw past (CreateComment n unlabelledShrinkComment) (Some e)) ∨
  (saw past (CreateComment n unlabelledShrinkComment) None ∧ ∃ r, saw past (PullEditState n "closed") r).

Definition create_call_ok (d ns q : string) (limits : gmap string Quantity) (past : history)
    (R : Type) (e : ghcall R) : Prop :=
  match e with
  | CreateRef ref sha =>
      (∃ now, saw past GhNow now ∧ ref = "refs/heads/" +:+ branch_name d ns q (unix_of now)) ∧
      ∃ base, saw past RepoDefaultBranch (Ok base) ∧ saw past (GetRefSHA ("refs/heads/" +:+ base)) (Ok sha)
  | UpdateFile path msg content sha branch =>
      on_new_branch past d ns q branch ∧ changed_file past q path content sha branch limits
  | PullCreate title head base body =>
      on_new_branch past d ns q head ∧ saw past RepoDefaultBranch (Ok base) ∧
      body = generatePRBody ns q limits ∧
      ∃ path msg content sha, saw past (UpdateFile path msg content sha head) None
  | AddLabels n labels => opened past n ∧ labels = pr_labels d ns
  | CreateComment n body =>
      d = dirShrink ∧ opened past n ∧ labelling_failed d ns past n ∧ body = unlabelledShrinkComment
  | PullEditState n state =>
      d = dirShrink ∧ opened past n ∧ labelling_failed d ns past n ∧ state = "closed" ∧
      saw past (CreateComment n unlabelledShrinkComment) None
  | PullMerge _ _ _ | PullEditBody _ _ => False
  | _ => True
  end.

(** A result is the number of a pull request that this call opened, with its
    direction on it when it is a shrink. After an error there is none, or it is
    a shrink that could not be labelled, and closing it was attempted. *)
Definition create_outcome (d ns : string) (past : history) (res : go_result error Z) : Prop :=
  match res with
  | Ok n => opened past n ∧ (d = dirShrink → saw past (AddLabels n (pr_labels d ns)) None)
  | Err _ => ∀ n, opened past n → d = dirShrink ∧ labelling_failed d ns past n ∧ closing_tried past n
  end.

(** Calls that read only. *)
Definition reads (R : Type) (e : ghcall R) : Prop :=
  match e with
  | GetContents _ _ | GhPanic | GhNow | RepoDefaultBranch | GetRefSHA _ | PullGet _ | CombinedStatus _
  | PullListOpen _ | OutOfFuel | Backoff => True
  | _ => False
  end.

(** The number of the pull request that an event opened. *)
Definition opened_number (ev : event ghcall) : option Z :=
  match ev with
  | Event R e r =>
      match e in ghcall R return R → option Z with
      | PullCreate _ _ _ _ => λ r, match r with Ok n => Some n | Err _ => None end
      | _ => λ _, None
      end r
  end.

Definition opens_none (R : Type) (e : ghcall R) : Prop :=
  match e with PullCreate _ _ _ _ => False | _ => True end.

Lemma opens_none_event ev : opens_none _ (ev_call ev) → opened_number ev = None.
Proof. destruct ev as [R e r]. by destruct e. Qed.

(** An event that set the labels. *)
Definition labelled (ev : event ghcall) : bool :=
  match ev with
  | Event R e r =>
      match e in ghcall R return R → bool with
      | AddLabels _ _ => λ r, match r with None => true | Some _ => false end
      | _ => λ _, false
      end r
  end.

Definition unlabelled (past : history) : Prop := ∀ ev, ev ∈ past → labelled ev = false.

Lemma unlabelled_app past l : unlabelled past → unlabelled l → unlabelled (past ++ l).
Proof. intros H H' ev [Hev|Hev]%elem_of_app; [by apply H|by apply H']. Qed.

Lemma unlabelled_one ev : labelled ev = false → unlabelled [ev].
Proof. by intros H x ->%list_elem_of_singleton. Qed.

Lemma unlabelled_not past n labels : unlabelled past → ¬ saw past (AddLabels n labels) None.
Proof. intros H Hs. by specialize (H _ Hs). Qed.

(** Before any pull request is opened. *)
Definition early (ev : event ghcall) : bool :=
  match opened_number ev with Some _ => false | None => negb (labelled ev) end.

Definition unopened (past : history) : Prop := ∀ ev, ev ∈ past → early ev = true.

Lemma unopened_snoc past ev : unopened past → early ev = true → unopened (past ++ [ev]).
Proof. intros H Hev x [Hx|Hx%list_elem_of_singleton]%elem_of_app; [by apply H|by subst]. Qed.

Lemma unopened_number past ev : unopened past → ev ∈ past → opened_number ev = None.
Proof. intros H Hev. specialize (H _ Hev). unfold early in H. by destruct (opened_number ev). Qed.

Lemma unopened_unlabelled past : unopened past → unlabelled past.
Proof.
  intros H ev Hev. specialize (H _ Hev). unfold early in H. destruct (opened_number ev); [done|].
  by apply negb_true_iff.
Qed.

Lemma unopened_not past n : unopened past → ¬ opened past n.
Proof. intros H (t & h & b & bo & Hs). by pose proof (unopened_number _ _ H Hs). Qed.

Ltac unop := repeat (apply unopened_snoc; [|reflexivity]); assumption.

(** ** The file *)

Definition found_file (past : history) (ref q : string) (f : string * RepositoryContent) : Prop :=
  ∃ entries old, saw past (GetContents f.1 ref) (Ok (Some f.2, entries)) ∧ RcContent f.2 = Ok old ∧
    is_quota_file q old = true.

Lemma guarded_find_in_files P ref q files (Q : history → option (string * RepositoryContent) → Prop) past :
  (∀ past R (e : ghcall R), reads R e → P past R e) → unopened past →
  (∀ past' f, past `prefix_of` past' → unopened past' →
     (∀ x, f = Some x → found_file past' ref q x) → Q past' f) →
  guarded P Q (find_in_files ref q files) past.
Proof.
  intros HP. revert past. induction files as [|file files IH]; intros past Hun HQ.
  - by apply HQ.
  - cbn [find_in_files]. destruct (negb (is_yaml_file file)); [by apply IH|].
    apply guarded_call; [by apply HP|]. intros res.
    assert (Hrest : guarded P Q (find_in_files ref q files) (past ++ [Event _ (GetContents (RcPath file) ref) res])).
    { apply IH; [unop|]. intros past' f Hp. apply HQ. etransitivity; [|exact Hp]. by apply prefix_app_r. }
    destruct res as [[[fc|] entries]|e]; [|by split; [apply HP|intros []]|done].
    destruct (RcContent fc) as [content|e] eqn:Ec; [|done].
    destruct (is_quota_file q content) eqn:Eq; [|done].
    apply HQ; [by apply prefix_app_r|unop|].
    intros x [= <-]. exists entries, content. split; [apply saw_last|done].
Qed.

Lemma guarded_findQuotaFile P base ref q (Q : history → go_result error (string * RepositoryContent) → Prop) past :
  (∀ past R (e : ghcall R), reads R e → P past R e) → unopened past →
  (∀ past' res, past `prefix_of` past' → unopened past' →
     (∀ f, res = Ok f → found_file past' ref q f) → Q past' res) →
  guarded P Q (findQuotaFile base ref q) past.
Proof.
  intros HP Hun HQ. unfold findQuotaFile. apply guarded_call; [by apply HP|].
  intros [[fc entries]|e].
  - apply guarded_bind. apply guarded_find_in_files; [done|unop|].
    intros past' [f|] Hp Hun' Hf; apply HQ; try done;
      try (etransitivity; [|exact Hp]; by apply prefix_app_r).
    intros f' [= <-]. by apply Hf.
  - destruct (gh_not_found e); (apply HQ; [by apply prefix_app_r|unop|done]).
Qed.

(** ** Labels *)

(** What is done with a pull request that was opened. *)
Definition add_labels_ok (n : Z) (labels : list string) (past : history) (R : Type) (e : ghcall R) : Prop :=
  match e with
  | AddLabels n' labels' => n' = n ∧ labels' = labels
  | Backoff => True
  | _ => False
  end.

(** What the result says: the labels are on it, or it was tried and nothing was
    set since [past]. *)
Definition labels_outcome (n : Z) (labels : list string) (past past' : history) (r : option error) : Prop :=
  ∃ l, past' = past ++ l ∧
    match r with
    | None => saw past' (AddLabels n labels) None
    | Some _ => unlabelled l ∧ ∃ e, saw l (AddLabels n labels) (Some e)
    end.

Lemma guarded_label_loop k n labels past :
  (0 < k)%nat → guarded (add_labels_ok n labels) (labels_outcome n labels past) (label_loop k n labels) past.
Proof.
  revert past. induction k as [|k IH]; intros past Hk; [lia|]. cbn [label_loop].
  apply guarded_call; [done|]. intros [e|]; [|eexists; split; [done|apply saw_last]].
  set (failed := Event _ (AddLabels n labels) (Some e)).
  assert (Hf : saw [failed] (AddLabels n labels) (Some e)) by apply list_elem_of_here.
  destruct k as [|k].
  { exists [failed]. split; [done|]. split; [by apply unlabelled_one|by exists e]. }
  apply guarded_call; [done|]. intros b.
  assert (Hl : unlabelled [failed; Event _ Backoff b]).
  { apply (unlabelled_app [_] [_]); by apply unlabelled_one. }
  assert (Hs : saw [failed; Event _ Backoff b] (AddLabels n labels) (Some e)) by apply list_elem_of_here.
  destruct b as [e'|].
  { exists [failed; Event _ Backoff (Some e')]. rewrite <- app_assoc. split; [done|]. split; [done|by exists e]. }
  eapply guarded_weaken; [apply IH; lia|]. intros past' r _ (l & -> & Hr).
  exists ([failed; Event _ Backoff None] ++ l). split; [by rewrite <- !app_assoc|].
  destruct r as [e'|]; [|done]. destruct Hr as [Hu (e2 & He2)]. split; [by apply unlabelled_app|].
  exists e. apply elem_of_app. by left.
Qed.

Lemma guarded_addLabels (P : history → ∀ R, ghcall R → Prop) n labels (Q : history → option error → Prop) past :
  (∀ past' R (e : ghcall R), past `prefix_of` past' → add_labels_ok n labels past' R e → P past' R e) →
  (∀ past' r, labels_outcome n labels past past' r → Q past' r) →
  guarded P Q (addLabels n labels) past.
Proof.
  intros HP HQ. unfold addLabels.
  apply (guarded_upgrade (add_labels_ok n labels)); [exact HP|].
  eapply guarded_weaken; [apply guarded_label_loop; unfold labelAttempts; lia|].
  intros past' r _ Hr. by apply HQ.
Qed.

(** ** CreatePR *)

Lemma saw_app past l {R} (e : ghcall R) r : saw past e r → saw (past ++ l) e r.
Proof. apply saw_mono. by apply prefix_app_r. Qed.

Ltac sees :=
  first
    [ assumption
    | apply saw_last
    | apply saw_app; sees
    | match goal with H : _ `prefix_of` ?past |- saw ?past _ _ => apply (saw_mono _ _ _ _ H); sees end ].

(** Both ways in which closing ends. *)
Lemma guarded_ClosePR (P : history → ∀ R, ghcall R → Prop) n comment (Q : history → option error → Prop) past :
  let said r := past ++ [Event _ (CreateComment n comment) r] in
  P past _ (CreateComment n comment) → P (said None) _ (PullEditState n "closed") →
  (∀ e r, Q (said (Some e)) r) →
  (∀ c r, Q (said None ++ [Event _ (PullEditState n "closed") c]) r) →
  guarded P Q (ClosePR n comment) past.
Proof.
  intros said H1 H2 HQ1 HQ2. unfold ClosePR. apply guarded_call; [done|]. intros [e|]; [apply HQ1|].
  apply guarded_call; [done|]. intros [e|]; apply HQ2.
Qed.

Section create.
Context (d ns q : string) (limits : gmap string Quantity).

Local Abbreviation ok := (create_call_ok d ns q limits).
Local Abbreviation Q := (create_outcome d ns).

Lemma reads_ok past R (e : ghcall R) : reads R e → ok past R e.
Proof. by destruct e. Qed.

Lemma unopened_error past e : unopened past → Q past (Err e).
Proof. intros Hun n Ho. by destruct (unopened_not past n Hun). Qed.

(** Only one pull request is opened. *)
Lemma opened_once past n n' title head base body l :
  unopened past → Forall (λ ev, opened_number ev = None) l →
  opened ((past ++ [Event _ (PullCreate title head base body) (Ok n)]) ++ l) n' → n' = n.
Proof.
  intros Hun Hl (t & h & b & bo & Hs). unfold saw in Hs. rewrite !elem_of_app, list_elem_of_singleton in Hs.
  destruct Hs as [[Hs|Hs]|Hs].
  - by pose proof (unopened_number _ _ Hun Hs).
  - apply (f_equal opened_number) in Hs. by injection Hs.
  - rewrite Forall_forall in Hl. by specialize (Hl _ Hs).
Qed.

(** The steps after the pull request is opened. *)
Definition label_call_ok (n : Z) (past : history) (R : Type) (e : ghcall R) : Prop :=
  match e with
  | AddLabels n' labels => n' = n ∧ labels = pr_labels d ns
  | CreateComment n' body =>
      d = dirShrink ∧ n' = n ∧ labelling_failed d ns past n ∧ body = unlabelledShrinkComment
  | PullEditState n' state =>
      d = dirShrink ∧ n' = n ∧ labelling_failed d ns past n ∧ state = "closed" ∧
      saw past (CreateComment n unlabelledShrinkComment) None
  | Backoff => True
  | _ => False
  end.

Definition label_outcome (n : Z) (past : history) (res : go_result error Z) : Prop :=
  match res with
  | Ok n' => n' = n ∧ (d = dirShrink → saw past (AddLabels n (pr_labels d ns)) None)
  | Err _ => d = dirShrink ∧ labelling_failed d ns past n ∧ closing_tried past n
  end.

Lemma labelling_failed_snoc past n ev :
  labelled ev = false → labelling_failed d ns past n → labelling_failed d ns (past ++ [ev]) n.
Proof.
  intros Hev [(e & He) Hno]. split; [exists e; sees|]. intros labels [Hs|Hs%list_elem_of_singleton]%elem_of_app.
  - by destruct (Hno labels).
  - by rewrite <- Hs in Hev.
Qed.

Lemma guarded_label_new_pr n past :
  unlabelled past → guarded (label_call_ok n) (label_outcome n) (label_new_pr n d ns) past.
Proof.
  intros Hun. unfold label_new_pr. apply guarded_bind. apply guarded_addLabels; [by intros past' R []|].
  intros past' r (l & -> & Hr). destruct r as [e|]; [|by split].
  destruct (String.eqb_spec d dirShrink) as [Hd|Hd]; [|by split].
  destruct Hr as [Hl (e' & He')]. assert (Hf : labelling_failed d ns (past ++ l) n).
  { split; [exists e'; by apply elem_of_app; right|]. intros labels. by apply unlabelled_not, unlabelled_app. }
  assert (Hf' : ∀ r, labelling_failed d ns ((past ++ l) ++ [Event _ (CreateComment n unlabelledShrinkComment) r]) n)
    by (intros r; by apply labelling_failed_snoc).
  apply guarded_bind, guarded_ClosePR; [done| | |].
  - do 3 (split; [done|]). split; [done|apply saw_last].
  - intros e2 [e3|]; (split; [done|]; split; [done|]; left; exists e2; apply saw_last).
  - intros c [e3|]; (split; [done|]; split; [by apply labelling_failed_snoc|]; right; split; [sees|exists c; apply saw_last]).
Qed.

(** Opening the pull request and labelling it, from a history that has opened
    none. *)
Lemma guarded_opened n title head base body past :
  unopened past →
  guarded ok Q (label_new_pr n d ns) (past ++ [Event _ (PullCreate title head base body) (Ok n)]).
Proof.
  intros Hun. set (past1 := past ++ [_]).
  assert (Ho : opened past1 n) by (exists title, head, base, body; apply saw_last).
  apply (guarded_upgrade (label_call_ok n)).
  { intros past' R e Hp. assert (Hop : opened past' n).
    { exists title, head, base, body. apply (saw_mono _ _ _ _ Hp), saw_last. }
    destruct e; simpl; try done; by intuition subst. }
  eapply guarded_weaken.
  - apply (guarded_events opens_none (label_call_ok n) (label_outcome n)); [by intros past' R []|].
    apply guarded_label_new_pr, unlabelled_app; [by apply unopened_unlabelled|by apply unlabelled_one].
  - intros past' res Hp [Hres (l & -> & Hl)]. destruct res as [n'|e]; simpl in Hres.
    + destruct Hres as [-> Hlab]. split; [|done]. exists title, head, base, body. apply saw_app, saw_last.
    + destruct Hres as [Hd Hc]. intros n' Hn'. split; [done|].
      replace n' with n; [done|]. symmetry. apply (opened_once past n n' title head base body l Hun); [|exact Hn'].
      eapply Forall_impl; [exact Hl|]. apply opens_none_event.
Qed.

(** Committing and opening. *)
Lemma guarded_commit_and_open branch base path content sha entries fc past :
  unopened past → on_new_branch past d ns q branch → saw past RepoDefaultBranch (Ok base) →
  saw past (GetContents path branch) (Ok (Some fc, entries)) → RcContent fc = Ok content →
  is_quota_file q content = true → sha = RcSHA fc →
  guarded ok Q (commit_and_open branch base path content sha q ns d limits) past.
Proof.
  intros Hun Hb Hbase Hfc Hc Hq ->. unfold commit_and_open. apply guarded_call.
  { split; [done|]. by exists fc, entries, content. }
  intros [e|]; [apply unopened_error; unop|]. apply guarded_call.
  { destruct Hb as (now & bsha & Hn & -> & Hr). split; [|split; [sees|split; [done|]]].
    - exists now, bsha. split; [sees|]. split; [done|sees].
    - eexists _, _, _, _. apply saw_last. }
  intros [n|e]; [apply guarded_opened; unop|apply unopened_error; unop].
Qed.

Lemma guarded_CreatePR g annotations :
  guarded ok Q (CreatePR g q ns d annotations limits) [].
Proof.
  unfold CreatePR. assert (Hun : unopened []) by (intros ev Hev; by apply elem_of_nil in Hev).
  apply guarded_call; [done|]. intros [base|e]; [|apply unopened_error; unop].
  apply guarded_call; [done|]. intros [sha|e]; [|apply unopened_error; unop].
  apply guarded_call; [done|]. intros now. apply guarded_call.
  { split; [exists now; by split; [sees|]|exists base; split; sees]. }
  intros [e|]; [apply unopened_error; unop|].
  destruct (resolvePath g ns annotations) as [path|e]; [|apply unopened_error; unop].
  apply guarded_bind. apply guarded_findQuotaFile; [apply reads_ok|unop|].
  intros past' [[f fc]|e] Hp Hun' Hf; [|by apply unopened_error].
  destruct (Hf _ eq_refl) as (entries & old & Hfc & Hc & Hq). simpl in Hfc, Hc. rewrite Hc.
  eapply guarded_commit_and_open; [done| |sees|exact Hfc|done|done|done].
  exists now, sha. split; [sees|]. split; [done|sees].
Qed.

End create.



(** ** UpdatePR *)

(** The branch of the pull request, as it was reported. *)
Definition head_branch (past : history) (id : Z) (branch : string) : Prop :=
  ∃ pr, saw past (PullGet id) (Ok pr) ∧
    branch = match PrHead pr with Some (ref, _) => ref | None => "" end.

Definition update_call_ok (id : Z) (ns q : string) (limits : gmap string Quantity) (past : history)
    (R : Type) (e : ghcall R) : Prop :=
  match e with
  | UpdateFile path msg content sha branch =>
      head_branch past id branch ∧ changed_file past q path content sha branch limits ∧
      ∃ fc entries, saw past (GetContents path branch) (Ok (Some fc, entries)) ∧ RcContent fc ≠ Ok content
  | PullEditBody n body =>
      n = id ∧ body = generatePRBody ns q limits ∧
      ∃ path msg content sha branch, saw past (UpdateFile path msg content sha branch) None
  | CreateRef _ _ | PullCreate _ _ _ _ | AddLabels _ _ | CreateComment _ _ | PullEditState _ _
  | PullMerge _ _ _ => False
  | _ => True
  end.

(** [UpdatePR] writes the quota's file on the head branch of the pull request,
    only when the limits change it, and then the body; it never changes the
    state of the pull request. *)
Theorem UpdatePR_writes g id q ns annotations limits :
  every_call (update_call_ok id ns q limits) (UpdatePR g id q ns annotations limits).
Proof.
  apply (guarded_every_call _ (λ _ _, True)). unfold UpdatePR.
  assert (Hun : unopened []) by (intros ev Hev; by apply elem_of_nil in Hev).
  apply guarded_call; [done|]. intros [pr|e]; [|done].
  destruct (resolvePath g ns annotations) as [path|e]; [|done].
  apply guarded_bind. apply guarded_findQuotaFile; [by intros past R []|unop|].
  intros past' [[f fc]|e] Hp Hun' Hf; [|done].
  destruct (Hf _ eq_refl) as (entries & old & Hfc & Hc & Hq). simpl in Hfc, Hc. rewrite Hc.
  destruct (String.eqb_spec (applyChangesToYaml old limits) old) as [|Hne]; [done|].
  apply guarded_call.
  { split; [|split].
    - exists pr. split; [sees|done].
    - by exists fc, entries, old.
    - exists fc, entries. split; [done|]. rewrite Hc. congruence. }
  intros [e|]; [done|]. apply guarded_call; [|by intros [e|]].
  split; [done|]. split; [done|]. eexists _, _, _, _, _. sees.
Qed.

(** [ClosePR] says why before it closes, and closes only after that succeeded. *)
Definition close_call_ok (id : Z) (comment : string) (past : history) (R : Type) (e : ghcall R) : Prop :=
  match e with
  | CreateComment n body => n = id ∧ body = comment
  | PullEditState n state => n = id ∧ state = "closed" ∧ saw past (CreateComment id comment) None
  | _ => False
  end.

(** [ClosePR] posts the comment first, closes only when that succeeded, and does
    nothing else. *)
Theorem ClosePR_explains_first id comment :
  every_call (close_call_ok id comment) (ClosePR id comment).
Proof.
  apply (guarded_every_call _ (λ _ _, True)). apply guarded_ClosePR; [done| |done|done].
  do 2 (split; [done|]). apply saw_last.
Qed.

(** ** Bounds *)

Definition is_label_call (ev : event ghcall) : bool :=
  match ev_call ev with AddLabels _ _ => true | _ => false end.

Lemma label_loop_bound k n labels tr p' :
  steps (label_loop k n labels) tr p' → (length (List.filter is_label_call tr) <= k)%nat.
Proof.
  revert tr. induction k as [|k IH]; intros tr Hs.
  - destruct tr; [simpl; lia|done].
  - destruct tr as [|ev tr]; [simpl; lia|]. cbn [label_loop call_ pbind steps] in Hs.
    destruct Hs as (r & -> & Hs). simpl. destruct r as [e|]; [|destruct tr; [simpl; lia|done]].
    destruct k as [|k]; [destruct tr; [simpl; lia|done]|].
    destruct tr as [|ev tr]; [simpl; lia|]. cbn [call_ pbind steps] in Hs.
    destruct Hs as (c & -> & Hs). simpl. destruct c as [e'|]; [destruct tr; [simpl; lia|done]|].
    apply IH in Hs. simpl in Hs. lia.
Qed.

(** Labelling gives up after three attempts. *)
Theorem addLabels_bounded n labels :
  every_trace (λ tr, (length (List.filter is_label_call tr) <= 3)%nat) (addLabels n labels).
Proof. intros tr p' Hs. apply (label_loop_bound _ _ _ _ _ Hs). Qed.

End writes.
