(* ===== verification/GitHubContract.v ===== *)
(** * The GitHub provider keeps the contract of the controller

    The controller relies on one promise of its provider: a pull request that
    [FindOpenPR] reports has the direction that [CreatePR] was given for it, and
    belongs to the same quota. [DirectionContract] states it; the provider on
    GitHub keeps it by the names of its branches, as long as GitHub lists a pull
    request with the branch it was opened from. *)

From S2P Require Export GitHubFind GitHubWrites.
From stdpp Require Export sorting base option gmap strings list fin_maps.

Open Scope Z_scope.
Open Scope prog_scope.

(** The interface: [created w id d ns q] and [found w id d ns q] say that in the
    history [w] a pull request was created or found so. *)
Class DirectionContract (H : Type) (created found : H → Z → string → string → string → Prop) (world : H → Prop) :=
  direction_kept : ∀ w id d ns q d' ns' q',
    world w → created w id d ns q → found w id d' ns' q' → d' = d ∧ ns' = ns ∧ q' = q.

Section contract.
Context {KQ : KubeQuantity} {GR : GoRange} {YL : Yaml}.

Local Abbreviation history := (list (event ghcall)).

(** ** What a search reports *)

(** The pull request matches the quota, in the direction [d]. *)
Definition matches (ns q d : string) (pr : PullRequest) : Prop :=
  ∃ ref sha, PrHead pr = Some (ref, sha) ∧
    (Str.HasPrefix ref (growPrefix ns q) = true ∧ d = dirGrow ∨
     Str.HasPrefix ref (shrinkPrefix ns q) = true ∧ d = dirShrink ∨
     Str.HasPrefix ref (legacyPrefix ns q) = true).

Definition listed (past : history) (ns q : string) (id : Z) (d : string) : Prop :=
  ∃ page prs next pr, saw past (PullListOpen page) (Ok (prs, next)) ∧ pr ∈ prs ∧ PrNumber pr = id ∧ matches ns q d pr.

Definition search_outcome (ns q : string) (past : history) (res : go_result error (Z * string)) : Prop :=
  match res with
  | Ok (id, d) => id = 0 ∨ listed past ns q id d
  | Err _ => True
  end.

Definition read_only (past : history) (R : Type) (e : ghcall R) : Prop := reads R e.

Lemma inspect_pr_matches ns q legacy pr :
  match inspect_pr ns q legacy pr with
  | inl (id, d) => id = PrNumber pr ∧ matches ns q d pr
  | inr legacy' => legacy' = legacy ∨ legacy'.1 = PrNumber pr ∧ matches ns q legacy'.2 pr
  end.
Proof.
  unfold inspect_pr. destruct (PrHead pr) as [[ref sha]|] eqn:Eh; [|by left].
  destruct (Str.HasPrefix ref (growPrefix ns q)) eqn:Eg.
  { split; [done|]. exists ref, sha. split; [done|]. by left. }
  destruct (Str.HasPrefix ref (shrinkPrefix ns q)) eqn:Es.
  { split; [done|]. exists ref, sha. split; [done|]. by right; left. }
  destruct (Str.HasPrefix ref (legacyPrefix ns q)) eqn:El; [|by left].
  destruct (legacy.1 =? 0); [|by left]. right. split; [done|]. exists ref, sha. split; [done|]. by right; right.
Qed.

(** The legacy candidate so far is nothing or was listed. *)
Definition candidate_ok (past : history) (ns q : string) (legacy : Z * string) : Prop :=
  legacy.1 = 0 ∨ listed past ns q legacy.1 legacy.2.

Lemma inspect_prs_listed past page prs0 next ns q legacy prs :
  saw past (PullListOpen page) (Ok (prs0, next)) → (∀ pr, pr ∈ prs → pr ∈ prs0) → candidate_ok past ns q legacy →
  match inspect_prs ns q legacy prs with
  | inl (id, d) => listed past ns q id d
  | inr legacy' => candidate_ok past ns q legacy'
  end.
Proof.
  intros Hs. revert legacy. induction prs as [|pr prs IH]; intros legacy Hin Hl; [done|]. cbn [inspect_prs].
  pose proof (inspect_pr_matches ns q legacy pr) as Hm. destruct (inspect_pr ns q legacy pr) as [[id d]|legacy'].
  - destruct Hm as [-> Hm]. exists page, prs0, next, pr. split; [done|]. split; [apply Hin; by left|done].
  - apply IH; [intros pr' Hpr'; apply Hin; by right|]. destruct Hm as [->|[Hid Hm]]; [done|]. right.
    exists page, prs0, next, pr. split; [done|]. split; [apply Hin; by left|done].
Qed.

Lemma guarded_find_loop fuel ns q page legacy past :
  candidate_ok past ns q legacy →
  guarded read_only (search_outcome ns q) (find_loop fuel ns q page legacy) past.
Proof.
  revert page legacy past. induction fuel as [|fuel IH]; intros page legacy past Hl; cbn [find_loop].
  - by apply guarded_call; [|intros []].
  - apply guarded_call; [done|]. intros [[prs next]|e]; [|done].
    set (past' := past ++ [_]).
    assert (Hl' : candidate_ok past' ns q legacy).
    { destruct Hl as [Hz|(p & ps & n & pr & Hs & Hr)]; [by left|]. right. exists p, ps, n, pr.
      split; [by apply saw_app|done]. }
    pose proof (inspect_prs_listed past' page prs next ns q legacy prs (saw_last _ _ _) (λ pr H, H) Hl') as Hi.
    destruct (inspect_prs ns q legacy prs) as [[id d]|legacy']; [by right|].
    destruct (next =? 0); [|by apply IH]. destruct (Z.eqb_spec legacy'.1 0) as [Hz|Hz]; [by left|].
    destruct legacy' as [id d]. right. by destruct Hi.
Qed.

Lemma FindOpenPR_reports fuel ns q : every_outcome (search_outcome ns q) (FindOpenPR fuel ns q).
Proof. eapply guarded_every_outcome, guarded_find_loop. by left. Qed.

(** ** What a creation opened *)

Lemma CreatePR_opened g q ns d ann lim tr id :
  steps (CreatePR g q ns d ann lim) tr (Ret (Ok id)) →
  ∃ title base body unix, saw tr (PullCreate title (branch_name d ns q unix) base body) (Ok id).
Proof.
  intros Hs. pose proof (guarded_CreatePR d ns q lim g ann) as HG.
  destruct (guarded_every_outcome _ _ _ HG _ _ Hs) as [(t & h & b & bo & Ho) _].
  pose proof Ho as Ho'. apply list_elem_of_split in Ho' as (tr1 & tr2 & Htr).
  rewrite Htr in Hs. pose proof (guarded_every_call _ _ _ HG tr1 _ tr2 _ Hs) as Hc. simpl in Hc.
  destruct Hc as ((now & sha & _ & -> & _) & _). by exists t, b, bo, (unix_of now).
Qed.

(** ** The contract *)

(** GitHub lists a pull request with the branch that it was opened from. *)
Definition heads_fixed (w : history) : Prop := ∀ title head base body id page prs next pr,
  saw w (PullCreate title head base body) (Ok id) → saw w (PullListOpen page) (Ok (prs, next)) →
  pr ∈ prs → PrNumber pr = id → ∃ sha, PrHead pr = Some (head, sha).

(** The provider, in a history of the calls of all its operations, ran
    [CreatePR] or [FindOpenPR] with this result. *)
Definition gh_created (w : history) (id : Z) (d ns q : string) : Prop :=
  ∃ g ann lim tr, tr ⊆ w ∧ steps (CreatePR g q ns d ann lim) tr (Ret (Ok id)) ∧
    (d = dirGrow ∨ d = dirShrink) ∧ names_ok ns q.
Definition gh_found (w : history) (id : Z) (d ns q : string) : Prop :=
  ∃ fuel tr, tr ⊆ w ∧ steps (FindOpenPR fuel ns q) tr (Ret (Ok (id, d))) ∧ id ≠ 0 ∧ names_ok ns q.

Lemma matches_branch d ns q unix sha ns' q' d' pr :
  d = dirGrow ∨ d = dirShrink → names_ok ns q → names_ok ns' q' →
  PrHead pr = Some (branch_name d ns q unix, sha) → matches ns' q' d' pr → d' = d ∧ ns' = ns ∧ q' = q.
Proof.
  intros Hd Hn Hn' Hh (ref & sha' & Hr & Hm). rewrite Hh in Hr. injection Hr as <- <-.
  assert (no_slash d = true ∧ Str.Contains d "-" = false) as [Hs Hdash] by by destruct Hd as [-> | ->].
  unfold growPrefix, shrinkPrefix in Hm. rewrite !HasPrefix_branch, legacy_not_branch in Hm by done.
  rewrite !andb_true_iff, !bool_decide_eq_true in Hm.
  destruct Hm as [[(-> & -> & ->) ->]|[[(-> & -> & ->) ->]|?]]; done.
Qed.

(** A pull request that [FindOpenPR] reports, and that [CreatePR] once opened, was
    opened for that quota and in that direction, however the operations run
    interleaved. *)
#[export] Instance github_contract : DirectionContract history gh_created gh_found heads_fixed.
Proof.
  intros w id d ns q d' ns' q' Hw (g & ann & lim & tr & Hsub & Hs & Hd & Hn) (fuel & tr' & Hsub' & Hs' & Hne & Hn').
  destruct (CreatePR_opened _ _ _ _ _ _ _ _ Hs) as (t & b & bo & unix & Ho).
  destruct (FindOpenPR_reports _ _ _ _ _ Hs') as [?|(page & prs & next & pr & Hl & Hin & Hid & Hm)]; [done|].
  destruct (Hw _ _ _ _ _ _ _ _ _ (Hsub _ Ho) (Hsub' _ Hl) Hin Hid) as [sha Hh].
  by eapply matches_branch.
Qed.

End contract.
