(* ===== verification/SystemSerial.v ===== *)
(** * At most one open pull request per quota

    controller-runtime runs reconciliations of different quotas at the same time,
    but never two of one quota: its work queue holds a key back while it is being
    worked on. Under that discipline, with the garbage collector running beside
    them and with crashes at any point, every pull request is opened after a
    search that found none, with no other one opened for the quota in between;
    so a provider that searches honestly never has two open at a time. *)

From S2P Require Export ReconcileGuards LockGC.
From stdpp Require Export sorting base option gmap strings list fin_maps.

Open Scope Z_scope.
Open Scope prog_scope.

Section serial.
Context {KQ : KubeQuantity} {KS : KubeSchema} {GR : GoRange} {RP : RetryPolicy}.
Context {GQ : GoQuote} {GA : GoArch}.

Local Abbreviation history := (list (event call)).

(** ** A reconciliation opens at most one pull request *)

Definition creates_none (R : Type) (e : call R) : Prop :=
  match e with CreatePR _ _ _ _ _ => False | _ => True end.

Definition uncreated (past : history) : Prop := Forall (λ ev, creates_none _ (ev_call ev)) past.

Definition first_creation (past : history) (R : Type) (e : call R) : Prop :=
  match e with CreatePR _ _ _ _ _ => uncreated past | _ => True end.

Lemma guarded_silent {A} (Q : history → A → Prop) (p : prog call A) past :
  quiet creates_none p → uncreated past → (∀ past' a, uncreated past' → Q past' a) →
  guarded first_creation Q p past.
Proof.
  intros Hq Hu HQ. revert past Hu. induction p as [a|R e k IH]; intros past Hu; [by apply HQ|].
  destruct Hq as [He Hk]. split; [by destruct e|]. intros r. apply IH; [done|].
  apply Forall_app. split; [done|]. by apply Forall_singleton.
Qed.

Lemma guarded_creates_none {A} (p : prog call A) past :
  quiet creates_none p → guarded first_creation (λ _ _, True) p past.
Proof. intros Hq. apply (guarded_quiet _ _ creates_none); [done| |done]. by intros past' R []. Qed.

(** Go through a program that opens nothing. *)
Ltac silent :=
  repeat first
    [ done
    | apply quiet_bind; [|intros ?]
    | progress intros
    | split
    | progress cbn [quiet pbind call_]
    | case_match ].

Lemma quiet_retry n attempt : quiet creates_none attempt → quiet creates_none (retry n attempt).
Proof. intros Ha. induction n as [|n IH]; simpl; silent. Qed.

Lemma quiet_MutateState ns q fn : (∀ st, quiet creates_none (fn st)) → quiet creates_none (MutateState ns q fn).
Proof.
  intros Hfn. unfold MutateState. apply quiet_bind; [unfold ensureLeaseExists; silent|]. intros [e|]; [done|].
  apply quiet_retry. unfold mutate_attempt. simpl. split; [done|]. intros [lease|e]; [|done].
  apply quiet_bind; [apply Hfn|]. by silent.
Qed.

Lemma quiet_written {A} ns q fn (k : option error → prog call A) :
  (∀ st, quiet creates_none (fn st)) → (∀ e, quiet creates_none (k e)) →
  quiet creates_none (pbind (MutateState ns q fn) k).
Proof. intros Hfn Hk. by apply quiet_bind; [apply quiet_MutateState|]. Qed.

Lemma unguarded_creates_none {A} (p : prog call A) : quiet unguarded p → quiet creates_none p.
Proof. induction p as [a|R e k IH]; [done|]. intros [He Hk]. split; [by destruct e|]. intros r. by apply IH. Qed.

Lemma quiet_Observe quota wd : quiet creates_none (Observer.Observe quota wd).
Proof.
  unfold Observer.Observe. cbn [quiet pbind call_]. split; [done|].
  assert (Hw : ∀ key cached window, quiet creates_none (observe_window quota wd key cached window)).
  { intros key cached window. unfold observe_window. cbn [quiet pbind call_]. split; [done|]. intros now.
    destruct (Window.Observe _ _ _ _ _) as [w changed]. apply quiet_bind; [by destruct cached|]. intros [].
    destruct (changed || _); [|by silent]. destruct (EncodeWindow _ _); [|done].
    apply quiet_written; [done|]. intros [e|]; by silent. }
  intros [window|]; [apply Hw|]. apply quiet_bind; [unfold GetState; silent|]. intros [st|e]; [apply Hw|done].
Qed.

Lemma quiet_collectDeficits quota since : quiet creates_none (collectDeficits quota since).
Proof.
  apply unguarded_creates_none. unfold collectDeficits. cbn [quiet pbind call_]. split; [done|]. intros [items|e]; [|done].
  split; [done|]. intros now. apply quiet_bind; [|done]. apply quiet_pfold. intros. apply quiet_collect_event.
Qed.

Lemma quiet_update_pr ns q ann id d : quiet creates_none (update_pr ns q ann id d).
Proof. unfold update_pr. silent. Qed.

Lemma quiet_merge_or_update b ns q ann st status d : quiet creates_none (merge_or_update b ns q ann st status d).
Proof.
  unfold merge_or_update. destruct (should_auto_merge _ _ _); [|apply quiet_update_pr].
  destruct (Str.lowers_to _ _); [done|]. destruct (can_attempt_merge _); [|apply quiet_update_pr].
  cbn [quiet pbind call_]. split; [done|]. intros [e|]; [apply quiet_update_pr|].
  split; [done|]. intros now. apply quiet_written; [done|]. by intros [e|].
Qed.

Lemma quiet_handleActivePR b ns q ann pol st d : quiet creates_none (handleActivePR b ns q ann pol st d).
Proof.
  unfold handleActivePR. cbn [quiet pbind call_]. split; [done|]. intros [[status|]|e]; [|by silent|done].
  destruct (negb (IsOpen status)).
  { cbn [quiet pbind call_]. split; [done|]. intros now. apply quiet_written; [done|]. by intros [e|]. }
  apply quiet_bind; [unfold shrinkPRShouldClose; silent|]. intros [reason|]; [|apply quiet_merge_or_update].
  cbn [quiet pbind call_]. split; [done|]. intros [e|]; [done|]. split; [done|]. intros now.
  apply quiet_written; [done|]. by intros [e|].
Qed.

Lemma guarded_handleNewProposal_once ns quota ann pol st d past :
  uncreated past → guarded first_creation (λ _ _, True) (handleNewProposal ns quota ann pol st d) past.
Proof.
  intros Hu. unfold handleNewProposal. apply guarded_call; [done|]. intros [[id d0]|e]; [|done].
  assert (Hu' : ∀ r, uncreated (past ++ [Event _ (FindOpenPR ns (QuotaName quota)) r])).
  { intros r. apply Forall_app. split; [done|]. by apply Forall_singleton. }
  destruct (negb (id =? 0)).
  { apply guarded_creates_none, quiet_written; [done|]. by intros [e|]. }
  destruct (is_noop _ _); [done|]. apply guarded_bind, guarded_silent; [unfold grow_cooldown; silent|done|].
  intros past1 [w|] Hu1; [done|]. unfold open_pr. apply guarded_bind, guarded_silent; [|done|].
  { apply quiet_pfold. intros [] [res q]. unfold recommend. silent. }
  intros past2 [] Hu2. apply guarded_call; [done|]. intros [id'|e].
  - apply guarded_creates_none, quiet_written; [|by intros [e|]]. unfold record_pr. silent.
  - by destruct (is_kind _ _).
Qed.

Lemma guarded_Reconcile_once r ns name : guarded first_creation (λ _ _, True) (Reconcile r ns name) [].
Proof.
  assert (Hu0 : uncreated []) by constructor.
  unfold Reconcile. apply guarded_call; [done|]. intros [quota|e].
  2: { apply guarded_creates_none. unfold Forget. silent. }
  apply guarded_call; [done|]. intros [ann|e]; [|done].
  destruct (ParsePolicy ann (BasePolicy r)) as [pol warnings].
  apply guarded_bind, guarded_silent.
  { apply quiet_pfold. intros [] w. unfold report_warning. silent. }
  { by repeat constructor. }
  intros past1 [] Hu1. destruct (negb (Enabled pol)); [done|].
  unfold observe_and_act. apply guarded_bind, guarded_silent; [apply quiet_Observe|done|].
  intros past2 [window|e] Hu2; [|done]. apply guarded_bind, guarded_silent; [unfold GetState; silent|done|].
  intros past3 [st|e] Hu3; [|done]. apply guarded_bind, guarded_silent; [apply quiet_collectDeficits|done|].
  intros past4 scan Hu4. apply guarded_call; [done|]. intros now.
  assert (Hu5 : uncreated (past4 ++ [Event _ TimeNow now])).
  { apply Forall_app. split; [done|]. by apply Forall_singleton. }
  unfold act_on. apply guarded_bind, guarded_silent; [|done|].
  { apply unguarded_creates_none, quiet_recordDecision. }
  intros past6 [] Hu6. destruct (negb (PRID st =? 0)).
  { apply guarded_creates_none, quiet_handleActivePR. }
  destruct (DDirection _); [done|by apply guarded_handleNewProposal_once|].
  destruct (negb (is_ok scan)); [done|by apply guarded_handleNewProposal_once].
Qed.

(** ** The programs that run *)

(** The running reconciliations, by quota, and the runs of the collector. A
    reconciliation of a quota starts when none of it is running; everything may
    be cut off at any point. [law] says which answers are possible. *)
Section runs.
Context (law : ∀ R, call R → R → Prop).
Arguments law {_} _ _.

Definition reconcile_program (r : ResourceQuotaReconciler) (key : string * string) : prog call unit :=
  _ ⇐ Reconcile r key.1 key.2; Ret tt.

Inductive serial_run : gmap (string * string) (prog call unit) → list (prog call unit) → history → Prop :=
| serial_empty : serial_run ∅ [] []
| serial_begin m gs w r key :
    serial_run m gs w → m !! key = None → serial_run (<[key := reconcile_program r key]> m) gs w
| serial_end m gs w key : serial_run m gs w → serial_run (delete key m) gs w
| serial_call m gs w key R (e : call R) k x :
    serial_run m gs w → m !! key = Some (Vis e k) → law e x →
    serial_run (<[key := k x]> m) gs (w ++ [Event _ e x])
| serial_gc_begin m gs w ticks : serial_run m gs w → serial_run m (gc_start ticks :: gs) w
| serial_gc_end m gs w i : serial_run m gs w → serial_run m (delete i gs) w
| serial_gc_call m gs w i R (e : call R) k x :
    serial_run m gs w → gs !! i = Some (Vis e k) → law e x →
    serial_run m (<[i := k x]> gs) (w ++ [Event _ e x]).
End runs.

(** The API server answers with the quota that was asked for. *)
Definition named_answer (R : Type) (e : call R) : R → Prop :=
  match e in call R return R → Prop with
  | GetQuota ns name => λ res, match res with Ok quota => QuotaName quota = name | Err _ => True end
  | _ => λ _, True
  end.

(** ** Every creation was checked *)

(** The event opens a pull request, or tries to. *)
Definition opens (ns q : string) (ev : event call) : Prop :=
  match ev_call ev with CreatePR q' ns' _ _ _ => ns' = ns ∧ q' = q | _ => False end.

(** The last thing that happened to the pull requests of the quota, as far as
    this process is concerned, is a search that found none. *)
Definition searched (w : history) (ns q : string) : Prop :=
  ∃ j d, w !! j = Some (Event _ (FindOpenPR ns q) (Ok (0, d))) ∧
    ∀ k ev, (j < k)%nat → w !! k = Some ev → ¬ opens ns q ev.

Definition all_checked (w : history) : Prop :=
  ∀ i ev ns q, w !! i = Some ev → opens ns q ev → searched (take i w) ns q.

(** What a running reconciliation of a quota has seen, and what it will do. *)
Definition key_call (key : string * string) (past : history) (R : Type) (e : call R) : Prop :=
  (∃ r, call_ok r key.1 key.2 past R e) ∧ first_creation past R e.

Definition key_past (key : string * string) (w past : history) : Prop :=
  past ⊆ w ∧ (uncreated past → ∀ d, saw past (FindOpenPR key.1 key.2) (Ok (0, d)) → searched w key.1 key.2).

Definition key_ok (w : history) (key : string * string) (p : prog call unit) : Prop :=
  ∃ past, key_past key w past ∧ guarded (key_call key) (λ _ _, True) p past.

Lemma reconcile_program_ok w r key : key_ok w key (reconcile_program r key).
Proof.
  exists []. split.
  - split; [by intros ev Hev%elem_of_nil|]. intros _ d Hd. by apply elem_of_nil in Hd.
  - unfold reconcile_program. apply guarded_bind. eapply guarded_weaken; [|done].
    eapply guarded_strengthen; [|apply guarded_both; [apply guarded_Reconcile|apply guarded_Reconcile_once]].
    intros past R e [H1 H2]. split; [by exists r|done].
Qed.

Lemma searched_app w ev ns q : searched w ns q → ¬ opens ns q ev → searched (w ++ [ev]) ns q.
Proof.
  intros (j & d & Hj & Hno) Hev. exists j, d. split; [by apply lookup_app_l_Some|].
  intros k ev' Hk [He|[_ He]]%lookup_app_Some; [by apply (Hno k)|].
  by apply list_lookup_singleton_Some in He as [_ <-].
Qed.

Lemma searched_last w ns q d : searched (w ++ [Event _ (FindOpenPR ns q) (Ok (0, d))]) ns q.
Proof.
  exists (length w), d. split; [by rewrite lookup_app_r, Nat.sub_diag|].
  intros k ev Hk He%lookup_lt_Some. rewrite length_app in He. simpl in He. lia.
Qed.

(** Another program's call leaves a reconciliation as it is. *)
Lemma key_ok_other w ev key p :
  key_ok w key p → (∀ q ns, opens ns q ev → (ns, q) ≠ key) → key_ok (w ++ [ev]) key p.
Proof.
  intros (past & [Hsub Hs] & Hg) Hev. exists past. split; [|done]. split.
  - intros x Hx. apply elem_of_app. left. by apply Hsub.
  - intros Hu d Hd. apply searched_app; [by eapply Hs|]. intros Ho. apply (Hev _ _ Ho). by destruct key.
Qed.

(** Its own call. *)
Lemma key_ok_call w key R (e : call R) k x :
  key_ok w key (Vis e k) → key_ok (w ++ [Event _ e x]) key (k x).
Proof.
  intros (past & [Hsub Hs] & [He Hk]). exists (past ++ [Event _ e x]). split; [|by apply Hk]. split.
  - intros y [Hy|Hy]%elem_of_app; apply elem_of_app; [left; by apply Hsub|by right].
  - intros [Hu Hl]%Forall_app d [Hd|Hd]%elem_of_app.
    + apply searched_app; [by eapply Hs|]. apply Forall_cons in Hl as [Hl _].
      unfold opens, creates_none in *. simpl in *. intros Ho. by destruct e.
    + apply list_elem_of_singleton in Hd. rewrite <- Hd. apply searched_last.
Qed.

(** A pull request is opened by the reconciliation of its quota, after a search. *)
Lemma key_opens w key R (e : call R) k x ns q :
  key_ok w key (Vis e k) → Forall (λ ev, named_answer _ (ev_call ev) (ev_resp ev)) w →
  opens ns q (Event _ e x) → (ns, q) = key ∧ searched w ns q.
Proof.
  intros (past & [Hsub Hs] & [[[r Hok] Hfirst] _]) Hw Ho. unfold opens in Ho. simpl in Ho.
  destruct e; try done. destruct Ho as [-> ->]. destruct key as [kn kq]. simpl in *.
  destruct Hok as (v & d0 & Hv & Hq & -> & _ & _ & Hf & _).
  assert (Hname : QuotaName (v_quota v) = kq).
  { rewrite Forall_forall in Hw. apply (Hw _ (Hsub _ (c_quota _ _ _ _ _ Hv))). }
  rewrite Hname in Hq. subst q. split; [done|]. by eapply Hs.
Qed.

Definition key_opens_none (ev : event call) : Prop := ∀ ns q, ¬ opens ns q ev.

Lemma gc_opens_none past R (e : call R) x : gc_call_ok past R e → key_opens_none (Event _ e x).
Proof. intros H ns q Ho. unfold opens in Ho. simpl in Ho. by destruct e. Qed.

Definition serial_inv (m : gmap (string * string) (prog call unit)) (gs : list (prog call unit)) (w : history)
    : Prop :=
  (∀ key p, m !! key = Some p → key_ok w key p) ∧
  (∀ p, p ∈ gs → ∃ past, guarded gc_call_ok (λ _ _, True) p past) ∧
  Forall (λ ev, named_answer _ (ev_call ev) (ev_resp ev)) w ∧ all_checked w.

Lemma all_checked_app w ev :
  all_checked w → (∀ ns q, opens ns q ev → searched w ns q) → all_checked (w ++ [ev]).
Proof.
  intros Hw Hev i ev' ns q Hi Ho. apply lookup_app_Some in Hi as [Hi|[Hi He]].
  - pose proof (lookup_lt_Some _ _ _ Hi). rewrite take_app_le by lia. by eapply Hw.
  - apply list_lookup_singleton_Some in He as [He <-].
    replace i with (length w) by lia. rewrite take_app_length. by apply Hev.
Qed.

Lemma serial_invariant m gs w : serial_run named_answer m gs w → serial_inv m gs w.
Proof.
  induction 1 as [|m gs w r key _ (Hm & Hg & Hn & Hc) Hk|m gs w key _ (Hm & Hg & Hn & Hc)
    |m gs w key R e k x _ (Hm & Hg & Hn & Hc) Hk Hl|m gs w ticks _ (Hm & Hg & Hn & Hc)
    |m gs w i _ (Hm & Hg & Hn & Hc)|m gs w i R e k x _ (Hm & Hg & Hn & Hc) Hi Hl].
  - split; [by intros key p|]. split; [by intros p Hp%elem_of_nil|]. split; [done|]. by intros i ev.
  - split; [|done]. intros key' p Hp. apply lookup_insert_Some in Hp as [[<- <-]|[_ Hp]]; [|by apply Hm].
    apply reconcile_program_ok.
  - split; [|done]. intros key' p [_ Hp]%lookup_delete_Some. by apply Hm.
  - assert (Ho : ∀ ns q, opens ns q (Event _ e x) → (ns, q) = key ∧ searched w ns q).
    { intros ns q. by eapply key_opens; [apply Hm|]. }
    split; [|split; [done|split]].
    + intros key' p Hp. apply lookup_insert_Some in Hp as [[<- <-]|[Hne Hp]].
      * by apply key_ok_call, Hm.
      * apply key_ok_other; [by apply Hm|]. intros q ns [<- _]%Ho. by apply not_eq_sym.
    + apply Forall_app. split; [done|]. by apply Forall_singleton.
    + apply all_checked_app; [done|]. intros ns q Hop. by apply Ho.
  - split; [done|]. split; [|done]. intros p [->|Hp]%elem_of_cons; [|by apply Hg].
    exists []. apply guarded_gc_start.
  - split; [done|]. split; [|done]. intros p Hp. apply Hg. by eapply list_subseteq_delete.
  - destruct (Hg (Vis e k)) as (past & He & Hk); [by eapply list_elem_of_lookup_2|].
    pose proof (gc_opens_none past R e x He) as Hno.
    split; [|split; [|split]].
    + intros key p Hp. apply key_ok_other; [by apply Hm|]. intros q ns Ho. by destruct (Hno _ _ Ho).
    + intros p [j Hj]%list_elem_of_lookup. apply list_lookup_insert_Some in Hj as [(_ & <- & _)|[_ Hj]].
      * eexists. apply Hk.
      * apply Hg. by eapply list_elem_of_lookup_2.
    + apply Forall_app. split; [done|]. by apply Forall_singleton.
    + apply all_checked_app; [done|]. intros ns q Ho. by destruct (Hno _ _ Ho).
Qed.

(** ** What is open *)

(** [open i id ns q]: after [i] events, the pull request [id] of the quota is
    open. Anybody may close or merge pull requests at any time; one that is open
    was open before or is the one that the last event opened, even if it then
    reported an error. A search that reports none was made when none was open. *)
Definition honest (open : nat → Z → string → string → Prop) (w : history) : Prop :=
  ∀ i ev, w !! i = Some ev →
    (∃ n, ∀ id ns q, open (S i) id ns q → open i id ns q ∨ id = n ∧ opens ns q ev) ∧
    (∀ ns q d, ev = Event _ (FindOpenPR ns q) (Ok (0, d)) → ∀ id, ¬ open (S i) id ns q).

Lemma none_open open w ns q j i d :
  honest open w → w !! j = Some (Event _ (FindOpenPR ns q) (Ok (0, d))) →
  (∀ k ev, (j < k)%nat → (k < i)%nat → w !! k = Some ev → ¬ opens ns q ev) →
  (j < i <= length w)%nat → ∀ id, ¬ open i id ns q.
Proof.
  intros Hh Hj Hno. induction i as [|i IH]; [lia|]. intros Hi id Ho.
  destruct (decide (j = i)) as [<-|Hne].
  - destruct (Hh _ _ Hj) as [_ Hz]. by eapply Hz.
  - destruct (lookup_lt_is_Some_2 w i) as [ev Hev]; [lia|]. destruct (Hh _ _ Hev) as [[n Hn] _].
    destruct (Hn _ _ _ Ho) as [Ho'|[_ Ho']].
    + eapply IH; [|lia|exact Ho']. intros k ev' Hk Hk' He. eapply Hno; [done| |done]. lia.
    + eapply (Hno i); [lia|lia|done|done].
Qed.

(** C2. In every run of the controller there is at most one open pull request per
    quota: whatever other quotas are worked on meanwhile, wherever the process
    is cut off and started again, and whether or not an answer to a creation is
    lost. *)
Theorem one_open_pull_request m gs w open :
  serial_run named_answer m gs w → honest open w →
  (∀ id id' ns q, open 0%nat id ns q → open 0%nat id' ns q → id = id') →
  ∀ i id id' ns q, (i <= length w)%nat → open i id ns q → open i id' ns q → id = id'.
Proof.
  intros (_ & _ & _ & Hc)%serial_invariant Hh H0 i. induction i as [|i IH]; intros id id' ns q Hi Ho Ho'; [by eapply H0|].
  destruct (lookup_lt_is_Some_2 w i) as [ev Hev]; [lia|]. destruct (Hh _ _ Hev) as [[n Hn] _].
  destruct (Hn _ _ _ Ho) as [H1|[-> Hop]], (Hn _ _ _ Ho') as [H2|[-> Hop']]; [|exfalso|exfalso|done].
  - eapply IH; [lia|done|done].
  - destruct (Hc _ _ _ _ Hev Hop') as (j & d & Hj & Hno). apply lookup_take_Some in Hj as [Hj Hlt].
    eapply (none_open open w ns q j i d); try done; [|lia].
    intros k ev' Hk Hk' He. eapply Hno; [done|]. by apply lookup_take_Some.
  - destruct (Hc _ _ _ _ Hev Hop) as (j & d & Hj & Hno). apply lookup_take_Some in Hj as [Hj Hlt].
    eapply (none_open open w ns q j i d); try done; [|lia].
    intros k ev' Hk Hk' He. eapply Hno; [done|]. by apply lookup_take_Some.
Qed.

End serial.
