(* ===== verification/ReconcileErrors.v ===== *)
(** * A reconciliation fails only for a cause

    Which errors of its calls a reconciliation tolerates: a missing quota or
    lease, a lost race for a lease, a limited number of conflicts, a manifest
    that is not there yet, and every error of the event scan and of a merge. When
    no call fails in another way, the reconciliation succeeds, and it never
    dereferences nil. *)

From S2P Require Export ReconcileGuards SystemSerial.
From stdpp Require Export sorting base option gmap strings list fin_maps.

Open Scope Z_scope.
Open Scope prog_scope.

Section errors.
Context {KQ : KubeQuantity} {KS : KubeSchema} {GR : GoRange} {RP : RetryPolicy}.
Context {GQ : GoQuote} {GA : GoArch}.

Local Abbreviation history := (list (event call)).

(** ** Tolerable answers *)

(** The lease was read, or created by someone. *)
Definition knows_lease (n : string) (ev : event call) : bool :=
  match ev with
  | Event R e r =>
      match e in call R return R → bool with
      | GetLease n' => λ res, match res with Ok _ => String.eqb n' n | Err _ => false end
      | CreateLease l => λ res,
          match res with
          | None => String.eqb (LeaseName l) n
          | Some err => String.eqb (LeaseName l) n && is_kind ErrAlreadyExists err
          end
      | _ => λ _, false
      end r
  end.

Definition known (past : history) (n : string) : bool := existsb (knows_lease n) past.

(** Conflicts since the last write of a lease that succeeded. *)
Definition conflict_step (n : nat) (ev : event call) : nat :=
  match ev with
  | Event R e r =>
      match e in call R return R → nat with
      | UpdateLease _ => λ res, match res with None => 0%nat | Some _ => S n end
      | _ => λ _, n
      end r
  end.

Definition conflicts (past : history) : nat := foldl conflict_step 0%nat past.

Definition tolerable (past : history) (R : Type) (e : call R) : R → Prop :=
  match e in call R return R → Prop with
  | GetQuota _ _ => λ res, match res with Ok _ => True | Err err => is_kind ErrNotFound err = true end
  | GetNamespace _ => λ res, is_ok res = true
  | GetLease n => λ res,
      match res with Ok _ => True | Err err => is_kind ErrNotFound err = true ∧ known past n = false end
  | CreateLease _ => λ res, match res with None => True | Some err => is_kind ErrAlreadyExists err = true end
  | UpdateLease _ => λ res,
      match res with None => True | Some err => is_kind ErrConflict err = true ∧ (conflicts past < retry_more)%nat end
  | GetPRStatus _ => λ res, match res with Ok (Some _) => True | _ => False end
  | FindOpenPR _ _ => λ res, is_ok res = true
  | CreatePR _ _ _ _ _ => λ res, match res with Ok _ => True | Err err => is_kind ErrFileNotFound err = true end
  | UpdatePR _ _ _ _ _ => λ res, match res with None => True | Some err => is_kind ErrFileNotFound err = true end
  | ClosePR _ _ => λ res, res = None
  | _ => λ _, True
  end.

Definition no_panic (R : Type) (e : call R) : Prop := match e with Panic => False | _ => True end.

Local Abbreviation under_ok := (under tolerable no_panic).

(** ** Pieces that only read or publish *)

Definition calm (past : history) : Prop := conflicts past = 0%nat.

Definition inert (R : Type) (e : call R) : Prop :=
  match e with UpdateLease _ | Panic => False | _ => True end.

Lemma conflicts_inert past R (e : call R) r : inert R e → conflicts (past ++ [Event _ e r]) = conflicts past.
Proof. intros He. unfold conflicts. rewrite foldl_app. by destruct e. Qed.

Lemma known_app past past' n : known past n = true → known (past ++ past') n = true.
Proof. intros H. unfold known in *. by rewrite existsb_app, H. Qed.

Lemma calm_inert past R (e : call R) r : inert R e → calm past → calm (past ++ [Event _ e r]).
Proof. intros He. unfold calm. by rewrite conflicts_inert. Qed.

Lemma inert_no_panic R (e : call R) : inert R e → no_panic R e.
Proof. by destruct e. Qed.

Lemma under_inert {A} (Q : history → A → Prop) (p : prog call A) past :
  quiet inert p → calm past → (∀ past' a, calm past' → Q past' a) → under_ok Q p past.
Proof. intros Hq Hc HQ. by apply (under_quiet _ _ calm inert); [|apply calm_inert|apply inert_no_panic| |]. Qed.

(** ** The locker *)

Section mutate.
Context (n : string) (fn : State → prog call State).
Context (Hfn : ∀ st, quiet inert (fn st)).
Context (Q : history → option error → Prop) (HQ : ∀ past, calm past → Q past None).

Lemma under_retry k past :
  known past n = true → (conflicts past + k = retry_more)%nat →
  under_ok Q (retry k (mutate_attempt n fn)) past.
Proof using Hfn HQ.
  revert past. induction k as [|k IH]; intros past Hk Hc; simpl; (split; [done|]).
  all: intros [lease|e] Hl; [|destruct Hl as [_ Hl]; congruence].
  all: apply under_bind, under_bind, (under_quiet _ _
    (λ past', known past' n = true ∧ conflicts past' = conflicts past) inert); [by apply Hfn| |apply inert_no_panic| |].
  all: try (intros past1 R1 e1 r1 He [Hk1 Hc1]; split; [by apply known_app|by rewrite conflicts_inert]).
  all: try (split; [by apply known_app|by rewrite conflicts_inert]).
  all: intros past1 st [Hk1 Hc1]; split; [done|]; intros [e|] He; simpl.
  - destruct He as [_ He]. lia.
  - apply HQ. unfold calm, conflicts. by rewrite foldl_app.
  - destruct He as [-> He]. apply IH; [by apply known_app|]. unfold conflicts in *. rewrite foldl_app. simpl. lia.
  - apply HQ. unfold calm, conflicts. by rewrite foldl_app.
Qed.

End mutate.

Lemma under_MutateState ns q fn (Q : history → option error → Prop) past :
  (∀ st, quiet inert (fn st)) → calm past → (∀ past', calm past' → Q past' None) →
  under_ok Q (MutateState ns q fn) past.
Proof.
  intros Hfn Hc HQ. unfold MutateState. set (n := getLeaseName ns q).
  assert (Hretry : ∀ past', known past' n = true → calm past' → under_ok Q (RetryOnConflict (mutate_attempt n fn)) past').
  { intros past' Hk Hc'. apply under_retry; [done|done|done|]. unfold calm in Hc'. lia. }
  unfold ensureLeaseExists. apply under_bind, under_call; [done|]. intros [lease|e] Hl.
  - apply Hretry; [|by apply calm_inert]. unfold known. rewrite existsb_app. simpl. by rewrite String.eqb_refl, orb_true_r.
  - destruct Hl as [-> _]. apply under_call; [done|]. intros r Hr.
    assert (Hk : ∀ past', known (past' ++ [Event _ (CreateLease {| LeaseName := n;
      LeaseLabels := managedLeaseLabels ns q; LeaseAnnotations := ∅; HolderIdentity := None;
      AcquireTime := None; ResourceVersion := "" |}) r]) n = true).
    { intros past'. unfold known. rewrite existsb_app. simpl. destruct r as [e'|]; simpl;
        rewrite String.eqb_refl; [simpl in Hr; rewrite Hr|]; by rewrite orb_true_r. }
    destruct r as [e'|]; [simpl in Hr; rewrite Hr|]; (apply Hretry; [apply Hk|]; apply calm_inert; [done|]; by apply calm_inert).
Qed.

Lemma under_GetState ns q (Q : history → go_result error State → Prop) past :
  calm past → (∀ past' st, calm past' → Q past' (Ok st)) → under_ok Q (GetState ns q) past.
Proof.
  intros Hc HQ. unfold GetState. apply under_call; [done|]. intros [lease|e] Hl.
  - apply HQ. by apply calm_inert.
  - destruct Hl as [-> _]. apply HQ. by apply calm_inert.
Qed.

Lemma unguarded_inert {A} (p : prog call A) : quiet unguarded p → quiet inert p.
Proof. induction p as [a|R e k IH]; [done|]. intros [He Hk]. split; [by destruct e|]. intros r. by apply IH. Qed.

(** ** The parts of a reconciliation *)

Definition succeeds (past : history) (res : go_result error Result) : Prop := is_ok res = true.

Lemma under_written ns q fn x past :
  (∀ st, quiet inert (fn st)) → calm past →
  under_ok succeeds (err ⇐ MutateState ns q fn; match err with Some e => Ret (Err e) | None => Ret (Ok x) end) past.
Proof. intros Hfn Hc. apply under_bind, under_MutateState; [done|done|]. by intros past' Hc'. Qed.

(** One call that the history survives. *)
Ltac call_inert := apply under_call; [done|].
Ltac calms := repeat (apply calm_inert; [done|]); assumption.

Lemma under_Observe quota wd (Q : history → go_result error Window → Prop) past :
  calm past → (∀ past' w, calm past' → Q past' (Ok w)) → under_ok Q (Observer.Observe quota wd) past.
Proof.
  intros Hc HQ. unfold Observer.Observe.
  assert (Hstore : ∀ key w past', calm past' → under_ok Q (store_window key w) past').
  { intros key w past' Hc'. unfold store_window. call_inert. intros [] _. apply HQ. calms. }
  assert (Hw : ∀ key cached window past', calm past' → under_ok Q (observe_window quota wd key cached window) past').
  { intros key cached window past' Hc'. unfold observe_window. call_inert. intros now _.
    destruct (Window.Observe _ _ _ _ _) as [w changed].
    apply under_bind, under_inert; [by destruct cached|calms|]. intros past1 [] Hc1.
    destruct (changed || _); [|by apply Hstore]. unfold EncodeWindow.
    apply under_bind, under_MutateState; [done|done|]. intros past2 Hc2. by apply Hstore. }
  call_inert. intros [window|] _; [apply Hw; calms|].
  apply under_bind, under_GetState; [calms|]. intros past1 st Hc1. by apply Hw.
Qed.

Lemma under_update_pr ns q ann id d past : calm past → under_ok succeeds (update_pr ns q ann id d) past.
Proof.
  intros Hc. unfold update_pr. destruct (DDirection d); try done. call_inert. intros [e|] Hl; [|done].
  simpl in Hl. by rewrite Hl.
Qed.

Lemma under_merge_or_update b ns q ann st status d past :
  calm past → under_ok succeeds (merge_or_update b ns q ann st status d) past.
Proof.
  intros Hc. unfold merge_or_update. destruct (should_auto_merge _ _ _); [|by apply under_update_pr].
  destruct (Str.lowers_to _ _); [done|]. destruct (can_attempt_merge _); [|by apply under_update_pr].
  call_inert. intros [e|] _; [apply under_update_pr; calms|]. call_inert. intros now _.
  apply under_written; [done|calms].
Qed.

Lemma under_handleActivePR b ns q ann pol st d past :
  calm past → under_ok succeeds (handleActivePR b ns q ann pol st d) past.
Proof.
  intros Hc. unfold handleActivePR. call_inert. intros [[status|]|e] Hl; [|done|done].
  destruct (negb (IsOpen status)).
  { call_inert. intros now _. apply under_written; [done|calms]. }
  apply under_bind, under_inert; [|calms|].
  { destruct (String.eqb _ _); [|done]. unfold shrinkPRShouldClose.
    destruct (DDirection d); try done; (destruct (Time.IsZero _); [done|]); split; try done;
      intros now; simpl; by case_match. }
  intros past1 [reason|] Hc1; [|by apply under_merge_or_update].
  call_inert. intros e ->. call_inert. intros now _. apply under_written; [done|calms].
Qed.

Lemma under_handleNewProposal ns quota ann pol st d past :
  calm past → under_ok succeeds (handleNewProposal ns quota ann pol st d) past.
Proof.
  intros Hc. unfold handleNewProposal. call_inert. intros [[id d0]|e] Hl; [|done].
  destruct (negb (id =? 0)); [apply under_written; [done|calms]|].
  destruct (is_noop _ _); [done|]. apply under_bind, under_inert; [|calms|].
  { unfold grow_cooldown. destruct (DDirection d); try done. destruct (Time.IsZero _); [done|].
    split; [done|]. intros now. simpl. by case_match. }
  intros past1 [w|] Hc1; [done|]. unfold open_pr. apply under_bind, under_inert; [|calms|].
  { apply quiet_pfold. intros [] [res q]. unfold recommend. by case_match. }
  intros past2 [] Hc2. call_inert. intros [id'|e] Hl'.
  - apply under_written; [|calms]. intros st'. unfold record_pr. split; [done|]. by intros now.
  - simpl in Hl'. by rewrite Hl'.
Qed.

Lemma under_collectDeficits quota since (Q : history → go_result error (gmap string Z) → Prop) past :
  calm past → (∀ past' scan, calm past' → Q past' scan) → under_ok Q (collectDeficits quota since) past.
Proof.
  intros Hc HQ. apply under_inert; [|done|done]. apply unguarded_inert. unfold collectDeficits.
  cbn [quiet pbind call_]. split; [done|]. intros [items|e]; [|done]. split; [done|]. intros now.
  apply quiet_bind; [|done]. apply quiet_pfold. intros. apply quiet_collect_event.
Qed.

Lemma under_act_on r ns quota ann pol st b d past :
  calm past → under_ok succeeds (act_on r ns quota ann pol st b d) past.
Proof.
  intros Hc. unfold act_on. apply under_bind, under_inert; [|done|].
  { apply unguarded_inert, quiet_recordDecision. }
  intros past1 [] Hc1. destruct (negb (PRID st =? 0)); [by apply under_handleActivePR|].
  destruct (DDirection d); [done|by apply under_handleNewProposal|].
  destruct b; [done|by apply under_handleNewProposal].
Qed.

Lemma under_Reconcile r ns name : under_ok succeeds (Reconcile r ns name) [].
Proof.
  assert (Hc0 : calm []) by done. unfold Reconcile. call_inert. intros [quota|e] Hl.
  2: { simpl in Hl. rewrite Hl. unfold Forget. call_inert. by intros [] _. }
  call_inert. intros [ann|e] Hl'; [|done].
  destruct (ParsePolicy ann (BasePolicy r)) as [pol warnings].
  apply under_bind, under_inert; [|calms|].
  { apply quiet_pfold. intros [] w. unfold report_warning. by case_match. }
  intros past1 [] Hc1. destruct (negb (Enabled pol)); [done|]. unfold observe_and_act.
  apply under_bind, under_Observe; [done|]. intros past2 window Hc2.
  apply under_bind, under_GetState; [done|]. intros past3 st Hc3.
  apply under_bind, under_collectDeficits; [done|]. intros past4 scan Hc4.
  call_inert. intros now _. apply under_act_on. calms.
Qed.

(** C6. As long as the answers are tolerable, a reconciliation does not fail and does
    not dereference nil: an error of [Reconcile] always stems from the failure
    of a call that it cannot do without. A missing quota or lease, a lost race
    for a lease, as many conflicts as the retries cover, a manifest that is
    missing, and any error of the event scan or of a merge are survived. *)
Theorem Reconcile_fails_for_cause r ns name tr p' :
  steps (Reconcile r ns name) tr p' → lawful tolerable [] tr →
  match p' with
  | Ret res => is_ok res = true
  | Vis e _ => no_panic _ e
  end.
Proof.
  intros Hs Hl. pose proof (under_steps _ _ _ _ _ _ _ (under_Reconcile r ns name) Hs Hl) as Hu.
  destruct p' as [res|R e k]; [exact Hu|apply Hu].
Qed.

End errors.
