(* ===== verification/ReconcileProgress.v ===== *)
(** * A shortage is answered

    What [DecideDynamics.v] says of the decision, [ReconcileErrors.v] of failures
    and [ReconcileOutcomes.v] of the ways in which a reconciliation ends, put
    together: a finished reconciliation that found a shortage has done something
    about it, or has one of four reasons to wait. And from the reads to the pull
    request: a shrink is proposed only on a complete picture. *)

From S2P Require Export DecideDynamics ReconcileErrors ReconcileOutcomes.
From stdpp Require Export sorting base option gmap strings list fin_maps.

Open Scope Z_scope.
Open Scope prog_scope.

Section progress.
Context {KQ : KubeQuantity} {QL : QuantityLaws KQ} {KS : KubeSchema} {GR : GoRange} {RP : RetryPolicy}.
Context {GQ : GoQuote} {GA : GoArch}.
Context (ns : string).

Local Abbreviation history := (list (event call)).

(** What was done. *)
Inductive progress (tr : history) (v : view) : Prop :=
| progress_proposed id now :
    PRID (v_state v) = 0 →
    saw tr (CreatePR (QuotaName (v_quota v)) ns dirGrow (v_annotations v) (Targets (v_decision v))) (Ok id) →
    applied ns v (with_pr id DirectionGrow now) tr → progress tr v
| progress_rewritten :
    PRID (v_state v) ≠ 0 →
    saw tr (UpdatePR (PRID (v_state v)) (QuotaName (v_quota v)) ns (v_annotations v) (Targets (v_decision v))) None →
    progress tr v
| progress_adopted id direction :
    saw tr (FindOpenPR ns (QuotaName (v_quota v))) (Ok (id, direction)) → id ≠ 0 →
    applied ns v (set_pr id direction) tr → progress tr v
| progress_merged now :
    saw tr (MergePR (PRID (v_state v)) "squash") None → applied ns v (merged_pr now) tr → progress tr v
| progress_superseded reason now :
    PRDirection (v_state v) = dirShrink → saw tr (ClosePR (PRID (v_state v)) reason) None →
    applied ns v (expire_pr now) tr → progress tr v
| progress_released status now :
    saw tr (GetPRStatus (PRID (v_state v))) (Ok (Some status)) → IsOpen status = false →
    applied ns v (release_pr status now) tr → progress tr v.

(** Why nothing was done. *)
Inductive waits (tr : history) (v : view) : Prop :=
| waits_cooldown now :
    LastModified (v_state v) ≠ Time.zero → saw tr TimeNow now →
    Time.Sub now (LastModified (v_state v)) < GrowCooldown (v_policy v) → waits tr v
| waits_rollout :
    (∀ res q, Targets (v_decision v) !! res = Some q →
       ∃ cur, SpecHard (v_quota v) !! res = Some cur ∧ q_eq cur q = true) → waits tr v
| waits_mergeability status :
    saw tr (GetPRStatus (PRID (v_state v))) (Ok (Some status)) →
    Str.lowers_to (MergeableState status) "unknown" = true → waits tr v
| waits_manifest e :
    (saw tr (CreatePR (QuotaName (v_quota v)) ns dirGrow (v_annotations v) (Targets (v_decision v))) (Err e) ∨
     saw tr (UpdatePR (PRID (v_state v)) (QuotaName (v_quota v)) ns (v_annotations v) (Targets (v_decision v))) (Some e)) →
    is_kind ErrFileNotFound e = true → waits tr v.

Lemma idle_growth tr v x :
  DDirection (v_decision v) = DirectionGrow → PRID (v_state v) = 0 → idle_settled ns tr v x →
  progress tr v ∨ waits tr v.
Proof.
  intros Hd Hid [Hn|Hs _|id d _ Hf Hne Ha|_ _ Hn|now _ _ _ Hz Ht Hlt|id now _ _ _ Hc Ha|e _ _ _ Hc Hk]; try congruence.
  - left. by eapply progress_adopted.
  - right. by apply waits_rollout.
  - right. by eapply waits_cooldown.
  - left. rewrite Hd in Hc, Ha. by eapply progress_proposed.
  - right. rewrite Hd in Hc. eapply waits_manifest; [by left|done].
Qed.

Lemma active_growth r tr v x :
  DDirection (v_decision v) = DirectionGrow → PRID (v_state v) ≠ 0 → active_settled r ns tr v x →
  progress tr v ∨ waits tr v.
Proof.
  intros Hd Hid [status now Hs Ho Ha|status x' Hs _ [reason now [Hsh _] Hc Ha|now _ _ Hm Ha|_ Hl|_ _ _ Hu|e _ _ _ Hu Hk|_ _ Hn]]; try congruence.
  - left. by eapply progress_released.
  - left. by eapply progress_superseded.
  - left. by eapply progress_merged.
  - right. by eapply waits_mergeability.
  - left. by eapply progress_rewritten.
  - right. eapply waits_manifest; [by right|done].
Qed.

(** C7. A shortage is answered. As long as no call fails that a reconciliation cannot do
    without, a finished reconciliation succeeds; and if it was not about a quota
    that is gone or a namespace that has opted out, it worked with a decision for
    which this holds of every resource that has a limit other than zero, whose
    limit and usage are measurable, whose usage, peak, pending need and target are
    within the exact range, and whose headroom is at least the tolerance (and at
    most 1000): if it needs more than its limit, the decision grants what it needs,
    and the reconciliation has opened a pull request with these targets or
    rewritten the open one, adopted or merged one, closed a shrink that is in the
    way or taken note of a closed one; or it waits for the cooldown, for limits
    that are on their way, for the provider to make up its mind, or for a
    manifest. (With less headroom than tolerance a shortage may be ignored:
    [DecideDynamics.shortage_ignored].) *)
Theorem shortage_answered r name tr res :
  policy_ok (BasePolicy r) → steps (Reconcile r ns name) tr (Ret res) → lawful tolerable [] tr →
  ∃ x, res = Ok x ∧
    ((∃ e, saw tr (GetQuota ns name) (Err e)) ∨
     (∃ annotations, saw tr (GetNamespace ns) (Ok annotations) ∧
        Enabled (ParsePolicy annotations (BasePolicy r)).1 = false) ∨
     ∃ v, consistent r ns name tr v ∧
       ∀ key n, F64.le (Tolerance (v_policy v)) (HeadroomFor (v_policy v) key) = true →
         shortage (v_input v) key n →
         grants (v_input v) (v_decision v) key n ∧ (progress tr v ∨ waits tr v)).
Proof.
  intros Hp Hs Hl. pose proof (under_steps _ _ _ _ _ _ _ (under_Reconcile r ns name) Hs Hl) as Hok.
  simpl in Hok. destruct res as [x|e]; [|done]. exists x. split; [done|].
  destruct (Reconcile_settles r ns name tr (Ok x) Hs) as [(e & He & _)|[(ann & Ha & He & _)|(v & Hv & Hx)]].
  - left. by exists e.
  - right; left. by exists ann.
  - right; right. exists v. split; [done|]. intros key n Htol Hsh.
    assert (Hpol : policy_ok (InPolicy (v_input v))).
    { pose proof (c_policy _ _ _ _ _ Hv) as Hc. unfold v_policy in Hc. rewrite Hc. by apply ParsePolicy_policy_ok. }
    destruct (shortage_granted (v_input v) key n Hpol (c_enabled _ _ _ _ _ Hv) Htol Hsh) as [Hd Hg].
    split; [done|]. destruct (decide (PRID (v_state v) = 0)) as [Hid|Hid].
    + by eapply idle_growth.
    + by eapply active_growth.
Qed.

(** ** From the reads to a shrink *)

(** The limits of a shrink that is proposed on the view [v]. *)
Definition safe_shrink (v : view) (limits : gmap string Quantity) : Prop :=
  ShrinkEnabled (v_policy v) = true ∧
  (LeaseState.LastShrink (v_state v) = Time.zero ∨
   ShrinkCooldown (v_policy v) <= Time.Sub (Now (v_input v)) (LeaseState.LastShrink (v_state v))) ∧
  ∀ res q, limits !! res = Some q → safe_target (v_input v) res q.

(** C4. A shrink is proposed on a complete picture: the reconciliation has executed an
    observation that succeeded and an event scan that succeeded, for the quota that
    it read; and with the window of the one and the deficits of the other, every
    limit of the pull request is safe, as long as these amounts are within the
    exact range (2^53 thousandths) and the headroom is at most 1000. (A larger
    headroom is accepted, and then it may not be:
    [DecideDynamics.infinite_headroom_shrinks].) *)
Theorem shrink_proposed_safely r name :
  policy_ok (BasePolicy r) →
  every_call (λ past R e, match e with
    | CreatePR quotaName _ direction _ limits =>
        direction = dirShrink → ∃ v, consistent r ns name past v ∧ quotaName = QuotaName (v_quota v) ∧
          Hard (v_input v) = StatusHard (v_quota v) ∧ Used (v_input v) = StatusUsed (v_quota v) ∧
          ran (Observer.Observe (v_quota v) (WindowDays (v_policy v))) (Ok (InWindow (v_input v))) past ∧
          ran (collectDeficits (v_quota v) (LastModified (v_state v))) (Ok (Deficits (v_input v))) past ∧
          (input_in_range (v_input v) → safe_shrink v limits)
    | _ => True
    end) (Reconcile r ns name).
Proof.
  intros Hp. eapply every_call_weaken; [|apply Reconcile_calls_ok]. intros past R e Hc. destruct e; try done.
  destruct Hc as (v & d0 & Hv & Hq & _ & _ & _ & _ & -> & -> & _ & Hd). intros Hdir.
  destruct (DDirection (v_decision v)) eqn:Ed; try done. exists v. split; [done|]. split; [done|].
  split; [apply Hv|]. split; [apply Hv|]. split; [apply Hv|].
  pose proof (c_scan _ _ _ _ _ Hv) as Hs. rewrite Hd in Hs. split; [done|]. intros Hr.
  assert (Hpol : policy_ok (InPolicy (v_input v))).
  { pose proof (c_policy _ _ _ _ _ Hv) as Hc. unfold v_policy in Hc. rewrite Hc. by apply ParsePolicy_policy_ok. }
  destruct (shrink_decision_safe (v_input v) Hpol Hr Ed) as (_ & H1 & _ & H3 & H4).
  unfold safe_shrink. by rewrite <- (c_last_shrink _ _ _ _ _ Hv).
Qed.

End progress.
