(* ===== verification/SystemDryRun.v ===== *)
(** * The controller on the stateful provider

    In a dry run the provider is [StatefulLogProvider], which invents its pull
    requests. Its operations, of [StatefulLog.v], are put beneath the programs of
    the controller: every answer is the result of an operation in the state that
    the events before it left. Then it is the provider that the other theorems
    ask for: the one of [System.v], as long as no number is drawn twice, the
    honest one of [SystemSerial.v], and one that never fails. *)

From S2P Require Export StatefulLogFacts System SystemSerial ReconcileErrors.
From stdpp Require Export sorting base option gmap strings list fin_maps.

Open Scope Z_scope.
Open Scope prog_scope.

Section dry_run.
Context {KQ : KubeQuantity} {KS : KubeSchema} {GR : GoRange} {RP : RetryPolicy}.
Context {GQ : GoQuote} {GA : GoArch}.

Local Abbreviation history := (list (event call)).
Local Abbreviation prs_map := (gmap Z PRDetails).

(** ** The provider beneath the controller *)

(** The answers that the provider can give; the number that it draws and the order
    in which it visits its map are open. *)
Definition answers (prs : prs_map) (R : Type) (e : call R) : R → Prop :=
  match e in call R return R → Prop with
  | GetPRStatus id => λ res, res = StatefulLog.GetPRStatus prs id
  | MergePR id method => λ res, ∃ prs', StatefulLog.MergePR prs id method = Some (prs', res)
  | CreatePR q ns d ann lim => λ res,
      ∃ roll, 0 <= roll < 1000 ∧ res = (StatefulLog.CreatePR prs roll q ns d ann lim).2
  | UpdatePR id q ns ann lim => λ res, res = StatefulLog.UpdatePR prs id q ns ann lim
  | FindOpenPR ns q => λ res, ∃ order : GoRangeZ, res = StatefulLog.FindOpenPR prs ns q
  | ClosePR id comment => λ res, ∃ prs', StatefulLog.ClosePR prs id comment = Some (prs', res)
  | _ => λ _, True
  end.

(** Its state after an event. *)
Definition after (prs : prs_map) (ev : event call) : prs_map :=
  match ev with
  | Event R e r =>
      match e in call R return R → prs_map with
      | MergePR id method => λ _, from_option fst prs (StatefulLog.MergePR prs id method)
      | CreatePR q ns d ann lim => λ res,
          match res with Ok id => (StatefulLog.CreatePR prs (id - 1000) q ns d ann lim).1 | Err _ => prs end
      | ClosePR id comment => λ _, from_option fst prs (StatefulLog.ClosePR prs id comment)
      | _ => λ _, prs
      end r
  end.

Definition stored (w : history) : prs_map := foldl after NewStatefulLogProvider w.

Definition dry_run (w : history) : Prop :=
  ∀ i ev, w !! i = Some ev → answers (stored (take i w)) _ (ev_call ev) (ev_resp ev).

(** No number is drawn twice. *)
Definition fresh_numbers (w : history) : Prop :=
  ∀ i q ns d ann lim id, w !! i = Some (Event _ (CreatePR q ns d ann lim) (Ok id)) →
    ∀ d', ¬ created_as (take i w) id d'.

(** What is left to assume: a lease read was once written. *)
Definition lease_law (w : history) (R : Type) (e : call R) : R → Prop :=
  match e in call R return R → Prop with
  | GetLease n => λ res, match res with Ok lease => was_written w lease | Err _ => True end
  | _ => λ _, True
  end.

(** The methods of the provider. *)
Definition of_provider (R : Type) (e : call R) : Prop :=
  match e with
  | GetPRStatus _ | MergePR _ _ | CreatePR _ _ _ _ _ | UpdatePR _ _ _ _ _ | FindOpenPR _ _ | ClosePR _ _ => True
  | _ => False
  end.

(** ** Which pull requests are open, by the events alone

    The number that an event creates, with its quota and direction, and the
    number of the pull request that it ends or replaces. *)
Definition created_entry (ev : event call) : option (Z * string * string * string) :=
  match ev with
  | Event R e r =>
      match e in call R return R → option (Z * string * string * string) with
      | CreatePR q ns d _ _ => λ r, match r with Ok id => Some (id, ns, q, d) | Err _ => None end
      | _ => λ _, None
      end r
  end.

Definition ended_number (ev : event call) : option Z :=
  match ev with
  | Event R e r =>
      match e in call R return R → option Z with
      | MergePR id _ => λ _, Some id
      | ClosePR id _ => λ _, Some id
      | CreatePR _ _ _ _ _ => λ r, match r with Ok id => Some id | Err _ => None end
      | _ => λ _, None
      end r
  end.

(** After [i] events the pull request [id] of the quota is open in the direction
    [d]: it was created so, and neither merged nor closed nor replaced since. *)
Definition open_as (w : history) (i : nat) (id : Z) (ns q d : string) : Prop :=
  ∃ j ev, (j < i)%nat ∧ w !! j = Some ev ∧ created_entry ev = Some (id, ns, q, d) ∧
    ∀ k ev', (j < k < i)%nat → w !! k = Some ev' → ended_number ev' ≠ Some id.

Definition open_at (w : history) (i : nat) (id : Z) (ns q : string) : Prop := ∃ d, open_as w i id ns q d.

Lemma open_as_snoc w i ev id ns q d :
  w !! i = Some ev →
  open_as w (S i) id ns q d ↔
    created_entry ev = Some (id, ns, q, d) ∨ (open_as w i id ns q d ∧ ended_number ev ≠ Some id).
Proof.
  intros Hi. split.
  - intros (j & ev0 & Hj & He & Hc & Hno). destruct (decide (j = i)) as [->|Hne].
    + left. congruence.
    + right. split; [|by apply (Hno i); [lia|]]. exists j, ev0. split; [lia|]. do 2 (split; [done|]).
      intros k ev' Hk. apply Hno. lia.
  - intros [Hc|[(j & ev0 & Hj & He & Hc & Hno) Hend]].
    + exists i, ev. split; [lia|]. do 2 (split; [done|]). intros k ev' Hk. lia.
    + exists j, ev0. split; [lia|]. do 2 (split; [done|]). intros k ev' Hk Hev.
      destruct (decide (k = i)) as [->|Hne]; [congruence|]. apply (Hno k); [lia|done].
Qed.

(** ** Its states *)

Lemma stored_snoc w i ev : w !! i = Some ev → stored (take (S i) w) = after (stored (take i w)) ev.
Proof. intros Hi. unfold stored. by rewrite (take_S_r _ _ _ Hi), foldl_app. Qed.

Lemma after_step prs ev :
  answers prs _ (ev_call ev) (ev_resp ev) → after prs ev = prs ∨ provider_step prs (after prs ev).
Proof.
  destruct ev as [R e r]. destruct e; try (by left); simpl.
  - intros [prs' H]. rewrite H. right. by econstructor.
  - intros (roll & Hr & ->). simpl. right. replace (roll + 1000 - 1000) with roll by lia.
    by apply (step_create prs roll quotaName namespace direction annotations newLimits).
  - intros [prs' H]. rewrite H. right. by eapply step_close.
Qed.

Lemma dry_state_ok w i : dry_run w → (i <= length w)%nat → prs_ok (stored (take i w)).
Proof.
  intros Hw. induction i as [|i IH]; intros Hi.
  - apply map_Forall_empty.
  - destruct (lookup_lt_is_Some_2 w i) as [ev Hev]; [lia|]. rewrite (stored_snoc w i ev Hev).
    destruct (after_step _ _ (Hw _ _ Hev)) as [->|Hs]; [apply IH; lia|]. eapply step_ok; [apply IH; lia|done].
Qed.

(** What a change of a status leaves. *)
Lemma update_status_lookup prs id f prs' k d :
  update_status prs id f = Some prs' → prs' !! k = Some d →
  ∃ d0, prs !! k = Some d0 ∧ StatefulLog.Namespace d = StatefulLog.Namespace d0 ∧
    StatefulLog.QuotaName d = StatefulLog.QuotaName d0 ∧ StatefulLog.Direction d = StatefulLog.Direction d0 ∧
    (d = d0 ∨ ∃ s, Status d = Some (f s)).
Proof.
  unfold update_status. intros Hu Hk. destruct (prs !! id) as [d0|] eqn:E.
  2: { injection Hu as <-. exists d. split; [exact Hk|]. do 3 (split; [reflexivity|]). by left. }
  destruct (Status d0) as [s|]; [|done]. injection Hu as <-.
  apply lookup_insert_Some in Hk as [[<- <-]|[_ Hk]]; [|by exists d; auto 10].
  exists d0. do 4 (split; [done|]). right. by exists s.
Qed.

(** A stored pull request was created, for its quota and in its direction. *)
Lemma stored_created w i k d :
  dry_run w → (i <= length w)%nat → stored (take i w) !! k = Some d →
  ∃ ann lim, saw (take i w) (CreatePR (StatefulLog.QuotaName d) (StatefulLog.Namespace d)
    (StatefulLog.Direction d) ann lim) (Ok k).
Proof.
  intros Hw. revert k d. induction i as [|i IH]; intros k d Hi Hk; [done|].
  destruct (lookup_lt_is_Some_2 w i) as [ev Hev]; [lia|]. rewrite (stored_snoc w i ev Hev) in Hk.
  assert (Hold : ∀ d0, stored (take i w) !! k = Some d0 →
    StatefulLog.Namespace d = StatefulLog.Namespace d0 → StatefulLog.QuotaName d = StatefulLog.QuotaName d0 →
    StatefulLog.Direction d = StatefulLog.Direction d0 →
    ∃ ann lim, saw (take (S i) w) (CreatePR (StatefulLog.QuotaName d) (StatefulLog.Namespace d)
      (StatefulLog.Direction d) ann lim) (Ok k)).
  { intros d0 H0 -> -> ->. destruct (IH k d0) as (ann & lim & Hs); [lia|done|]. exists ann, lim.
    eapply take_subseteq; [|exact Hs]. lia. }
  pose proof (Hw _ _ Hev) as Ha. destruct ev as [R e r]. destruct e; try by eapply Hold; [exact Hk|..].
  - destruct Ha as [prs' Ha]. simpl in Hk, Ha. rewrite Ha in Hk. simpl in Hk.
    unfold StatefulLog.MergePR in Ha. apply fmap_Some in Ha as (p & Hp & [= -> _]).
    destruct (update_status_lookup _ _ _ _ _ _ Hp Hk) as (d0 & H0 & Hn & Hq & Hd & _). by eapply Hold.
  - destruct Ha as (roll & Hr & Ha). simpl in Ha. subst r. simpl in Hk.
    replace (roll + 1000 - 1000) with roll in Hk by lia.
    apply lookup_insert_Some in Hk as [[<- <-]|[_ Hk]]; [|by eapply Hold].
    exists annotations, newLimits. simpl. apply (saw_of w (S i) i); [done|lia].
  - destruct Ha as [prs' Ha]. simpl in Hk, Ha. rewrite Ha in Hk. simpl in Hk.
    unfold StatefulLog.ClosePR in Ha. apply fmap_Some in Ha as (p & Hp & [= -> _]).
    destruct (update_status_lookup _ _ _ _ _ _ Hp Hk) as (d0 & H0 & Hn & Hq & Hd & _). by eapply Hold.
Qed.

(** ** Numbers and directions *)

Lemma fresh_once w i id d d' :
  fresh_numbers w → created_as (take i w) id d → created_as (take i w) id d' → d = d'.
Proof.
  intros Hf (q & ns & ann & lim & H) (q' & ns' & ann' & lim' & H').
  destruct (saw_at w _ _ _ H) as (j & Hj & He). destruct (saw_at w _ _ _ H') as (j' & Hj' & He').
  destruct (lt_eq_lt_dec j j') as [[Hlt|<-]|Hlt].
  - destruct (Hf _ _ _ _ _ _ _ He' d). exists q, ns, ann, lim. by eapply saw_of.
  - rewrite He in He'. apply (f_equal (option_map created_direction)) in He'. by injection He'.
  - destruct (Hf _ _ _ _ _ _ _ He d'). exists q', ns', ann', lim'. by eapply saw_of.
Qed.

(** What a search reports is stored, or nothing. *)
Lemma found_stored w i ns q id d :
  dry_run w → w !! i = Some (Event _ (FindOpenPR ns q) (Ok (id, d))) →
  StatefulLogFacts.open_pr (stored (take i w)) ns q id d ∨
  id = 0 ∧ ∀ id' d', ¬ StatefulLogFacts.open_pr (stored (take i w)) ns q id' d'.
Proof.
  intros Hw Hi. destruct (Hw _ _ Hi) as [order Ha]. simpl in Ha.
  pose proof (FindOpenPR_spec (stored (take i w)) ns q) as Hs. rewrite <- Ha in Hs.
  destruct Hs as [Hs|(Hz & _ & Hs)]; [by left|by right].
Qed.

Lemma found_created w i id d :
  dry_run w → (i <= length w)%nat → found_as (take i w) id d → id = 0 ∨ created_as (take i w) id d.
Proof.
  intros Hw Hi (ns & q & H). destruct (saw_at w _ _ _ H) as (j & Hj & He).
  destruct (found_stored _ _ _ _ _ _ Hw He) as [(det & Hdet & _ & <-)|[-> _]]; [right|by left].
  destruct (stored_created w j id det Hw) as (ann & lim & Hs); [lia|done|].
  exists (StatefulLog.QuotaName det), (StatefulLog.Namespace det), ann, lim.
  eapply take_subseteq; [|exact Hs]. lia.
Qed.

Lemma drawn_number w i id d : dry_run w → (i <= length w)%nat → created_as (take i w) id d → 1000 <= id < 2000.
Proof.
  intros Hw Hi (q & ns & ann & lim & H). destruct (saw_at w _ _ _ H) as (j & Hj & He).
  destruct (Hw _ _ He) as (roll & Hr & Ha). simpl in Ha. injection Ha as ->. lia.
Qed.

Lemma dry_run_law w i ev :
  dry_run w → fresh_numbers w → w !! i = Some ev → lease_law (take i w) _ (ev_call ev) (ev_resp ev) →
  env_law (take i w) _ (ev_call ev) (ev_resp ev).
Proof.
  intros Hw Hf Hi Hl. assert (Hlen : (i <= length w)%nat) by (apply lookup_lt_Some in Hi; lia).
  destruct ev as [R e r]. destruct e; try done.
  - pose proof (Hw _ _ Hi) as (roll & Hr & Ha). simpl in Ha. subst r. simpl. split; [lia64|]. split.
    + by apply (Hf _ _ _ _ _ _ _ Hi).
    + intros d Hd. destruct (found_created _ _ _ _ Hw Hlen Hd) as [Hz|Hc]; [lia|]. by apply (Hf _ _ _ _ _ _ _ Hi d).
  - destruct r as [[id d]|]; [|done]. destruct (found_stored _ _ _ _ _ _ Hw Hi) as [(det & Hdet & _ & <-)|[-> _]].
    + destruct (stored_created w i id det Hw) as (ann & lim & Hs); [done|done|].
      assert (Hc : created_as (take i w) id (StatefulLog.Direction det)) by by eexists _, _, ann, lim.
      split; [pose proof (drawn_number _ _ _ _ Hw Hlen Hc); lia64|]. intros d' Hd'. by eapply fresh_once.
    + split; [lia64|]. intros d' Hd'. pose proof (drawn_number _ _ _ _ Hw Hlen Hd'). lia.
Qed.

(** ** Honesty *)

Local Abbreviation open_in := StatefulLogFacts.open_pr.

Lemma is_open_for_iff ns q det :
  is_open_for ns q det = true ↔
  StatefulLog.Namespace det = ns ∧ StatefulLog.QuotaName det = q ∧ ∃ s, Status det = Some s ∧ IsOpen s = true.
Proof.
  unfold is_open_for. rewrite !andb_true_iff, !String.eqb_eq. destruct (Status det) as [s|]; [|by split; [intros [_ ?]|intros (_ & _ & s & ? & _)]].
  split; [intros [[-> ->] Ho]; do 2 (split; [done|]); by exists s|]. intros (-> & -> & s' & [= <-] & Ho). done.
Qed.

(** Merging and closing end one pull request and leave the others. *)
Lemma open_update prs n f prs' ns q id d :
  update_status prs n f = Some prs' → (∀ s, IsOpen (f s) = false) →
  open_in prs' ns q id d ↔ open_in prs ns q id d ∧ n ≠ id.
Proof.
  intros Hu Hf. unfold update_status in Hu. destruct (decide (n = id)) as [<-|Hne].
  - split; [|by intros [_ []]]. intros (det & Hdet & Ho & _). exfalso. apply is_open_for_iff in Ho as (_ & _ & s & Hs & Ho).
    destruct (prs !! n) as [d0|] eqn:E; [|congruence]. destruct (Status d0) as [s0|]; [|done]. injection Hu as <-.
    rewrite lookup_insert_eq in Hdet. injection Hdet as <-. injection Hs as <-. by rewrite Hf in Ho.
  - unfold StatefulLogFacts.open_pr. replace (prs' !! id) with (prs !! id); [split; [by intros H|by intros [H _]]|].
    destruct (prs !! n) as [d0|]; [|congruence]. destruct (Status d0); [|done]. injection Hu as <-.
    by rewrite lookup_insert_ne.
Qed.

Lemma open_step prs ev id ns q d :
  answers prs _ (ev_call ev) (ev_resp ev) →
  open_in (after prs ev) ns q id d ↔
    created_entry ev = Some (id, ns, q, d) ∨ (open_in prs ns q id d ∧ ended_number ev ≠ Some id).
Proof.
  destruct ev as [R e r].
  destruct e; try (intros _; simpl; split; [intros H; right; by split|by intros [|[H _]]]); simpl.
  - intros [prs' Ha]. rewrite Ha. simpl. unfold StatefulLog.MergePR in Ha. apply fmap_Some in Ha as (p & Hp & [= -> _]).
    rewrite (open_update prs prID _ p ns q id d Hp) by done.
    split; [intros [H Hne]; right; split; [done|congruence]|]. intros [[=]|[H Hne]]. split; [done|congruence].
  - intros (roll & Hr & ->). simpl. replace (roll + 1000 - 1000) with roll by lia. unfold StatefulLogFacts.open_pr.
    destruct (decide (roll + 1000 = id)) as [<-|Hne].
    + rewrite lookup_insert_eq. split.
      * intros (det & [= <-] & Ho & Hd). apply is_open_for_iff in Ho as (<- & <- & _). simpl in Hd. left. by subst.
      * intros [[= -> -> ->]|[_ []]]; [|done]. eexists. split; [done|]. split; [|done]. apply is_open_for_iff.
        do 2 (split; [done|]). by eexists.
    + rewrite lookup_insert_ne by done. split; [intros H; right; split; [done|congruence]|].
      intros [[= ? _ _ _]|[H _]]; done.
  - intros [prs' Ha]. rewrite Ha. simpl. unfold StatefulLog.ClosePR in Ha. apply fmap_Some in Ha as (p & Hp & [= -> _]).
    rewrite (open_update prs prID _ p ns q id d Hp) by done.
    split; [intros [H Hne]; right; split; [done|congruence]|]. intros [[=]|[H Hne]]. split; [done|congruence].
Qed.

(** The state of the provider agrees with the events. *)
Lemma open_agrees w i id ns q d :
  dry_run w → (i <= length w)%nat → open_in (stored (take i w)) ns q id d ↔ open_as w i id ns q d.
Proof.
  intros Hw. induction i as [|i IH]; intros Hi.
  - split; [by intros (det & Hd & _)|]. intros (j & ev & Hj & _). lia.
  - destruct (lookup_lt_is_Some_2 w i) as [ev Hev]; [lia|].
    rewrite (stored_snoc w i ev Hev), (open_as_snoc w i ev) by done. rewrite (open_step _ _ _ _ _ _ (Hw _ _ Hev)).
    by rewrite IH by lia.
Qed.

Lemma dry_run_finds w i ns q id d :
  dry_run w → w !! i = Some (Event _ (FindOpenPR ns q) (Ok (id, d))) → id ≠ 0 → open_as w i id ns q d.
Proof.
  intros Hw Hi Hne. apply open_agrees; [done|apply lookup_lt_Some in Hi; lia|].
  by destruct (found_stored _ _ _ _ _ _ Hw Hi) as [|[Hz _]].
Qed.

Lemma dry_run_honest w : dry_run w → honest (open_at w) w.
Proof.
  intros Hw i ev Hi. assert (Hlen : (i <= length w)%nat) by (apply lookup_lt_Some in Hi; lia). unfold open_at. split.
  - exists (from_option (λ x, x.1.1.1) 0 (created_entry ev)). intros id ns q [d Hd].
    apply (open_as_snoc w i ev) in Hd as [Hc|[Ho _]]; [right|left; by exists d|done]. rewrite Hc. split; [done|].
    destruct ev as [R e r]. destruct e; try done. destruct r as [n|]; [|done]. by injection Hc as -> -> -> ->.
  - intros ns q d -> id [d' Hd']. apply (open_as_snoc _ _ _ _ _ _ _ Hi) in Hd' as [Hc|[Ho _]]; [done|].
    apply open_agrees in Ho; [|done|done].
    destruct (found_stored _ _ _ _ _ _ Hw Hi) as [(det & Hdet & _)|[_ Hno]]; [|by apply (Hno id d')].
    destruct (dry_state_ok w i Hw Hlen _ _ Hdet) as [_ ?]. lia.
Qed.

(** What was created stays stored. *)
Lemma created_stored w i id d :
  dry_run w → (i <= length w)%nat → created_as (take i w) id d → is_Some (stored (take i w) !! id).
Proof.
  intros Hw. induction i as [|i IH]; intros Hi (q & ns & ann & lim & Hs); [by apply elem_of_nil in Hs|].
  destruct (lookup_lt_is_Some_2 w i) as [ev Hev]; [lia|]. rewrite (stored_snoc w i ev Hev). pose proof (Hw _ _ Hev) as Ha.
  assert (Hup : ∀ n f p, is_Some (stored (take i w) !! id) → update_status (stored (take i w)) n f = Some p → is_Some (p !! id)).
  { intros n f p Hk. unfold update_status. destruct (stored (take i w) !! n) as [d0|]; [|by intros [= <-]].
    destruct (Status d0); [|done]. intros [= <-]. rewrite lookup_insert_is_Some. by destruct (decide (n = id)); [left|right]. }
  destruct (saw_at w _ _ _ Hs) as (j & Hj & He). destruct (decide (j = i)) as [->|Hne].
  - rewrite Hev in He. injection He as ->. destruct Ha as (roll & Hr & [= ->]). simpl.
    replace (roll + 1000 - 1000) with roll by lia. rewrite lookup_insert_eq. by eexists.
  - assert (Hk : is_Some (stored (take i w) !! id)).
    { apply IH; [lia|]. exists q, ns, ann, lim. apply (saw_of w i j); [done|lia]. }
    destruct ev as [R e r]. destruct e; try exact Hk.
    + destruct Ha as [p Ha]. simpl in *. rewrite Ha. simpl.
      unfold StatefulLog.MergePR in Ha. apply fmap_Some in Ha as (p' & Hp & [= -> _]). by eapply Hup.
    + simpl. destruct r as [n|]; [|exact Hk]. simpl. rewrite lookup_insert_is_Some.
      by destruct (decide (n - 1000 + 1000 = id)); [left|right].
    + destruct Ha as [p Ha]. simpl in *. rewrite Ha. simpl.
      unfold StatefulLog.ClosePR in Ha. apply fmap_Some in Ha as (p' & Hp & [= -> _]). by eapply Hup.
Qed.

(** The status of a pull request that was created says whether it is open. *)
Lemma dry_run_reports w i id st :
  dry_run w → w !! i = Some (Event _ (GetPRStatus id) (Ok (Some st))) → (∃ d, created_as (take i w) id d) →
  IsOpen st = true ↔ ∃ ns q, open_at w i id ns q.
Proof.
  intros Hw Hi [d0 Hc]. assert (Hlen : (i <= length w)%nat) by (apply lookup_lt_Some in Hi; lia).
  destruct (created_stored w i id d0 Hw Hlen Hc) as [det Hdet].
  pose proof (Hw _ _ Hi) as Ha. simpl in Ha. unfold StatefulLog.GetPRStatus in Ha. rewrite Hdet in Ha. injection Ha as Hst.
  split.
  - intros Ho. exists (StatefulLog.Namespace det), (StatefulLog.QuotaName det), (StatefulLog.Direction det).
    apply open_agrees; [done|done|]. exists det. split; [done|]. split; [|done]. apply is_open_for_iff.
    do 2 (split; [done|]). by exists st.
  - intros (ns & q & d & Ho). apply open_agrees in Ho as (det' & Hdet' & Ho & _); [|done|done].
    rewrite Hdet in Hdet'. injection Hdet' as <-. apply is_open_for_iff in Ho as (_ & _ & s & Hs & Ho). congruence.
Qed.

(** ** The provider never fails *)

Lemma dry_run_tolerable w i ev past :
  dry_run w → w !! i = Some ev → of_provider _ (ev_call ev) → tolerable past _ (ev_call ev) (ev_resp ev).
Proof.
  intros Hw Hi. pose proof (Hw _ _ Hi) as Ha. assert (Hlen : (i <= length w)%nat) by (apply lookup_lt_Some in Hi; lia).
  pose proof (dry_state_ok w i Hw Hlen) as Hok.
  destruct ev as [R e r]. destruct e; try done; intros _; simpl in *.
  - subst r. unfold StatefulLog.GetPRStatus. destruct (stored (take i w) !! prID) as [d|] eqn:E; [|done].
    by destruct (Hok _ _ E) as [[s ->] _].
  - by destruct Ha as (roll & _ & ->).
  - by subst r.
  - destruct Ha as [order ->]. unfold StatefulLog.FindOpenPR. by destruct (list_find _ _) as [[? [? ?]]|].
  - destruct Ha as [prs' Ha]. unfold StatefulLog.ClosePR in Ha. by apply fmap_Some in Ha as (p & _ & [= _ ->]).
Qed.

(** C9. The stateful provider is the one that the controller needs. By the events
    alone, a pull request is open from its creation until it is merged, closed or
    replaced by another of its number. In every run of the controller on the
    provider, a search reports a number, with its direction, only while that pull
    request of that quota is open, and none only when none is; the status of a
    created pull request says that it is open exactly while it is; the answers
    are never errors and never nil; and if no number is drawn twice, pull
    requests keep the direction they were created with. *)
Theorem dry_run_implements_environment ps w :
  pool_run lease_law controller ps w → dry_run w →
  honest (open_at w) w ∧
  (∀ i ns q id d, w !! i = Some (Event _ (FindOpenPR ns q) (Ok (id, d))) → id ≠ 0 → open_as w i id ns q d) ∧
  (∀ i id st, w !! i = Some (Event _ (GetPRStatus id) (Ok (Some st))) → (∃ d, created_as (take i w) id d) →
     IsOpen st = true ↔ ∃ ns q, open_at w i id ns q) ∧
  (∀ i ev past, w !! i = Some ev → of_provider _ (ev_call ev) → tolerable past _ (ev_call ev) (ev_resp ev)) ∧
  (fresh_numbers w → pool_run env_law controller ps w).
Proof.
  intros Hrun Hw. split; [by apply dry_run_honest|]. split; [intros i ns q id d; by apply dry_run_finds|].
  split; [intros i id st; by apply dry_run_reports|]. split; [intros i ev past; by apply dry_run_tolerable|].
  intros Hf. apply (pool_run_law lease_law env_law); [done|]. intros i ev. by apply dry_run_law.
Qed.

End dry_run.
