(* ===== verification/SystemGitHub.v ===== *)
(** * The controller on the GitHub provider

    [System.v] assumes of its provider that a pull request is found in the
    direction it was created with. Here that is not assumed of any provider that
    keeps [DirectionContract], and in particular not of the one on GitHub: what
    is left to assume is that pull requests get numbers of their own and stay on
    their branches. *)

From S2P Require Export GitHubContract System.
From stdpp Require Export sorting base option gmap strings list fin_maps.

Open Scope Z_scope.
Open Scope prog_scope.

Section system.
Context {KQ : KubeQuantity} {KS : KubeSchema} {GR : GoRange} {RP : RetryPolicy}.
Context {GQ : GoQuote} {GA : GoArch}.

Local Abbreviation history := (list (event call)).

(** A lease read back was once written; a number is positive and is given once.
    Nothing is said of directions. *)
Definition number_law (w : history) (R : Type) (e : call R) : R → Prop :=
  match e in call R return R → Prop with
  | GetLease n => λ res, match res with Ok lease => was_written w lease | Err _ => True end
  | FindOpenPR ns q => λ res, match res with Ok (id, d) => in_int64 id | Err _ => True end
  | CreatePR q ns d ann lim => λ res,
      match res with
      | Ok id => 0 < id ∧ in_int64 id ∧ (∀ d', ¬ created_as w id d') ∧ (∀ d', ¬ found_as w id d')
      | Err _ => True
      end
  | _ => λ _, True
  end.

(** Names of namespaces and quotas hold no slash: Kubernetes has no others. *)
Definition named (w : history) : Prop :=
  (∀ q ns d ann lim res, saw w (CreatePR q ns d ann lim) res → names_ok ns q) ∧
  (∀ ns q res, saw w (FindOpenPR ns q) res → names_ok ns q).

(** Only growths and shrinks are created. *)
Lemma created_directions ps w i q ns d ann lim res :
  pool_run number_law controller ps w → w !! i = Some (Event _ (CreatePR q ns d ann lim) res) →
  d = dirGrow ∨ d = dirShrink.
Proof.
  intros Hrun Hi. destruct (pool_guarded _ _ controller_call ps w controller_guarded Hrun) as [_ He].
  destruct (He _ _ (drop (S i) w) (eq_sym (take_drop_middle _ _ _ Hi))) as [(past & _ & [(r & ns0 & name & Hok)|[]]) _].
  destruct Hok as (v & d0 & _ & _ & _ & _ & _ & _ & -> & _ & _ & Hd).
  destruct (DDirection (v_decision v)); [done|by left|by right].
Qed.

(** ** A provider behind the interface *)

Section provider.
Context {H : Type} {created found : H → Z → string → string → string → Prop} {world : H → Prop}.
Context `{DC : !DirectionContract H created found world}.

(** What the controller was answered is what the provider did in [h]. *)
Definition backed_by (h : H) (w : history) : Prop :=
  (∀ q ns d ann lim id, saw w (CreatePR q ns d ann lim) (Ok id) → names_ok ns q → d = dirGrow ∨ d = dirShrink →
     created h id d ns q) ∧
  (∀ ns q id d, saw w (FindOpenPR ns q) (Ok (id, d)) → names_ok ns q → id ≠ 0 → found h id d ns q).

(** The directions of the answers follow from the contract. *)
Lemma contract_law ps w h i ev :
  pool_run number_law controller ps w → named w → world h → backed_by h w → w !! i = Some ev →
  number_law (take i w) _ (ev_call ev) (ev_resp ev) → env_law (take i w) _ (ev_call ev) (ev_resp ev).
Proof using DC.
  intros Hrun [Hnc Hnf] Hh [Hc Hf] Hi Hlaw. destruct ev as [R e r]. destruct e; try done.
  - destruct r as [id|]; [|done]. by destruct Hlaw as (_ & Hid & Hlaw).
  - destruct r as [[id d]|]; [|done]. split; [exact Hlaw|].
    intros d' (q' & ns' & ann & lim & Hs). destruct (saw_at _ _ _ _ Hs) as (j & Hj & He).
    destruct (pool_guarded _ _ controller_call ps w controller_guarded Hrun) as [_ Hpool].
    destruct (Hpool _ _ (drop (S j) w) (eq_sym (take_drop_middle _ _ _ He))) as [_ (Hpos & _)].
    assert (Hsw : saw w (CreatePR q' ns' d' ann lim) (Ok id)) by by eapply list_elem_of_lookup_2.
    assert (Hfw : saw w (FindOpenPR namespace quotaName) (Ok (id, d))) by by eapply list_elem_of_lookup_2.
    refine (proj1 (direction_kept h id d' ns' q' d namespace quotaName Hh _ _)).
    + eapply Hc; [exact Hsw|by eapply Hnc|]. by eapply created_directions.
    + apply Hf; [done|by eapply Hnf|lia].
Qed.

Lemma contract_env ps w h :
  pool_run number_law controller ps w → named w → world h → backed_by h w → pool_run env_law controller ps w.
Proof using DC.
  intros Hrun Hn Hh Hb. apply (pool_run_law number_law env_law); [done|].
  intros i ev Hi. by eapply contract_law.
Qed.

End provider.

(** ** The provider on GitHub *)

(** The answers are results of the operations of [GitHub.v], run by one provider
    in a history of its calls. *)
Definition on_github {YL : Yaml} (g : GitHubProvider) (w : history) (gh : list (event ghcall)) : Prop :=
  (∀ q ns d ann lim id, saw w (CreatePR q ns d ann lim) (Ok id) →
     ∃ tr, tr ⊆ gh ∧ steps (GitHub.CreatePR g q ns d ann lim) tr (Ret (Ok id))) ∧
  (∀ ns q id d, saw w (FindOpenPR ns q) (Ok (id, d)) →
     ∃ fuel tr, tr ⊆ gh ∧ steps (GitHub.FindOpenPR fuel ns q) tr (Ret (Ok (id, d)))).

Lemma github_backed {YL : Yaml} g w gh :
  on_github g w gh → backed_by (created := gh_created) (found := gh_found) gh w.
Proof.
  intros [Hc Hf]. split.
  - intros q ns d ann lim id Hs Hn Hd. destruct (Hc _ _ _ _ _ _ Hs) as (tr & Hsub & Hst).
    by exists g, ann, lim, tr.
  - intros ns q id d Hs Hn Hne. destruct (Hf _ _ _ _ Hs) as (fuel & tr & Hsub & Hst).
    by exists fuel, tr.
Qed.

(** C8. The provider on GitHub is a provider as the controller needs it: when the
    answers of [CreatePR] and [FindOpenPR] are those of its operations, however
    these ran interleaved, and GitHub numbers pull requests once and lists them
    with the branches they were opened from, every run of the controller is one
    in which pull requests are found in the direction they were created with. *)
Theorem GitHub_implements_environment {YL : Yaml} g gh ps w :
  pool_run number_law controller ps w → named w → heads_fixed gh → on_github g w gh →
  pool_run env_law controller ps w.
Proof. intros Hrun Hn Hh Hg. eapply contract_env; [done|done|exact Hh|by eapply github_backed]. Qed.

End system.
