(* ===== verification/GitHubYamlFacts.v ===== *)
(** * The limits in the quota file

    What [applyChangesToYaml] makes of one document: the entries below
    [spec.hard] get the new limits, nothing else of the document changes. Keys
    that stand for one resource under several names make the result depend on
    the order in which the limits are visited. *)

From S2P Require Export GitHubYaml.
From stdpp Require Export sorting base option gmap strings list fin_maps.

Open Scope Z_scope.

Section facts.
Context {KQ : KubeQuantity} {GR : GoRange} {YL : Yaml}.

(** The entries of a mapping. *)
Fixpoint pairs (l : list node) : list (node * node) :=
  match l with k :: v :: l => (k, v) :: pairs l | _ => [] end.

Fixpoint paired (l : list node) : bool :=
  match l with [] => true | [_] => false | _ :: _ :: l => paired l end.

Definition entry (kv : node * node) : string * string := (node_value kv.1, node_value kv.2).
Definition entries (l : list node) : list (string * string) := entry <$> pairs l.

Lemma list_pair_ind (P : list node → Prop) :
  P [] → (∀ k, P [k]) → (∀ k v l, P l → P (k :: v :: l)) → ∀ l, P l.
Proof.
  intros H0 H1 H2. fix IH 1. intros [|k [|v l]]; [exact H0|apply H1|apply H2, IH].
Qed.

(** ** One limit *)

Definition set_entry (res value : string) (kv : string * string) : string * string :=
  (kv.1, if matchesResourceKey kv.1 res then value else kv.2).

Lemma entries_cons k v l : entries (k :: v :: l) = (node_value k, node_value v) :: entries l.
Proof. done. Qed.

Lemma set_matching_entries res value l :
  entries (set_matching res value l).1 = set_entry res value <$> entries l ∧
  (set_matching res value l).2 = existsb (λ kv, matchesResourceKey kv.1 res) (entries l) ∧
  paired (set_matching res value l).1 = paired l.
Proof.
  induction l as [|k|k v l (IH1 & IH2 & IH3)] using list_pair_ind; [done|done|].
  cbn [set_matching]. destruct (set_matching res value l) as [l' found]. simpl in IH1, IH2, IH3.
  rewrite entries_cons, fmap_cons. unfold set_entry at 1. cbn [fst snd existsb].
  destruct (matchesResourceKey (node_value k) res); cbn [fst snd orb]; rewrite entries_cons, IH1;
    (split; [by destruct v|]; by split).
Qed.

Lemma entries_app l1 l2 : paired l1 = true → entries (l1 ++ l2) = entries l1 ++ entries l2.
Proof.
  induction l1 as [|k|k v l IH] using list_pair_ind; intros H; [done|done|].
  cbn [app]. rewrite !entries_cons. simpl in H. by rewrite IH.
Qed.

Lemma paired_app l1 l2 : paired l1 = true → paired (l1 ++ l2) = paired l2.
Proof. induction l1 as [|k|k v l IH] using list_pair_ind; intros H; [done|done|]. by apply IH. Qed.

(** ** All limits *)

(** No key stands for two of the resources. *)
Definition no_alias (l : list (string * Quantity)) : Prop :=
  ∀ r1 r2 key, r1 ∈ l.*1 → r2 ∈ l.*1 → matchesResourceKey key r1 = true → matchesResourceKey key r2 = true → r1 = r2.

(** The limit of a key. *)
Fixpoint limit_for (key : string) (l : list (string * Quantity)) : option Quantity :=
  match l with
  | [] => None
  | (res, qty) :: l => if matchesResourceKey key res then Some qty else limit_for key l
  end.

Definition new_entry (l : list (string * Quantity)) (kv : string * string) : string * string :=
  (kv.1, match limit_for kv.1 l with Some qty => QString qty | None => kv.2 end).

(** The limits that no entry stands for. *)
Definition unmatched (es : list (string * string)) (kv : string * Quantity) : bool :=
  negb (existsb (λ e, matchesResourceKey e.1 kv.1) es).

Definition as_entry (kv : string * Quantity) : string * string := (kv.1, QString kv.2).

Lemma matches_self res : matchesResourceKey res res = true.
Proof. unfold matchesResourceKey. by rewrite String.eqb_refl. Qed.

Lemma set_limit_entries content res qty :
  paired content = true →
  paired (set_limit content (res, qty)) = true ∧
  entries (set_limit content (res, qty)) =
    (set_entry res (QString qty) <$> entries content) ++
    (if unmatched (entries content) (res, qty) then [(res, QString qty)] else []).
Proof.
  intros Hp. unfold set_limit, unmatched. cbn [fst]. destruct (set_matching_entries res (QString qty) content) as (He & Hf & Hp').
  destruct (set_matching res (QString qty) content) as [c found]. simpl in He, Hf, Hp'. rewrite <- Hf, <- He.
  destruct found; cbn [negb].
  - by rewrite Hp', Hp, app_nil_r.
  - rewrite paired_app, entries_app by by rewrite Hp'. done.
Qed.

Lemma elem_of_skip (x y z : string) l : z ∈ x :: l → z ∈ x :: y :: l.
Proof. rewrite !elem_of_cons. tauto. Qed.

Lemma limit_for_only key r q l : no_alias ((r, q) :: l) → matchesResourceKey key r = true →
  r ∉ l.*1 → limit_for key l = None.
Proof.
  induction l as [|[r' q'] l IH]; intros Ha Hm Hni; [done|]. simpl.
  destruct (matchesResourceKey key r') eqn:E.
  - exfalso. apply Hni. simpl. rewrite elem_of_cons. left.
    apply (Ha r r' key); simpl; rewrite ?elem_of_cons; auto.
  - apply IH; [|done|].
    + intros r1 r2 k H1 H2. apply Ha; by apply (elem_of_skip r r').
    + intros Hc. apply Hni. simpl. rewrite elem_of_cons. by right.
Qed.

Lemma no_alias_tail x l : no_alias (x :: l) → no_alias l.
Proof. intros Ha r1 r2 key H1 H2. apply Ha; simpl; rewrite elem_of_cons; by right. Qed.

(** Entries that were set stay as they are, and new ones too. *)
Lemma new_entry_set r q l kv : no_alias ((r, q) :: l) → r ∉ l.*1 →
  new_entry l (set_entry r (QString q) kv) = new_entry ((r, q) :: l) kv.
Proof.
  intros Ha Hni. unfold new_entry, set_entry. destruct kv as [k v]. simpl.
  destruct (matchesResourceKey k r) eqn:E; [|done]. by rewrite (limit_for_only k r q l).
Qed.

Lemma existsb_set r v res es :
  existsb (λ e, matchesResourceKey e.1 res) (set_entry r v <$> es) =
  existsb (λ e, matchesResourceKey e.1 res) es.
Proof. induction es as [|e es IH]; [done|]. rewrite fmap_cons. cbn [existsb]. by rewrite IH. Qed.

Lemma unmatched_new es r q l kv :
  no_alias ((r, q) :: l) → r ∉ l.*1 → kv ∈ l →
  unmatched ((set_entry r (QString q) <$> es) ++ (if unmatched es (r, q) then [(r, QString q)] else [])) kv =
  unmatched es kv.
Proof.
  intros Ha Hni Hin. unfold unmatched at 1 3. f_equal. rewrite existsb_app, existsb_set.
  destruct (unmatched es (r, q)); simpl; [|by rewrite orb_false_r]. rewrite orb_false_r.
  rewrite (not_true_is_false (matchesResourceKey r kv.1)); [by rewrite orb_false_r|]. intros Hm.
  apply Hni. replace r with kv.1; [by apply list_elem_of_fmap_2|].
  apply (Ha _ _ r); [|by left|done|apply matches_self].
  simpl. rewrite elem_of_cons. right. by apply list_elem_of_fmap_2.
Qed.

(** Setting all limits: every entry that stands for a limited resource gets the
    limit, and what no entry stands for is appended. *)
Lemma set_limits_entries l content :
  NoDup l.*1 → no_alias l → paired content = true →
  entries (foldl set_limit content l) =
    (new_entry l <$> entries content) ++ (as_entry <$> List.filter (unmatched (entries content)) l).
Proof.
  revert content. induction l as [|[r q] l IH]; intros content Hnd Ha Hp.
  - simpl. rewrite app_nil_r. symmetry. induction (entries content) as [|[k v] es IHe]; [done|].
    rewrite fmap_cons, IHe. done.
  - apply NoDup_cons in Hnd as [Hni Hnd]. simpl in Hni.
    destruct (set_limit_entries content r q Hp) as [Hp' He].
    cbn [foldl]. rewrite IH; [|done|by eapply no_alias_tail|done]. rewrite He.
    rewrite fmap_app, <- list_fmap_compose, <- app_assoc. f_equal.
    + generalize (entries content) as es. intros es. clear -Ha Hni.
      induction es as [|e es IHe]; [done|]. rewrite !fmap_cons, IHe.
      unfold compose at 1. by rewrite new_entry_set.
    + cbn [List.filter].
      rewrite (filter_ext_in _ (unmatched (entries content))).
      * destruct (unmatched (entries content) (r, q)); [|done]. cbn [fmap list_fmap app].
        f_equal. unfold new_entry, as_entry. simpl.
        by rewrite (limit_for_only r r q l Ha (matches_self r) Hni).
      * intros kv Hin%list_elem_of_In. by apply (unmatched_new _ r q l).
Qed.

Lemma filter_perm {A} (f : A → bool) l l' : l ≡ₚ l' → List.filter f l ≡ₚ List.filter f l'.
Proof.
  induction 1 as [|x l l' _ IH|x y l|l l' l'' _ IH1 _ IH2]; simpl; [done| | |by rewrite IH1].
  - destruct (f x); by rewrite IH.
  - destruct (f x), (f y); try done. apply perm_swap.
Qed.

(** ** Documents *)

Lemma node_ind' (P : node → Prop) :
  (∀ k s v x, P (Node k s v [] x)) → (∀ k s v c cs x, P c → P (Node k s v (c :: cs) x)) → ∀ n, P n.
Proof.
  intros H0 H1. fix IH 1. intros [k s v [|c cs] x]; [apply H0|apply H1, IH].
Qed.

Lemma find_update_pair key f l : find_pair key (update_pair key f l) = f <$> find_pair key l.
Proof.
  induction l as [|k|k v l IH] using list_pair_ind; [done|done|]. simpl.
  destruct (String.eqb (node_value k) key) eqn:E; simpl; by rewrite E.
Qed.

Lemma find_update_pair_ne key key' f l : key' ≠ key → find_pair key' (update_pair key f l) = find_pair key' l.
Proof.
  intros Hne. induction l as [|k|k v l IH] using list_pair_ind; [done|done|]. simpl.
  destruct (String.eqb_spec (node_value k) key) as [Hk|]; simpl.
  - by rewrite (proj2 (String.eqb_neq _ _)) by congruence.
  - by rewrite IH.
Qed.

(** Changing the value of a key: that value changes, other keys keep theirs. *)
Lemma find_update key f n : findValueNode (updateValueNode n key f) key = f <$> findValueNode n key.
Proof.
  induction n as [k s v x|k s v c cs x IH] using node_ind'; destruct k; simpl; try done.
  change (find_pair key (update_pair key f (c :: cs)) = f <$> find_pair key (c :: cs)). apply find_update_pair.
Qed.

Lemma find_update_ne key key' f n : key' ≠ key →
  findValueNode (updateValueNode n key f) key' = findValueNode n key'.
Proof.
  intros Hne. induction n as [k s v x|k s v c cs x IH] using node_ind'; destruct k; simpl; try done.
  change (find_pair key' (update_pair key f (c :: cs)) = find_pair key' (c :: cs)). by apply find_update_pair_ne.
Qed.

(** The node below [spec.hard]. *)
Definition hard_node (n : node) : option node :=
  match findValueNode n "spec" with Some spec => findValueNode spec "hard" | None => None end.

(** Two nodes that are the same but for the value of the first key [key] of the
    document's mapping, where [P] holds of the two values: every other node, with
    its order, style and comments, is the same. *)
Inductive differ_at (key : string) (P : node → node → Prop) : node → node → Prop :=
| differ_document s v c c' cs x :
    differ_at key P c c' → differ_at key P (Node DocumentNode s v (c :: cs) x) (Node DocumentNode s v (c' :: cs) x)
| differ_mapping s v before k a a' after x :
    paired before = true → Forall (λ kv, node_value kv.1 ≠ key) (pairs before) → node_value k = key → P a a' →
    differ_at key P (Node MappingNode s v (before ++ k :: a :: after) x) (Node MappingNode s v (before ++ k :: a' :: after) x).

Lemma update_pair_split key f l a :
  find_pair key l = Some a → ∃ before k after,
    l = before ++ k :: a :: after ∧ update_pair key f l = before ++ k :: f a :: after ∧
    paired before = true ∧ Forall (λ kv, node_value kv.1 ≠ key) (pairs before) ∧ node_value k = key.
Proof.
  induction l as [|k|k v l IH] using list_pair_ind; [done|done|]. simpl.
  destruct (String.eqb_spec (node_value k) key) as [Hk|Hk].
  - intros [= ->]. by exists [], k, l.
  - intros Hf. destruct (IH Hf) as (before & k' & after & -> & -> & Hp & Hb & Hk').
    exists (k :: v :: before), k', after. do 3 (split; [done|]). split; [|done]. by constructor.
Qed.

Lemma update_differ key P f n a :
  findValueNode n key = Some a → P a (f a) → differ_at key P n (updateValueNode n key f).
Proof.
  intros Hn HP. induction n as [k s v x|k s v c cs x IH] using node_ind'; destruct k; try done.
  - simpl in *. constructor. by apply IH.
  - cbn [findValueNode updateValueNode] in *.
    destruct (update_pair_split key f (c :: cs) a Hn) as (before & k & after & Hl & -> & Hp & Hb & Hk).
    rewrite Hl. by constructor.
Qed.

(** C23. In a ResourceQuota whose limits form a mapping, every entry of the mapping that
    stands for a resource of the new limits gets the new value, every other entry
    keeps its own, and the limits without an entry are appended, in some order;
    and nothing outside the mapping below [spec.hard] changes, other keys of the
    spec and of the document, their order, styles and comments included. The
    limits must not name one resource twice, as cpu and requests.cpu: then the
    result depends on the order of the visit
    ([YamlDemo.aliased_limits_depend_on_order]). *)
Theorem limits_are_set limits site n style value content extra :
  is_quota n = true → hard_node n = Some (Node MappingNode style value content extra) →
  paired content = true → no_alias (range site limits) →
  ∃ content',
    differ_at "spec" (differ_at "hard" (λ hard hard',
        hard = Node MappingNode style value content extra ∧ hard' = Node MappingNode style value content' extra))
      n (apply_to_document limits site n) ∧
    hard_node (apply_to_document limits site n) = Some (Node MappingNode style value content' extra) ∧
    entries content' ≡ₚ (new_entry (range site limits) <$> entries content) ++
      (as_entry <$> List.filter (unmatched (entries content)) (map_to_list limits)).
Proof.
  intros Hq Hh Hp Ha. unfold apply_to_document. rewrite Hq. unfold hard_node in *. rewrite find_update.
  destruct (findValueNode n "spec") as [spec|] eqn:Es; [|done]. cbn [fmap option_fmap option_map].
  exists (foldl set_limit content (range site limits)). split; [|split].
  - apply (update_differ _ _ _ _ spec Es). by apply (update_differ _ _ _ _ _ Hh).
  - by rewrite find_update, Hh.
  - rewrite set_limits_entries by (done || apply range_nodup). apply Permutation_app_head, fmap_Permutation.
    apply filter_perm, range_perm.
Qed.

(** ** Setting the limits again *)

(** The limit of the resource has been written: some entry stands for it, and
    every entry that does has the value already. *)
Definition written (res value : string) (l : list node) : Prop :=
  Exists (λ kv, matchesResourceKey (node_value kv.1) res = true) (pairs l) ∧
  Forall (λ kv, matchesResourceKey (node_value kv.1) res = true → set_value value kv.2 = kv.2) (pairs l).

Lemma set_matching_id res value l :
  Forall (λ kv, matchesResourceKey (node_value kv.1) res = true → set_value value kv.2 = kv.2) (pairs l) →
  (set_matching res value l).1 = l.
Proof.
  induction l as [|k|k v l IH] using list_pair_ind; intros H; [done|done|].
  cbn [pairs] in H. apply Forall_cons in H as [Hv H]. specialize (IH H). cbn [set_matching].
  destruct (set_matching res value l) as [l' found]. cbn [fst] in IH. subst l'.
  destruct (matchesResourceKey (node_value k) res) eqn:E; cbn [fst snd] in *; [|done]. by rewrite (Hv E).
Qed.

Lemma set_matching_found res value l :
  (set_matching res value l).2 = true ↔
  Exists (λ kv, matchesResourceKey (node_value kv.1) res = true) (pairs l).
Proof.
  induction l as [|k|k v l IH] using list_pair_ind; [split; [done|by rewrite Exists_nil]..|].
  cbn [set_matching pairs]. rewrite Exists_cons, <- IH. destruct (set_matching res value l) as [l' found]. simpl.
  destruct (matchesResourceKey (node_value k) res); simpl; naive_solver.
Qed.

(** A limit that has been written is not written again. *)
Lemma set_limit_written content res qty : written res (QString qty) content → set_limit content (res, qty) = content.
Proof.
  intros [He Hf]. unfold set_limit. pose proof (set_matching_id _ _ _ Hf) as Hid.
  apply (set_matching_found res (QString qty)) in He.
  destruct (set_matching res (QString qty) content) as [c found]. simpl in *. by subst.
Qed.

Lemma set_value_twice value n : set_value value (set_value value n) = set_value value n.
Proof. by destruct n. Qed.

(** What [set_matching] does to the entries. *)
Lemma set_matching_pairs res value l :
  pairs (set_matching res value l).1 =
    (λ kv, (kv.1, if matchesResourceKey (node_value kv.1) res then set_value value kv.2 else kv.2)) <$> pairs l.
Proof.
  induction l as [|k|k v l IH] using list_pair_ind; [done|done|].
  cbn [set_matching pairs]. rewrite fmap_cons, <- IH. destruct (set_matching res value l) as [l' found].
  cbn [fst snd]. by destruct (matchesResourceKey (node_value k) res).
Qed.

Lemma pairs_app l1 l2 : paired l1 = true → pairs (l1 ++ l2) = pairs l1 ++ pairs l2.
Proof.
  induction l1 as [|k|k v l IH] using list_pair_ind; intros H; [done|done|].
  cbn [app pairs]. simpl in H. by rewrite IH.
Qed.

Lemma set_limit_pairs content res qty :
  paired content = true →
  pairs (set_limit content (res, qty)) =
    ((λ kv, (kv.1, if matchesResourceKey (node_value kv.1) res then set_value (QString qty) kv.2 else kv.2)) <$> pairs content) ++
    (if (set_matching res (QString qty) content).2 then []
     else [(Node ScalarNode no_style res [] no_extra, Node ScalarNode DoubleQuotedStyle (QString qty) [] no_extra)]).
Proof.
  intros Hp. unfold set_limit. pose proof (set_matching_pairs res (QString qty) content) as Hm.
  destruct (set_matching_entries res (QString qty) content) as (_ & _ & Hp').
  destruct (set_matching res (QString qty) content) as [c found]. simpl in Hm, Hp'. rewrite <- Hm. simpl.
  destruct found; [by rewrite app_nil_r|]. rewrite pairs_app; [done|]. by rewrite Hp'.
Qed.

Lemma set_limit_writes content res qty : paired content = true → written res (QString qty) (set_limit content (res, qty)).
Proof.
  intros Hp. unfold written. rewrite set_limit_pairs by done. split.
  - rewrite Exists_app. destruct (set_matching res (QString qty) content).2 eqn:E.
    + left. apply set_matching_found in E. apply Exists_exists in E as (kv & Hin & Hm). apply Exists_exists.
      eexists. split; [by apply list_elem_of_fmap_2|]. done.
    + right. apply Exists_cons. left. apply matches_self.
  - rewrite Forall_app. split.
    + apply Forall_fmap, Forall_forall. intros kv _ Hm. cbn [fst snd] in *. rewrite Hm. apply set_value_twice.
    + destruct (set_matching res (QString qty) content).2; [done|]. by apply Forall_cons.
Qed.

(** Another resource's limit leaves it so, unless a key stands for both. *)
Lemma set_limit_keeps content res value res' qty' :
  paired content = true → (∀ key, matchesResourceKey key res = true → matchesResourceKey key res' = true → False) →
  written res value content → written res value (set_limit content (res', qty')).
Proof.
  intros Hp Hne [He Hf]. unfold written. rewrite set_limit_pairs by done. split.
  - apply Exists_app. left. apply Exists_exists in He as (kv & Hin & Hm). apply Exists_exists.
    eexists. split; [by apply list_elem_of_fmap_2|]. done.
  - rewrite Forall_app. split.
    + apply Forall_fmap, Forall_forall. intros kv Hin Hm. cbn [fst snd] in *.
      destruct (matchesResourceKey (node_value kv.1) res') eqn:E; [by destruct (Hne _ Hm E)|].
      rewrite Forall_forall in Hf. by apply Hf.
    + destruct (set_matching res' (QString qty') content).2; [done|]. apply Forall_cons. split; [|done].
      intros Hm. destruct (Hne _ Hm (matches_self res')).
Qed.

Lemma set_limits_written l content :
  NoDup l.*1 → no_alias l → paired content = true →
  Forall (λ kv, written kv.1 (QString kv.2) (foldl set_limit content l)) l.
Proof.
  revert content. induction l as [|[r q] l IH]; intros content Hnd Ha Hp; [done|].
  apply NoDup_cons in Hnd as [Hni Hnd]. simpl in Hni. cbn [foldl].
  destruct (set_limit_entries content r q Hp) as [Hp' _].
  apply Forall_cons. split; [|apply IH; [done|by eapply no_alias_tail|done]]. simpl.
  assert (Hkeep : ∀ l' c, paired c = true → l' ⊆ l → written r (QString q) c → written r (QString q) (foldl set_limit c l')).
  { induction l' as [|[r' q'] l' IHl]; intros c Hc Hsub Hw; [done|]. cbn [foldl].
    destruct (set_limit_entries c r' q' Hc) as [Hc' _].
    apply IHl; [done|intros x Hx; apply Hsub; by right|]. apply set_limit_keeps; [done| |done].
    intros key H1 H2. apply Hni. assert (Hin : r' ∈ l.*1) by (apply (list_elem_of_fmap_2 fst l (r', q')), Hsub; by left).
    replace r with r'; [done|]. apply (Ha r' r key); simpl; rewrite ?elem_of_cons; auto. }
  apply Hkeep; [done|done|by apply set_limit_writes].
Qed.

Lemma set_limits_again l l' content :
  Forall (λ kv, written kv.1 (QString kv.2) content) l → l' ⊆ l → foldl set_limit content l' = content.
Proof.
  intros Hw. induction l' as [|[r q] l' IH]; intros Hsub; [done|]. cbn [foldl].
  rewrite set_limit_written; [apply IH; intros x Hx; apply Hsub; by right|].
  rewrite Forall_forall in Hw. apply (Hw (r, q)), Hsub. by left.
Qed.

(** A second change of the value of a key that has no effect on the first. *)
Lemma update_pair_again key f g l :
  (∀ v, find_pair key l = Some v → g (f v) = f v) → update_pair key g (update_pair key f l) = update_pair key f l.
Proof.
  induction l as [|k|k v l IH] using list_pair_ind; intros H; [done|done|]. simpl in *.
  destruct (String.eqb (node_value k) key) eqn:E; simpl; rewrite E; [by rewrite H|]. by rewrite IH.
Qed.

Lemma update_again n key f g :
  (∀ v, findValueNode n key = Some v → g (f v) = f v) →
  updateValueNode (updateValueNode n key f) key g = updateValueNode n key f.
Proof.
  induction n as [k s v x|k s v c cs x IH] using node_ind'; intros H; destruct k; simpl in *; try done.
  - by rewrite IH.
  - f_equal. by apply (update_pair_again key f g (c :: cs)).
Qed.

(** C24. Writing the same limits again changes nothing, in whatever order the map is
    visited this time, as long as the limits do not name one resource twice, as
    cpu and requests.cpu: a repeated update of a pull request finds its document
    as it should be. *)
Theorem limits_are_set_once limits site site' n style value content extra :
  is_quota n = true → hard_node n = Some (Node MappingNode style value content extra) →
  paired content = true → no_alias (range site limits) →
  apply_to_document limits site' (apply_to_document limits site n) = apply_to_document limits site n.
Proof.
  intros Hq Hh Hp Ha.
  assert (Hq' : is_quota (apply_to_document limits site n) = true).
  { unfold apply_to_document. rewrite Hq. unfold is_quota in *. by rewrite find_update_ne. }
  unfold apply_to_document at 1. rewrite Hq'. unfold apply_to_document. rewrite Hq.
  apply update_again. intros spec Hspec. apply update_again. intros hard Hhard.
  unfold hard_node in Hh. rewrite Hspec, Hhard in Hh. injection Hh as ->. cbn [set_hard]. f_equal.
  apply (set_limits_again (range site limits)).
  - by apply set_limits_written; [apply range_nodup| |].
  - intros x. by rewrite !range_perm.
Qed.

(** A document that is not a ResourceQuota is left alone. *)
Lemma other_documents_unchanged limits site n :
  is_quota n = false → apply_to_document limits site n = n.
Proof. unfold apply_to_document. by intros ->. Qed.

(** A file that the parser rejects, or the writer cannot write, stays as it is. *)
Theorem unreadable_file_unchanged content limits :
  yaml_decode_all content = None → applyChangesToYaml content limits = content.
Proof. unfold applyChangesToYaml. by intros ->. Qed.

End facts.

(** ** A document *)

Definition plain_types : YamlTypes := {|
  yaml_extra := unit; no_extra := tt; yaml_style := bool; no_style := false; DoubleQuotedStyle := true
|}.
Definition plain_yaml : Yaml := {|
  yaml_types := plain_types; yaml_decode_all := λ _, None; yaml_encode_all := λ _, None
|}.

Module YamlDemo.

#[local] Existing Instances plain_yaml nano_quantity.

Definition scalar (s : string) : node := Node ScalarNode false s [] tt.
Definition mapping (l : list node) : node := Node MappingNode false "" l tt.

(** A ResourceQuota with these limits. *)
Definition quota_document (hard : list node) : node :=
  Node DocumentNode false ""
    [mapping [scalar "kind"; scalar "ResourceQuota"; scalar "spec"; mapping [scalar "hard"; mapping hard]]] tt.

Definition limits : gmap string Quantity :=
  <["requests.cpu" := NewQuantity 5 DecimalSI]> {["pods" := NewQuantity 9 DecimalSI]}.

Definition document : node := quota_document [scalar "cpu"; scalar "4"; scalar "services"; scalar "1"].

Lemma limits_no_alias : no_alias (range (GoRange := range_ascending) 0 limits).
Proof.
  assert (Hk : (range (GoRange := range_ascending) 0 limits).*1 = ["pods"; "requests.cpu"] ∨
               (range (GoRange := range_ascending) 0 limits).*1 = ["requests.cpu"; "pods"])
    by (vm_compute; first [by left | by right]).
  intros r1 r2 key H1 H2.
  assert (Hr : ∀ r, r ∈ (range (GoRange := range_ascending) 0 limits).*1 → r = "pods" ∨ r = "requests.cpu").
  { intros r Hr. destruct Hk as [Hk|Hk]; rewrite Hk, !elem_of_cons, elem_of_nil in Hr; tauto. }
  destruct (Hr _ H1) as [-> | ->], (Hr _ H2) as [-> | ->]; try done;
    unfold matchesResourceKey; repeat match goal with |- context [String.eqb ?a ?b] =>
      destruct (String.eqb_spec a b); subst end; simpl; done.
Qed.

(** The key cpu stands for requests.cpu and gets its limit, services keeps its
    own, and pods is appended. *)
Lemma limits_are_set_witness :
  ∃ content',
    hard_node (apply_to_document (GR := range_ascending) limits 0 document) =
      Some (Node MappingNode false "" content' tt) ∧
    entries content' ≡ₚ [("cpu", "5"); ("services", "1"); ("pods", "9")].
Proof.
  destruct (limits_are_set (GR := range_ascending) limits 0 document false ""
    [scalar "cpu"; scalar "4"; scalar "services"; scalar "1"] tt) as (content' & _ & Hh & He).
  - reflexivity.
  - reflexivity.
  - reflexivity.
  - exact limits_no_alias.
  - exists content'. split; [exact Hh|exact He].
Defined.

Lemma limits_are_set_once_witness :
  apply_to_document (GR := range_ascending) limits 0 document ≠ document ∧
  apply_to_document (GR := range_ascending) limits 1 (apply_to_document (GR := range_ascending) limits 0 document) =
  apply_to_document (GR := range_ascending) limits 0 document.
Proof.
  split; [vm_compute; discriminate|].
  exact (limits_are_set_once (GR := range_ascending) limits 0 1 document false ""
    [scalar "cpu"; scalar "4"; scalar "services"; scalar "1"] tt eq_refl eq_refl eq_refl limits_no_alias).
Defined.

(** When the limits name one resource twice, as cpu and as requests.cpu, and the
    file has the short key, the new file depends on the order in which the code
    visits its map: two runs can give different files. *)
Theorem aliased_limits_depend_on_order :
  let limits := <["requests.cpu" := NewQuantity 5 DecimalSI]> {["cpu" := NewQuantity 6 DecimalSI]} in
  let document := quota_document [scalar "cpu"; scalar "4"] in
  (λ n, entries (node_content n)) <$> hard_node (apply_to_document (GR := range_ascending) limits 0 document) ≠
  (λ n, entries (node_content n)) <$> hard_node (apply_to_document (GR := range_descending) limits 0 document).
Proof. vm_compute. discriminate. Qed.

End YamlDemo.
