(* ===== verification/SystemGitHubWitness.v ===== *)
(** * A run of the controller on the GitHub provider

    The concrete cluster of [Demo.v], with a lease that gets lost after a pull
    request was opened, so that the second reconciliation finds it again. The
    answers of the provider are results of its operations, run against a stand-in
    for GitHub. *)

From S2P Require Export SystemSerial SystemGitHub Demo GitHubYamlFacts.
From stdpp Require Export sorting base option gmap strings list fin_maps.

Open Scope Z_scope.

Module SystemGitHubWitness.
Import Demo SystemWitness.

#[local] Existing Instance plain_yaml.

Local Abbreviation history := (list (event call)).
Local Abbreviation gh_history := (list (event ghcall)).

(** ** The run of the controller *)

Definition lose_lease (w : world) : world :=
  {| w_lease := None; w_cache := w_cache w; w_time := w_time w; w_pr := w_pr w |}.

Definition adopting_trace : history := trace_of pass (lose_lease (world_after pass start)).
Definition lost_trace : history := first_trace ++ adopting_trace.

Lemma adopting_steps : steps pass adopting_trace (Ret tt).
Proof. apply trace_of_steps. vm_compute. reflexivity. Qed.

Definition number_check (w : history) (ev : event call) : bool :=
  match ev with
  | Event R e r =>
      match e in call R return R → bool with
      | GetLease n => λ res, env_check w (Event _ (GetLease n) res)
      | FindOpenPR _ _ => λ res,
          match res with Ok (id, _) => bool_decide (in_int64 id) | Err _ => true end
      | CreatePR q ns d ann lim => λ res,
          env_check w (Event _ (CreatePR q ns d ann lim) res) &&
          match res with Ok id => 0 <? id | Err _ => true end
      | _ => λ _, true
      end r
  end.

Lemma number_check_sound w ev : number_check w ev = true → number_law w _ (ev_call ev) (ev_resp ev).
Proof.
  destruct ev as [R e r]. destruct e; try done.
  - intros H. by apply (env_check_sound w (Event _ (GetLease name) r)).
  - intros [H Hpos]%andb_true_iff. apply env_check_sound in H. destruct r as [id|]; [|done].
    apply Z.ltb_lt in Hpos. by split.
  - destruct r as [[id d]|]; [|done]. apply bool_decide_eq_true.
Qed.

Lemma lost_checked : checked number_check [] lost_trace = true.
Proof. vm_compute. reflexivity. Qed.

Lemma lost_law i ev : lost_trace !! i = Some ev → number_law (take i lost_trace) _ (ev_call ev) (ev_resp ev).
Proof. apply (checked_sound number_check number_law [] lost_trace number_check_sound lost_checked). Qed.

Lemma lost_pool : pool_run number_law controller [Ret tt; Ret tt] lost_trace.
Proof.
  exact (pool_two number_law controller pass pass (Ret tt) (Ret tt) first_trace adopting_trace
    (run_reconcile _ _ _) (run_reconcile _ _ _) first_steps adopting_steps lost_law).
Qed.

Definition name_check (ev : event call) : bool :=
  match ev_call ev with
  | CreatePR q ns _ _ _ | FindOpenPR ns q => no_slash ns && no_slash q
  | _ => true
  end.

Lemma lost_named : named lost_trace.
Proof.
  assert (H : forallb name_check lost_trace = true) by (vm_compute; reflexivity).
  rewrite forallb_forall in H. split.
  - intros q ns d ann lim res Hs%list_elem_of_In%H. by apply andb_true_iff in Hs.
  - intros ns q res Hs%list_elem_of_In%H. by apply andb_true_iff in Hs.
Qed.

(** ** The stand-in for GitHub *)

Definition quota_text : string := "kind: ResourceQuota name: compute".
Definition quota_entry : RepositoryContent := {|
  RcType := "file"; RcName := "quota.yaml"; RcPath := "prod/team/quota.yaml"; RcSHA := Some "b1";
  RcContent := Ok quota_text |}.

(** Its state is the list of the open pull requests. *)
Definition serve_github (R : Type) (e : ghcall R) (s : list PullRequest) : option (R * list PullRequest) :=
  match e in ghcall R return option (R * list PullRequest) with
  | GhNow => Some (noon, s)
  | RepoDefaultBranch => Some (Ok "main", s)
  | GetRefSHA _ => Some (Ok "c1", s)
  | CreateRef _ _ => Some (None, s)
  | GetContents path _ =>
      Some (Ok (if String.eqb path "prod/team" then (None, [quota_entry]) else (Some quota_entry, [])), s)
  | UpdateFile _ _ _ _ _ => Some (None, s)
  | PullCreate _ head _ _ => Some (Ok 7, demo_pr 7 head :: s)
  | AddLabels _ _ => Some (None, s)
  | PullListOpen _ => Some (Ok (s, 0), s)
  | _ => None
  end.

Definition provider : GitHubProvider := {|
  clusterName := "prod"; pathTemplate := λ cluster ns, Ok (cluster +:+ "/" +:+ ns) |}.

(** What is open at GitHub before and after the proposal. *)
Definition github_before (id : Z) : list PullRequest :=
  if id =? 0 then [] else [demo_pr 7 (branch_name dirGrow "team" "compute" (unix_of noon))].

#[local] Instance error_eq_dec : EqDecision error.
Proof. solve_decision. Defined.
#[local] Instance result_eq_dec `{EqDecision A} : EqDecision (go_result error A).
Proof. solve_decision. Defined.

(** The provider's calls behind an answer, and whether it gave that answer. *)
Definition behind (ev : event call) : option (gh_history * bool) :=
  match ev with
  | Event R e r =>
      match e in call R return R → option (gh_history * bool) with
      | CreatePR q ns d ann lim => λ res,
          match run serve_github (GitHub.CreatePR provider q ns d ann lim) [] with
          | Some (res', _, tr) => Some (tr, bool_decide (res = res'))
          | None => None
          end
      | FindOpenPR ns q => λ res,
          match res with
          | Ok (id, d) =>
              match run serve_github (GitHub.FindOpenPR 1 ns q) (github_before id) with
              | Some (res', _, tr) => Some (tr, bool_decide (res = res'))
              | None => None
              end
          | Err _ => None
          end
      | _ => λ _, Some ([], true)
      end r
  end.

Definition calls_behind (w : history) : gh_history :=
  mjoin ((λ ev, match behind ev with Some (tr, _) => tr | None => [] end) <$> w).
Definition github_trace : gh_history := calls_behind lost_trace.

Lemma behind_in_trace w ev tr b : ev ∈ w → behind ev = Some (tr, b) → tr ⊆ calls_behind w.
Proof.
  intros Hev Eb x Hx. apply list_elem_of_join. exists tr. split; [done|]. apply list_elem_of_fmap.
  exists ev. by rewrite Eb.
Qed.

Lemma behind_all ev : ev ∈ lost_trace → ∃ tr, behind ev = Some (tr, true) ∧ tr ⊆ github_trace.
Proof.
  assert (H : forallb (λ ev, match behind ev with Some (_, b) => b | None => false end) lost_trace = true)
    by (vm_compute; reflexivity).
  rewrite forallb_forall in H. intros Hev. pose proof (H ev (proj1 (list_elem_of_In _ _) Hev)) as Hb.
  destruct (behind ev) as [[tr b]|] eqn:Eb; [|done]. subst b. exists tr. split; [done|].
  by apply (behind_in_trace lost_trace ev tr true).
Qed.

Lemma lost_on_github : on_github provider lost_trace github_trace.
Proof.
  split.
  - intros q ns d ann lim id Hs. destruct (behind_all _ Hs) as (tr & Hb & Hsub). exists tr. split; [done|].
    unfold behind in Hb. destruct (run _ _ _) as [[[res s] tr']|] eqn:Er; [|done].
    injection Hb as -> Hres%bool_decide_eq_true. subst res. by eapply run_steps.
  - intros ns q id d Hs. destruct (behind_all _ Hs) as (tr & Hb & Hsub). exists 1%nat, tr. split; [done|].
    unfold behind in Hb. destruct (run _ _ _) as [[[res s] tr']|] eqn:Er; [|done].
    injection Hb as -> Hres%bool_decide_eq_true. subst res. by eapply run_steps.
Qed.

(** ** The pull requests stay on their branches *)

Definition created_head (ev : event ghcall) : option (string * Z) :=
  match ev with
  | Event R e r =>
      match e in ghcall R return R → option (string * Z) with
      | PullCreate _ head _ _ => λ res, match res with Ok id => Some (head, id) | Err _ => None end
      | _ => λ _, None
      end r
  end.

Definition listed_prs (ev : event ghcall) : list PullRequest :=
  match ev with
  | Event R e r =>
      match e in ghcall R return R → list PullRequest with
      | PullListOpen _ => λ res, match res with Ok (prs, _) => prs | Err _ => [] end
      | _ => λ _, []
      end r
  end.

Definition on_head (head : string) (id : Z) (pr : PullRequest) : bool :=
  negb (PrNumber pr =? id) || match PrHead pr with Some (h, _) => String.eqb h head | None => false end.

Definition heads_check (w : gh_history) : bool :=
  forallb (λ ev, match created_head ev with
                 | Some (head, id) => forallb (on_head head id) (mjoin (listed_prs <$> w))
                 | None => true
                 end) w.

Lemma heads_check_sound w : heads_check w = true → heads_fixed w.
Proof.
  unfold heads_check. rewrite forallb_forall. intros H title head base body id page prs next pr Hc Hl Hin Hid.
  specialize (H _ (proj1 (list_elem_of_In _ _) Hc)). simpl in H. rewrite forallb_forall in H.
  assert (Hpr : on_head head id pr = true).
  { apply H, list_elem_of_In, list_elem_of_join. exists prs. split; [done|]. apply list_elem_of_fmap. by exists (Event _ (PullListOpen page) (Ok (prs, next))). }
  unfold on_head in Hpr. rewrite Hid, Z.eqb_refl in Hpr. simpl in Hpr.
  destruct (PrHead pr) as [[h sha]|]; [|done]. apply String.eqb_eq in Hpr as ->. by exists sha.
Qed.

Lemma github_heads : heads_fixed github_trace.
Proof. apply heads_check_sound. vm_compute. reflexivity. Qed.

(** The pull request was opened and found again, in the direction grow. *)
Definition is_adoption (ev : event call) : bool :=
  match ev with
  | Event R e r =>
      match e in call R return R → bool with
      | FindOpenPR _ _ => λ res, match res with Ok (id, d) => (id =? 7) && String.eqb d dirGrow | Err _ => false end
      | _ => λ _, false
      end r
  end.

Lemma GitHub_implements_environment_witness :
  pool_run env_law controller [Ret tt; Ret tt] lost_trace ∧ existsb is_adoption lost_trace = true ∧
  existsb (λ ev, match created_head ev with Some _ => true | None => false end) github_trace = true.
Proof.
  split; [|split; vm_compute; reflexivity].
  exact (GitHub_implements_environment provider github_trace _ _ lost_pool lost_named github_heads lost_on_github).
Defined.

End SystemGitHubWitness.

(** ** A run with one open pull request

    The run above, in which a lease is lost after a pull request was opened, is
    also a serial run, and its provider is honest: the second reconciliation
    finds the pull request and opens no other. *)

(** A whole execution of a reconciliation that is running. *)
Lemma serial_steps {KQ : KubeQuantity} {KS : KubeSchema} {GR : GoRange} {RP : RetryPolicy} {GQ : GoQuote}
    {GA : GoArch} law m gs w key p q tr :
  serial_run law m gs w → m !! key = Some p → steps p tr q →
  Forall (λ ev, law _ (ev_call ev) (ev_resp ev)) tr → serial_run law (<[key := q]> m) gs (w ++ tr).
Proof.
  revert m w p. induction tr as [|ev tr IH]; intros m w p Hrun Hp Hs Hl; simpl in Hs.
  - subst q. by rewrite app_nil_r, insert_id.
  - destruct p as [a|R e k]; [done|]. destruct Hs as (r & -> & Hs). apply Forall_cons in Hl as [He Hl].
    rewrite cons_middle, app_assoc, <- (insert_insert_eq m key q (k r)).
    eapply IH; [by apply serial_call with (e := e)|by rewrite lookup_insert_eq|done|done].
Qed.

Module SystemSerialWitness.
Import Demo SystemWitness SystemGitHubWitness.

Local Abbreviation history := (list (event call)).

(** ** The run *)

Definition key : string * string := ("team", "compute").

Definition name_test (ev : event call) : bool :=
  match ev with
  | Event R e r =>
      match e in call R return R → bool with
      | GetQuota _ name => λ res, match res with Ok quota => String.eqb (QuotaName quota) name | Err _ => true end
      | _ => λ _, true
      end r
  end.

Lemma name_test_sound w : forallb name_test w = true → Forall (λ ev, named_answer _ (ev_call ev) (ev_resp ev)) w.
Proof.
  intros H. apply Forall_forall. intros ev Hev. rewrite forallb_forall in H.
  specialize (H ev (proj1 (list_elem_of_In _ _) Hev)). destruct ev as [R e r]. destruct e; try done.
  simpl in *. destruct r as [quota|]; [|done]. by apply String.eqb_eq.
Qed.

Lemma first_named : Forall (λ ev, named_answer _ (ev_call ev) (ev_resp ev)) first_trace.
Proof. apply name_test_sound. vm_compute. reflexivity. Qed.

Lemma adopting_named : Forall (λ ev, named_answer _ (ev_call ev) (ev_resp ev)) adopting_trace.
Proof. apply name_test_sound. vm_compute. reflexivity. Qed.

Lemma lost_serial : ∃ m, serial_run named_answer m [] lost_trace.
Proof.
  eexists. eapply (serial_steps _ _ _ _ key); [|apply lookup_insert_eq|apply adopting_steps|apply adopting_named].
  apply (serial_begin _ _ _ _ reconciler); [|apply lookup_delete_eq].
  apply (serial_end _ _ _ _ key). change first_trace with ([] ++ first_trace).
  eapply (serial_steps _ _ _ _ key); [|apply lookup_insert_eq|apply first_steps|apply first_named].
  apply (serial_begin _ _ _ _ reconciler); [apply serial_empty|done].
Qed.

(** ** The provider *)

(** What is open after some events: a creation opens, and a merge closes. *)
Definition open_step (l : list (Z * string * string)) (ev : event call) : list (Z * string * string) :=
  match ev with
  | Event R e r =>
      match e in call R return R → list (Z * string * string) with
      | CreatePR q ns _ _ _ => λ res, match res with Ok id => (id, ns, q) :: l | Err _ => l end
      | MergePR id _ => λ res, match res with None => List.filter (λ x, negb (x.1.1 =? id)) l | Some _ => l end
      | _ => λ _, l
      end r
  end.

Definition open_after (w : history) : list (Z * string * string) := foldl open_step [] w.
Definition open_at (w : history) (i : nat) (id : Z) (ns q : string) : Prop := (id, ns, q) ∈ open_after (take i w).

(** A search that reports none is made when none is open. *)
Definition search_test (l : list (Z * string * string)) (ev : event call) : bool :=
  match ev with
  | Event R e r =>
      match e in call R return R → bool with
      | FindOpenPR ns q => λ res,
          match res with
          | Ok (0, _) => negb (existsb (λ x, String.eqb x.1.2 ns && String.eqb x.2 q) l)
          | _ => true
          end
      | _ => λ _, true
      end r
  end.

Definition searches_test (w : history) : bool :=
  forallb (λ i, match w !! i with Some ev => search_test (open_after (take i w)) ev | None => true end)
    (seq 0 (length w)).

Lemma open_after_snoc w i ev :
  w !! i = Some ev → open_after (take (S i) w) = open_step (open_after (take i w)) ev.
Proof. intros Hi. unfold open_after. by rewrite (take_S_r _ _ _ Hi), foldl_app. Qed.

Lemma open_step_new l ev :
  ∃ n, ∀ id ns q, (id, ns, q) ∈ open_step l ev → (id, ns, q) ∈ l ∨ id = n ∧ opens ns q ev.
Proof.
  destruct ev as [R e r]. destruct e; try (exists 0; intros id ns q H; by left).
  - exists 0. intros id ns q H. left. simpl in H. destruct r; [done|].
    apply list_elem_of_In, List.filter_In in H as [H _]. by apply list_elem_of_In.
  - destruct r as [n|e]; [|exists 0; intros id ns q H; by left]. exists n. intros id ns q H. simpl in H.
    apply elem_of_cons in H as [[= -> -> ->]|H]; [by right|by left].
Qed.

Lemma searches_honest w : searches_test w = true → honest (open_at w) w.
Proof.
  intros Ht i ev Hi. unfold open_at. rewrite (open_after_snoc w i ev Hi). split; [apply open_step_new|].
  intros ns q d -> id H. simpl in H. unfold searches_test in Ht. rewrite forallb_forall in Ht.
  specialize (Ht i). rewrite Hi in Ht. simpl in Ht.
  rewrite negb_true_iff in Ht. apply not_true_iff_false in Ht.
  - apply Ht, existsb_exists. exists (id, ns, q). split; [by apply list_elem_of_In|]. simpl. by rewrite !String.eqb_refl.
  - apply in_seq. split; [lia|]. by eapply lookup_lt_Some.
Qed.

Lemma lost_honest : honest (open_at lost_trace) lost_trace.
Proof. apply searches_honest. vm_compute. reflexivity. Qed.

Lemma one_open_pull_request_witness :
  open_at lost_trace (length lost_trace) 7 "team" "compute" ∧
  ∀ id, open_at lost_trace (length lost_trace) id "team" "compute" → id = 7.
Proof.
  assert (H7 : open_at lost_trace (length lost_trace) 7 "team" "compute").
  { unfold open_at. rewrite firstn_all.
    assert (open_after lost_trace = [(7, "team", "compute")]) as -> by (vm_compute; reflexivity). by left. }
  split; [exact H7|]. intros id Hid. destruct lost_serial as [m Hrun].
  refine (one_open_pull_request m [] lost_trace (open_at lost_trace) Hrun lost_honest _ (length lost_trace) id 7
    "team" "compute" (le_n _) Hid H7).
  intros id1 id2 ns q H1. by apply elem_of_nil in H1.
Defined.

End SystemSerialWitness.
