(* ===== verification/SystemDryRunWitness.v ===== *)
(** * A dry run

    The cluster of [Demo.v] with the stateful provider beneath it: the first
    reconciliation opens a pull request, the second merges it. *)

From S2P Require Export SystemDryRun Demo.
From stdpp Require Export sorting base option gmap strings list fin_maps.

Open Scope Z_scope.

Module SystemDryRunWitness.
Import Demo SystemWitness.

Local Abbreviation history := (list (event call)).
Local Abbreviation prs_map := (gmap Z PRDetails).

(** ** The cluster and the provider *)

Record dry_world := { cluster : world; prs : prs_map }.

(** The numbers are drawn in order. *)
Definition next_roll (m : prs_map) : Z := Z.of_nat (size m) mod 1000.

Definition on_provider {R} (s : dry_world) (x : prs_map * R) : R * dry_world :=
  (x.2, {| cluster := cluster s; prs := x.1 |}).
Definition on_cluster {R} (s : dry_world) (x : R * world) : R * dry_world :=
  (x.1, {| cluster := x.2; prs := prs s |}).

(** [None] is a call that the provider does not take. *)
Definition serve_provider (R : Type) (e : call R) (s : dry_world) : option (option (R * dry_world)) :=
  match e in call R return option (option (R * dry_world)) with
  | GetPRStatus id => Some (Some (StatefulLog.GetPRStatus (prs s) id, s))
  | MergePR id method => Some (on_provider s <$> StatefulLog.MergePR (prs s) id method)
  | CreatePR q ns d ann lim =>
      Some (Some (on_provider s (StatefulLog.CreatePR (prs s) (next_roll (prs s)) q ns d ann lim)))
  | UpdatePR id q ns ann lim => Some (Some (StatefulLog.UpdatePR (prs s) id q ns ann lim, s))
  | FindOpenPR ns q => Some (Some (@StatefulLog.FindOpenPR _ range_z_plain (prs s) ns q, s))
  | ClosePR id comment => Some (on_provider s <$> StatefulLog.ClosePR (prs s) id comment)
  | _ => None
  end.

Definition serve_dry (R : Type) (e : call R) (s : dry_world) : option (R * dry_world) :=
  match serve_provider R e s with
  | Some x => x
  | None => on_cluster s <$> serve R e (cluster s)
  end.

(** Its answers are those of the provider. *)
Lemma serve_dry_answers R (e : call R) s r s' :
  serve_dry R e s = Some (r, s') → answers (prs s) R e r ∧ prs s' = after (prs s) (Event R e r).
Proof.
  unfold serve_dry. destruct e; simpl; try (by intros [= <- <-]).
  - intros ([prs' res] & H & [= -> ->])%fmap_Some. split; [by exists prs'|by rewrite H].
  - intros [= <- <-]. assert (Hr : 0 <= next_roll (prs s) < 1000) by (apply Z.mod_pos_bound; lia).
    split; [by exists (next_roll (prs s))|]. simpl. by replace (_ + 1000 - 1000) with (next_roll (prs s)) by lia.
  - intros [= <- <-]. split; [by exists range_z_plain|done].
  - intros ([prs' res] & H & [= -> ->])%fmap_Some. split; [by exists prs'|by rewrite H].
Qed.

(** So every run on it is a dry run. *)
Lemma run_dry {A} (p : prog call A) s a s' tr w :
  run serve_dry p s = Some (a, s', tr) → prs s = stored w → dry_run w → prs s' = stored (w ++ tr) ∧ dry_run (w ++ tr).
Proof.
  revert s tr w. induction p as [b|R e k IH]; intros s tr w Hrun Hs Hw; simpl in Hrun.
  - injection Hrun as <- <- <-. by rewrite app_nil_r.
  - destruct (serve_dry R e s) as [[r s1]|] eqn:Es; [|done].
    destruct (run serve_dry (k r) s1) as [[[a1 s2] tr1]|] eqn:Er; [|done]. injection Hrun as <- <- <-.
    destruct (serve_dry_answers _ _ _ _ _ Es) as [Ha Hn]. rewrite cons_middle, app_assoc.
    apply (IH r s1); [done|unfold stored; by rewrite foldl_app, Hn, Hs|].
    intros i ev [Hi|[Hi Hev]]%lookup_app_Some.
    + rewrite take_app_le; [by apply Hw|]. apply lookup_lt_Some in Hi. lia.
    + apply list_lookup_singleton_Some in Hev as [Hz <-]. replace i with (length w) by lia.
      rewrite take_app_length, <- Hs. exact Ha.
Qed.

(** ** The run *)

Definition dry_start : dry_world := {| cluster := start; prs := NewStatefulLogProvider |}.

Definition dry_after (s : dry_world) : history * dry_world :=
  match run serve_dry pass s with Some (_, s', tr) => (tr, s') | None => ([], s) end.
Definition dry_first : history := (dry_after dry_start).1.
Definition dry_second : history := (dry_after (dry_after dry_start).2).1.
Definition dry_trace : history := dry_first ++ dry_second.

Lemma dry_after_spec s w :
  bool_decide (is_Some (run serve_dry pass s)) = true → prs s = stored w → dry_run w →
  steps pass (dry_after s).1 (Ret tt) ∧ prs (dry_after s).2 = stored (w ++ (dry_after s).1) ∧ dry_run (w ++ (dry_after s).1).
Proof.
  intros H%bool_decide_eq_true Hs Hw. unfold dry_after. destruct (run serve_dry pass s) as [[[[] s'] tr]|] eqn:E; [|by destruct H].
  split; [by eapply run_steps|]. by eapply run_dry.
Qed.

Lemma first_spec : steps pass dry_first (Ret tt) ∧ prs (dry_after dry_start).2 = stored dry_first ∧ dry_run dry_first.
Proof. by apply (dry_after_spec dry_start []); [vm_compute; reflexivity| |]. Qed.

Lemma second_spec : steps pass dry_second (Ret tt) ∧ dry_run dry_trace.
Proof.
  destruct first_spec as (_ & Hs & Hw).
  destruct (dry_after_spec (dry_after dry_start).2 dry_first) as (H1 & _ & H2); [vm_compute; reflexivity|done|done|].
  by split.
Qed.

Definition dry_check (w : history) (ev : event call) : bool :=
  match ev with
  | Event R e r =>
      match e in call R return R → bool with
      | GetLease n => λ res, env_check w (Event _ (GetLease n) res)
      | CreatePR q ns d ann lim => λ res, env_check w (Event _ (CreatePR q ns d ann lim) res)
      | _ => λ _, true
      end r
  end.

(** Leases are read as written, and numbers are drawn once. *)
Definition once (w : history) (R : Type) (e : call R) : R → Prop :=
  match e in call R return R → Prop with
  | GetLease n => lease_law w _ (GetLease n)
  | CreatePR q ns d ann lim => λ res, match res with Ok id => ∀ d', ¬ created_as w id d' | Err _ => True end
  | _ => λ _, True
  end.

Lemma dry_check_sound w ev : dry_check w ev = true → once w _ (ev_call ev) (ev_resp ev).
Proof.
  destruct ev as [R e r]. destruct e; try done; intros H.
  - exact (env_check_sound w (Event _ (GetLease name) r) H).
  - apply (env_check_sound w (Event _ (CreatePR quotaName namespace direction annotations newLimits) r)) in H.
    simpl in *. destruct r as [id|]; [|done]. apply H.
Qed.

Lemma dry_once i ev : dry_trace !! i = Some ev → once (take i dry_trace) _ (ev_call ev) (ev_resp ev).
Proof. apply (checked_sound dry_check once [] dry_trace dry_check_sound). vm_compute. reflexivity. Qed.

Lemma dry_fresh : fresh_numbers dry_trace.
Proof. intros i q ns d ann lim id Hi. exact (dry_once _ _ Hi). Qed.

Lemma dry_pool : pool_run lease_law controller [Ret tt; Ret tt] dry_trace.
Proof.
  apply (pool_two lease_law controller pass pass (Ret tt) (Ret tt) dry_first dry_second
    (run_reconcile _ _ _) (run_reconcile _ _ _) (proj1 first_spec) (proj1 second_spec)).
  intros i ev Hi. pose proof (dry_once i ev Hi) as H. destruct ev as [R e r]. by destruct e.
Qed.

(** It is opened under number 1000, and merged. *)
Lemma dry_run_implements_environment_witness :
  open_at dry_trace (length dry_first) 1000 "team" "compute" ∧
  (stored dry_trace !! 1000) ≫= Status =
    Some {| IsOpen := false; IsMerged := true; Mergeable := true; MergeableState := MergeableStateClean;
            ChecksState := ""; ChecksTotalCount := 0; CreatedAt := Time.zero |} ∧
  honest (open_at dry_trace) dry_trace ∧ pool_run env_law controller [Ret tt; Ret tt] dry_trace.
Proof.
  destruct (dry_run_implements_environment _ _ dry_pool (proj2 second_spec)) as (Hh & _ & _ & _ & He).
  split; [|split; [vm_compute; reflexivity|exact (conj Hh (He dry_fresh))]].
  exists dirGrow. apply open_agrees; [exact (proj2 second_spec)|unfold dry_trace; rewrite length_app; lia|].
  unfold dry_trace. rewrite take_app_length.
  assert (H : (λ d, (is_open_for "team" "compute" d, StatefulLog.Direction d)) <$> stored dry_first !! 1000 = Some (true, dirGrow))
    by (vm_compute; reflexivity).
  apply fmap_Some in H as (d & Hd & [= Ho Hdir]). exists d. exact (conj Hd (conj (eq_sym Ho) (eq_sym Hdir))).
Defined.

End SystemDryRunWitness.
