(* ===== verification/ReconcileWitness.v ===== *)
(** * Reconciliations that evaluate

    The concrete cluster of [Demo.v], changed a little: a reconciliation that finds
    no lease and survives it, one that answers a shortage, and one that proposes a
    shrink. *)

From S2P Require Export ReconcileProgress Demo.
From stdpp Require Export sorting base option gmap strings list fin_maps.

Open Scope Z_scope.

Module ReconcileErrorsWitness.
Import Demo SystemWitness.

Local Abbreviation history := (list (event call)).

(** The law, as a test. *)
Definition tolerable_test (past : history) (R : Type) (e : call R) : R → bool :=
  match e in call R return R → bool with
  | GetQuota _ _ => λ res, match res with Ok _ => true | Err err => is_kind ErrNotFound err end
  | GetNamespace _ => λ res, is_ok res
  | GetLease n => λ res,
      match res with Ok _ => true | Err err => is_kind ErrNotFound err && negb (known past n) end
  | CreateLease _ => λ res, match res with None => true | Some err => is_kind ErrAlreadyExists err end
  | UpdateLease _ => λ res,
      match res with None => true | Some err => is_kind ErrConflict err && (conflicts past <? retry_more)%nat end
  | GetPRStatus _ => λ res, match res with Ok (Some _) => true | _ => false end
  | FindOpenPR _ _ => λ res, is_ok res
  | CreatePR _ _ _ _ _ => λ res, match res with Ok _ => true | Err err => is_kind ErrFileNotFound err end
  | UpdatePR _ _ _ _ _ => λ res, match res with None => true | Some err => is_kind ErrFileNotFound err end
  | ClosePR _ _ => λ res, match res with None => true | Some _ => false end
  | _ => λ _, true
  end.

Lemma tolerable_test_sound past R (e : call R) r : tolerable_test past R e r = true → tolerable past R e r.
Proof.
  destruct e; simpl; try done; repeat case_match; try done;
    rewrite ?andb_true_iff, ?negb_true_iff, ?Nat.ltb_lt; naive_solver.
Qed.

Fixpoint lawful_test (past tr : history) : bool :=
  match tr with
  | [] => true
  | ev :: tr => tolerable_test past _ (ev_call ev) (ev_resp ev) && lawful_test (past ++ [ev]) tr
  end.

Lemma lawful_test_sound past tr : lawful_test past tr = true → lawful tolerable past tr.
Proof.
  revert past. induction tr as [|ev tr IH]; intros past H; [done|]. simpl in H.
  apply andb_true_iff in H as [He Ht]. split; [by apply tolerable_test_sound|by apply IH].
Qed.

(** ** A reconciliation by itself *)

Definition whole : prog call (go_result error Result) := Reconcile reconciler "team" "compute".
Definition whole_run : option (go_result error Result * world * history) := run serve whole start.
Definition whole_trace : history := match whole_run with Some (_, _, tr) => tr | None => [] end.

Lemma whole_steps : ∃ res, steps whole whole_trace (Ret res).
Proof.
  unfold whole_trace. destruct whole_run as [[[res w] tr]|] eqn:E.
  - exists res. by eapply run_steps.
  - assert (H : match whole_run with Some _ => true | None => false end = true) by (vm_compute; reflexivity).
    by rewrite E in H.
Qed.

(** Among its answers is a missing lease. *)
Definition missing_lease (ev : event call) : bool :=
  match ev with
  | Event R e r =>
      match e in call R return R → bool with
      | GetLease _ => λ res, negb (is_ok res)
      | _ => λ _, false
      end r
  end.

Lemma Reconcile_fails_for_cause_witness :
  existsb missing_lease whole_trace = true ∧ ∃ res, steps whole whole_trace (Ret res) ∧ is_ok res = true.
Proof.
  split; [vm_compute; reflexivity|]. destruct whole_steps as [res Hs]. exists res. split; [exact Hs|].
  refine (Reconcile_fails_for_cause reconciler "team" "compute" whole_trace (Ret res) Hs _).
  apply lawful_test_sound. vm_compute. reflexivity.
Defined.

End ReconcileErrorsWitness.

(** ** A shortage that is answered

    A quota of 4 cores of which 5 are in use: the reconciliation succeeds and
    opens a pull request. *)

Module ReconcileProgressWitness.
Import Demo SystemWitness ReconcileErrorsWitness.

#[local] Existing Instance nano_quantity_laws.

Definition over_quota : ResourceQuota := {|
  QuotaNamespace := "team"; QuotaName := "compute"; QuotaUID := "u1";
  SpecHard := cpu 4; StatusHard := cpu 4; StatusUsed := cpu 5
|}.

Definition over_answer (R : Type) (e : call R) : option R :=
  match e in call R return option R with GetQuota _ _ => Some (Ok over_quota) | _ => None end.

Definition serve_over (R : Type) (e : call R) (w : world) : option (R * world) :=
  match over_answer R e with Some r => Some (r, w) | None => serve R e w end.

Definition over_run : option (go_result error Result * world * list (event call)) := run serve_over whole start.
Definition over_trace : list (event call) := match over_run with Some (_, _, tr) => tr | None => [] end.

Lemma over_steps : ∃ res, steps whole over_trace (Ret res).
Proof.
  unfold over_trace. destruct over_run as [[[res w] tr]|] eqn:E.
  - exists res. by eapply run_steps.
  - assert (H : match over_run with Some _ => true | None => false end = true) by (vm_compute; reflexivity).
    by rewrite E in H.
Qed.

(** The quota is there, and its namespace takes part. *)
Definition managed (ev : event call) : bool :=
  match ev with
  | Event R e r =>
      match e in call R return R → bool with
      | GetQuota _ _ => λ res, is_ok res
      | GetNamespace _ => λ res,
          match res with Ok annotations => Enabled (ParsePolicy annotations DefaultPolicy).1 | Err _ => true end
      | _ => λ _, true
      end r
  end.

Lemma over_managed ev : ev ∈ over_trace → managed ev = true.
Proof.
  assert (H : forallb managed over_trace = true) by (vm_compute; reflexivity).
  rewrite forallb_forall in H. intros Hev%list_elem_of_In. exact (H _ Hev).
Qed.

(** A growth to at least 5 cores was proposed. *)
Definition proposes_growth (ev : event call) : bool :=
  match ev with
  | Event R e r =>
      match e in call R return R → bool with
      | CreatePR q ns d _ lim => λ res,
          String.eqb q "compute" && String.eqb ns "team" && String.eqb d dirGrow && is_ok res &&
          match lim !! "requests.cpu" with Some q => q_le (NewQuantity 5 DecimalSI) q | None => false end
      | _ => λ _, false
      end r
  end.

Lemma shortage_answered_witness :
  existsb proposes_growth over_trace = true ∧
  ∃ res x, steps whole over_trace (Ret res) ∧ res = Ok x ∧
    ∃ v, consistent reconciler "team" "compute" over_trace v ∧
      ∀ key n, F64.le (Tolerance (v_policy v)) (HeadroomFor (v_policy v) key) = true →
        shortage (v_input v) key n →
        grants (v_input v) (v_decision v) key n ∧ (progress "team" over_trace v ∨ waits "team" over_trace v).
Proof.
  split; [vm_compute; reflexivity|]. destruct over_steps as [res Hs].
  assert (Hl : lawful tolerable [] over_trace) by (apply lawful_test_sound; vm_compute; reflexivity).
  destruct (shortage_answered "team" reconciler "compute" over_trace res DefaultPolicy_ok Hs Hl)
    as (x & Hx & [[e He]|[(ann & Ha & He)|Hv]]).
  - exfalso. apply over_managed in He. discriminate.
  - exfalso. apply over_managed in Ha. change (BasePolicy reconciler) with DefaultPolicy in He.
    cbn [managed] in Ha. rewrite He in Ha. discriminate.
  - exact (ex_intro _ res (ex_intro _ x (conj Hs (conj Hx Hv)))).
Defined.

End ReconcileProgressWitness.

(** ** A shrink that is proposed

    A quota of 100 cores of which 10 are in use, with a complete window of one day
    in the cache. *)

Module ShrinkWitness.
Import Demo SystemWitness ReconcileErrorsWitness.

#[local] Existing Instance nano_quantity_laws.

Definition idle_quota : ResourceQuota := {|
  QuotaNamespace := "team"; QuotaName := "compute"; QuotaUID := "u1";
  SpecHard := {[ "cpu" := cores 100 ]}; StatusHard := {[ "cpu" := cores 100 ]};
  StatusUsed := {[ "cpu" := cores 10 ]}
|}.

Definition shrinker : ResourceQuotaReconciler :=
  {| BasePolicy := set_window_days 1 DefaultPolicy; EnableAutoMerge := true |}.

Definition watched : world := {|
  w_lease := None; w_cache := Some (observe_all "u1" 1 empty_window sample_day); w_time := next_day; w_pr := None |}.

Definition idle_answer (R : Type) (e : call R) : option R :=
  match e in call R return option R with GetQuota _ _ => Some (Ok idle_quota) | _ => None end.

Definition serve_idle (R : Type) (e : call R) (w : world) : option (R * world) :=
  match idle_answer R e with Some r => Some (r, w) | None => serve R e w end.

Definition shrink_run : option (go_result error Result * world * list (event call)) :=
  run serve_idle (Reconcile shrinker "team" "compute") watched.
Definition shrink_trace : list (event call) := match shrink_run with Some (_, _, tr) => tr | None => [] end.

Lemma shrink_steps : ∃ res, steps (Reconcile shrinker "team" "compute") shrink_trace (Ret res).
Proof.
  unfold shrink_trace. destruct shrink_run as [[[res w] tr]|] eqn:E.
  - exists res. by eapply run_steps.
  - assert (H : match shrink_run with Some _ => true | None => false end = true) by (vm_compute; reflexivity).
    by rewrite E in H.
Qed.

(** A pull request for 75 cores. *)
Definition proposes_shrink (ev : event call) : bool :=
  match ev_call ev with
  | CreatePR _ _ d _ lim =>
      String.eqb d dirShrink &&
      match lim !! "cpu" with Some q => q_eq (cores 75) q | None => false end
  | _ => false
  end.

Lemma proposes_shrink_event ev :
  proposes_shrink ev = true → ∃ q ns ann lim res, ev = Event _ (CreatePR q ns dirShrink ann lim) res ∧
    (λ l, q_eq (cores 75) l) <$> lim !! "cpu" = Some true.
Proof.
  destruct ev as [R e res]. destruct e; try done. unfold proposes_shrink. cbn [ev_call].
  intros [->%String.eqb_eq Hl]%andb_true_iff. exists quotaName, namespace, annotations, newLimits, res.
  split; [done|]. destruct (newLimits !! "cpu") as [l|]; [|done]. simpl. by rewrite Hl.
Qed.

Lemma shrink_in_trace : ∃ tr1 q ns ann lim res tr2,
  shrink_trace = tr1 ++ Event _ (CreatePR q ns dirShrink ann lim) res :: tr2 ∧
  (λ l, q_eq (cores 75) l) <$> lim !! "cpu" = Some true.
Proof.
  assert (H : existsb proposes_shrink shrink_trace = true) by (vm_compute; reflexivity).
  apply existsb_exists in H as (ev & Hin%list_elem_of_In & Hev).
  destruct (proposes_shrink_event ev Hev) as (q & ns & ann & lim & res & -> & Hl).
  apply list_elem_of_split in Hin as (tr1 & tr2 & Htr).
  exact (ex_intro _ tr1 (ex_intro _ q (ex_intro _ ns (ex_intro _ ann (ex_intro _ lim (ex_intro _ res
    (ex_intro _ tr2 (conj Htr Hl)))))))).
Qed.

Lemma shrink_proposed_safely_witness :
  ∃ tr1 q ns ann lim res tr2,
    shrink_trace = tr1 ++ Event _ (CreatePR q ns dirShrink ann lim) res :: tr2 ∧
    (λ l, q_eq (cores 75) l) <$> lim !! "cpu" = Some true ∧
    ∃ v, consistent shrinker "team" "compute" tr1 v ∧ (input_in_range (v_input v) → safe_shrink v lim).
Proof.
  destruct shrink_in_trace as (tr1 & q & ns & ann & lim & res & tr2 & Htr & Hl). destruct shrink_steps as [r Hs].
  assert (Hp : policy_ok (BasePolicy shrinker)) by exact shrink_input_policy.
  rewrite Htr in Hs.
  destruct (shrink_proposed_safely "team" shrinker "compute" Hp tr1 _ tr2 (Ret r) Hs eq_refl)
    as (v & Hv & _ & _ & _ & _ & _ & Hsafe).
  exists tr1, q, ns, ann, lim, res, tr2. split; [exact Htr|]. split; [exact Hl|].
  exact (ex_intro _ v (conj Hv Hsafe)).
Defined.

End ShrinkWitness.
