(* ===== verification/LeaseServer.v ===== *)
(** * Leases on the API server, and who may change them

    The server keeps the current version of every lease, and a read may return
    any version it ever had, since reads go through a cache. A write is applied
    only to the version it was computed from; it may be applied although the
    answer is an error, but never when the answer is a conflict. Other clients
    act at any time between two calls. *)

From S2P Require Export LeaseStateFacts LeaseLocker.
From stdpp Require Export sorting base option gmap strings list fin_maps.

Open Scope Z_scope.
Open Scope prog_scope.

Section server.
Context {KQ : KubeQuantity} {KS : KubeSchema}.

(** ** The server *)

Record store := { live : gmap string Lease; versions : list Lease }.

Definition with_version (rv : string) (l : Lease) : Lease :=
  {| LeaseName := LeaseName l; LeaseLabels := LeaseLabels l; LeaseAnnotations := LeaseAnnotations l;
     HolderIdentity := HolderIdentity l; AcquireTime := AcquireTime l; ResourceVersion := rv |}.

(** The lease is stored under a new version. *)
Definition stored (s : store) (l : Lease) (s' : store) : Prop :=
  ∃ rv, (∀ l', l' ∈ versions s → ResourceVersion l' ≠ rv) ∧
    s' = {| live := <[LeaseName l := with_version rv l]> (live s); versions := with_version rv l :: versions s |}.

Definition created (s : store) (l : Lease) (s' : store) : Prop :=
  live s !! LeaseName l = None ∧ stored s l s'.

Definition updated (s : store) (l : Lease) (s' : store) : Prop :=
  ∃ cur, live s !! LeaseName l = Some cur ∧ ResourceVersion cur = ResourceVersion l ∧ stored s l s'.

(** What a call does and answers. *)
Definition served (s : store) (R : Type) (e : call R) : R → store → Prop :=
  match e in call R return R → store → Prop with
  | GetLease n => λ r s', s' = s ∧ match r with Ok l => l ∈ versions s ∧ LeaseName l = n | Err _ => True end
  | CreateLease l => λ r s',
      match r with
      | None => created s l s'
      | Some e => s' = s ∨ (is_kind ErrAlreadyExists e = false ∧ created s l s')
      end
  | UpdateLease l => λ r s',
      match r with
      | None => updated s l s'
      | Some e => s' = s ∨ (is_kind ErrConflict e = false ∧ updated s l s')
      end
  | DeleteLease l => λ r s', s' = s ∨ s' = {| live := delete (LeaseName l) (live s); versions := versions s |}
  | _ => λ r s', s' = s
  end.

(** Names, versions and contents agree. *)
Definition store_ok (s : store) : Prop :=
  (∀ n l, live s !! n = Some l → l ∈ versions s ∧ LeaseName l = n) ∧
  (∀ l l', l ∈ versions s → l' ∈ versions s → ResourceVersion l = ResourceVersion l' → l = l').

Lemma stored_ok s l s' : store_ok s → stored s l s' → store_ok s'.
Proof.
  intros [Hl Hv] (rv & Hf & ->). split; simpl.
  - intros n l' Hn. destruct (decide (n = LeaseName l)) as [->|Hne].
    + rewrite lookup_insert_eq in Hn. injection Hn as <-. split; [by left|done].
    + rewrite lookup_insert_ne in Hn by done. destruct (Hl n l' Hn). split; [by right|done].
  - intros l1 l2 H1 H2. rewrite elem_of_cons in H1, H2. destruct H1 as [->|H1], H2 as [->|H2]; simpl.
    + done.
    + intros Heq. by destruct (Hf l2).
    + intros Heq. by destruct (Hf l1).
    + by apply Hv.
Qed.

Lemma served_ok s R (e : call R) r s' : store_ok s → served s R e r s' → store_ok s'.
Proof.
  intros Hok. destruct e; simpl; try (by intros ->); try (by intros [-> _]).
  - destruct r as [e|]; [intros [->|(_ & _ & Hs)]|intros (_ & Hs)]; try done; by eapply stored_ok.
  - destruct r as [e|]; [intros [->|(_ & cur & _ & _ & Hs)]|intros (cur & _ & _ & Hs)]; try done; by eapply stored_ok.
  - intros [-> | ->]; [done|]. destruct Hok as [Hl Hv]. split; [|done]. simpl.
    intros n l' Hn. apply lookup_delete_Some in Hn as [_ Hn]. by apply Hl.
Qed.

Lemma served_versions s R (e : call R) r s' : served s R e r s' → versions s ⊆ versions s'.
Proof.
  assert (Hs : ∀ l, stored s l s' → versions s ⊆ versions s').
  { intros l (rv & _ & ->) x Hx. simpl. by right. }
  destruct e; simpl; try (by intros ->); try (by intros [-> _]).
  - destruct r as [e|]; [intros [->|(_ & _ & H)]|intros (_ & H)]; try done; by eapply Hs.
  - destruct r as [e|]; [intros [->|(_ & cur & _ & _ & H)]|intros (cur & _ & _ & H)]; try done; by eapply Hs.
  - by intros [-> | ->].
Qed.

(** ** Executions with interference *)

(** One step: of another client, or of the program, with the stores around it. *)
Inductive act :=
| Other (s s' : store)
| Own (s : store) (ev : event call) (s' : store).

Fixpoint exec {A} (s : store) (p : prog call A) (tr : list act) (p' : prog call A) {struct tr} : Prop :=
  match tr with
  | [] => p' = p
  | Other s0 s1 :: tr => s0 = s ∧ (∃ R (e : call R) r, served s R e r s1) ∧ exec s1 p tr p'
  | Own s0 ev s1 :: tr =>
      match p with
      | Ret _ => False
      | @Vis _ _ R e k => s0 = s ∧ ∃ r, ev = Event R e r ∧ served s R e r s1 ∧ exec s1 (k r) tr p'
      end
  end.

(** The program's own events, in order. *)
Fixpoint own_events (tr : list act) : list (event call) :=
  match tr with
  | [] => []
  | Other _ _ :: tr => own_events tr
  | Own _ ev _ :: tr => ev :: own_events tr
  end.

Lemma exec_steps {A} s (p : prog call A) tr p' : exec s p tr p' → steps p (own_events tr) p'.
Proof.
  revert s p. induction tr as [|[s0 s1|s0 ev s1] tr IH]; intros s p H; simpl in *; [done| |].
  - destruct H as (_ & _ & H). by apply (IH s1).
  - destruct p as [a|R e k]; [done|]. destruct H as (_ & r & -> & _ & H). exists r. split; [done|]. by apply (IH s1).
Qed.

(** Every own step, with what the program had seen before it: the store was in
    order, and what it had read are versions that the store has had. *)
Definition own_step_at (s : store) (past : list (event call)) (ev : event call) (s' : store) : Prop :=
  store_ok s ∧ served s _ (ev_call ev) (ev_resp ev) s' ∧
  ∀ n l, saw past (GetLease n) (Ok l) → l ∈ versions s ∧ LeaseName l = n.

Definition own_steps (P : store → list (event call) → event call → store → Prop) (tr : list act) : Prop :=
  ∀ tr1 s ev s' tr2, tr = tr1 ++ Own s ev s' :: tr2 → P s (own_events tr1) ev s'.

Lemma exec_own_steps {A} s (p : prog call A) tr p' past :
  store_ok s → (∀ n l, saw past (GetLease n) (Ok l) → l ∈ versions s ∧ LeaseName l = n) →
  exec s p tr p' →
  own_steps (λ s past' ev s', own_step_at s (past ++ past') ev s') tr.
Proof.
  revert s p past. induction tr as [|a tr IH]; intros s p past Hok Hp H; [by intros [|??] ?????|].
  destruct a as [s0 s1|s0 ev s1]; simpl in H.
  - destruct H as (-> & (R & e & r & Hs) & H). intros tr1 s2 ev s' tr2 Heq.
    destruct tr1 as [|a tr1]; [done|]. injection Heq as <- ->. simpl.
    eapply (IH s1 p past); [by eapply served_ok| |done|done].
    intros n l Hl. destruct (Hp n l Hl). split; [by eapply served_versions|done].
  - destruct p as [a|R e k]; [done|]. destruct H as (-> & r & -> & Hs & H).
    intros tr1 s2 ev s' tr2 Heq. destruct tr1 as [|a tr1]; simpl in Heq.
    + injection Heq as <- <- <- _. rewrite app_nil_r. by split.
    + injection Heq as <- ->. simpl. rewrite cons_middle, app_assoc.
      eapply (IH s1 (k r) (past ++ [Event R e r])); [by eapply served_ok| |done|done].
      intros n l Hl. unfold saw in Hl. rewrite elem_of_app, list_elem_of_singleton in Hl.
      destruct Hl as [Hl|Hl].
      * destruct (Hp n l Hl). split; [by eapply served_versions|done].
      * revert Hs. pattern R, e, r. change (match Event R e r with Event R e r => served s R e r s1 → l ∈ versions s1 ∧ LeaseName l = n end).
        rewrite <- Hl. simpl. intros (-> & ? & ?). done.
Qed.

End server.
