(* ===== verification/LockTheorems.v ===== *)
(** * What the locker guarantees

    Changing the state is an atomic step on the current lease, whatever other
    clients do meanwhile: no update is lost. Acquiring the lock never takes it
    from another pull request. *)

From S2P Require Export LeaseServer.
From stdpp Require Export sorting base option gmap strings list fin_maps.

Open Scope Z_scope.
Open Scope prog_scope.

Section lock.
Context {KQ : KubeQuantity} {KS : KubeSchema} {RP : RetryPolicy}.

Lemma own_events_app tr1 tr2 : own_events (tr1 ++ tr2) = own_events tr1 ++ own_events tr2.
Proof. induction tr1 as [|[s s'|s ev s'] tr1 IH]; simpl; [done|done|by rewrite IH]. Qed.

Lemma own_events_split tr past ev past' :
  own_events tr = past ++ ev :: past' →
  ∃ tr1 s s' tr2, tr = tr1 ++ Own s ev s' :: tr2 ∧ own_events tr1 = past ∧ own_events tr2 = past'.
Proof.
  revert past. induction tr as [|[s s'|s e s'] tr IH]; intros past H; simpl in H.
  - by destruct past.
  - destruct (IH past H) as (tr1 & a & b & tr2 & -> & <- & <-). by exists (Other s s' :: tr1), a, b, tr2.
  - destruct past as [|e0 past]; injection H as -> H.
    + exists [], s, s', tr. by rewrite H.
    + destruct (IH past H) as (tr1 & a & b & tr2 & -> & <- & <-). by exists (Own s e0 s' :: tr1), a, b, tr2.
Qed.

(** A guarded program, run with interference. *)
Lemma exec_guarded {A} (G : list (event call) → ∀ R, call R → Prop) Q s (p : prog call A) tr p' :
  store_ok s → guarded G Q p [] → exec s p tr p' →
  own_steps (λ s past ev s', own_step_at s past ev s' ∧ G past _ (ev_call ev)) tr.
Proof.
  intros Hok HG Hx tr1 s1 ev s2 tr2 ->. split.
  - assert (Hnone : ∀ n l, saw [] (GetLease n) (Ok l) → l ∈ versions s ∧ LeaseName l = n).
    { intros n l Hl. by apply elem_of_nil in Hl. }
    apply (exec_own_steps s p _ p' [] Hok Hnone Hx tr1 s1 ev s2 tr2 eq_refl).
  - pose proof (exec_steps _ _ _ _ Hx) as Hs. rewrite own_events_app in Hs. simpl in Hs.
    apply (guarded_steps G Q p [] _ _ _ _ HG Hs).
Qed.

(** A read version whose number is still current is the current lease. *)
Lemma read_is_current s past ev s' n l cur :
  own_step_at s past ev s' → saw past (GetLease n) (Ok l) → live s !! n = Some cur →
  ResourceVersion cur = ResourceVersion l → cur = l.
Proof.
  intros ([Hl Hv] & _ & Hr) Hsaw Hcur Hrv. destruct (Hr n l Hsaw) as [Hin _].
  apply Hv; [by apply (Hl n)|done|done].
Qed.

(** ** MutateState *)

Section mutate.
Context (ns q : string) (f : State → State).

Local Abbreviation name := (getLeaseName ns q).

(** The lease that [ensureLeaseExists] creates. *)
Definition empty_lease : Lease :=
  {| LeaseName := name; LeaseLabels := managedLeaseLabels ns q; LeaseAnnotations := ∅;
     HolderIdentity := None; AcquireTime := None; ResourceVersion := "" |}.

(** The lease with [f] applied to its state. *)
Definition apply_state (l : Lease) : Lease := applyStateToLease (f (stateFromLease l)) l.

Definition mutate_guard (past : list (event call)) (R : Type) (e : call R) : Prop :=
  match e with
  | GetLease n => n = name
  | CreateLease l => l = empty_lease
  | UpdateLease l => ∃ lease, saw past (GetLease name) (Ok lease) ∧ l = apply_state lease
  | _ => False
  end.

(** An event that is not an update, or an update that was refused. *)
Definition not_applied (ev : event call) : Prop :=
  match ev with
  | Event R e r =>
      match e in call R return R → Prop with
      | UpdateLease _ => λ r, match r with Some e => is_kind ErrConflict e = true | None => False end
      | _ => λ _, True
      end r
  end.

Definition mutate_outcome (past : list (event call)) (r : option error) : Prop :=
  r = None → ∃ past0 l, past = past0 ++ [Event (option error) (UpdateLease l) None] ∧ Forall not_applied past0.

Lemma Forall_snoc_not_applied past ev : Forall not_applied past → not_applied ev → Forall not_applied (past ++ [ev]).
Proof. intros H1 H2. apply Forall_app. split; [done|]. by apply Forall_singleton. Qed.

Lemma guarded_mutate_retry n past :
  Forall not_applied past →
  guarded mutate_guard mutate_outcome (retry n (mutate_attempt name (λ st, Ret (f st)))) past.
Proof.
  revert past. induction n as [|n IH]; intros past Hna; cbn [retry]; apply guarded_bind; unfold mutate_attempt;
    (apply guarded_call; [done|]); intros [l|e].
  - split; [exists l; split; [apply saw_last|done]|].
    intros [e|]; [by intros [=]|]. intros _. eexists _, _. split; [done|]. by apply Forall_snoc_not_applied.
  - by intros [=].
  - split; [exists l; split; [apply saw_last|done]|].
    intros [e|]; [|intros _; eexists _, _; split; [done|]; by apply Forall_snoc_not_applied].
    simpl. destruct (is_kind ErrConflict e) eqn:Ek; [|by intros [=]]. apply IH.
    by do 2 (apply Forall_snoc_not_applied; [|done]).
  - simpl. destruct (is_kind ErrConflict e); [|by intros [=]]. apply IH. by apply Forall_snoc_not_applied.
Qed.

Lemma guarded_mutate :
  guarded mutate_guard mutate_outcome (MutateState ns q (λ st, Ret (f st))) [].
Proof.
  assert (Hretry : ∀ past, Forall not_applied past →
    guarded mutate_guard mutate_outcome (RetryOnConflict (mutate_attempt name (λ st, Ret (f st)))) past)
    by (intros past; apply guarded_mutate_retry).
  unfold MutateState, ensureLeaseExists. apply guarded_bind. apply guarded_call; [done|]. intros [l|e].
  - apply Hretry. by apply Forall_singleton.
  - destruct (is_kind ErrNotFound e); [|done]. apply guarded_call; [done|].
    intros [e'|]; [destruct (is_kind ErrAlreadyExists e'); [|done]|];
      (apply Hretry; simpl; by repeat constructor).
Qed.

(** What one step of [MutateState] does to the leases: nothing, create the empty
    lease where there was none, or apply [f] to the current state. *)
Inductive mutation (m m' : gmap string Lease) : Prop :=
| no_change : m' = m → mutation m m'
| bootstrap rv : m !! name = None → m' = <[name := with_version rv empty_lease]> m → mutation m m'
| applied cur rv : m !! name = Some cur → m' = <[name := with_version rv (apply_state cur)]> m → mutation m m'.

Lemma mutation_step s past ev s' :
  own_step_at s past ev s' → mutate_guard past _ (ev_call ev) → mutation (live s) (live s').
Proof.
  intros Hat HG. pose proof Hat as (Hok & Hs & Hr). destruct ev as [R e r]. destruct e; simpl in HG; try done.
  - destruct Hs as [-> _]. by apply no_change.
  - subst lease. simpl in Hs.
    assert (Hc : created s empty_lease s' → mutation (live s) (live s')).
    { intros (Hn & rv & _ & ->). by apply (bootstrap _ _ rv). }
    destruct r as [e|]; [destruct Hs as [->|[_ Hs]]; [by apply no_change|]|]; by apply Hc.
  - destruct HG as (l & Hsaw & ->). simpl in Hs.
    assert (Hu : updated s (apply_state l) s' → mutation (live s) (live s')).
    { intros (cur & Hcur & Hrv & rv & _ & ->). destruct (Hr _ _ Hsaw) as [_ Hname].
      simpl in Hcur, Hrv. rewrite Hname in Hcur.
      assert (cur = l) as -> by (eapply read_is_current; [exact Hat|exact Hsaw|done|done]).
      apply (applied _ _ l rv); [done|]. simpl. by rewrite Hname. }
    destruct r as [e|]; [destruct Hs as [->|[_ Hs]]; [by apply no_change|]|]; by apply Hu.
Qed.

Definition mutates (tr : list act) : Prop := own_steps (λ s _ _ s', mutation (live s) (live s')) tr.

(** No step but a bootstrap. *)
Definition only_bootstraps (tr : list act) : Prop :=
  own_steps (λ s _ _ s', live s' = live s ∨
    live s !! name = None ∧ ∃ rv, live s' = <[name := with_version rv empty_lease]> (live s)) tr.

(** A step whose update was refused changes the leases only to bootstrap. *)
Lemma refused_step s past ev s' :
  own_step_at s past ev s' → mutate_guard past _ (ev_call ev) → not_applied ev →
  live s' = live s ∨
  live s !! name = None ∧ ∃ rv, live s' = <[name := with_version rv empty_lease]> (live s).
Proof.
  intros (_ & Hs & _) HG Hev. destruct ev as [R e r]. destruct e; simpl in HG; try done.
  - destruct Hs as [-> _]. by left.
  - subst lease. simpl in Hs.
    assert (Hc : created s empty_lease s' → live s !! name = None ∧
      ∃ rv, live s' = <[name := with_version rv empty_lease]> (live s)).
    { intros (Hn & rv & _ & ->). split; [done|]. by exists rv. }
    destruct r as [e|]; [destruct Hs as [->|[_ Hs]]; [by left|]|]; right; by apply Hc.
  - simpl in Hev, Hs. destruct r as [e|]; [|done]. destruct Hs as [->|[Hk _]]; [by left|congruence].
Qed.

Lemma only_bootstraps_before tr tr1 s1 ev1 s2 tr2 :
  own_steps (λ s past ev s', own_step_at s past ev s' ∧ mutate_guard past _ (ev_call ev)) tr →
  tr = tr1 ++ Own s1 ev1 s2 :: tr2 → Forall not_applied (own_events tr1) → only_bootstraps tr1.
Proof.
  intros HG Htr Hna tra sa ev sb trb Hab.
  assert (Hfull : tr = tra ++ Own sa ev sb :: (trb ++ Own s1 ev1 s2 :: tr2)).
  { rewrite Htr, Hab, <- app_assoc. done. }
  destruct (HG _ _ _ _ _ Hfull) as [Hat Hg]. eapply refused_step; [exact Hat|exact Hg|].
  rewrite Forall_forall in Hna. apply Hna. rewrite Hab, own_events_app. simpl. apply elem_of_app. right. by left.
Qed.

(** C14. [MutateState] is an atomic change of the current state. Whatever other
    clients do between its calls, and however stale the copies it reads, each of
    its steps leaves the leases alone, creates the empty lease where there is
    none, or applies the callback to the state of the lease as it then is. If it
    reports success, the callback was applied exactly once, in its last step. *)
Theorem MutateState_atomic s tr p' :
  store_ok s → exec s (MutateState ns q (λ st, Ret (f st))) tr p' →
  mutates tr ∧
  (p' = Ret None → ∃ tr1 s1 ev s2 tr2 cur rv, tr = tr1 ++ Own s1 ev s2 :: tr2 ∧
    live s1 !! name = Some cur ∧ live s2 = <[name := with_version rv (apply_state cur)]> (live s1) ∧
    only_bootstraps tr1 ∧ own_events tr2 = []).
Proof.
  intros Hok Hx. pose proof (exec_guarded _ _ _ _ _ _ Hok guarded_mutate Hx) as HG. split.
  - intros tr1 s1 ev s2 tr2 Heq. destruct (HG _ _ _ _ _ Heq) as [Hat Hg]. by eapply mutation_step.
  - intros ->. pose proof (exec_steps _ _ _ _ Hx) as Hs.
    destruct (guarded_result _ _ _ [] _ _ guarded_mutate Hs eq_refl) as (past0 & l & Heq & Hna).
    simpl in Heq. destruct (own_events_split _ _ _ _ Heq) as (tr1 & s1 & s2 & tr2 & Htr & Hp & H2).
    destruct (HG _ _ _ _ _ Htr) as [Hat (lease & Hsaw & Hl)]. pose proof Hat as (Hok1 & Hsv & Hr).
    simpl in Hsv. destruct Hsv as (cur & Hcur & Hrv & rv & _ & Hs2). subst l.
    destruct (Hr _ _ Hsaw) as [_ Hname]. simpl in Hcur, Hrv. rewrite Hname in Hcur.
    assert (cur = lease) as -> by (eapply read_is_current; [exact Hat|exact Hsaw|done|done]).
    exists tr1, s1, (Event (option error) (UpdateLease (apply_state lease)) None), s2, tr2, lease, rv.
    split; [done|]. split; [done|]. split; [rewrite Hs2; simpl; by rewrite Hname|]. split; [|done].
    eapply only_bootstraps_before; [exact HG|exact Htr|by rewrite Hp].
Qed.

End mutate.

(** ** AcquireLock *)

Section acquire.
Context (ns q : string) (prID : Z).

Local Abbreviation name := (getLeaseName ns q).
Local Abbreviation identity := (pr_identity prID).

(** The lease with the pull request as its holder. *)
Definition take_lease (now : Z) (l : Lease) : Lease :=
  {| LeaseName := LeaseName l; LeaseLabels := LeaseLabels l; LeaseAnnotations := LeaseAnnotations l;
     HolderIdentity := Some identity; AcquireTime := Some now; ResourceVersion := ResourceVersion l |}.

Definition may_take (l : Lease) : Prop := HolderIdentity l = None ∨ HolderIdentity l = Some identity.

Definition acquire_guard (past : list (event call)) (R : Type) (e : call R) : Prop :=
  match e with
  | GetLease n => n = name
  | TimeNow => True
  | CreateLease l => ∃ now, l = new_lease ns q (Some identity) (Some now)
  | UpdateLease l => ∃ lease now, saw past (GetLease name) (Ok lease) ∧ may_take lease ∧ l = take_lease now lease
  | _ => False
  end.

(** A write that the server confirmed. *)
Definition confirmed (ev : event call) : Prop :=
  match ev with
  | Event R e r =>
      match e in call R return R → Prop with
      | UpdateLease _ => λ r, r = None
      | CreateLease _ => λ r, r = None
      | _ => λ _, False
      end r
  end.

Definition acquire_outcome (past : list (event call)) (r : option error) : Prop :=
  r = None → ∃ past0 ev, past = past0 ++ [ev] ∧ confirmed ev.

Lemma guarded_acquire_attempt past :
  guarded acquire_guard acquire_outcome (acquire_attempt ns q prID) past.
Proof.
  unfold acquire_attempt. apply guarded_call; [done|]. intros [l|e].
  - assert (Hupd : may_take l → guarded acquire_guard acquire_outcome
      (now ⇐ call_ TimeNow; call_ (UpdateLease (take_lease now l)))
      (past ++ [Event _ (GetLease name) (Ok l)])).
    { intros Hm. apply guarded_call; [done|]. intros now. split.
      - exists l, now. split; [apply (saw_mono _ _ _ _ (prefix_app_r _ _ _ (reflexivity _))), saw_last|done].
      - intros [e|]; [by intros [=]|]. intros _. eexists _, _. by split. }
    destruct (HolderIdentity l) as [h|] eqn:Eh; [|apply Hupd; by left].
    destruct (String.eqb_spec h identity) as [->|Hne]; [apply Hupd; by right|by intros [=]].
  - destruct (is_kind ErrNotFound e); [|by intros [=]]. apply guarded_call; [done|]. intros now.
    apply guarded_call; [by exists now|]. intros [e'|]; [destruct (is_kind ErrAlreadyExists e'); by intros [=]|].
    intros _. eexists _, _. by split.
Qed.

Lemma guarded_acquire : guarded acquire_guard acquire_outcome (AcquireLock ns q prID) [].
Proof.
  unfold AcquireLock, RetryOnConflict. generalize (@nil (event call)) as past.
  induction retry_more as [|n IH]; intros past; cbn [retry]; apply guarded_bind;
    (eapply guarded_weaken; [apply guarded_acquire_attempt|]); intros past' [e|] _ Hr; try done.
  destruct (is_kind ErrConflict e); [apply IH|done].
Qed.

(** What one step of [AcquireLock] does to the leases. *)
Inductive acquisition (m m' : gmap string Lease) : Prop :=
| lock_kept : m' = m → acquisition m m'
| lock_created now rv :
    m !! name = None →
    m' = <[name := with_version rv (new_lease ns q (Some identity) (Some now))]> m → acquisition m m'
| lock_taken cur now rv :
    m !! name = Some cur → may_take cur → m' = <[name := with_version rv (take_lease now cur)]> m →
    acquisition m m'.

Lemma acquisition_step s past ev s' :
  own_step_at s past ev s' → acquire_guard past _ (ev_call ev) → acquisition (live s) (live s').
Proof.
  intros Hat HG. pose proof Hat as (Hok & Hs & Hr). destruct ev as [R e r]. destruct e; simpl in HG; try done.
  - simpl in Hs. subst s'. by apply lock_kept.
  - destruct Hs as [-> _]. by apply lock_kept.
  - destruct HG as [now ->]. simpl in Hs.
    assert (Hc : created s (new_lease ns q (Some identity) (Some now)) s' → acquisition (live s) (live s')).
    { intros (Hn & rv & _ & ->). by apply (lock_created _ _ now rv). }
    destruct r as [e|]; [destruct Hs as [->|[_ Hs]]; [by apply lock_kept|]|]; by apply Hc.
  - destruct HG as (l & now & Hsaw & Hm & ->). simpl in Hs.
    assert (Hu : updated s (take_lease now l) s' → acquisition (live s) (live s')).
    { intros (cur & Hcur & Hrv & rv & _ & ->). destruct (Hr _ _ Hsaw) as [_ Hname].
      simpl in Hcur, Hrv. rewrite Hname in Hcur.
      assert (cur = l) as -> by (eapply read_is_current; [exact Hat|exact Hsaw|done|done]).
      apply (lock_taken _ _ l now rv); [done|done|]. simpl. by rewrite Hname. }
    destruct r as [e|]; [destruct Hs as [->|[_ Hs]]; [by apply lock_kept|]|]; by apply Hu.
Qed.

(** C15. Every step of [AcquireLock] leaves the leases alone or makes the pull request
    the holder of a lease that was missing, free, or its own: it never takes a
    lease from another pull request, whatever else happens meanwhile, and keeps
    the annotations. If it reports success, the pull request is the holder right
    after its last step. *)
Theorem AcquireLock_excludes s tr p' :
  store_ok s → exec s (AcquireLock ns q prID) tr p' →
  own_steps (λ s _ _ s', acquisition (live s) (live s')) tr ∧
  (p' = Ret None → ∃ tr1 s1 ev s2 tr2 l, tr = tr1 ++ Own s1 ev s2 :: tr2 ∧ own_events tr2 = [] ∧
    live s2 !! name = Some l ∧ HolderIdentity l = Some identity).
Proof.
  intros Hok Hx. pose proof (exec_guarded _ _ _ _ _ _ Hok guarded_acquire Hx) as HG. split.
  - intros tr1 s1 ev s2 tr2 Heq. destruct (HG _ _ _ _ _ Heq) as [Hat Hg]. by eapply acquisition_step.
  - intros ->. pose proof (exec_steps _ _ _ _ Hx) as Hs.
    destruct (guarded_result _ _ _ [] _ _ guarded_acquire Hs eq_refl) as (past0 & ev & Heq & Hc).
    simpl in Heq. destruct (own_events_split _ _ _ _ Heq) as (tr1 & s1 & s2 & tr2 & Htr & Hp & H2).
    destruct (HG _ _ _ _ _ Htr) as [(_ & Hsv & Hr) Hg].
    exists tr1, s1, ev, s2, tr2. destruct ev as [R e r]. destruct e; simpl in Hc, Hg, Hsv; try done; subst r.
    + destruct Hg as [now ->]. destruct Hsv as (_ & rv & _ & ->). eexists. split; [done|]. split; [done|].
      simpl. by rewrite lookup_insert_eq.
    + destruct Hg as (l & now & Hsaw & _ & ->). destruct Hsv as (cur & _ & _ & rv & _ & ->).
      destruct (Hr _ _ Hsaw) as [_ Hname]. eexists. split; [done|]. split; [done|].
      simpl. rewrite Hname. by rewrite lookup_insert_eq.
Qed.

End acquire.

(** Two quotas of different namespaces can share one lease: the separator of the
    lease's name may occur in the names, so one quota's pull request locks the
    other. *)
Theorem lease_names_collide :
  ∃ ns q ns' q', (ns, q) ≠ (ns', q') ∧ getLeaseName ns q = getLeaseName ns' q'.
Proof. by exists "team-a", "compute", "team", "a-compute". Qed.

End lock.

(** ** Examples *)

Module LockDemo.

#[local] Existing Instance nano_quantity.
Definition schema : KubeSchema := {| GroupVersion := string; ParseGroupVersion s := Some s |}.
Definition retries : RetryPolicy := {| retry_more := 4 |}.
#[local] Existing Instances schema retries.

Definition empty_store : store := {| live := ∅; versions := [] |}.

Lemma empty_store_ok : store_ok empty_store.
Proof. split; [intros n l Hn; change ((∅ : gmap string Lease) !! n = Some l) in Hn; by rewrite lookup_empty in Hn|intros l l' H; by apply elem_of_nil in H]. Qed.

Definition put (rv : string) (l : Lease) (s : store) : store :=
  {| live := <[LeaseName l := with_version rv l]> (live s); versions := with_version rv l :: versions s |}.

Definition missing : error := mk_error ErrNotFound "not found".

(** One more callback is recorded in the direction. *)
Definition mark (st : State) : State :=
  {| PRID := PRID st; PRDirection := PRDirection st +:+ "!"; LastModified := LastModified st;
     LastGrow := LastGrow st; LastShrink := LastShrink st; StWindow := StWindow st |}.

Definition fresh : Lease := empty_lease "team" "compute".
Definition s1 : store := put "1" fresh empty_store.
Definition l1 : Lease := with_version "1" fresh.
Definition s2 : store := put "2" (apply_state mark l1) s1.

(** The lease is created, read and updated. *)
Definition mutate_trace : list act :=
  [Own empty_store (Event _ (GetLease "state-team-compute") (Err missing)) empty_store;
   Own empty_store (Event _ (CreateLease fresh) None) s1;
   Own s1 (Event _ (GetLease "state-team-compute") (Ok l1)) s1;
   Own s1 (Event _ (UpdateLease (apply_state mark l1)) None) s2].

Lemma served_fresh : served empty_store _ (CreateLease fresh) None s1.
Proof. split; [by apply lookup_empty|]. exists "1". split; [|done]. intros l' H. by apply elem_of_nil in H. Qed.

Lemma served_mark : served s1 _ (UpdateLease (apply_state mark l1)) None s2.
Proof.
  exists l1. split; [apply lookup_insert_eq|]. split; [done|]. exists "2". split; [|done].
  intros l' H. apply list_elem_of_singleton in H as ->. done.
Qed.

Lemma MutateState_atomic_witness :
  own_events mutate_trace ≠ [] ∧ mutates "team" "compute" mark mutate_trace.
Proof.
  split; [done|].
  refine (proj1 (MutateState_atomic "team" "compute" mark empty_store mutate_trace (Ret None) empty_store_ok _)).
  simpl. split; [done|]. eexists. split; [reflexivity|]. split; [done|].
  simpl. split; [done|]. eexists. split; [reflexivity|]. split; [exact served_fresh|].
  simpl. split; [done|]. eexists. split; [reflexivity|]. split; [split; [done|split; [by left|done]]|].
  simpl. split; [done|]. eexists. split; [reflexivity|]. split; [exact served_mark|]. done.
Defined.

(** The lease of another pull request is free: this one takes it, after the
    other client has created it. *)
Definition free : Lease := new_lease "team" "compute" None None.
Definition t1 : store := put "1" free empty_store.
Definition taken : Lease := take_lease 7 60 (with_version "1" free).
Definition t2 : store := put "2" taken t1.

Definition acquire_trace : list act :=
  [Other empty_store t1;
   Own t1 (Event _ (GetLease "state-team-compute") (Ok (with_version "1" free))) t1;
   Own t1 (Event _ TimeNow 60) t1;
   Own t1 (Event _ (UpdateLease taken) None) t2].

Lemma served_free : served empty_store _ (CreateLease free) None t1.
Proof. split; [by apply lookup_empty|]. exists "1". split; [|done]. intros l' H. by apply elem_of_nil in H. Qed.

Lemma served_taken : served t1 _ (UpdateLease taken) None t2.
Proof.
  exists (with_version "1" free). split; [apply lookup_insert_eq|]. split; [done|]. exists "2". split; [|done].
  intros l' H. apply list_elem_of_singleton in H as ->. done.
Qed.

Lemma AcquireLock_excludes_witness :
  own_steps (λ s _ _ s', acquisition "team" "compute" 7 (live s) (live s')) acquire_trace.
Proof.
  refine (proj1 (AcquireLock_excludes "team" "compute" 7 empty_store acquire_trace (Ret None) empty_store_ok _)).
  simpl. split; [done|]. split; [eexists _, _, _; exact served_free|].
  split; [done|]. eexists. split; [reflexivity|]. split; [split; [done|split; [by left|done]]|].
  simpl. split; [done|]. eexists. split; [reflexivity|]. split; [done|].
  simpl. split; [done|]. eexists. split; [reflexivity|]. split; [exact served_taken|]. done.
Defined.

End LockDemo.
